(* ===== verification/_CoqProject ===== *)
-Q . S2P
Prelude.v
Memory.v
Frame.v
Hash.v
Strings.v
Time.v
Doubles.v
Tsc.v
Platform.v
Base.v
Mmap.v
Page.v
Warmer.v
Writer.v
WriterState.v
WarmSpec.v
WriterSpec.v
WriterApi.v
Publish.v
Journal.v
Reader.v
JournalSpec.v
Isolation.v
ReadAhead.v
ReaderIsolation.v
ReaderSpec.v
Seek.v
Extend.v
Resume.v
EndToEnd.v
Warming.v
Typed.v
Live.v
Threads.v
Retire.v
Merge.v
Dispatcher.v
Client.v
Examples.v
Processes.v
Python.v
Scenarios.v
