(* ===== verification/Prelude.v ===== *)
(** * revoq: a verification library for the memory-mapped IPC journal

    revoq passes messages between processes through page files that writer
    and readers map shared.  One writer per (location, destination) appends
    frames -- a 32-byte header and a payload -- to numbered pages; any number
    of readers follow.  A frame becomes visible by the release store of its
    [length]; a page ends with a [PageEnd] frame.  The development models the
    library under [src/include/revoq] and [src/src], the logic of
    [src/python/revoq_py.cpp] and the programs under [src/examples], and
    proves what its users rely on.

    ** How code becomes definitions

    A C++ function is a function in the monad [M S A = S -> outcome A * S] of
    this file: [Ret] is a return, [Throw] an exception ([exn] has one
    constructor per kind of throw), [Fault] what ends a process or has no
    meaning in C++ (a signal, a failed assertion, undefined behaviour, a lock
    that is never released, or fuel that ran out).  State changed before an
    exception stays changed.  An object is a record of its members, an
    operation on it a computation over [world * record], where [world]
    ([Memory]) holds the files, the directories, the mappings, the clock and
    the count of system calls.  Integers are [Z]; arithmetic at machine width
    wraps explicitly ([u8] .. [u64], [s32], [s64]).  Text is [list ascii],
    payloads are lists of byte values.  Definitions keep the names of the
    source, and all of them evaluate.

    What lies outside [src/] is a parameter: [Env] says how system calls fail,
    which addresses [mmap] gives and what the clock shows; [Fmt] is
    [fmt::format] on the two formats of file names; [PriorityQueue] is
    [std::priority_queue]; [Scheduler] ([Platform]) the kernel's scheduler.
    Their laws ([EnvLaws], [FmtLaws], [PriorityQueueLaws]) are documented
    behaviour; [NoErrors] says that no system call fails and is asked for only
    where a theorem is about the run without errors.  [ILocator] is the
    interface of the source, [LocatorLaws] what its users need of it, and
    [Base.Locator_laws] proves it for the implementation.  Every class has an
    instance ([env_ok], [std_fmt], [demo_locator], [leftmost_queue],
    [eight_cpus]) and theorems with hypotheses are applied to a concrete run
    in [Scenarios] or next to the theorem.

    ** The files, from the bottom up

    - [Prelude]: this monad, machine integers, text, shared lemmas and tactics.
    - [Memory]: files shared by mappings; loads and stores; the algebra of
      reads over writes ([fbytes], [fle], [agree], [touches]).
    - [Frame] (JournalFrame.h): header fields, alignment; [frame_at], [laid].
    - [Hash] (MurMurHash3.cpp, HashUtils.h); [Strings] (StringUtils.hpp);
      [Time] (TimeUtils.h, TimeUtils.cpp); [Doubles] (the parts of both that
      compute with [double], over the Standard Library's IEEE 754 binary64);
      [Tsc] (TscTimer.h); [Platform] (JournalPlatform.h, CpuAffinity.h,
      RealtimePriority.h).
    - [Base] (JournalBase.h, FileUtils.h): locations, layout, page names.
    - [Mmap] (MmapBuffer.cpp): mapping a page file, with every error path.
    - [Page] (JournalPage.h): the header, validation, [findPageId].
    - [Warmer] (PageWarmer.h): the ring of pages mapped ahead.
    - [Writer] (JournalWriter.h): the write side, whole; [WriterState] the
      abstract journal and the relation [rep] between the two, which holds
      with a page warmer beside the writer too; [WarmSpec] taking a page from
      the warmer; [WriterSpec], [WriterApi], [Resume] the theorems about the
      writer; [Publish] the frame as a sequence of stores, and the
      release/acquire argument.
    - [Journal] (Journal.h), [Reader] (JournalReader.h): the read side, whole;
      [JournalSpec], [ReaderSpec], [Extend] its theorems; [Seek] joining at a
      time; [ReadAhead] a turn of the reader's warmer thread.
    - [Isolation], [ReaderIsolation]: a small program logic for what an
      operation leaves alone; [Typed] uses it for the types of all members.
    - [Warming]: a step of the warmer's thread against the writer's journal.
    - [EndToEnd], [Live]: writer and readers together; [Live.step] interleaves
      calls of one writer, its retire thread, its page warmer and any number
      of readers with their threads; [Threads] does so with several writing
      threads.
    - [Retire]: the retire thread, lock by lock, and its end (retireLoop of
      JournalWriter.h and Journal.h, and what the owner does to it).
    - [Merge]: a reader of several journals against the merge of their frames.
    - [Dispatcher] (TypedJournalDispatcher.h); [Client] what the example
      programs share; [Examples] (basic_write_read.cpp, static_dispatch.cpp,
      typed_dispatch.cpp); [Processes] (multiprocess.cpp), a parent and a
      forked child over [Live]; [Python] (revoq_py.cpp).
    - [Scenarios]: concrete runs, witnesses, and behaviours worth knowing.

    ** What is proved

    - The journal: whatever is written is read, once, in order and unchanged,
      by every reader that joins, at any point of the writer's life and
      between any two of its calls ([Live.live_delivery], [live_progress],
      [ReaderSpec.read_back]), also if several threads write through one
      writer ([Threads]); who joins at a time gets the rest from there
      ([Seek.join_at_time]); the writer implements its abstract journal ([WriterSpec], [WriterApi]), a crash in
      the middle of a write shows no half frame ([Publish]), a restart resumes
      ([Resume]).  A reader of several journals delivers a merge by time
      ([Merge]).
    - Resources: every mapping a component takes it gives back, and it never
      unmaps another's ([Mmap], [Isolation], [ReaderIsolation],
      [WriterApi.JournalWriter_release_unmaps]); the retire thread misses no
      page and no wakeup, and joining it ends ([Retire]).
    - Types: no member leaves its C++ type, whatever fails ([Typed]).
    - Errors: what each exception leaves behind ([WriterApi], [Page]).
    - The interfaces on top: routing of typed frames, with handlers that may
      throw ([Dispatcher]), iteration from Python ([Python]).
    - Whole programs: the single-process examples exit with 0 and print what
      they should ([Examples.examples_succeed]); under any schedule of writer
      and forked reader the second never sees a gap in the sequence and never
      counts more than was published, nobody crashes, and nobody is blocked for
      good ([Processes.multiprocess_safe], [multiprocess_completes]).
    - The utilities: splitting and joining, parsing integers and doubles,
      the calendar, CPU lists, scoped priorities, page names and hashes.
    Theorems that record a defect say so in their comment.

    ** Fuel and bounds

    A loop that is not structural carries fuel: the binary search of pages, the
    scan for the last sequence number, the seek, the string loops, the
    dispatcher's and the application's read loops.  Running out is [Fault
    OutOfFuel], so a theorem that gives [Ret] also gives termination, and each
    such theorem names a fuel that is enough: the length of the text, of the
    page list, or of the frames still to read; the example programs need
    2001.  In [Processes] a schedule is a list of actions, so no fuel is
    involved, and up to [2 ^ 27] messages are sent.  A page has at least [2 ^ 21]
    bytes and a frame at most [2 ^ 32 - 64]; theorems about frames ask for
    types in [1 .. 2 ^ 16 - 1], which is what a header can hold.

    ** What is not modelled

    Logging; the macOS and other-architecture branches; thread pinning and
    sleeping inside the background threads, whose effect is a step of its own
    ([retire_step], [jretire_step], [warm_next], [warmer_turn]); reads with a timeout except
    in [Python]; environment variables of [FileUtils]; [prefaultStack]; the
    registrations of the Python module; benchmarks and tests.  Of the examples,
    [TempDir] (a directory nobody uses stands for it), what the child's clock
    shows (an action says whether it is late), failures of [pipe], [fork] and
    [waitpid], and the unwinding of a child that throws.
    Publication is treated at two levels: calls are steps of [Live], and the
    stores inside one call are the sequences of [Publish]; one proof over the
    full C++ memory model is not attempted.  In [Live] and [Threads] the page
    warmer prepares one page in one step.  Taken apart, its look for the file,
    its mapping and its initialisation can destroy what the writer has
    written meanwhile ([Scenarios.warmer_erases_frames]), so that delivery
    holds with this step only.

    A turn of the reader's warmer thread is one step too ([warmer_turn]): its
    timed polls see one state of the file.
    Readers of several journals, and joins at a time, are proved for a journal
    that does not grow meanwhile. *)

From Stdlib Require Export ZArith Lia Ascii.
From stdpp Require Export prelude gmap sets strings sorting list_numbers.

#[global] Open Scope Z_scope.
#[global] Set Default Goal Selector "!".

(** ** Byte strings

    [std::string] and [std::string_view] hold bytes; they are lists of
    characters here, so that the list library applies to them directly. *)

Abbreviation str := (list ascii).

Definition lit (s : string) : str := String.list_ascii_of_string s.

Definition chr (c : ascii) : Z := Z.of_N (N_of_ascii c).
Definition of_chr (z : Z) : ascii := ascii_of_N (Z.to_N z).

Declare Scope revoq_scope.
Delimit Scope revoq_scope with revoq.
#[global] Open Scope revoq_scope.

(** ** Machine integers

    A [w]-bit unsigned integer is a [Z] in [0, 2^w); [wrap w] is the
    conversion to that type, [swrap w] the conversion to the signed type of
    the same width (two's complement, as C++20 prescribes). *)

Definition wrap (w z : Z) : Z := z `mod` 2 ^ w.
Definition swrap (w z : Z) : Z := (z + 2 ^ (w - 1)) `mod` 2 ^ w - 2 ^ (w - 1).

Abbreviation u8 := (wrap 8).
Abbreviation u16 := (wrap 16).
Abbreviation u32 := (wrap 32).
Abbreviation u64 := (wrap 64).
Abbreviation s32 := (swrap 32).
Abbreviation s64 := (swrap 64).

Definition in_u (w z : Z) : Prop := 0 ≤ z < 2 ^ w.
Definition in_s (w z : Z) : Prop := - 2 ^ (w - 1) ≤ z < 2 ^ (w - 1).

Lemma wrap_range w z : 0 ≤ w → in_u w (wrap w z).
Proof. intros ?. apply Z.mod_pos_bound. by apply Z.pow_pos_nonneg. Qed.

Lemma wrap_small w z : in_u w z → wrap w z = z.
Proof. intros ?. by apply Z.mod_small. Qed.

Lemma wrap_wrap w z : 0 ≤ w → wrap w (wrap w z) = wrap w z.
Proof. intros ?. apply wrap_small. by apply wrap_range. Qed.

Lemma swrap_range w z : 0 < w → in_s w (swrap w z).
Proof.
  intros ?. unfold in_s, swrap.
  assert (2 ^ w = 2 * 2 ^ (w - 1)) as Hw.
  { rewrite <-Z.pow_succ_r by lia. f_equal. lia. }
  assert (0 < 2 ^ w) as H0 by (apply Z.pow_pos_nonneg; lia).
  pose proof (Z.mod_pos_bound (z + 2 ^ (w - 1)) (2 ^ w) H0). lia.
Qed.

Lemma swrap_small w z : 0 < w → in_s w z → swrap w z = z.
Proof.
  intros ? Hz. unfold in_s, swrap in *.
  assert (2 ^ w = 2 * 2 ^ (w - 1)) as Hw.
  { rewrite <-Z.pow_succ_r by lia. f_equal. lia. }
  rewrite Z.mod_small; lia.
Qed.

(** Converting to unsigned and back to signed is the identity on signed
    values: what a load of an [int64_t] stored as eight bytes computes. *)
Lemma swrap_wrap w z : 0 < w → in_s w z → swrap w (wrap w z) = z.
Proof.
  intros ? Hz. rewrite <-(swrap_small w z) at 2 by done.
  unfold swrap, wrap. f_equal. by rewrite Zplus_mod_idemp_l.
Qed.

#[global] Arguments wrap : simpl never.
#[global] Arguments swrap : simpl never.

(** ** Outcomes and the state monad

    A C++ call returns, throws an exception that a [catch] may intercept, or
    does something no handler sees: a signal, an aborting [assert], undefined
    behaviour, or a loop that never ends. *)

Inductive syscall :=
  | SysOpen | SysFallocate | SysFtruncate | SysMmap | SysMlock | SysFstat
  | SysMadvise | SysMsync | SysMunlock | SysMunmap.

Inductive exn :=
  | MmapError (call : syscall) (errno : Z)
  | MmapSizeMismatch (required found : Z)
  | MmapNullBuffer
  | JournalMmapFailed
  | JournalNullAddress
  | JournalVersionMismatch (found : Z)
  | JournalHeaderLengthMismatch (found : Z)
  | JournalPageSizeMismatch (found : Z)
  | JournalBadLastFramePosition (found : Z)
  | InvalidArgument
  | OutOfRange
  | NoFrameOpened
  | PayloadSizeMismatch (msg_type expected got : Z)
  | StopIteration
  | ValueError
  | RuntimeError.

Inductive fault :=
  | Sigbus              (* access beyond the end of a mapped file *)
  | Sigsegv             (* access outside a mapping, or a store to a read-only one *)
  | AssertionFailed
  | UndefinedBehaviour
  | Spin                (* a busy-wait nobody else can end *)
  | OutOfFuel.          (* the model's loop bound was too small *)

Inductive outcome (A : Type) :=
  | Ret (a : A)
  | Throw (e : exn)
  | Fault (f : fault).
Arguments Ret {A} _.
Arguments Throw {A} _.
Arguments Fault {A} _.

#[global] Instance syscall_eq_dec : EqDecision syscall.
Proof. solve_decision. Defined.
#[global] Instance exn_eq_dec : EqDecision exn.
Proof. solve_decision. Defined.
#[global] Instance fault_eq_dec : EqDecision fault.
Proof. solve_decision. Defined.
#[global] Instance outcome_eq_dec {A} `{EqDecision A} : EqDecision (outcome A).
Proof. solve_decision. Defined.

Definition M (S A : Type) : Type := S → outcome A * S.

Definition ret {S A} (a : A) : M S A := λ s, (Ret a, s).
Definition throw {S A} (e : exn) : M S A := λ s, (Throw e, s).
Definition crash {S A} (f : fault) : M S A := λ s, (Fault f, s).
Definition bind {S A B} (m : M S A) (k : A → M S B) : M S B := λ s,
  match m s with
  | (Ret a, s') => k a s'
  | (Throw e, s') => (Throw e, s')
  | (Fault f, s') => (Fault f, s')
  end.
Definition get {S} : M S S := λ s, (Ret s, s).
Definition gets {S A} (f : S → A) : M S A := λ s, (Ret (f s), s).
Definition modify {S} (f : S → S) : M S unit := λ s, (Ret tt, f s).

(** [try { m } catch (e) { h e }]: effects done before the throw remain. *)
Definition try_catch {S A} (m : M S A) (h : exn → M S A) : M S A := λ s,
  match m s with
  | (Throw e, s') => h e s'
  | r => r
  end.

(** Runs a computation on the first half of a larger state. *)
Definition lift_fst {S T A} (m : M S A) : M (S * T) A := λ st,
  let '(r, s') := m st.1 in (r, (s', st.2)).

Notation "'let!' x ':=' m 'in' k" := (bind m (λ x, k))
  (at level 10, x binder, m at level 200, k at level 200,
   format "'[' 'let!'  x  ':='  m  'in' ']' '//' k") : revoq_scope.
Notation "'do!' m 'in' k" := (bind m (λ _, k))
  (at level 10, m at level 200, k at level 200,
   format "'[' 'do!'  m  'in' ']' '//' k") : revoq_scope.

Definition when {S} (b : bool) (m : M S unit) : M S unit :=
  if b then m else ret tt.

(** The body of a checking [if (bad) throw e;]. *)
Definition throw_if {S} (b : bool) (e : exn) : M S unit :=
  if b then throw e else ret tt.

Section monad_laws.
Context {S : Type}.

Lemma bind_Ret {A B} (m : M S A) (k : A → M S B) s a s' :
  m s = (Ret a, s') → bind m k s = k a s'.
Proof. intros H. unfold bind. by rewrite H. Qed.

Lemma bind_Throw {A B} (m : M S A) (k : A → M S B) s e s' :
  m s = (Throw e, s') → bind m k s = (Throw e, s').
Proof. intros H. unfold bind. by rewrite H. Qed.

Lemma bind_Fault {A B} (m : M S A) (k : A → M S B) s f s' :
  m s = (Fault f, s') → bind m k s = (Fault f, s').
Proof. intros H. unfold bind. by rewrite H. Qed.

Lemma bind_ret_l {A B} (a : A) (k : A → M S B) s : bind (ret a) k s = k a s.
Proof. done. Qed.

Lemma bind_guard {B} b e (k : unit → M S B) s :
  b = false → bind (throw_if b e) k s = k tt s.
Proof. by intros ->. Qed.

Lemma bind_guard_fail {B} b e (k : unit → M S B) s :
  b = true → bind (throw_if b e) k s = (Throw e, s).
Proof. by intros ->. Qed.

Lemma bind_assoc {A B C} (m : M S A) (k : A → M S B) (h : B → M S C) s :
  bind (bind m k) h s = bind m (λ a, bind (k a) h) s.
Proof. unfold bind. by destruct (m s) as [[] ?]. Qed.

Lemma try_catch_Ret {A} (m : M S A) h s a s' :
  m s = (Ret a, s') → try_catch m h s = (Ret a, s').
Proof. intros H. unfold try_catch. by rewrite H. Qed.

Lemma try_catch_Throw {A} (m : M S A) h s e s' :
  m s = (Throw e, s') → try_catch m h s = h e s'.
Proof. intros H. unfold try_catch. by rewrite H. Qed.

Lemma lift_fst_run {T A} (m : M S A) (s s' : S) (t : T) r :
  m s = (r, s') → lift_fst m (s, t) = (r, (s', t)).
Proof. intros H. unfold lift_fst. simpl. by rewrite H. Qed.
End monad_laws.

(** [run_step] executes the head of a [bind] with a lemma or hypothesis that
    says what the head returns; [run_simpl] does the administrative steps. *)
Create HintDb run discriminated.

Ltac run_simpl :=
  repeat first
    [ rewrite bind_ret_l
    | rewrite bind_assoc
    | progress cbn beta iota ].

Tactic Notation "run_with" uconstr(H) :=
  first [ erewrite bind_Ret by (eapply H; eauto)
        | erewrite bind_Throw by (eapply H; eauto)
        | erewrite bind_Fault by (eapply H; eauto) ].

(** Linear arithmetic with quotients and remainders by constants. *)
Ltac div_lia := Z.to_euclidean_division_equations; lia.

(** ** Generic lemmas *)

Lemma replicate_lookup_default {A} n (x : A) (i : nat) :
  default x (replicate n x !! i) = x.
Proof.
  destruct (replicate n x !! i) as [y|] eqn:E; [|done].
  by apply lookup_replicate in E as [-> _].
Qed.

Lemma Z_div_mul_ceil n d :
  0 < d → n ≤ (n + d - 1) / d * d < n + d.
Proof.
  intros. pose proof (Z.div_mod (n + d - 1) d ltac:(lia)).
  pose proof (Z.mod_pos_bound (n + d - 1) d ltac:(lia)). nia.
Qed.

Lemma StronglySorted_nth (l : list Z) d i j :
  StronglySorted Z.le l → (i ≤ j < length l)%nat → nth i l d ≤ nth j l d.
Proof.
  intros Hl. revert i j; induction Hl as [|x l Hl IH Hx]; intros i j Hij; simpl in *; [lia|].
  destruct i as [|i], j as [|j]; simpl; [lia| |lia|apply IH; lia].
  eapply (proj1 (Forall_forall _ _) Hx). apply list_elem_of_In, nth_In. lia.
Qed.

Lemma elem_of_nth (l : list Z) d x :
  x ∈ l ↔ ∃ i, 0 ≤ i < Z.of_nat (length l) ∧ nth (Z.to_nat i) l d = x.
Proof.
  split.
  - intros Hx. apply list_elem_of_In, (In_nth _ _ d) in Hx as (i&Hi&<-).
    exists (Z.of_nat i). rewrite Nat2Z.id. split; [lia|done].
  - intros (i&Hi&<-). apply list_elem_of_In, nth_In. lia.
Qed.
