(* ===== verification/Memory.v ===== *)
(** * Memory: files, mappings and the bytes both sides share

    What [mmap(MAP_SHARED)] gives revoq: every mapping of a page file shows the
    bytes of the file itself, so the writer's stores and the readers' loads
    meet in one store, keyed by path.  An address is kept with the mapping it
    points into ([ptr]); an access outside that mapping, a store through a
    read-only mapping and an access past the end of the file are the signals
    the kernel would send.  The second half of the file is the algebra of
    reads over writes every later component uses. *)

From S2P Require Import Prelude.

(** ** The state outside the program *)

(** A directory and a file name in it. *)
Definition path : Type := str * str.

(** A file's bytes; the ones never written are zero. *)
Record file := File { f_size : Z; f_data : gmap Z Z }.

Record mapping := Mapping { m_path : path; m_size : Z; m_writable : bool }.

Record ptr := Ptr { p_base : Z; p_off : Z }.

(** One store into a mapped file: the bytes of a value, or a zeroed range. *)
Inductive event :=
  | EvWrite (pa : path) (off : Z) (bs : list Z)
  | EvZero (pa : path) (off n : Z).

Record world := World {
  w_dirs : gset str;
  w_files : gmap path file;
  w_maps : gmap Z mapping;      (* by base address *)
  w_calls : nat;                (* system calls made so far *)
  w_ticks : nat;                (* clock readings so far *)
  w_trace : list event          (* the stores made so far *)
}.

(** What the program does not choose: which system calls fail, the address
    the kernel picks for a mapping, the wall clock. *)
Class Env := {
  env_errno : nat → option Z;
  env_base : nat → gmap Z mapping → Z;
  env_clock : nat → Z
}.

(** [mmap] answers with an address that is not null and not in use; the
    clock's nanoseconds fit [int64_t]. *)
Class EnvLaws `{Env} := {
  env_base_fresh n m : m !! env_base n m = None;
  env_base_pos n m : 0 < env_base n m;
  env_clock_range n : in_s 64 (env_clock n)
}.

(** The environment in which no system call fails. *)
Class NoErrors `{Env} := no_errors : ∀ n, env_errno n = None.

#[global] Instance ptr_eq_dec : EqDecision ptr.
Proof. solve_decision. Defined.

Definition addr (p : ptr) : Z := p_base p + p_off p.
Definition ptr_add (p : ptr) (n : Z) : ptr := Ptr (p_base p) (p_off p + n).

Definition set_dirs (f : gset str → gset str) (w : world) : world :=
  World (f (w_dirs w)) (w_files w) (w_maps w) (w_calls w) (w_ticks w) (w_trace w).
Definition set_files (f : gmap path file → gmap path file) (w : world) : world :=
  World (w_dirs w) (f (w_files w)) (w_maps w) (w_calls w) (w_ticks w) (w_trace w).
Definition set_maps (f : gmap Z mapping → gmap Z mapping) (w : world) : world :=
  World (w_dirs w) (w_files w) (f (w_maps w)) (w_calls w) (w_ticks w) (w_trace w).
Definition count_call (w : world) : world :=
  World (w_dirs w) (w_files w) (w_maps w) (S (w_calls w)) (w_ticks w) (w_trace w).
Definition count_tick (w : world) : world :=
  World (w_dirs w) (w_files w) (w_maps w) (w_calls w) (S (w_ticks w)) (w_trace w).

(** ** Bytes of a file *)

Fixpoint put_bytes (m : gmap Z Z) (off : Z) (bs : list Z) : gmap Z Z :=
  match bs with
  | [] => m
  | b :: bs => <[off := b]> (put_bytes m (off + 1) bs)
  end.

Definition file_size (w : world) (pa : path) : Z :=
  match w_files w !! pa with Some f => f_size f | None => 0 end.

Definition fbyte (w : world) (pa : path) (i : Z) : Z :=
  match w_files w !! pa with Some f => default 0 (f_data f !! i) | None => 0 end.

Definition fbytes (w : world) (pa : path) (off n : Z) : list Z :=
  (λ i, fbyte w pa i) <$> seqZ off n.

(** Little-endian integers: what x86-64 and AArch64 store. *)
Definition le_bytes (n v : Z) : list Z := Z_to_little_endian n 8 v.
Definition le_val (bs : list Z) : Z := little_endian_to_Z 8 bs.

Definition fle (w : world) (pa : path) (off n : Z) : Z := le_val (fbytes w pa off n).

Definition fwrite (w : world) (pa : path) (off : Z) (bs : list Z) : world :=
  World (w_dirs w)
    (alter (λ f, File (f_size f) (put_bytes (f_data f) off bs)) pa (w_files w))
    (w_maps w) (w_calls w) (w_ticks w) (w_trace w ++ [EvWrite pa off bs]).

Definition zero_bytes (m : gmap Z Z) (off n : Z) : gmap Z Z :=
  filter (λ kb, ¬ (off ≤ kb.1 < off + n)) m.

Definition fzero (w : world) (pa : path) (off n : Z) : world :=
  World (w_dirs w)
    (alter (λ f, File (f_size f) (zero_bytes (f_data f) off n)) pa (w_files w))
    (w_maps w) (w_calls w) (w_ticks w) (w_trace w ++ [EvZero pa off n]).

(** ** Loads and stores *)

(** The kernel backs the last, partial page of a file with zeros. *)
Definition OS_PAGE : Z := 4096.
Definition os_page_ceil (n : Z) : Z := (n + OS_PAGE - 1) / OS_PAGE * OS_PAGE.

Definition locate (w : world) (p : ptr) (n : Z) (wr : bool) : outcome path :=
  match w_maps w !! p_base p with
  | None => Fault Sigsegv
  | Some m =>
      if negb ((0 <=? p_off p) && (p_off p + n <=? m_size m)) then Fault Sigsegv
      else if wr && negb (m_writable m) then Fault Sigsegv
      else if p_off p + n <=? os_page_ceil (file_size w (m_path m))
      then Ret (m_path m) else Fault Sigbus
  end.

Definition load_bytes (p : ptr) (n : Z) : M world (list Z) := λ w,
  match locate w p n false with
  | Ret pa => (Ret (fbytes w pa (p_off p) n), w)
  | Throw e => (Throw e, w)
  | Fault f => (Fault f, w)
  end.

Definition store_bytes (p : ptr) (bs : list Z) : M world unit := λ w,
  match locate w p (Z.of_nat (length bs)) true with
  | Ret pa => (Ret tt, fwrite w pa (p_off p) bs)
  | Throw e => (Throw e, w)
  | Fault f => (Fault f, w)
  end.

Definition load (n : Z) (p : ptr) : M world Z :=
  let! bs := load_bytes p n in ret (le_val bs).
Definition store (n : Z) (p : ptr) (v : Z) : M world unit :=
  store_bytes p (le_bytes n v).

(** [memset(p, 0, n)], and the zeroing of an object being created. *)
Definition memset0 (p : ptr) (n : Z) : M world unit := λ w,
  match locate w p n true with
  | Ret pa => (Ret tt, fzero w pa (p_off p) n)
  | Throw e => (Throw e, w)
  | Fault f => (Fault f, w)
  end.

(** A clock reading, [clock_gettime(CLOCK_REALTIME)]. *)
Definition read_clock `{Env} : M world Z := λ w,
  (Ret (env_clock (w_ticks w)), count_tick w).

(** ** Lemmas: the bytes of a file *)

Lemma put_bytes_lookup m off bs i :
  default 0 (put_bytes m off bs !! i) =
    if bool_decide (off ≤ i < off + Z.of_nat (length bs))
    then default 0 (bs !! Z.to_nat (i - off)) else default 0 (m !! i).
Proof.
  revert off; induction bs as [|b bs IH]; intros off; cbn [put_bytes length].
  { by rewrite bool_decide_false by lia. }
  destruct (decide (i = off)) as [->|Hne].
  - rewrite lookup_insert_eq, bool_decide_true by lia.
    by replace (off - off) with 0 by lia.
  - rewrite lookup_insert_ne, IH by done. repeat case_bool_decide; try lia; try done.
    replace (Z.to_nat (i - off)) with (S (Z.to_nat (i - (off + 1)))) by lia. done.
Qed.

Lemma file_size_fwrite w pa off bs pa' :
  file_size (fwrite w pa off bs) pa' = file_size w pa'.
Proof.
  unfold file_size, fwrite; simpl. rewrite lookup_alter.
  case_decide as E; [subst|done]. by destruct (w_files w !! _).
Qed.

Lemma fbyte_fwrite w pa off bs pa' i :
  is_Some (w_files w !! pa) →
  fbyte (fwrite w pa off bs) pa' i =
    if bool_decide (pa' = pa ∧ off ≤ i < off + Z.of_nat (length bs))
    then default 0 (bs !! Z.to_nat (i - off)) else fbyte w pa' i.
Proof.
  intros [f Hf]. unfold fbyte, fwrite; simpl. rewrite lookup_alter.
  case_decide as E.
  - subst pa'. rewrite Hf; simpl. rewrite put_bytes_lookup.
    repeat case_bool_decide; done || tauto.
  - rewrite bool_decide_false; [done|]. intros [? _]; congruence.
Qed.

Lemma length_fbytes w pa off n : 0 ≤ n → Z.of_nat (length (fbytes w pa off n)) = n.
Proof. intros. unfold fbytes. rewrite length_fmap, length_seqZ. lia. Qed.

Lemma fbytes_ext w w' pa pa' off off' n :
  (∀ i, 0 ≤ i < n → fbyte w pa (off + i) = fbyte w' pa' (off' + i)) →
  fbytes w pa off n = fbytes w' pa' off' n.
Proof.
  intros Hext. apply list_eq. intros k. unfold fbytes.
  rewrite !list_lookup_fmap.
  destruct (decide (Z.of_nat k < n)).
  - rewrite !lookup_seqZ_lt by lia. simpl. f_equal. apply Hext. lia.
  - by rewrite !lookup_seqZ_ge by lia.
Qed.

Lemma fbytes_fwrite_eq w pa off bs n :
  is_Some (w_files w !! pa) → n = Z.of_nat (length bs) →
  fbytes (fwrite w pa off bs) pa off n = bs.
Proof.
  intros Hf ->. apply list_eq. intros k. unfold fbytes. rewrite list_lookup_fmap.
  destruct (decide (k < length bs)%nat) as [Hk|Hk].
  - rewrite lookup_seqZ_lt by lia. simpl. rewrite fbyte_fwrite by done.
    rewrite bool_decide_true by (split; [done|lia]).
    destruct (lookup_lt_is_Some_2 bs k Hk) as [b Hb].
    replace (Z.to_nat (off + Z.of_nat k - off)) with k by lia. by rewrite Hb.
  - rewrite lookup_seqZ_ge by lia. by rewrite lookup_ge_None_2 by lia.
Qed.

(** Two byte ranges that do not meet. *)
Definition apart (pa : path) (off n : Z) (pa' : path) (off' n' : Z) : Prop :=
  pa ≠ pa' ∨ off + n ≤ off' ∨ off' + n' ≤ off.

Lemma fbytes_fwrite_apart w pa off bs pa' off' n :
  apart pa off (Z.of_nat (length bs)) pa' off' n →
  fbytes (fwrite w pa off bs) pa' off' n = fbytes w pa' off' n.
Proof.
  intros Hap. apply fbytes_ext. intros i Hi.
  destruct (w_files w !! pa) as [f|] eqn:Hf.
  - rewrite fbyte_fwrite by eauto. rewrite bool_decide_false; [done|].
    intros [-> ?]. destruct Hap as [?|[?|?]]; [done|lia|lia].
  - unfold fbyte, fwrite; simpl. rewrite lookup_alter.
    case_decide; [|done]. subst. by rewrite Hf.
Qed.

Lemma length_le_bytes n v : 0 ≤ n → Z.of_nat (length (le_bytes n v)) = n.
Proof. intros. unfold le_bytes. apply length_Z_to_little_endian. lia. Qed.

Lemma le_val_le_bytes n v : 0 ≤ n → le_val (le_bytes n v) = wrap (8 * n) v.
Proof.
  intros. unfold le_val, le_bytes, wrap.
  rewrite little_endian_to_Z_to_little_endian by lia. do 2 f_equal. lia.
Qed.

Lemma fle_fwrite_eq w pa off n v :
  is_Some (w_files w !! pa) → 0 ≤ n →
  fle (fwrite w pa off (le_bytes n v)) pa off n = wrap (8 * n) v.
Proof.
  intros. unfold fle. rewrite fbytes_fwrite_eq; [by apply le_val_le_bytes|done|].
  by rewrite length_le_bytes.
Qed.

Lemma fle_fwrite_apart w pa off bs pa' off' n :
  apart pa off (Z.of_nat (length bs)) pa' off' n →
  fle (fwrite w pa off bs) pa' off' n = fle w pa' off' n.
Proof. intros. unfold fle. by rewrite fbytes_fwrite_apart. Qed.

Lemma le_val_zeros n : le_val (replicate n 0) = 0.
Proof. induction n as [|n IH]; [done|]. unfold le_val in *. simpl. by rewrite IH. Qed.

(** An integer whose bytes are all zero is zero. *)
Lemma fle_zero w pa off n :
  0 ≤ n → (∀ i, off ≤ i < off + n → fbyte w pa i = 0) → fle w pa off n = 0.
Proof.
  intros Hn Hz. unfold fle. replace (fbytes w pa off n) with (replicate (Z.to_nat n) 0).
  { apply le_val_zeros. }
  apply list_eq. intros k. unfold fbytes. rewrite list_lookup_fmap.
  destruct (decide (Z.of_nat k < n)).
  - rewrite lookup_seqZ_lt by lia. simpl.
    rewrite lookup_replicate_2 by lia. by rewrite Hz by lia.
  - rewrite lookup_seqZ_ge by lia. by rewrite lookup_ge_None_2 by (rewrite length_replicate; lia).
Qed.

(** ** Lemmas: zeroed ranges, and worlds that agree on a range *)

Lemma zero_bytes_lookup m off n i :
  default 0 (zero_bytes m off n !! i) =
    if bool_decide (off ≤ i < off + n) then 0 else default 0 (m !! i).
Proof.
  unfold zero_bytes. rewrite map_lookup_filter. case_bool_decide.
  - destruct (m !! i); simpl; [|done]. by rewrite option_guard_False by (simpl; lia).
  - destruct (m !! i); simpl; [|done]. by rewrite option_guard_True by (simpl; lia).
Qed.

Lemma file_size_fzero w pa off n pa' : file_size (fzero w pa off n) pa' = file_size w pa'.
Proof.
  unfold file_size, fzero; simpl. rewrite lookup_alter.
  case_decide as E; [subst|done]. by destruct (w_files w !! _).
Qed.

Lemma fbyte_fzero w pa off n pa' i :
  fbyte (fzero w pa off n) pa' i =
    if bool_decide (pa' = pa ∧ off ≤ i < off + n) then 0 else fbyte w pa' i.
Proof.
  unfold fbyte, fzero; simpl. rewrite lookup_alter. case_decide as E.
  - subst pa'. destruct (w_files w !! pa); simpl; [rewrite zero_bytes_lookup|];
      repeat case_bool_decide; done || tauto.
  - rewrite bool_decide_false; [done|]. intros [? _]; congruence.
Qed.

(** [w'] shows the same bytes as [w] in the given range of a file. *)
Definition agree (w w' : world) (pa : path) (off n : Z) : Prop :=
  ∀ i, off ≤ i < off + n → fbyte w' pa i = fbyte w pa i.

Lemma agree_refl w pa off n : agree w w pa off n.
Proof. by intros ??. Qed.

Lemma agree_trans w1 w2 w3 pa off n :
  agree w1 w2 pa off n → agree w2 w3 pa off n → agree w1 w3 pa off n.
Proof. intros H12 H23 i Hi. by rewrite H23, H12. Qed.

Lemma agree_sub w w' pa off n off' n' :
  agree w w' pa off n → off ≤ off' → off' + n' ≤ off + n → agree w w' pa off' n'.
Proof. intros H ?? i Hi. apply H. lia. Qed.

Lemma agree_fwrite w pa' off' bs pa off n :
  apart pa' off' (Z.of_nat (length bs)) pa off n → agree w (fwrite w pa' off' bs) pa off n.
Proof.
  intros Hap i Hi. destruct (w_files w !! pa') as [f|] eqn:Hf.
  - rewrite fbyte_fwrite by eauto. rewrite bool_decide_false; [done|].
    intros [-> ?]. destruct Hap as [?|[?|?]]; [done|lia|lia].
  - unfold fbyte, fwrite; simpl. rewrite lookup_alter.
    case_decide; [|done]. subst. by rewrite Hf.
Qed.

Lemma agree_fzero w pa' off' k pa off n :
  apart pa' off' k pa off n → agree w (fzero w pa' off' k) pa off n.
Proof.
  intros Hap i Hi. rewrite fbyte_fzero, bool_decide_false; [done|].
  intros [-> ?]. destruct Hap as [?|[?|?]]; [done|lia|lia].
Qed.

Lemma fbytes_agree w w' pa off n : agree w w' pa off n → fbytes w' pa off n = fbytes w pa off n.
Proof. intros H. apply fbytes_ext. intros. apply H. lia. Qed.

Lemma fle_agree w w' pa off n : agree w w' pa off n → fle w' pa off n = fle w pa off n.
Proof. intros. unfold fle. by erewrite fbytes_agree. Qed.

(** ** Lemmas: loads and stores that succeed *)

(** [mapped w b pa n wr]: the address range [b, b+n) shows all of the file
    [pa], which is at least that long; [wr] says stores are allowed. *)
Definition mapped (w : world) (b : Z) (pa : path) (n : Z) (wr : bool) : Prop :=
  w_maps w !! b = Some (Mapping pa n wr) ∧ n ≤ file_size w pa ∧ 0 ≤ n.

Lemma os_page_ceil_ge n : n ≤ os_page_ceil n.
Proof. unfold os_page_ceil, OS_PAGE. apply Z_div_mul_ceil. lia. Qed.

Lemma mapped_file w b pa n wr : 0 < n → mapped w b pa n wr → is_Some (w_files w !! pa).
Proof. unfold mapped, file_size. intros Hn (_&Hsz&_). destruct (w_files w !! pa); [eauto|lia]. Qed.

Lemma locate_mapped w p pa n wr wr' k :
  mapped w (p_base p) pa n wr → 0 ≤ p_off p → p_off p + k ≤ n → (wr' = true → wr = true) →
  locate w p k wr' = Ret pa.
Proof.
  intros (Hm&Hsz&_) ? ? Hwr. unfold locate. rewrite Hm; simpl.
  pose proof (os_page_ceil_ge (file_size w pa)).
  rewrite (proj2 (Z.leb_le 0 (p_off p))), (proj2 (Z.leb_le (p_off p + k) n)),
    (proj2 (Z.leb_le (p_off p + k) (os_page_ceil (file_size w pa)))) by lia.
  destruct wr', wr; simpl; done || by specialize (Hwr eq_refl).
Qed.

Lemma load_bytes_run w p pa n wr k :
  mapped w (p_base p) pa n wr → 0 ≤ p_off p → p_off p + k ≤ n →
  load_bytes p k w = (Ret (fbytes w pa (p_off p) k), w).
Proof. intros. unfold load_bytes. by rewrite (locate_mapped w p pa n wr false k) by done. Qed.

Lemma load_run w p pa n wr k :
  mapped w (p_base p) pa n wr → 0 ≤ p_off p → p_off p + k ≤ n →
  load k p w = (Ret (fle w pa (p_off p) k), w).
Proof. intros. unfold load. by erewrite bind_Ret by (by eapply load_bytes_run). Qed.

Lemma store_bytes_run w p pa n bs :
  mapped w (p_base p) pa n true → 0 ≤ p_off p → p_off p + Z.of_nat (length bs) ≤ n →
  store_bytes p bs w = (Ret tt, fwrite w pa (p_off p) bs).
Proof.
  intros. unfold store_bytes.
  by rewrite (locate_mapped w p pa n true true (Z.of_nat (length bs))) by done.
Qed.

Lemma store_run w p pa n k v :
  mapped w (p_base p) pa n true → 0 ≤ p_off p → 0 ≤ k → p_off p + k ≤ n →
  store k p v w = (Ret tt, fwrite w pa (p_off p) (le_bytes k v)).
Proof. intros. unfold store. eapply store_bytes_run; [done..|]. by rewrite length_le_bytes. Qed.

Lemma memset0_run w p pa n k :
  mapped w (p_base p) pa n true → 0 ≤ p_off p → p_off p + k ≤ n →
  memset0 p k w = (Ret tt, fzero w pa (p_off p) k).
Proof.
  intros. unfold memset0. by rewrite (locate_mapped w p pa n true true k) by done.
Qed.

Lemma mapped_fzero w b pa n wr pa' off k :
  mapped (fzero w pa' off k) b pa n wr ↔ mapped w b pa n wr.
Proof. unfold mapped. by rewrite file_size_fzero. Qed.

Lemma file_is_Some_fzero w pa pa' off k :
  is_Some (w_files (fzero w pa' off k) !! pa) ↔ is_Some (w_files w !! pa).
Proof.
  unfold fzero; simpl. rewrite lookup_alter. case_decide; [subst|done].
  by rewrite fmap_is_Some.
Qed.

Lemma mapped_fwrite w b pa n wr pa' off bs :
  mapped (fwrite w pa' off bs) b pa n wr ↔ mapped w b pa n wr.
Proof. unfold mapped. by rewrite file_size_fwrite. Qed.

Lemma file_is_Some_fwrite w pa pa' off bs :
  is_Some (w_files (fwrite w pa' off bs) !! pa) ↔ is_Some (w_files w !! pa).
Proof.
  unfold fwrite; simpl. rewrite lookup_alter. case_decide; [subst|done].
  by rewrite fmap_is_Some.
Qed.

(** ** What a step leaves alone

    [touches pa w w']: between [w] and [w'] only the bytes of [pa] may have
    changed; files only grew, and what was mapped still is. *)

Record touches (pa : path) (w w' : world) : Prop := {
  tc_bytes pa' i : pa' ≠ pa → fbyte w' pa' i = fbyte w pa' i;
  tc_size pa' : file_size w pa' ≤ file_size w' pa';
  tc_file pa' : pa' ≠ pa → (is_Some (w_files w' !! pa') ↔ is_Some (w_files w !! pa'));
  tc_maps b m : w_maps w !! b = Some m → w_maps w' !! b = Some m;
  tc_dirs : w_dirs w ⊆ w_dirs w'
}.

#[export] Instance touches_preorder pa : PreOrder (touches pa).
Proof.
  split; [by split|]. intros w1 w2 w3 [] []. split.
  - intros. rewrite tc_bytes1 by done. by apply tc_bytes0.
  - intros pa'. etrans; [apply tc_size0|apply tc_size1].
  - intros. rewrite tc_file1 by done. by apply tc_file0.
  - intros. by apply tc_maps1, tc_maps0.
  - by etrans.
Qed.

Lemma touches_fwrite w pa off bs : touches pa w (fwrite w pa off bs).
Proof.
  split; try done.
  - intros pa' i ?. apply (agree_fwrite w pa off bs pa' i 1); [|lia]. left; congruence.
  - intros. by rewrite file_size_fwrite.
  - intros. by rewrite file_is_Some_fwrite.
Qed.

Lemma touches_fzero w pa off n : touches pa w (fzero w pa off n).
Proof.
  split; try done.
  - intros pa' i ?. apply (agree_fzero w pa off n pa' i 1); [|lia]. left; congruence.
  - intros. by rewrite file_size_fzero.
  - intros. by rewrite file_is_Some_fzero.
Qed.

Lemma touches_dirs w pa d : touches pa w (set_dirs ({[d]} ∪.) w).
Proof. split; try done. simpl. set_solver. Qed.

Lemma touches_mapped pa w w' b pa' n wr :
  touches pa w w' → mapped w b pa' n wr → mapped w' b pa' n wr.
Proof.
  intros Ht (Hm&Hs&?). split_and!; [by eapply tc_maps| |done].
  pose proof (tc_size _ _ _ Ht pa'). lia.
Qed.

Lemma touches_agree pa w w' pa' off n : touches pa w w' → pa' ≠ pa → agree w w' pa' off n.
Proof. intros Ht ? i _. by eapply tc_bytes. Qed.

(** ** Automation

    [apart_tac] separates two ranges, [mapped_tac] carries a mapping over
    stores, [mem_simpl] evaluates loads over stores, and [mstep] executes one
    access at the head of a computation. *)

Ltac apart_tac :=
  unfold apart; rewrite ?length_le_bytes by lia;
  first [ left; congruence | right; left; lia | right; right; lia ].

Ltac mapped_tac :=
  cbn [p_base ptr_add];
  first
    [ eassumption
    | apply mapped_fwrite; mapped_tac
    | apply mapped_fzero; mapped_tac ].

Ltac file_tac :=
  first
    [ eassumption
    | apply file_is_Some_fwrite; file_tac
    | apply file_is_Some_fzero; file_tac ].

Lemma fle_fzero_apart w pa off k pa' off' n :
  apart pa off k pa' off' n → fle (fzero w pa off k) pa' off' n = fle w pa' off' n.
Proof. intros. apply fle_agree. by apply agree_fzero. Qed.

Lemma fle_fzero_in w pa off k off' n :
  0 ≤ n → off ≤ off' → off' + n ≤ off + k → fle (fzero w pa off k) pa off' n = 0.
Proof.
  intros. apply fle_zero; [done|]. intros i Hi. rewrite fbyte_fzero.
  by rewrite bool_decide_true by (split; [done|lia]).
Qed.

(** Walks back over the stores between two worlds. *)
Ltac touches_tac :=
  lazymatch goal with
  | |- touches _ ?w ?w => reflexivity
  | |- touches _ _ (fwrite _ _ _ _) => etrans; [|apply touches_fwrite]; touches_tac
  | |- touches _ _ (fzero _ _ _ _) => etrans; [|apply touches_fzero]; touches_tac
  | |- _ => eassumption
  end.

Ltac mem_simpl :=
  repeat first
    [ rewrite fle_fwrite_eq by first [lia | file_tac]
    | rewrite fle_fwrite_apart by apart_tac
    | rewrite fle_fzero_apart by apart_tac
    | rewrite fle_fzero_in by lia ].

Ltac mstep :=
  first
    [ rewrite bind_ret_l
    | rewrite bind_assoc
    | erewrite bind_Ret by
        (first [ eapply load_run | eapply store_run | eapply memset0_run
               | eapply load_bytes_run | eapply store_bytes_run ];
         [ mapped_tac | cbn [p_off ptr_add]; lia.. ]) ];
  cbn [p_off p_base ptr_add]; rewrite ?Z.add_0_l, ?Z.add_0_r.

Lemma fbyte_files w w' pa i : w_files w' = w_files w → fbyte w' pa i = fbyte w pa i.
Proof. unfold fbyte. by intros ->. Qed.

Lemma file_size_files w w' pa : w_files w' = w_files w → file_size w' pa = file_size w pa.
Proof. unfold file_size. by intros ->. Qed.

Lemma file_size_pos w pa : 0 < file_size w pa → is_Some (w_files w !! pa).
Proof. unfold file_size. destruct (w_files w !! pa); [eauto|lia]. Qed.

Lemma fbyte_absent w pa i : w_files w !! pa = None → fbyte w pa i = 0.
Proof. unfold fbyte. by intros ->. Qed.

(** The algebra above is how the rest of the development sees memory. *)
#[global] Opaque fwrite fzero fle fbyte fbytes le_bytes le_val.

(** ** A concrete environment

    Nothing fails (or only the call numbered [bad] does), mappings are placed
    one above the other, the clock ticks once per reading. *)

Definition next_base (m : gmap Z mapping) : Z :=
  map_fold (λ b _ acc, Z.max (b + 2 ^ 30) acc) (2 ^ 30) m.

Lemma next_base_above m : 2 ^ 30 ≤ next_base m ∧ ∀ b, is_Some (m !! b) → b < next_base m.
Proof.
  unfold next_base. apply (map_fold_weak_ind (λ acc m, 2 ^ 30 ≤ acc ∧ ∀ b, is_Some (m !! b) → b < acc)).
  - split; [lia|]. intros b [x Hx]. by rewrite lookup_empty in Hx.
  - intros i x m' r Hi [Hr IH]. split; [lia|]. intros b [y Hb].
    apply lookup_insert_Some in Hb as [[-> _]|[_ Hb]]; [lia|].
    pose proof (IH b ltac:(eauto)). lia.
Qed.

Definition env_with (errno : nat → option Z) : Env := {|
  env_errno := errno;
  env_base _ m := next_base m;
  env_clock n := Z.min (2 ^ 63 - 1) (1700000000000000000 + Z.of_nat n)
|}.

#[export] Instance env_with_laws errno : @EnvLaws (env_with errno).
Proof.
  split; intros; cbn [env_clock env_base env_with]; [| |unfold in_s; simpl; lia]; pose proof (next_base_above m) as [? Habove]; [|lia].
  apply eq_None_not_Some. intros Hm. apply Habove in Hm. lia.
Qed.

Definition env_ok : Env := env_with (λ _, None).
#[export] Instance env_ok_no_errors : @NoErrors env_ok.
Proof. done. Qed.
#[export] Instance env_ok_laws : @EnvLaws env_ok := env_with_laws _.

(** The machine before any journal exists. *)
Definition world0 : world := World ∅ ∅ ∅ 0 0 [].
