(* ===== verification/Frame.v ===== *)
(** * Frame: the 32-byte header and the frames of a page

    [src/include/revoq/JournalFrame.h].  A [Frame] object is the pointer
    [header_] it wraps, so its methods take that pointer; they load and store
    through it at the header's field offsets.  The second half states what a
    committed frame is in the bytes of a file ([frame_at]) and what a run of
    frames is ([laid]), the vocabulary of the writer's and the reader's
    theorems. *)

From S2P Require Import Prelude Memory.

Definition JOURNAL_PAGE_VERSION : Z := 2.
Definition FRAME_ALIGNMENT : Z := 64.

(** [enum FrameFlags] *)
Definition FRAME_NORMAL : Z := 0x0000.
Definition FRAME_COMPRESSED : Z := 0x0001.
Definition FRAME_HIGH_PRIORITY : Z := 0x0002.
Definition FRAME_RETRY : Z := 0x0004.
Definition FRAME_CORRUPTED : Z := 0x0008.

(** [struct FrameHeader], packed: the offset of each field. *)
Definition sizeof_FrameHeader : Z := 32.
Definition off_length : Z := 0.
Definition off_msg_type : Z := 4.
Definition off_flags : Z := 6.
Definition off_sequence : Z := 8.
Definition off_gen_time : Z := 16.
Definition off_event_time : Z := 24.

(** [size_t] arithmetic: the sum wraps at 64 bits. *)
Definition alignUp (value alignment : Z) : Z :=
  u64 (u64 (value + alignment - 1) / alignment * alignment).

Definition framePhysicalLength (logical_length : Z) : Z :=
  u32 (alignUp logical_length FRAME_ALIGNMENT).

(** ** [class Frame] *)

Definition hasData (frame_length msg_type : Z) : bool :=
  (0 <? frame_length) && (0 <? msg_type).

Definition getHeaderLength : Z := sizeof_FrameHeader.
Definition getFrameLength (h : ptr) : M world Z := load 4 (ptr_add h off_length).
Definition getMsgType (h : ptr) : M world Z := load 2 (ptr_add h off_msg_type).
Definition getFlags (h : ptr) : M world Z := load 2 (ptr_add h off_flags).
Definition getSequence (h : ptr) : M world Z := load 8 (ptr_add h off_sequence).
Definition getGenTime (h : ptr) : M world Z :=
  let! v := load 8 (ptr_add h off_gen_time) in ret (s64 v).
Definition getEventTime (h : ptr) : M world Z :=
  let! v := load 8 (ptr_add h off_event_time) in ret (s64 v).

(** [hasData(frame_length)] and [hasData()] *)
Definition hasData_len (h : ptr) (frame_length : Z) : M world bool :=
  let! t := getMsgType h in ret (hasData frame_length t).
Definition hasData_now (h : ptr) : M world bool :=
  let! n := getFrameLength h in hasData_len h n.

Definition getDataLength_of (frame_length : Z) : Z :=
  if frame_length <? sizeof_FrameHeader then 0 else frame_length - sizeof_FrameHeader.
Definition getDataLength (h : ptr) : M world Z :=
  let! n := getFrameLength h in ret (getDataLength_of n).

Definition isCompressed (h : ptr) : M world bool :=
  let! f := getFlags h in ret (negb (Z.land f FRAME_COMPRESSED =? 0)).
Definition isHighPriority (h : ptr) : M world bool :=
  let! f := getFlags h in ret (negb (Z.land f FRAME_HIGH_PRIORITY =? 0)).

Definition dataAddress (h : ptr) : ptr := ptr_add h getHeaderLength.
Definition dataAsBytes (h : ptr) : ptr := dataAddress h.
Definition dataAsString (h : ptr) : M world (list Z) :=
  let! n := getDataLength h in load_bytes (dataAsBytes h) n.

(** [copyData<T>]: [data] is the object representation of the [T]. *)
Definition copyData (h : ptr) (data : list Z) : M world Z :=
  do! store_bytes (dataAddress h) data in ret (Z.of_nat (length data)).

Definition moveToNext_len (h : ptr) (frame_length : Z) : ptr :=
  ptr_add h (framePhysicalLength frame_length).
Definition moveToNext (h : ptr) : M world ptr :=
  let! n := getFrameLength h in ret (moveToNext_len h n).

Definition setDataLength (h : ptr) (length : Z) : M world unit :=
  store 4 (ptr_add h off_length) (u32 (sizeof_FrameHeader + length)).
Definition setGenTime (h : ptr) (t : Z) : M world unit := store 8 (ptr_add h off_gen_time) t.
Definition setEventTime (h : ptr) (t : Z) : M world unit := store 8 (ptr_add h off_event_time) t.
Definition setMsgType (h : ptr) (t : Z) : M world unit := store 2 (ptr_add h off_msg_type) (u16 t).
Definition setSequence (h : ptr) (s : Z) : M world unit := store 8 (ptr_add h off_sequence) s.
Definition setFlags (h : ptr) (f : Z) : M world unit := store 2 (ptr_add h off_flags) f.

(** ** Committed frames, abstractly *)

Record frame := Frame {
  fr_type : Z; fr_flags : Z; fr_seq : Z; fr_gen : Z; fr_event : Z; fr_payload : list Z
}.

Definition frame_length (f : frame) : Z :=
  sizeof_FrameHeader + Z.of_nat (length (fr_payload f)).
Definition frame_stride (f : frame) : Z := framePhysicalLength (frame_length f).

(** A frame whose fields fit the header and whose type a reader accepts. *)
Definition frame_wf (f : frame) : Prop :=
  0 < fr_type f < 2 ^ 16 ∧ in_u 16 (fr_flags f) ∧ in_u 64 (fr_seq f) ∧
  in_s 64 (fr_gen f) ∧ in_s 64 (fr_event f) ∧ Forall (in_u 8) (fr_payload f) ∧
  frame_length f ≤ 2 ^ 32 - 64.

(** The bytes of [pa] at [o] are the committed frame [f]. *)
Definition frame_at (w : world) (pa : path) (o : Z) (f : frame) : Prop :=
  fle w pa (o + off_length) 4 = frame_length f ∧
  fle w pa (o + off_msg_type) 2 = fr_type f ∧
  fle w pa (o + off_flags) 2 = fr_flags f ∧
  fle w pa (o + off_sequence) 8 = fr_seq f ∧
  s64 (fle w pa (o + off_gen_time) 8) = fr_gen f ∧
  s64 (fle w pa (o + off_event_time) 8) = fr_event f ∧
  fbytes w pa (o + sizeof_FrameHeader) (Z.of_nat (length (fr_payload f))) = fr_payload f.

(** [fs] are the frames from offset [o] up to offset [e]. *)
Fixpoint laid (w : world) (pa : path) (o : Z) (fs : list frame) (e : Z) : Prop :=
  match fs with
  | [] => o = e
  | f :: fs => frame_at w pa o f ∧ frame_wf f ∧ laid w pa (o + frame_stride f) fs e
  end.

(** ** Alignment *)

Lemma alignUp_small v :
  0 ≤ v ≤ 2 ^ 32 → alignUp v FRAME_ALIGNMENT = (v + 63) / 64 * 64.
Proof.
  intros Hv. unfold alignUp, FRAME_ALIGNMENT.
  rewrite (wrap_small 64 (v + 64 - 1)) by (unfold in_u; lia).
  replace (v + 64 - 1) with (v + 63) by lia.
  pose proof (Z.div_mod (v + 63) 64 ltac:(lia)).
  pose proof (Z.mod_pos_bound (v + 63) 64 ltac:(lia)).
  apply wrap_small. unfold in_u. lia.
Qed.

Lemma framePhysicalLength_small l :
  0 ≤ l ≤ 2 ^ 32 - 64 → framePhysicalLength l = (l + 63) / 64 * 64.
Proof.
  intros Hl. unfold framePhysicalLength. rewrite alignUp_small by lia.
  pose proof (Z.div_mod (l + 63) 64 ltac:(lia)).
  pose proof (Z.mod_pos_bound (l + 63) 64 ltac:(lia)).
  apply wrap_small. unfold in_u. lia.
Qed.

Lemma framePhysicalLength_bounds l :
  0 ≤ l ≤ 2 ^ 32 - 64 →
  l ≤ framePhysicalLength l < l + 64 ∧ framePhysicalLength l `mod` 64 = 0.
Proof.
  intros Hl. rewrite framePhysicalLength_small by done. split.
  - pose proof (Z_div_mul_ceil l 64 ltac:(lia)).
    by replace (l + 64 - 1) with (l + 63) in * by lia.
  - by apply Z.mod_mul.
Qed.

(** C34: The physical length of a frame is its logical length rounded up to the
    64-byte alignment for every 32-bit length up to 2^32 - 64; for the 63
    lengths above, the 32-bit conversion wraps and the stride is zero. *)
Theorem framePhysicalLength_spec l :
  in_u 32 l →
  (l ≤ 2 ^ 32 - 64 →
     l ≤ framePhysicalLength l < l + 64 ∧ framePhysicalLength l `mod` 64 = 0) ∧
  (2 ^ 32 - 64 < l → framePhysicalLength l = 0).
Proof.
  intros Hl. unfold in_u in *. split.
  - intros. apply framePhysicalLength_bounds. lia.
  - intros Hbig. unfold framePhysicalLength. rewrite alignUp_small by lia.
    assert ((l + 63) / 64 = 2 ^ 26) as ->; [|done].
    pose proof (Z.div_mod (l + 63) 64 ltac:(lia)).
    pose proof (Z.mod_pos_bound (l + 63) 64 ltac:(lia)). lia.
Qed.

Lemma framePhysicalLength_spec_witness :
  in_u 32 (2 ^ 32 - 63) ∧ framePhysicalLength (2 ^ 32 - 63) = 0 ∧
  framePhysicalLength 33 = 64.
Proof.
  split; [unfold in_u; lia|]. split; [|reflexivity].
  apply (framePhysicalLength_spec (2 ^ 32 - 63)); unfold in_u; lia.
Defined.

(** ** Runs of frames *)

Lemma frame_stride_bounds f :
  frame_length f ≤ 2 ^ 32 - 64 →
  32 ≤ frame_length f ≤ frame_stride f ∧ 64 ≤ frame_stride f ∧ frame_stride f `mod` 64 = 0.
Proof.
  intros Hf. assert (32 ≤ frame_length f) as H32.
  { unfold frame_length, sizeof_FrameHeader. lia. }
  pose proof (framePhysicalLength_bounds (frame_length f) ltac:(lia)) as [? Hmod].
  unfold frame_stride in *.
  pose proof (Z.div_mod (framePhysicalLength (frame_length f)) 64 ltac:(lia)).
  repeat split; try done; lia.
Qed.

Lemma frame_wf_stride f :
  frame_wf f →
  32 ≤ frame_length f ≤ frame_stride f ∧ 64 ≤ frame_stride f ∧ frame_stride f `mod` 64 = 0.
Proof. intros (?&?&?&?&?&?&?). by apply frame_stride_bounds. Qed.

(** A frame is its bytes. *)
Lemma frame_at_agree w w' pa o f :
  agree w w' pa o (frame_length f) → frame_at w pa o f → frame_at w' pa o f.
Proof.
  intros Hag. unfold frame_at, frame_length, sizeof_FrameHeader, off_length, off_msg_type,
    off_flags, off_sequence, off_gen_time, off_event_time in *.
  rewrite !(fle_agree w w') by (eapply agree_sub; [done|lia..]).
  by rewrite (fbytes_agree w w') by (eapply agree_sub; [done|lia..]).
Qed.

Lemma laid_le w pa o fs e : laid w pa o fs e → o ≤ e.
Proof.
  revert o; induction fs as [|f fs IH]; simpl; intros o; [lia|].
  intros (?&Hwf&Hl). apply IH in Hl. apply frame_wf_stride in Hwf. lia.
Qed.

Lemma laid_agree w w' pa o fs e :
  agree w w' pa o (e - o) → laid w pa o fs e → laid w' pa o fs e.
Proof.
  revert o; induction fs as [|f fs IH]; simpl; intros o Hag; [done|].
  intros (Hf&Hwf&Hl). pose proof (frame_wf_stride f Hwf). pose proof (laid_le _ _ _ _ _ Hl).
  refine (conj _ (conj Hwf _)).
  - eapply frame_at_agree; [|done]. eapply agree_sub; [done|lia..].
  - apply IH; [|done]. eapply agree_sub; [done|lia..].
Qed.

Lemma laid_snoc w pa o fs e f :
  laid w pa o fs e → frame_at w pa e f → frame_wf f →
  laid w pa o (fs ++ [f]) (e + frame_stride f).
Proof.
  revert o; induction fs as [|g fs IH]; simpl; intros o Hl Hf Hwf; [by subst|].
  destruct Hl as (?&?&?). eauto.
Qed.

(** Where each frame of a run is. *)
Definition frames_span (fs : list frame) : Z := foldr (λ f n, frame_stride f + n) 0 fs.

Lemma laid_span w pa o fs e : laid w pa o fs e → e = o + frames_span fs.
Proof.
  revert o; induction fs as [|f fs IH]; simpl; intros o; [lia|].
  intros (_&_&Hl). apply IH in Hl. lia.
Qed.

Lemma laid_app w pa o fs1 fs2 e :
  laid w pa o (fs1 ++ fs2) e ↔
  laid w pa o fs1 (o + frames_span fs1) ∧ laid w pa (o + frames_span fs1) fs2 e.
Proof.
  revert o; induction fs1 as [|f fs1 IH]; simpl; intros o.
  - rewrite Z.add_0_r. by split; [intros|intros [_ ?]].
  - rewrite IH, !Z.add_assoc. tauto.
Qed.

Lemma frames_span_app fs1 fs2 : frames_span (fs1 ++ fs2) = frames_span fs1 + frames_span fs2.
Proof. induction fs1 as [|f fs1 IH]; simpl; lia. Qed.
