(* ===== verification/Hash.v ===== *)
(** * Hash: MurmurHash3 and the hashing helpers

    [src/src/MurMurHash3.cpp] (all three variants) and
    [src/include/revoq/HashUtils.h].  Keys are lists of bytes; the [int len]
    argument is passed separately, as the C interface does.  Reading past the
    end of the key (undefined behaviour there) yields 0 here and no theorem
    relies on it.  The theorems say what a 32-bit identifier computed this way
    can be trusted for: every step is a bijection of the 32-bit state, so keys
    of equal length that differ in a single block never collide. *)

From S2P Require Import Prelude.

(** ** Blocks and rotations *)

Definition byte_at (data : list Z) (i : Z) : Z :=
  if i <? 0 then 0 else default 0 (data !! Z.to_nat i).

Definition rotl32 (x r : Z) : Z := Z.lor (u32 (x ≪ r)) (x ≫ (32 - r)).
Definition rotl64 (x r : Z) : Z := Z.lor (u64 (x ≪ r)) (x ≫ (64 - r)).

(** [getblock32 data base i] is [p[i]] for [p = (const uint32_t * )(data + base)]. *)
Definition getblock32 (data : list Z) (base i : Z) : Z :=
  little_endian_to_Z 8 ((λ j, byte_at data (base + 4 * i + j)) <$> seqZ 0 4).
Definition getblock64 (data : list Z) (base i : Z) : Z :=
  little_endian_to_Z 8 ((λ j, byte_at data (base + 8 * i + j)) <$> seqZ 0 8).

Definition fmix32 (h : Z) : Z :=
  let h := Z.lxor h (h ≫ 16) in
  let h := u32 (h * 0x85ebca6b) in
  let h := Z.lxor h (h ≫ 13) in
  let h := u32 (h * 0xc2b2ae35) in
  Z.lxor h (h ≫ 16).

Definition fmix64 (k : Z) : Z :=
  let k := Z.lxor k (k ≫ 33) in
  let k := u64 (k * 0xff51afd7ed558ccd) in
  let k := Z.lxor k (k ≫ 33) in
  let k := u64 (k * 0xc4ceb9fe1a85ec53) in
  Z.lxor k (k ≫ 33).

(** The scrambling of one word before it is mixed in: [k *= a; k = ROTL32(k,
    r); k *= b]. *)
Definition scramble32 (a r b k : Z) : Z := u32 (rotl32 (u32 (k * a)) r * b).
Definition scramble64 (a r b k : Z) : Z := u64 (rotl64 (u64 (k * a)) r * b).

(** ** [MurmurHash3_x86_32] *)

Module X86_32.
Definition c1 : Z := 0xcc9e2d51.
Definition c2 : Z := 0x1b873593.

(** One iteration of the body loop. *)
Definition round (h1 k1 : Z) : Z :=
  let h1 := Z.lxor h1 (scramble32 c1 15 c2 k1) in
  let h1 := rotl32 h1 13 in
  u32 (h1 * 5 + 0xe6546b64).

(** [for (int i = -nblocks; i; i++)], [n] iterations being left. *)
Fixpoint body (data : list Z) (base : Z) (n : nat) (i h1 : Z) : Z :=
  match n with
  | O => h1
  | S n => body data base n (i + 1) (round h1 (getblock32 data base i))
  end.

(** The [switch (len & 3)]; each case falls through to the next. *)
Definition tail_word (data : list Z) (base len : Z) : Z :=
  let k1 := 0 in
  let k1 := if 3 <=? Z.land len 3 then Z.lxor k1 (byte_at data (base + 2) ≪ 16) else k1 in
  let k1 := if 2 <=? Z.land len 3 then Z.lxor k1 (byte_at data (base + 1) ≪ 8) else k1 in
  if 1 <=? Z.land len 3 then Z.lxor k1 (byte_at data base) else k1.

Definition tail (data : list Z) (base len h1 : Z) : Z :=
  if 1 <=? Z.land len 3
  then Z.lxor h1 (scramble32 c1 15 c2 (tail_word data base len)) else h1.

Definition finalize (len h1 : Z) : Z := fmix32 (Z.lxor h1 (u32 len)).
End X86_32.

Definition MurmurHash3_x86_32 (data : list Z) (len seed : Z) : Z :=
  let nblocks := Z.quot len 4 in
  let base := nblocks * 4 in
  let h1 := X86_32.body data base (Z.to_nat nblocks) (- nblocks) seed in
  X86_32.finalize len (X86_32.tail data base len h1).

(** ** [MurmurHash3_x86_128] *)

Module X86_128.
Definition c1 : Z := 0x239b961b.
Definition c2 : Z := 0xab0e9789.
Definition c3 : Z := 0x38b34ae5.
Definition c4 : Z := 0xa1e38b93.

Record state := State { h1 : Z; h2 : Z; h3 : Z; h4 : Z }.

Definition round (s : state) (k1 k2 k3 k4 : Z) : state :=
  let a := Z.lxor (h1 s) (scramble32 c1 15 c2 k1) in
  let a := u32 (u32 (rotl32 a 19 + h2 s) * 5 + 0x561ccd1b) in
  let b := Z.lxor (h2 s) (scramble32 c2 16 c3 k2) in
  let b := u32 (u32 (rotl32 b 17 + h3 s) * 5 + 0x0bcaa747) in
  let c := Z.lxor (h3 s) (scramble32 c3 17 c4 k3) in
  let c := u32 (u32 (rotl32 c 15 + h4 s) * 5 + 0x96cd1c35) in
  let d := Z.lxor (h4 s) (scramble32 c4 18 c1 k4) in
  let d := u32 (u32 (rotl32 d 13 + a) * 5 + 0x32ac3b17) in
  State a b c d.

Fixpoint body (data : list Z) (base : Z) (n : nat) (i : Z) (s : state) : state :=
  match n with
  | O => s
  | S n =>
      body data base n (i + 1)
        (round s (getblock32 data base (i * 4 + 0)) (getblock32 data base (i * 4 + 1))
           (getblock32 data base (i * 4 + 2)) (getblock32 data base (i * 4 + 3)))
  end.

(** The cases [lo+1 .. hi] of the switch that feed one word: the byte of
    case [c] is shifted by [8 * (c - lo - 1)]. *)
Definition tail_word (data : list Z) (base r lo hi : Z) : Z :=
  foldr (λ c k, if c <=? r
                then Z.lxor k (u32 (byte_at data (base + c - 1) ≪ (8 * (c - lo - 1)))) else k)
    0 (seqZ (lo + 1) (hi - lo)).

Definition tail (data : list Z) (base len : Z) (s : state) : state :=
  let r := Z.land len 15 in
  State
    (if 1 <=? r then Z.lxor (h1 s) (scramble32 c1 15 c2 (tail_word data base r 0 4)) else h1 s)
    (if 5 <=? r then Z.lxor (h2 s) (scramble32 c2 16 c3 (tail_word data base r 4 8)) else h2 s)
    (if 9 <=? r then Z.lxor (h3 s) (scramble32 c3 17 c4 (tail_word data base r 8 12)) else h3 s)
    (if 13 <=? r then Z.lxor (h4 s) (scramble32 c4 18 c1 (tail_word data base r 12 15)) else h4 s).

Definition mix (s : state) : state :=
  let a := u32 (u32 (u32 (h1 s + h2 s) + h3 s) + h4 s) in
  State a (u32 (h2 s + a)) (u32 (h3 s + a)) (u32 (h4 s + a)).

Definition finalize (len : Z) (s : state) : state :=
  let l := u32 len in
  let s := mix (State (Z.lxor (h1 s) l) (Z.lxor (h2 s) l) (Z.lxor (h3 s) l) (Z.lxor (h4 s) l)) in
  mix (State (fmix32 (h1 s)) (fmix32 (h2 s)) (fmix32 (h3 s)) (fmix32 (h4 s))).
End X86_128.

Definition MurmurHash3_x86_128 (data : list Z) (len seed : Z) : list Z :=
  let nblocks := Z.quot len 16 in
  let base := nblocks * 16 in
  let s := X86_128.body data base (Z.to_nat nblocks) (- nblocks)
             (X86_128.State seed seed seed seed) in
  let s := X86_128.finalize len (X86_128.tail data base len s) in
  [X86_128.h1 s; X86_128.h2 s; X86_128.h3 s; X86_128.h4 s].

(** ** [MurmurHash3_x64_128] *)

Module X64_128.
Definition c1 : Z := 0x87c37b91114253d5.
Definition c2 : Z := 0x4cf5ad432745937f.

Definition round (h : Z * Z) (k1 k2 : Z) : Z * Z :=
  let '(h1, h2) := h in
  let h1 := Z.lxor h1 (scramble64 c1 31 c2 k1) in
  let h1 := u64 (u64 (rotl64 h1 27 + h2) * 5 + 0x52dce729) in
  let h2 := Z.lxor h2 (scramble64 c2 33 c1 k2) in
  let h2 := u64 (u64 (rotl64 h2 31 + h1) * 5 + 0x38495ab5) in
  (h1, h2).

(** [for (int i = 0; i < nblocks; i++)]: here the blocks are counted from
    the start of the key. *)
Fixpoint body (data : list Z) (n : nat) (i : Z) (h : Z * Z) : Z * Z :=
  match n with
  | O => h
  | S n =>
      body data n (i + 1)
        (round h (getblock64 data 0 (i * 2 + 0)) (getblock64 data 0 (i * 2 + 1)))
  end.

Definition tail_word (data : list Z) (base r lo hi : Z) : Z :=
  foldr (λ c k, if c <=? r
                then Z.lxor k (byte_at data (base + c - 1) ≪ (8 * (c - lo - 1))) else k)
    0 (seqZ (lo + 1) (hi - lo)).

Definition tail (data : list Z) (base len : Z) (h : Z * Z) : Z * Z :=
  let '(h1, h2) := h in
  let r := Z.land len 15 in
  (if 1 <=? r then Z.lxor h1 (scramble64 c1 31 c2 (tail_word data base r 0 8)) else h1,
   if 9 <=? r then Z.lxor h2 (scramble64 c2 33 c1 (tail_word data base r 8 15)) else h2).

Definition finalize (len : Z) (h : Z * Z) : Z * Z :=
  let '(h1, h2) := h in
  let h1 := Z.lxor h1 (u64 len) in
  let h2 := Z.lxor h2 (u64 len) in
  let h1 := u64 (h1 + h2) in
  let h2 := u64 (h2 + h1) in
  let h1 := fmix64 h1 in
  let h2 := fmix64 h2 in
  let h1 := u64 (h1 + h2) in
  let h2 := u64 (h2 + h1) in
  (h1, h2).
End X64_128.

Definition MurmurHash3_x64_128 (data : list Z) (len seed : Z) : list Z :=
  let nblocks := Z.quot len 16 in
  let base := nblocks * 16 in
  let h := X64_128.body data (Z.to_nat nblocks) 0 (seed, seed) in
  let '(h1, h2) := X64_128.finalize len (X64_128.tail data base len h) in
  [h1; h2].

(** ** [HashUtils] *)

Definition fnv1a_step (hash : Z) (c : ascii) : Z :=
  u32 (Z.lxor hash (u8 (chr c)) * 16777619).
Definition fnv1a_32 (s : str) : Z := foldl fnv1a_step 2166136261 s.

Definition hash32 (key : list Z) (length seed : Z) : Z :=
  MurmurHash3_x86_32 key length seed.

(** [static_cast<int32_t>(key.length())] is where a key of 2 GiB wraps. *)
Definition hashStr32 (key : str) (seed : Z) : Z :=
  hash32 (chr <$> key) (s32 (Z.of_nat (length key))) seed.
Definition hashCStr32 (key : list Z) (length seed : Z) : Z :=
  hash32 key (s32 length) seed.

(** ** Lemmas: the steps are injective *)

Lemma in_u_lxor w a b : 0 ≤ w → in_u w a → in_u w b → in_u w (Z.lxor a b).
Proof.
  unfold in_u. intros Hw Ha Hb.
  assert (∀ z, 0 ≤ z < 2 ^ w → Z.land z (Z.ones w) = z) as Hland.
  { intros z ?. rewrite Z.land_ones by done. by apply Z.mod_small. }
  assert (Z.lxor a b = Z.lxor a b `mod` 2 ^ w) as ->.
  { rewrite <-Z.land_ones by done. apply Z.bits_inj'. intros i Hi.
    rewrite Z.land_spec, !Z.lxor_spec, <-(Hland a Ha), <-(Hland b Hb), !Z.land_spec.
    by destruct (Z.testbit a i), (Z.testbit b i), (Z.testbit (Z.ones w) i). }
  apply Z.mod_pos_bound. lia.
Qed.

Lemma in_u_shiftr w a r : 0 ≤ w → 0 ≤ r → in_u w a → in_u w (a ≫ r).
Proof.
  unfold in_u. intros Hw Hr Ha. rewrite Z.shiftr_div_pow2 by done.
  assert (0 < 2 ^ r) by lia.
  split; [apply Z.div_pos; lia|]. apply Z.div_lt_upper_bound; nia.
Qed.

(** [x ^ (x >> r)] loses nothing: the difference of two preimages would be its
    own shift. *)
Lemma xorshift_inj w r a b :
  0 ≤ w → 0 < r → in_u w a → in_u w b →
  Z.lxor a (a ≫ r) = Z.lxor b (b ≫ r) → a = b.
Proof.
  intros Hw Hr Ha Hb Heq. set (c := Z.lxor a b).
  assert (c = c ≫ r) as Hc.
  { unfold c. rewrite Z.shiftr_lxor. apply Z.lxor_eq.
    rewrite Z.lxor_assoc, (Z.lxor_comm b), Z.lxor_assoc, <-Z.lxor_assoc, (Z.lxor_comm (b ≫ r)).
    rewrite Heq. apply Z.lxor_nilpotent. }
  assert (in_u w c) as [Hc0 _] by by apply in_u_lxor.
  rewrite Z.shiftr_div_pow2 in Hc by lia.
  assert (2 ^ 1 ≤ 2 ^ r) as H2 by (apply Z.pow_le_mono_r; lia).
  assert (c = 0) as H0.
  { destruct (decide (c = 0)) as [|Hne]; [done|].
    assert (c / 2 ^ r < c) by (apply Z.div_lt; lia). lia. }
  by apply Z.lxor_eq.
Qed.

Lemma mul_odd_inj w c ci a b :
  0 ≤ w → wrap w (c * ci) = 1 → in_u w a → in_u w b →
  wrap w (a * c) = wrap w (b * c) → a = b.
Proof.
  unfold wrap. intros Hw Hci Ha Hb Heq.
  assert (∀ z, in_u w z → ((z * c) `mod` 2 ^ w * ci) `mod` 2 ^ w = z) as Hinv.
  { intros z Hz. rewrite Zmult_mod_idemp_l, <-Z.mul_assoc, <-Zmult_mod_idemp_r, Hci, Z.mul_1_r.
    by apply Z.mod_small. }
  rewrite <-(Hinv a Ha), <-(Hinv b Hb). by rewrite Heq.
Qed.

Lemma add_const_inj w c a b :
  in_u w a → in_u w b → wrap w (a + c) = wrap w (b + c) → a = b.
Proof.
  unfold wrap, in_u. intros Ha Hb Heq.
  rewrite <-(Z.mod_small a (2 ^ w)), <-(Z.mod_small b (2 ^ w)) by done.
  replace a with (a + c - c) by lia. replace b with (b + c - c) by lia.
  by rewrite <-(Zminus_mod_idemp_l (a + c)), <-(Zminus_mod_idemp_l (b + c)), Heq.
Qed.

(** A rotation swaps the two parts of the word. *)
Lemma rotl32_split x r :
  0 < r < 32 → in_u 32 x →
  rotl32 x r = x `mod` 2 ^ (32 - r) * 2 ^ r + x / 2 ^ (32 - r).
Proof.
  intros Hr Hx. unfold rotl32, wrap.
  assert (2 ^ 32 = 2 ^ (32 - r) * 2 ^ r) as E32.
  { rewrite <-Z.pow_add_r by lia. f_equal. lia. }
  assert ((x ≪ r) `mod` 2 ^ 32 = (x `mod` 2 ^ (32 - r)) ≪ r) as ->.
  { rewrite !Z.shiftl_mul_pow2 by lia. rewrite E32.
    rewrite Z.mul_mod_distr_r by lia. done. }
  rewrite (Z.shiftr_div_pow2 x) by lia.
  assert (0 ≤ x / 2 ^ (32 - r) < 2 ^ r).
  { destruct Hx. split; [apply Z.div_pos; lia|]. apply Z.div_lt_upper_bound; lia. }
  rewrite <-(Z.shiftl_mul_pow2 _ r) by lia.
  rewrite <-Z.lxor_lor; [symmetry; apply Z.add_nocarry_lxor|]; apply Z.bits_inj'; intros i Hi;
    rewrite Z.land_spec, Z.bits_0, Z.shiftl_spec by done;
    (destruct (decide (i < r)); [by rewrite Z.testbit_neg_r by lia|]);
    apply andb_false_intro2, (Z.bits_above_log2);
    [lia| | lia |];
    (destruct (decide (x / 2 ^ (32 - r) = 0)) as [->|];
      [simpl; lia|apply Z.log2_lt_pow2; [lia|]];
      pose proof (Z.pow_le_mono_r 2 r i); lia).
Qed.

Lemma rotl32_range x r : 0 < r < 32 → in_u 32 x → in_u 32 (rotl32 x r).
Proof.
  intros Hr Hx. rewrite rotl32_split by done. destruct Hx.
  assert (2 ^ 32 = 2 ^ (32 - r) * 2 ^ r) as E32.
  { rewrite <-Z.pow_add_r by lia. f_equal. lia. }
  assert (0 ≤ x / 2 ^ (32 - r) < 2 ^ r).
  { split; [apply Z.div_pos; lia|]. apply Z.div_lt_upper_bound; lia. }
  pose proof (Z.mod_pos_bound x (2 ^ (32 - r)) ltac:(lia)). unfold in_u. nia.
Qed.

Lemma rotl32_inj r a b :
  0 < r < 32 → in_u 32 a → in_u 32 b → rotl32 a r = rotl32 b r → a = b.
Proof.
  intros Hr Ha Hb. rewrite !rotl32_split by done. destruct Ha, Hb.
  assert (2 ^ 32 = 2 ^ (32 - r) * 2 ^ r) as E32.
  { rewrite <-Z.pow_add_r by lia. f_equal. lia. }
  assert (∀ x, 0 ≤ x < 2 ^ 32 → 0 ≤ x / 2 ^ (32 - r) < 2 ^ r) as Hq.
  { intros. split; [apply Z.div_pos; lia|]. apply Z.div_lt_upper_bound; lia. }
  pose proof (Hq a ltac:(lia)). pose proof (Hq b ltac:(lia)).
  pose proof (Z.div_mod a (2 ^ (32 - r)) ltac:(lia)).
  pose proof (Z.div_mod b (2 ^ (32 - r)) ltac:(lia)). intros Heq.
  assert (a `mod` 2 ^ (32 - r) = b `mod` 2 ^ (32 - r)) as Em by nia.
  assert (a / 2 ^ (32 - r) = b / 2 ^ (32 - r)) as Ed by nia. congruence.
Qed.

Create HintDb hash discriminated.
#[local] Hint Extern 1 (0 ≤ _) => lia : hash.
#[local] Hint Extern 1 (0 < _) => lia : hash.
#[local] Hint Extern 1 (0 < _ < 32) => lia : hash.
#[local] Hint Resolve wrap_range in_u_lxor in_u_shiftr rotl32_range : hash.

Lemma fmix32_inj a b : in_u 32 a → in_u 32 b → fmix32 a = fmix32 b → a = b.
Proof.
  intros Ha Hb Heq. unfold fmix32 in Heq.
  apply (xorshift_inj 32) in Heq; [|by auto 6 with hash..].
  apply (mul_odd_inj 32 0xc2b2ae35 0x7ed1b41d) in Heq; [|by auto 6 with hash..].
  apply (xorshift_inj 32) in Heq; [|by auto 6 with hash..].
  apply (mul_odd_inj 32 0x85ebca6b 0xa5cb9243) in Heq; [|by auto 6 with hash..].
  by apply (xorshift_inj 32) in Heq; [|by auto 6 with hash..].
Qed.

Lemma fmix32_range h : in_u 32 h → in_u 32 (fmix32 h).
Proof. intros. unfold fmix32. auto 10 with hash. Qed.

Lemma scramble32_range a r b k : in_u 32 (scramble32 a r b k).
Proof. unfold scramble32. auto with hash. Qed.
#[local] Hint Resolve scramble32_range fmix32_range : hash.

Lemma lxor_inj_l a b c : Z.lxor c a = Z.lxor c b → a = b.
Proof.
  intros Heq. apply Z.lxor_eq. rewrite <-(Z.lxor_0_l (Z.lxor a b)).
  rewrite <-(Z.lxor_nilpotent c) at 1. rewrite Z.lxor_assoc, <-(Z.lxor_assoc c a b), Heq.
  rewrite Z.lxor_assoc, Z.lxor_nilpotent, Z.lxor_0_r. apply Z.lxor_nilpotent.
Qed.

Lemma lxor_inj_r a b c : Z.lxor a c = Z.lxor b c → a = b.
Proof. rewrite !(Z.lxor_comm _ c). apply lxor_inj_l. Qed.

(** The constants of the 32-bit variant are odd; their inverses are listed. *)
Lemma scramble_x86_32_inj a b :
  in_u 32 a → in_u 32 b →
  scramble32 X86_32.c1 15 X86_32.c2 a = scramble32 X86_32.c1 15 X86_32.c2 b → a = b.
Proof.
  intros Ha Hb Heq. unfold scramble32 in Heq.
  apply (mul_odd_inj 32 X86_32.c2 0x56ed309b) in Heq; [|by auto 6 with hash..].
  apply (rotl32_inj 15) in Heq; [|by auto 6 with hash..].
  by apply (mul_odd_inj 32 X86_32.c1 0xdee13bb1) in Heq; [|by auto 6 with hash..].
Qed.

Section x86_32_round.
Import X86_32.

Lemma round_range h k : in_u 32 (round h k).
Proof. unfold round. auto with hash. Qed.

Lemma round_inner_inj a b :
  in_u 32 a → in_u 32 b →
  u32 (rotl32 a 13 * 5 + 0xe6546b64) = u32 (rotl32 b 13 * 5 + 0xe6546b64) → a = b.
Proof.
  intros Ha Hb Heq. unfold wrap in Heq.
  rewrite <-(Zplus_mod_idemp_l (rotl32 a 13 * 5)), <-(Zplus_mod_idemp_l (rotl32 b 13 * 5)) in Heq.
  apply (add_const_inj 32) in Heq; [|by apply wrap_range..].
  apply (mul_odd_inj 32 5 0xcccccccd) in Heq; [|by auto with hash..].
  by apply (rotl32_inj 13) in Heq; [|by auto with hash..].
Qed.

(** A round is injective in the running hash and in the block it mixes in. *)
Lemma round_inj_h a b k :
  in_u 32 a → in_u 32 b → round a k = round b k → a = b.
Proof.
  intros Ha Hb Heq. unfold round in Heq.
  apply round_inner_inj in Heq; [|by auto with hash..]. by apply lxor_inj_r in Heq.
Qed.

Lemma round_inj_k h a b :
  in_u 32 h → in_u 32 a → in_u 32 b → round h a = round h b → a = b.
Proof.
  intros Hh Ha Hb Heq. unfold round in Heq.
  apply round_inner_inj in Heq; [|by auto with hash..].
  apply lxor_inj_l in Heq. by apply scramble_x86_32_inj.
Qed.

Lemma rounds_range ks h : in_u 32 h → in_u 32 (foldl round h ks).
Proof.
  revert h; induction ks as [|k ks IH]; intros h Hh; [done|]. apply IH, round_range.
Qed.

Lemma rounds_inj ks a b :
  in_u 32 a → in_u 32 b → foldl round a ks = foldl round b ks → a = b.
Proof.
  revert a b; induction ks as [|k ks IH]; intros a b Ha Hb Heq; [done|].
  apply IH in Heq; [|apply round_range..]. by apply round_inj_h in Heq.
Qed.

Lemma body_foldl data base n i h :
  body data base n i h = foldl round h (getblock32 data base <$> seqZ i (Z.of_nat n)).
Proof.
  revert i h; induction n as [|n IH]; intros i h; [done|].
  cbn [body]. rewrite IH. rewrite (seqZ_cons i) by lia. cbn [fmap list_fmap foldl].
  do 3 f_equal; lia.
Qed.

Lemma finalize_tail_inj len a b :
  in_u 32 a → in_u 32 b → finalize len a = finalize len b → a = b.
Proof.
  intros Ha Hb Heq. unfold finalize in Heq.
  apply fmix32_inj in Heq; [|by auto with hash..]. by apply lxor_inj_r in Heq.
Qed.
End x86_32_round.

(** ** Lemmas: one block of the key *)

Section one_block.
Context (pre post : list Z).

Lemma byte_at_block blk i :
  byte_at (pre ++ blk ++ post) (Z.of_nat (length pre) + Z.of_nat i) =
    default 0 ((blk ++ post) !! i).
Proof.
  unfold byte_at. destruct (Z.ltb_spec (Z.of_nat (length pre) + Z.of_nat i) 0); [lia|].
  rewrite lookup_app_r by lia. do 2 f_equal. lia.
Qed.

(** Outside the block the two keys agree. *)
Lemma byte_at_outside blk1 blk2 i :
  length blk1 = length blk2 →
  (i < Z.of_nat (length pre) ∨ Z.of_nat (length pre + length blk1) ≤ i) →
  byte_at (pre ++ blk1 ++ post) i = byte_at (pre ++ blk2 ++ post) i.
Proof.
  intros Hlen Hi. unfold byte_at. destruct (Z.ltb_spec i 0); [done|]. f_equal.
  destruct Hi as [Hi|Hi].
  - by rewrite !lookup_app_l by lia.
  - rewrite !(lookup_app_r pre), !lookup_app_r by lia. do 2 f_equal. lia.
Qed.

Lemma getblock32_outside blk1 blk2 base i :
  length blk1 = length blk2 →
  (base + 4 * i + 4 ≤ Z.of_nat (length pre) ∨ Z.of_nat (length pre + length blk1) ≤ base + 4 * i) →
  getblock32 (pre ++ blk1 ++ post) base i = getblock32 (pre ++ blk2 ++ post) base i.
Proof.
  intros Hlen Hi. unfold getblock32. f_equal. apply list_fmap_ext. intros k j Hj.
  apply lookup_seqZ in Hj as [-> Hj]. apply byte_at_outside; [done|lia].
Qed.

Lemma getblock32_block blk base i :
  length blk = 4%nat → base + 4 * i = Z.of_nat (length pre) →
  getblock32 (pre ++ blk ++ post) base i = little_endian_to_Z 8 blk.
Proof.
  intros Hlen Hi. unfold getblock32. rewrite Hi. f_equal. apply list_eq. intros k.
  rewrite list_lookup_fmap. destruct (decide (k < 4)%nat).
  - rewrite lookup_seqZ_lt by lia. simpl. rewrite Z.add_0_l, byte_at_block.
    rewrite lookup_app_l by lia.
    by destruct (lookup_lt_is_Some_2 blk k ltac:(lia)) as [b ->].
  - rewrite lookup_seqZ_ge by lia. by rewrite lookup_ge_None_2 by lia.
Qed.
End one_block.

Lemma le_bytes_inj bs1 bs2 :
  Forall (in_u 8) bs1 → Forall (in_u 8) bs2 → length bs1 = length bs2 →
  little_endian_to_Z 8 bs1 = little_endian_to_Z 8 bs2 → bs1 = bs2.
Proof.
  intros H1 H2 Hlen Heq.
  rewrite <-(Z_to_little_endian_to_Z (Z.of_nat (length bs1)) 8 bs1) by (done || lia).
  rewrite <-(Z_to_little_endian_to_Z (Z.of_nat (length bs2)) 8 bs2) by (done || lia).
  by rewrite Heq, Hlen.
Qed.

Lemma le_bytes_range bs :
  length bs = 4%nat → Forall (in_u 8) bs → in_u 32 (little_endian_to_Z 8 bs).
Proof.
  intros Hlen Hbs. pose proof (little_endian_to_Z_bound 8 bs ltac:(lia) Hbs) as H.
  by rewrite Hlen in H.
Qed.

Lemma lxor_shift_add a b k :
  0 ≤ k → in_u k b → Z.lxor (a ≪ k) b = a * 2 ^ k + b.
Proof.
  intros Hk Hb. rewrite <-Z.shiftl_mul_pow2 by done. symmetry. apply Z.add_nocarry_lxor.
  apply Z.bits_inj'. intros i Hi. rewrite Z.land_spec, Z.bits_0, Z.shiftl_spec by done.
  destruct (decide (i < k)); [by rewrite Z.testbit_neg_r by lia|].
  apply andb_false_intro2. rewrite <-(Z.mod_small b (2 ^ k)) by done.
  by rewrite Z.mod_pow2_bits_high by lia.
Qed.

(** The switch assembles the little-endian word of the remaining bytes. *)
Lemma tail_word_le pre t len :
  Forall (in_u 8) t → (length t < 4)%nat → Z.land len 3 = Z.of_nat (length t) →
  X86_32.tail_word (pre ++ t ++ []) (Z.of_nat (length pre)) len =
    foldr (λ b v, v * 2 ^ 8 + b) 0 t.
Proof.
  intros Ht Hlt Hlen. unfold X86_32.tail_word. rewrite Hlen.
  pose proof (byte_at_block pre [] t 0) as B0. pose proof (byte_at_block pre [] t 1) as B1.
  pose proof (byte_at_block pre [] t 2) as B2.
  rewrite Z.add_0_r in B0. change (Z.of_nat 1) with 1 in B1. change (Z.of_nat 2) with 2 in B2.
  rewrite B0, B1, B2, !app_nil_r.
  destruct t as [|b0 [|b1 [|b2 [|]]]]; simpl in *; [done|..|lia];
    repeat match goal with H : Forall _ (_ :: _) |- _ => apply Forall_cons in H as [? H] end;
    rewrite ?Z.lxor_0_l; [done| |].
  - by rewrite lxor_shift_add by (done || lia).
  - replace (b2 ≪ 16) with ((b2 ≪ 8) ≪ 8) by (rewrite Z.shiftl_shiftl by lia; done).
    rewrite <-Z.shiftl_lxor, !lxor_shift_add by (done || lia). lia.
Qed.

Lemma base256_inj t1 t2 :
  Forall (in_u 8) t1 → Forall (in_u 8) t2 → length t1 = length t2 →
  foldr (λ b v, v * 2 ^ 8 + b) 0 t1 = foldr (λ b v, v * 2 ^ 8 + b) 0 t2 → t1 = t2.
Proof.
  intros H1; revert t2; induction H1 as [|b1 t1 Hb1 H1 IH]; intros [|b2 t2] H2 Hlen Heq;
    [done..|]. apply Forall_cons in H2 as [Hb2 H2]. simpl in *. unfold in_u in *.
  assert (b1 = b2) as -> by lia. f_equal. apply IH; [done|lia..].
Qed.

Lemma base256_range t :
  Forall (in_u 8) t → (length t < 4)%nat → in_u 32 (foldr (λ b v, v * 2 ^ 8 + b) 0 t).
Proof.
  intros Ht Hlt. unfold in_u in *.
  destruct t as [|b0 [|b1 [|b2 [|]]]]; simpl in *;
    repeat match goal with H : Forall _ (_ :: _) |- _ => apply Forall_cons in H as [? H] end;
    lia.
Qed.

Section one_block_hash.
Context (pre post blk1 blk2 : list Z) (seed : Z).
Context (Hseed : in_u 32 seed).
Context (Hb1 : Forall (in_u 8) blk1) (Hb2 : Forall (in_u 8) blk2).
Context (Hlen : length blk1 = length blk2).
Context (Hpre : (Z.of_nat (length pre)) `mod` 4 = 0).

Let data1 := pre ++ blk1 ++ post.
Let data2 := pre ++ blk2 ++ post.
Let len := Z.of_nat (length data1).
Let base := Z.quot len 4 * 4.

Lemma quot_div : Z.quot len 4 = len / 4.
Proof. apply Z.quot_div_nonneg; lia. Qed.

Lemma base_bounds : base ≤ len < base + 4.
Proof.
  unfold base. rewrite quot_div.
  pose proof (Z.div_mod len 4 ltac:(lia)). pose proof (Z.mod_pos_bound len 4 ltac:(lia)). lia.
Qed.

Lemma pre_blocks : Z.of_nat (length pre) = 4 * (Z.of_nat (length pre) / 4).
Proof. pose proof (Z.div_mod (Z.of_nat (length pre)) 4 ltac:(lia)). lia. Qed.

(** The block is a whole word: its round is the only one that differs. *)
Lemma word_case :
  length blk1 = 4%nat →
  MurmurHash3_x86_32 data1 len seed = MurmurHash3_x86_32 data2 len seed → blk1 = blk2.
Proof.
  intros H4 Heq. pose proof base_bounds as Hb. pose proof pre_blocks as Hp.
  set (j := Z.of_nat (length pre) / 4) in *.
  assert (len = Z.of_nat (length pre) + 4 + Z.of_nat (length post)) as Hl.
  { unfold len, data1. rewrite !length_app. lia. }
  unfold MurmurHash3_x86_32 in Heq. fold base in Heq. rewrite !body_foldl in Heq.
  set (n := Z.quot len 4) in *. unfold base in *. rewrite Z2Nat.id in Heq by lia.
  assert (seqZ (- n) n = seqZ (- n) j ++ (- n + j) :: seqZ (Z.succ (- n + j)) (n - j - 1)) as Hseq.
  { replace n with (j + (n - j)) at 2 by lia.
    rewrite seqZ_app by lia. f_equal. by rewrite seqZ_cons by lia. }
  assert (∀ i, i ≠ - n + j → getblock32 data1 (n * 4) i = getblock32 data2 (n * 4) i) as Hout.
  { intros i Hi. unfold data1, data2. apply getblock32_outside; [done|]. lia. }
  rewrite Hseq, !fmap_app, !fmap_cons, !foldl_app in Heq. cbn [foldl] in Heq.
  rewrite (list_fmap_ext (getblock32 data2 (n * 4)) (getblock32 data1 (n * 4))
    (seqZ (- n) j)) in Heq by
    (intros ?? Hx; apply lookup_seqZ in Hx; symmetry; apply Hout; lia).
  rewrite (list_fmap_ext (getblock32 data2 (n * 4)) (getblock32 data1 (n * 4))
    (seqZ (Z.succ (- n + j)) _)) in Heq by
    (intros ?? Hx; apply lookup_seqZ in Hx; symmetry; apply Hout; lia).
  unfold data1, data2 in Heq.
  rewrite !(getblock32_block pre post _ (n * 4) (- n + j)) in Heq by lia.
  fold data1 data2 in Heq.
  set (h := foldl X86_32.round seed _) in Heq.
  assert (in_u 32 h) as Hh by by apply rounds_range.
  assert (∀ x, X86_32.tail data2 (n * 4) len x = X86_32.tail data1 (n * 4) len x) as Htail.
  { intros x. unfold X86_32.tail, X86_32.tail_word, data1, data2.
    rewrite !(byte_at_outside pre post blk2 blk1) by lia. done. }
  rewrite Htail in Heq.
  assert (∀ x, in_u 32 x → in_u 32 (X86_32.tail data1 (n * 4) len x)) as Htr.
  { intros x Hx. unfold X86_32.tail. case_match; auto with hash. }
  assert (∀ k, in_u 32 (X86_32.round h k)) as Hrr by (intros; apply round_range).
  apply finalize_tail_inj in Heq; [|by apply Htr, rounds_range, Hrr..].
  unfold X86_32.tail in Heq.
  assert (∀ a b : Z, (if 1 <=? Z.land len 3
      then Z.lxor a (scramble32 X86_32.c1 15 X86_32.c2 (X86_32.tail_word data1 (n * 4) len)) else a)
      = (if 1 <=? Z.land len 3
      then Z.lxor b (scramble32 X86_32.c1 15 X86_32.c2 (X86_32.tail_word data1 (n * 4) len)) else b)
      → a = b) as Hcancel.
  { intros a b. case_match; [|done]. apply lxor_inj_r. }
  apply Hcancel, rounds_inj, round_inj_k, le_bytes_inj in Heq;
    first [done | apply le_bytes_range; congruence | by apply Hrr].
Qed.

(** The block is the incomplete last word: only the tail differs. *)
Lemma tail_case :
  (length blk1 < 4)%nat → post = [] →
  MurmurHash3_x86_32 data1 len seed = MurmurHash3_x86_32 data2 len seed → blk1 = blk2.
Proof.
  intros Hlt Hpost Heq. pose proof base_bounds as Hb. pose proof pre_blocks as Hp.
  assert (len = Z.of_nat (length pre) + Z.of_nat (length blk1)) as Hl.
  { unfold len, data1. rewrite !length_app, Hpost. simpl. lia. }
  assert (base = Z.of_nat (length pre)) as Hbase by (unfold base in *; lia).
  unfold MurmurHash3_x86_32 in Heq. fold base in Heq. rewrite !body_foldl in Heq.
  assert (∀ i, i < 0 → getblock32 data1 base i = getblock32 data2 base i) as Hout.
  { intros i Hi. unfold data1, data2. apply getblock32_outside; [done|]. lia. }
  set (n := Z.quot len 4) in *.
  rewrite (list_fmap_ext (getblock32 data2 base) (getblock32 data1 base)) in Heq by
    (intros ?? Hx; apply lookup_seqZ in Hx; symmetry; apply Hout; lia).
  set (h := foldl X86_32.round seed _) in Heq.
  assert (in_u 32 h) as Hh by by apply rounds_range.
  assert (Z.land len 3 = Z.of_nat (length blk1)) as Hland.
  { change 3 with (Z.ones 2). rewrite Z.land_ones by lia. change (2 ^ 2) with 4.
    rewrite Hl, Hp. rewrite Z.add_comm, Z.mul_comm, Z.mod_add by lia. apply Z.mod_small. lia. }
  unfold X86_32.tail, data1, data2 in Heq. rewrite Hbase, Hpost in Heq.
  rewrite !tail_word_le in Heq by (done || lia || congruence).
  destruct (Z.leb_spec 1 (Z.land len 3)) as [H1|H1].
  - pose proof (base256_range blk1 Hb1 ltac:(lia)). pose proof (base256_range blk2 Hb2 ltac:(lia)).
    apply finalize_tail_inj in Heq; [|by auto with hash..].
    apply lxor_inj_l, scramble_x86_32_inj, base256_inj in Heq; done.
  - destruct blk1, blk2; simpl in *; try done; lia.
Qed.
End one_block_hash.

(** MurmurHash3_x86_32 never collides on two keys of the same length that
    differ in a single aligned 4-byte block, or only in the trailing bytes
    after the last whole block, whatever the seed and the rest of the key. *)
Lemma murmur32_block_change pre blk1 blk2 post seed :
  in_u 32 seed → Forall (in_u 8) blk1 → Forall (in_u 8) blk2 →
  length blk1 = length blk2 → Z.of_nat (length pre) `mod` 4 = 0 →
  (length blk1 = 4%nat ∨ (length blk1 < 4)%nat ∧ post = []) →
  blk1 ≠ blk2 →
  let len := Z.of_nat (length (pre ++ blk1 ++ post)) in
  MurmurHash3_x86_32 (pre ++ blk1 ++ post) len seed ≠
    MurmurHash3_x86_32 (pre ++ blk2 ++ post) len seed.
Proof.
  intros ????? [?|[? ?]] Hne len Heq; apply Hne; [by eapply word_case|by eapply tail_case].
Qed.

Lemma murmur32_block_change_witness :
  MurmurHash3_x86_32 ([1; 2; 3; 4] ++ [5; 6; 7; 8] ++ [9]) 9 42 ≠
    MurmurHash3_x86_32 ([1; 2; 3; 4] ++ [5; 6; 7; 9] ++ [9]) 9 42.
Proof.
  apply (murmur32_block_change [1; 2; 3; 4] [5; 6; 7; 8] [5; 6; 7; 9] [9] 42).
  - unfold in_u. lia.
  - repeat constructor; unfold in_u; lia.
  - repeat constructor; unfold in_u; lia.
  - reflexivity.
  - reflexivity.
  - left. reflexivity.
  - discriminate.
Defined.
