(* ===== verification/Strings.v ===== *)
(** * Strings: the string utilities

    [src/include/revoq/StringUtils.hpp].  [std::string], [std::string_view]
    and [const char *] arguments are all byte lists; positions are [nat] and
    [npos] is [None].  Loops over positions keep the source's shape and carry
    a fuel the size of the input, which the theorems show is never used up.
    Capacity hints ([reserve]) have no effect on the value and are left out. *)

From S2P Require Import Prelude.

(** ** What [std::string] provides *)

Definition substr (s : str) (pos n : nat) : str := take n (drop pos s).
Definition substr_from (s : str) (pos : nat) : str := drop pos s.

Definition find_pred (P : ascii → bool) (s : str) (pos : nat) : option nat :=
  (λ kx, (pos + kx.1)%nat) <$> list_find P (drop pos s).

Definition find_char (s : str) (c : ascii) (pos : nat) : option nat :=
  find_pred (λ x, bool_decide (x = c)) s pos.
Definition find_first_of (s cs : str) (pos : nat) : option nat :=
  find_pred (λ x, bool_decide (x ∈ cs)) s pos.
Definition find_first_not_of (s cs : str) : option nat :=
  find_pred (λ x, negb (bool_decide (x ∈ cs))) s 0.
Definition find_last_not_of (s cs : str) : option nat :=
  (λ k, (length s - 1 - k)%nat) <$> find_first_not_of (rev s) cs.

(** [find(sub, pos)]: the first position at or after [pos] where [sub] occurs. *)
Fixpoint find_sub_aux (sub s : str) (pos : nat) : option nat :=
  if bool_decide (take (length sub) s = sub) then Some pos
  else match s with [] => None | _ :: s => find_sub_aux sub s (S pos) end.
Definition find_sub (s sub : str) (pos : nat) : option nat :=
  if decide (length s < pos)%nat then None else find_sub_aux sub (drop pos s) pos.

Definition is_digit (c : ascii) : bool := (chr "0" <=? chr c) && (chr c <=? chr "9").
Definition is_AZ (c : ascii) : bool := (chr "A" <=? chr c) && (chr c <=? chr "Z").
Definition is_az (c : ascii) : bool := (chr "a" <=? chr c) && (chr c <=? chr "z").

(** ** Replace *)

Fixpoint replaceAll_loop (fuel : nat) (source from to : str) (last_pos : nat) (new_str : str) : str :=
  match fuel with
  | O => new_str
  | S fuel =>
      match find_sub source from last_pos with
      | Some find_pos =>
          replaceAll_loop fuel source from to (find_pos + length from)
            (new_str ++ substr source last_pos (find_pos - last_pos) ++ to)
      | None => new_str ++ substr_from source last_pos
      end
  end.
Definition replaceAll (source from to : str) : str :=
  match from with
  | [] => source
  | _ => replaceAll_loop (S (length source)) source from to 0 []
  end.

Definition replaceChar (source : str) (from to : ascii) : str :=
  (λ c, if bool_decide (c = from) then to else c) <$> source.

(** ** Case *)

Definition isUpper (s : str) : bool :=
  forallb (λ c, is_AZ c || is_digit c || bool_decide (c = "_"%char) || bool_decide (c = "-"%char)) s.

Definition lower_char (c : ascii) : ascii :=
  if is_AZ c then of_chr (chr c + (chr "a" - chr "A")) else c.
Definition upper_char (c : ascii) : ascii :=
  if is_az c then of_chr (chr c - (chr "a" - chr "A")) else c.

Definition toLower (s : str) : str := lower_char <$> s.
Definition toLowerInPlace (s : str) : str := lower_char <$> s.
Definition toUpper (s : str) : str := upper_char <$> s.
Definition toUpperInPlace (s : str) : str := upper_char <$> s.

(** ** Split *)

Fixpoint split_loop (fuel : nat) (src : str) (delimiter : ascii) (start : nat)
    (end_ : option nat) (result : list str) : list str :=
  match fuel with
  | O => result
  | S fuel =>
      match end_ with
      | Some e =>
          split_loop fuel src delimiter (e + 1) (find_char src delimiter (e + 1))
            (result ++ [substr src start (e - start)])
      | None => result ++ [substr_from src start]
      end
  end.
Definition split (src : str) (delimiter : ascii) : list str :=
  split_loop (S (S (length src))) src delimiter 0 (find_char src delimiter 0) [].

(** The views alias [src]; the bytes they show are the same. *)
Definition splitView (src : str) (delimiter : ascii) : list str :=
  split_loop (S (S (length src))) src delimiter 0 (find_char src delimiter 0) [].

(** [splitFixed<N>]: the array's first [count] entries, and [count]. *)
Fixpoint splitFixed_loop (fuel : nat) (src : str) (delimiter : ascii) (N start : nat)
    (end_ : option nat) (out : list str) (count : nat) : list str * nat :=
  match fuel with
  | O => (out, count)
  | S fuel =>
      match end_, decide (count < N)%nat with
      | Some e, left _ =>
          splitFixed_loop fuel src delimiter N (e + 1) (find_char src delimiter (e + 1))
            (<[count := substr src start (e - start)]> out) (S count)
      | _, _ =>
          if bool_decide (count < N)%nat && bool_decide (start ≤ length src)%nat
          then (<[count := substr_from src start]> out, S count) else (out, count)
      end
  end.
Definition splitFixed (N : nat) (src : str) (delimiter : ascii) (out : list str) : list str * nat :=
  splitFixed_loop (S (S (length src))) src delimiter N 0 (find_char src delimiter 0) out 0.

Fixpoint splitAny_loop (fuel : nat) (src delimiters : str) (start : nat) (result : list str)
    : list str :=
  match fuel with
  | O => result
  | S fuel =>
      if decide (start < length src)%nat then
        match find_first_of src delimiters start with
        | None => result ++ [substr_from src start]
        | Some e =>
            splitAny_loop fuel src delimiters (e + 1)
              (if decide (start < e)%nat then result ++ [substr src start (e - start)] else result)
        end
      else result
  end.
Definition splitAny (src delimiters : str) : list str :=
  splitAny_loop (S (length src)) src delimiters 0 [].

(** ** Join *)

Definition join (items : list str) (separator : str) : str :=
  match items with
  | [] => []
  | it :: items => foldl (λ result it, result ++ separator ++ it) it items
  end.
Definition joinContainer (items : list str) (separator : str) : str := join items separator.

(** ** Trim *)

Definition ws : str := [" "; "009"; "010"; "013"; "012"; "011"]%char.

Definition trim (s : str) : str :=
  match find_first_not_of s ws with
  | None => []
  | Some start =>
      let end_ := default 0%nat (find_last_not_of s ws) in
      substr s start (end_ - start + 1)
  end.
Definition trimLeft (s : str) : str :=
  match find_first_not_of s ws with None => [] | Some start => substr_from s start end.
Definition trimRight (s : str) : str :=
  match find_last_not_of s ws with None => [] | Some e => substr s 0 (e + 1) end.

(** ** Comparison *)

Fixpoint equalsIgnoreCase_loop (a b : str) : bool :=
  match a, b with
  | ca :: a, cb :: b =>
      if bool_decide (lower_char ca ≠ lower_char cb) then false else equalsIgnoreCase_loop a b
  | _, _ => true
  end.
Definition equalsIgnoreCase (a b : str) : bool :=
  if bool_decide (length a ≠ length b) then false else equalsIgnoreCase_loop a b.

Definition startsWith (s prefix : str) : bool :=
  bool_decide (length prefix ≤ length s)%nat &&
  bool_decide (substr s 0 (length prefix) = prefix).
Definition endsWith (s suffix : str) : bool :=
  bool_decide (length suffix ≤ length s)%nat &&
  bool_decide (substr s (length s - length suffix) (length suffix) = suffix).

(** ** Parse

    [parseInt] accumulates in an [int64_t] without checking: signed overflow
    is undefined behaviour.  [Ret None] is the return value [false]. *)

Fixpoint parseInt_digits (s : str) (result : Z) : outcome (option Z) :=
  match s with
  | [] => Ret (Some result)
  | c :: s =>
      if is_digit c then
        if bool_decide (in_s 64 (result * 10)) &&
           bool_decide (in_s 64 (result * 10 + (chr c - chr "0")))
        then parseInt_digits s (result * 10 + (chr c - chr "0"))
        else Fault UndefinedBehaviour
      else Ret None
  end.
Definition parseInt (s : str) : outcome (option Z) :=
  match s with
  | [] => Ret None
  | c :: rest =>
      let negative := bool_decide (c = "-"%char) in
      let digits := if negative || bool_decide (c = "+"%char) then rest else s in
      match digits with
      | [] => Ret None
      | _ =>
          match parseInt_digits digits 0 with
          | Ret (Some result) => Ret (Some (if negative then - result else result))
          | r => r
          end
      end
  end.

(** ** Utilities *)

Definition contains (s sub : str) : bool := bool_decide (is_Some (find_sub s sub 0)).
Definition countChar (s : str) (c : ascii) : nat := length (filter (λ x, x = c) s).
Definition padRight (s : str) (width : nat) (fill : ascii) : str :=
  if decide (width ≤ length s)%nat then s else s ++ replicate (width - length s) fill.
Definition padLeft (s : str) (width : nat) (fill : ascii) : str :=
  if decide (width ≤ length s)%nat then s else replicate (width - length s) fill ++ s.

(** ** [std::stoi] *)

(** [std::stoi]: leading white space, a sign, then at least one digit; the
    rest of the string is ignored. *)
Fixpoint stoi_digits (s : str) (v : Z) : Z :=
  match s with
  | c :: s => if is_digit c then stoi_digits s (v * 10 + (chr c - chr "0")) else v
  | [] => v
  end.
Definition stoi (s : str) : outcome Z :=
  let s := match find_first_not_of s ws with None => [] | Some k => drop k s end in
  let '(neg, s) :=
    match s with
    | c :: rest =>
        if bool_decide (c = "-"%char) then (true, rest)
        else if bool_decide (c = "+"%char) then (false, rest) else (false, s)
    | [] => (false, [])
    end in
  match s with
  | c :: _ =>
      if is_digit c then
        let v := if neg then - stoi_digits s 0 else stoi_digits s 0 in
        if bool_decide (in_s 32 v) then Ret v else Throw OutOfRange
      else Throw InvalidArgument
  | [] => Throw InvalidArgument
  end.

(** ** [fmt::format]

    A library of its own, not part of the program: a parameter, with what the
    journal relies on as laws.  ["{:08x}"] of a [uint32_t] and ["{}"] of an
    [int] tell numbers apart, print no dot, and [std::stoi] reads the latter
    back. *)

Class Fmt := {
  fmt_08x : Z → str;
  fmt_dec : Z → str
}.

Class FmtLaws `{Fmt} := {
  fmt_08x_no_dot n : in_u 32 n → "."%char ∉ fmt_08x n;
  fmt_08x_inj a b : in_u 32 a → in_u 32 b → fmt_08x a = fmt_08x b → a = b;
  fmt_dec_no_dot n : 0 ≤ n < 2 ^ 31 → "."%char ∉ fmt_dec n;
  stoi_fmt_dec n : 0 ≤ n < 2 ^ 31 → stoi (fmt_dec n) = Ret n
}.

(** The decimal form of a number and the eight hexadecimal digits of a 32-bit
    one: an instance. *)
Definition digit (d : Z) : ascii := of_chr (chr "0" + d).
Definition hex_digit (d : Z) : ascii := if d <? 10 then digit d else of_chr (chr "a" + (d - 10)).

Fixpoint dec_digits (fuel : nat) (n : Z) (acc : str) : str :=
  match fuel with
  | O => acc
  | S fuel =>
      if n <? 10 then digit n :: acc
      else dec_digits fuel (n / 10) (digit (n `mod` 10) :: acc)
  end.
Definition decimal (n : Z) : str :=
  let digits := dec_digits (S (Z.to_nat (Z.log2 (Z.abs n)))) (Z.abs n) [] in
  if n <? 0 then "-"%char :: digits else digits.
Definition hex_08x (n : Z) : str :=
  (λ i, hex_digit (Z.modulo (n / 16 ^ i) 16)) <$> rev (seqZ 0 8).

Definition std_fmt : Fmt := {| fmt_08x := hex_08x; fmt_dec := decimal |}.

(** ** Split and join *)

(** The fields of [s] between delimiters, by recursion on the text: the
    definition [split] is checked against. *)
Fixpoint fields (d : ascii) (s : str) : list str :=
  match s with
  | [] => [[]]
  | c :: s =>
      if decide (c = d) then [] :: fields d s
      else match fields d s with f :: fs => (c :: f) :: fs | [] => [[c]] end
  end.

Lemma fields_not_nil d s : fields d s ≠ [].
Proof. destruct s as [|c s]; simpl; [done|]. case_decide; [done|]. by destruct (fields d s). Qed.

(** No delimiter: the text is its own single field. *)
Lemma fields_none d s : d ∉ s → fields d s = [s].
Proof.
  induction s as [|c s IH]; simpl; [done|]. intros Hd.
  apply not_elem_of_cons in Hd as [? ?]. rewrite decide_False by done. by rewrite IH.
Qed.

(** A field, the delimiter, and the rest. *)
Lemma fields_app d (f s : str) : d ∉ f → fields d (f ++ d :: s) = f :: fields d s.
Proof.
  induction f as [|c f IH]; simpl; [by rewrite decide_True|]. intros Hd.
  apply not_elem_of_cons in Hd as [? ?]. rewrite decide_False by done. by rewrite IH.
Qed.

Lemma find_char_Some s c pos e :
  find_char s c pos = Some e →
  (pos ≤ e < length s)%nat ∧
  ∃ f : str, drop pos s = f ++ c :: drop (e + 1) s ∧ (c ∉ f) ∧ f = substr s pos (e - pos).
Proof.
  unfold find_char, find_pred. destruct (list_find _ _) as [[k x]|] eqn:Hf; [|done].
  simpl. intros [= <-]. apply list_find_Some in Hf as (Hk&Hx&Hbefore).
  apply Is_true_true, bool_decide_eq_true in Hx as ->.
  pose proof (lookup_lt_Some _ _ _ Hk) as Hlt. rewrite length_drop in Hlt.
  split; [lia|]. exists (take k (drop pos s)). split_and!.
  - rewrite <-(take_drop_middle _ _ _ Hk) at 1. by rewrite drop_drop, <-Nat.add_assoc, Nat.add_1_r.
  - intros Hin. apply list_elem_of_lookup in Hin as [j Hj].
    apply lookup_take_Some in Hj as [Hj ?]. eapply Hbefore; [done|done|].
    by apply Is_true_true, bool_decide_eq_true.
  - unfold substr. f_equal. lia.
Qed.

Lemma find_char_None s c pos : find_char s c pos = None → c ∉ drop pos s.
Proof.
  unfold find_char, find_pred. destruct (list_find _ _) eqn:Hf; [done|]. intros _ Hin.
  apply list_find_None in Hf. rewrite Forall_forall in Hf. apply (Hf c Hin).
  by apply Is_true_true, bool_decide_eq_true.
Qed.

Lemma split_loop_fields fuel src d start result :
  (length src < start + fuel)%nat →
  (start ≤ length src)%nat →
  split_loop fuel src d start (find_char src d start) result =
    result ++ fields d (drop start src).
Proof.
  revert start result; induction fuel as [|fuel IH]; intros start result Hfuel Hstart; [lia|].
  simpl. destruct (find_char src d start) as [e|] eqn:Hf.
  - apply find_char_Some in Hf as (?&f&Hdrop&Hd&->).
    rewrite IH by lia. by rewrite Hdrop, fields_app, <-app_assoc by done.
  - apply find_char_None in Hf. by rewrite fields_none by done.
Qed.

(** C35: [split] (and [splitView], which returns the same pieces as views)
    yields exactly the fields between delimiters: the position-based loop
    terminates within its bound and agrees with the recursive definition. *)
Theorem split_fields src d : split src d = fields d src ∧ splitView src d = fields d src.
Proof.
  unfold split, splitView. rewrite split_loop_fields by lia. by rewrite drop_0.
Qed.

Lemma split_eq src d : split src d = fields d src.
Proof. unfold split. rewrite split_loop_fields by lia. by rewrite drop_0. Qed.

Lemma foldl_join_app (sep : str) (fs : list str) (acc : str) :
  foldl (λ result it, result ++ sep ++ it) acc fs =
    acc ++ foldl (λ result it, result ++ sep ++ it) [] fs.
Proof.
  revert acc; induction fs as [|f fs IH]; intros acc; simpl; [by rewrite app_nil_r|].
  rewrite IH, (IH (sep ++ f)). by rewrite <-!app_assoc.
Qed.

Lemma join_cons it items sep :
  items ≠ [] → join (it :: items) sep = it ++ sep ++ join items sep.
Proof.
  destruct items as [|it' items]; [done|]. intros _. simpl.
  rewrite foldl_join_app, (foldl_join_app sep items it'). by rewrite <-!app_assoc.
Qed.

Lemma join_fields d s : join (fields d s) [d] = s.
Proof.
  induction s as [|c s IH]; simpl; [done|]. pose proof (fields_not_nil d s).
  case_decide as Hc; [subst|].
  - rewrite join_cons by done. by rewrite IH.
  - destruct (fields d s) as [|f [|g fs]]; [done|by simpl in *; subst|].
    rewrite join_cons in * by done. by rewrite <-IH.
Qed.

Lemma fields_join d items :
  items ≠ [] → Forall (λ it, d ∉ it) items → fields d (join items [d]) = items.
Proof.
  intros Hne Hd. induction Hd as [|it items Hit Hd IH]; [done|].
  destruct items as [|it' items]; [by apply fields_none|].
  rewrite join_cons by done. cbn [app]. by rewrite fields_app, IH.
Qed.

(** [split] and [join] are inverse: joining the pieces with the delimiter
    gives the text back, and splitting a joined non-empty list of items that
    do not contain the delimiter gives the items back. *)
Lemma split_join_roundtrip d :
  (∀ s, join (split s d) [d] = s) ∧
  (∀ items, items ≠ [] → Forall (λ it, d ∉ it) items → split (join items [d]) d = items).
Proof.
  split; intros; rewrite split_eq; [apply join_fields|by apply fields_join].
Qed.

(** ** Decimal and hexadecimal numbers *)

Lemma chr_of_chr z : 0 ≤ z < 256 → chr (of_chr z) = z.
Proof.
  intros. unfold chr, of_chr. rewrite N_ascii_embedding by lia. lia.
Qed.

Lemma chr_inj a b : chr a = chr b → a = b.
Proof.
  unfold chr. intros H%N2Z.inj. rewrite <-(ascii_N_embedding a), <-(ascii_N_embedding b).
  by rewrite H.
Qed.

Lemma chr_digit d : 0 ≤ d < 10 → chr (digit d) = chr "0" + d.
Proof. intros. unfold digit. rewrite chr_of_chr; [done|]. change (chr "0") with 48. lia. Qed.

Lemma is_digit_digit d : 0 ≤ d < 10 → is_digit (digit d) = true.
Proof.
  intros. unfold is_digit. rewrite chr_digit by done.
  change (chr "0") with 48. change (chr "9") with 57.
  apply andb_true_iff; split; apply Z.leb_le; lia.
Qed.

Lemma digit_not_eq d c : 0 ≤ d < 10 → is_digit c = false → digit d ≠ c.
Proof. intros Hd Hc <-. by rewrite is_digit_digit in Hc. Qed.

(** The digits of [n], read back by any accumulating scanner. *)
Definition dec_value (s : str) (v : Z) : Z := foldl (λ v c, v * 10 + (chr c - chr "0")) v s.

Lemma dec_digits_spec fuel n acc :
  (0 < fuel)%nat → 0 ≤ n < 2 ^ Z.of_nat fuel →
  ∃ ds, dec_digits fuel n acc = ds ++ acc ∧ ds ≠ [] ∧
        Forall (λ c, is_digit c = true) ds ∧ dec_value ds 0 = n.
Proof.
  revert n acc; induction fuel as [|fuel IH]; intros n acc Hfuel Hn; [lia|].
  rewrite Nat2Z.inj_succ, Z.pow_succ_r in Hn by lia. simpl.
  destruct (Z.ltb_spec n 10).
  - exists [digit n]. split_and!; [done|done|apply Forall_singleton, is_digit_digit; lia|].
    unfold dec_value; simpl. rewrite chr_digit by lia. lia.
  - pose proof (Z.div_mod n 10 ltac:(lia)). pose proof (Z.mod_pos_bound n 10 ltac:(lia)).
    destruct (decide (fuel = O)) as [->|]; [simpl in Hn; lia|].
    destruct (IH (n / 10) (digit (n `mod` 10) :: acc)) as (ds&Heq&Hne&Hds&Hv); [lia|lia|].
    exists (ds ++ [digit (n `mod` 10)]). split_and!.
    + by rewrite Heq, <-app_assoc.
    + by destruct ds.
    + apply Forall_app; split; [done|]. apply Forall_singleton, is_digit_digit; lia.
    + unfold dec_value in *. rewrite foldl_app, Hv. simpl. rewrite chr_digit by lia. lia.
Qed.

Lemma decimal_nonneg n :
  0 ≤ n → ∃ c ds, decimal n = c :: ds ∧ Forall (λ c, is_digit c = true) (c :: ds) ∧
                  dec_value (c :: ds) 0 = n.
Proof.
  intros Hn. unfold decimal. rewrite Z.abs_eq by done. destruct (Z.ltb_spec n 0); [lia|].
  destruct (dec_digits_spec (S (Z.to_nat (Z.log2 n))) n []) as (ds&Heq&Hne&Hds&Hv);
    [lia| |rewrite Heq, app_nil_r; destruct ds as [|c ds]; [done|by eauto]].
  rewrite Nat2Z.inj_succ, Z2Nat.id by apply Z.log2_nonneg.
  destruct (decide (n = 0)) as [->|]; [done|]. pose proof (Z.log2_spec n ltac:(lia)). lia.
Qed.

Lemma stoi_digits_value ds rest v :
  Forall (λ c, is_digit c = true) ds →
  match rest with c :: _ => is_digit c = false | [] => True end →
  stoi_digits (ds ++ rest) v = dec_value ds v.
Proof.
  intros Hds Hrest. revert v; induction Hds as [|c ds Hc Hds IH]; intros v; simpl.
  - destruct rest as [|c rest]; simpl; [done|]. by rewrite Hrest.
  - rewrite Hc, IH. done.
Qed.

Lemma digit_not_special c :
  is_digit c = true → (c ∉ ws) ∧ c ≠ "-"%char ∧ c ≠ "+"%char ∧ c ≠ "."%char.
Proof.
  intros Hc. assert (∀ x, is_digit x = false → c ≠ x) as Hne by (intros x Hx ->; congruence).
  split_and!; try (by apply Hne). unfold ws. rewrite !not_elem_of_cons.
  split_and!; try (by apply Hne); by apply not_elem_of_nil.
Qed.

(** Reading back a printed page number: [std::stoi] of the decimal form
    of any non-negative [int] is that number. *)
Lemma stoi_decimal n : 0 ≤ n < 2 ^ 31 → stoi (decimal n) = Ret n.
Proof.
  intros Hn. destruct (decimal_nonneg n) as (c&ds&->&Hds&Hv); [lia|].
  pose proof (Forall_inv Hds) as Hc. simpl in Hc.
  destruct (digit_not_special c Hc) as (Hws&Hm&Hp&_).
  unfold stoi, find_first_not_of, find_pred. rewrite drop_0. cbn [list_find].
  rewrite decide_True by (by rewrite bool_decide_false). cbn [fmap option_fmap option_map fst].
  cbn [Nat.add drop]. rewrite !bool_decide_false by done. rewrite Hc.
  rewrite <-(app_nil_r (c :: ds)), stoi_digits_value, Hv by done.
  rewrite bool_decide_true; [done|]. unfold in_s. lia.
Qed.

Lemma chr_hex_digit d :
  0 ≤ d < 16 → chr (hex_digit d) = if d <? 10 then 48 + d else 87 + d.
Proof.
  intros. unfold hex_digit. destruct (Z.ltb_spec d 10).
  - by rewrite chr_digit by lia.
  - rewrite chr_of_chr; change (chr "a") with 97; lia.
Qed.

Lemma hex_digit_inj d e : 0 ≤ d < 16 → 0 ≤ e < 16 → hex_digit d = hex_digit e → d = e.
Proof.
  intros Hd He Heq. apply (f_equal chr) in Heq. rewrite !chr_hex_digit in Heq by done.
  destruct (Z.ltb_spec d 10), (Z.ltb_spec e 10); lia.
Qed.

Lemma hex_08x_chars n c : c ∈ hex_08x n → ∃ d, 0 ≤ d < 16 ∧ c = hex_digit d.
Proof.
  unfold hex_08x. intros Hc. apply list_elem_of_fmap in Hc as (i&->&_).
  exists ((n / 16 ^ i) `mod` 16). split; [apply Z.mod_pos_bound; lia|done].
Qed.

Lemma hex_08x_no_dot n : "."%char ∉ hex_08x n.
Proof.
  intros (d&Hd&Heq)%hex_08x_chars. apply (f_equal chr) in Heq.
  rewrite chr_hex_digit in Heq by done. change (chr ".") with 46 in Heq.
  destruct (Z.ltb_spec d 10); lia.
Qed.

Lemma decimal_no_dot n : 0 ≤ n → "."%char ∉ decimal n.
Proof.
  intros Hn Hin. destruct (decimal_nonneg n Hn) as (c&ds&Heq&Hds&_). rewrite Heq in Hin.
  rewrite Forall_forall in Hds. by pose proof (Hds _ Hin).
Qed.

(** Eight hexadecimal digits determine a 32-bit number. *)
Lemma hex_08x_inj a b : in_u 32 a → in_u 32 b → hex_08x a = hex_08x b → a = b.
Proof.
  unfold in_u. intros Ha Hb Heq.
  assert (∀ i, 0 ≤ i < 8 → (a / 16 ^ i) `mod` 16 = (b / 16 ^ i) `mod` 16) as Hi.
  { intros i Hi. unfold hex_08x in Heq.
    assert (i ∈ rev (seqZ 0 8)) as Hin.
    { apply list_elem_of_In, in_rev. rewrite rev_involutive.
      apply list_elem_of_In, elem_of_seqZ. lia. }
    apply list_elem_of_lookup in Hin as [k Hk].
    apply (f_equal (λ l : str, l !! k)) in Heq. rewrite !list_lookup_fmap, Hk in Heq.
    simpl in Heq. apply hex_digit_inj; [apply Z.mod_pos_bound; lia..|congruence]. }
  assert (∀ k : nat, (k ≤ 8)%nat → a `mod` 16 ^ Z.of_nat k = b `mod` 16 ^ Z.of_nat k) as Hk.
  { induction k as [|k IH]; intros Hk; [by rewrite !Z.mod_1_r|].
    rewrite Nat2Z.inj_succ, Z.pow_succ_r, (Z.mul_comm 16), !Z.rem_mul_r by lia.
    rewrite IH, Hi by lia. done. }
  specialize (Hk 8%nat ltac:(lia)). change (16 ^ Z.of_nat 8) with (2 ^ 32) in Hk.
  by rewrite !Z.mod_small in Hk.
Qed.

(** ** [parseInt] against what it means *)

(** The sign and what follows it; the digits at the front. *)
Definition signed_body (s : str) : bool * str :=
  match s with
  | "-"%char :: rest => (true, rest)
  | "+"%char :: rest => (false, rest)
  | _ => (false, s)
  end.
Fixpoint digits_prefix (s : str) : str :=
  match s with
  | c :: s => if is_digit c then c :: digits_prefix s else []
  | [] => []
  end.

Lemma is_digit_range c : is_digit c = true → 0 ≤ chr c - chr "0" ≤ 9.
Proof.
  unfold is_digit. change (chr "0") with 48. change (chr "9") with 57.
  intros [?%Z.leb_le ?%Z.leb_le]%andb_true_iff. lia.
Qed.

Lemma dec_value_ge s v : Forall (λ c, is_digit c = true) s → 0 ≤ v → v ≤ dec_value s v.
Proof.
  intros Hs. revert v; induction Hs as [|c s Hc Hs IH]; intros v Hv; [done|].
  cbn. fold (dec_value s (v * 10 + (chr c - chr "0"))). apply is_digit_range in Hc.
  specialize (IH (v * 10 + (chr c - chr "0")) ltac:(lia)). lia.
Qed.

Lemma digits_prefix_digits s : Forall (λ c, is_digit c = true) (digits_prefix s).
Proof. induction s as [|c s IH]; cbn; [done|]. destruct (is_digit c) eqn:E; by constructor. Qed.

(** The accumulator overflows exactly when the digits it has seen are too
    large: the partial values only grow. *)
Lemma parseInt_digits_spec s v :
  0 ≤ v < 2 ^ 63 →
  parseInt_digits s v =
  if 2 ^ 63 <=? dec_value (digits_prefix s) v then Fault UndefinedBehaviour
  else if bool_decide (digits_prefix s = s) then Ret (Some (dec_value (digits_prefix s) v))
  else Ret None.
Proof.
  revert v; induction s as [|c s IH]; intros v Hv; cbn [parseInt_digits digits_prefix].
  { cbn [dec_value foldl]. destruct (Z.leb_spec (2 ^ 63) v); [lia|]. by rewrite bool_decide_true. }
  destruct (is_digit c) eqn:Hc.
  - pose proof (is_digit_range c Hc) as Hr. pose proof (digits_prefix_digits s) as Hds.
    change (dec_value (c :: digits_prefix s) v)
      with (dec_value (digits_prefix s) (v * 10 + (chr c - chr "0"))).
    set (v' := v * 10 + (chr c - chr "0")) in *.
    rewrite (bool_decide_ext (c :: digits_prefix s = c :: s) (digits_prefix s = s)) by (split; congruence).
    destruct (decide (v' < 2 ^ 63)).
    + rewrite !bool_decide_true by (unfold in_s; lia). cbn [andb]. apply IH. lia.
    + pose proof (dec_value_ge _ v' Hds ltac:(lia)).
      rewrite (proj2 (Z.leb_le (2 ^ 63) _)) by lia.
      rewrite (bool_decide_false (in_s 64 v')), andb_false_r by (unfold in_s; lia). done.
  - cbn [dec_value foldl]. destruct (Z.leb_spec (2 ^ 63) v); [lia|]. by rewrite bool_decide_false.
Qed.

Lemma signed_body_none c s :
  c ≠ "-"%char → c ≠ "+"%char → signed_body (c :: s) = (false, c :: s).
Proof. destruct c as [[] [] [] [] [] [] [] []]; intros; reflexivity || congruence. Qed.

Lemma parseInt_eq s :
  parseInt s =
  let '(negative, body) := signed_body s in
  let value := dec_value (digits_prefix body) 0 in
  if bool_decide (body = []) then Ret None
  else if 2 ^ 63 <=? value then Fault UndefinedBehaviour
  else if bool_decide (digits_prefix body = body) then Ret (Some (if negative then - value else value))
  else Ret None.
Proof.
  assert (∀ (negative : bool) (body : str),
    match body with
    | [] => Ret None
    | _ :: _ =>
        match parseInt_digits body 0 with
        | Ret (Some result) => Ret (Some (if negative then - result else result))
        | r => r
        end
    end =
    let value := dec_value (digits_prefix body) 0 in
    if bool_decide (body = []) then Ret None
    else if 2 ^ 63 <=? value then Fault UndefinedBehaviour
    else if bool_decide (digits_prefix body = body) then Ret (Some (if negative then - value else value))
    else Ret None) as Hbody.
  { intros negative [|c body]; [done|]. rewrite parseInt_digits_spec by lia. cbv zeta.
    rewrite (bool_decide_false (c :: body = [])) by done. destruct (2 ^ 63 <=? _); [done|]. by destruct (bool_decide _). }
  destruct s as [|c s]; [done|]. unfold parseInt.
  destruct (decide (c = "-"%char)) as [->|Hm]; [exact (Hbody true s)|].
  destruct (decide (c = "+"%char)) as [->|Hp]; [exact (Hbody false s)|].
  rewrite !bool_decide_false by done. cbn [orb].
  rewrite (Hbody false (c :: s)). by rewrite signed_body_none.
Qed.

Lemma digits_prefix_all s : Forall (λ c, is_digit c = true) s → digits_prefix s = s.
Proof. induction 1 as [|c s Hc _ IH]; cbn; [done|]. by rewrite Hc, IH. Qed.

Lemma signed_body_digits c s : is_digit c = true → signed_body (c :: s) = (false, c :: s).
Proof. intros (_&?&?&_)%digit_not_special. by apply signed_body_none. Qed.

Lemma decimal_neg n : n < 0 → decimal n = "-"%char :: decimal (- n).
Proof.
  intros Hn. unfold decimal. rewrite Z.abs_opp. destruct (Z.ltb_spec n 0), (Z.ltb_spec (- n) 0); done || lia.
Qed.

(** C36: [parseInt] accepts an optional sign and one or more digits, nothing
    else, and gives the number they write; it overflows, which is undefined,
    exactly when the digits at the front write [2 ^ 63] or more, accepted or
    not.  So every [int64_t] but the least one is read back from its decimal
    form. *)
Theorem parseInt_spec :
  (∀ s, parseInt s =
    let '(negative, body) := signed_body s in
    let value := dec_value (digits_prefix body) 0 in
    if bool_decide (body = []) then Ret None
    else if 2 ^ 63 <=? value then Fault UndefinedBehaviour
    else if bool_decide (digits_prefix body = body) then Ret (Some (if negative then - value else value))
    else Ret None) ∧
  (∀ n, - 2 ^ 63 < n < 2 ^ 63 → parseInt (decimal n) = Ret (Some n)) ∧
  parseInt (decimal (- 2 ^ 63)) = Fault UndefinedBehaviour.
Proof.
  split; [exact parseInt_eq|]. split; [|vm_compute; reflexivity].
  intros n Hn. rewrite parseInt_eq.
  assert (∀ m, 0 ≤ m < 2 ^ 63 → ∃ c ds, decimal m = c :: ds ∧ is_digit c = true ∧
    digits_prefix (decimal m) = decimal m ∧ dec_value (decimal m) 0 = m) as Hdec.
  { intros m Hm. destruct (decimal_nonneg m) as (c&ds&Heq&Hds&Hv); [lia|]. rewrite Heq.
    exists c, ds. split_and!; [done|by apply (Forall_inv Hds)|by apply digits_prefix_all|done]. }
  destruct (decide (n < 0)).
  - rewrite decimal_neg by done. cbn [signed_body].
    destruct (Hdec (- n) ltac:(lia)) as (c&ds&Heq&Hc&Hp&Hv). rewrite Hp, Hv.
    rewrite bool_decide_false by (rewrite Heq; done). cbv zeta. destruct (Z.leb_spec (2 ^ 63) (- n)); [lia|].
    rewrite bool_decide_true by done. by rewrite Z.opp_involutive.
  - destruct (Hdec n ltac:(lia)) as (c&ds&Heq&Hc&Hp&Hv).
    rewrite Heq, signed_body_digits, <-Heq, Hp, Hv by done.
    rewrite bool_decide_false by (rewrite Heq; done). cbv zeta. destruct (Z.leb_spec (2 ^ 63) n); [lia|].
    by rewrite bool_decide_true.
Qed.

#[export] Instance std_fmt_laws : @FmtLaws std_fmt.
Proof.
  split; cbn [fmt_08x fmt_dec std_fmt].
  - intros. apply hex_08x_no_dot.
  - apply hex_08x_inj.
  - intros. apply decimal_no_dot. lia.
  - apply stoi_decimal.
Qed.
