(* ===== verification/Time.v ===== *)
(** * Time: timestamps, durations and the calendar

    [src/include/revoq/TimeUtils.h] and [src/src/TimeUtils.cpp], without the
    conversions from and to [double] (see [Doubles]).  A [Timestamp] and a
    [Duration] are their nanoseconds; an [int64_t] result out of range is
    undefined behaviour.  [gmtime_r], [timegm], [snprintf]'s integer formats
    and [std::get_time] are the C and C++ standard libraries' and are modelled
    as they are documented.  The theorems: the calendar is the Gregorian one,
    and printing and parsing are inverse. *)

From S2P Require Import Prelude Strings.

(** ** The Gregorian calendar *)

Definition is_leap (y : Z) : bool :=
  (y `mod` 4 =? 0) && (negb (y `mod` 100 =? 0) || (y `mod` 400 =? 0)).
Definition month_length (y m : Z) : Z :=
  if m =? 2 then if is_leap y then 29 else 28
  else if (m =? 4) || (m =? 6) || (m =? 9) || (m =? 11) then 30 else 31.

(** Days of year 1 to [y - 1]; of the months before [m]. *)
Definition days_before_year (y : Z) : Z :=
  let p := y - 1 in 365 * p + p / 4 - p / 100 + p / 400.
Definition days_before_month (y m : Z) : Z :=
  foldr Z.add 0 (month_length y <$> seqZ 1 (m - 1)).

(** Days since 1970-01-01. *)
Definition days_of_date (y m d : Z) : Z :=
  days_before_year y + days_before_month y m + (d - 1) - 719162.
Definition valid_date (y m d : Z) : bool :=
  (1 <=? m) && (m <=? 12) && (1 <=? d) && (d <=? month_length y m).

(** ** [struct tm], [gmtime_r] and [timegm] *)

Record tm := Tm { tm_year : Z; tm_mon : Z; tm_mday : Z; tm_hour : Z; tm_min : Z; tm_sec : Z }.

(** The date of a day: 400 years have 146097 days; within them the year starts
    in March, so that the leap day comes last. *)
Definition date_of_days (days : Z) : Z * Z * Z :=
  let z := days + 719468 in
  let era := z / 146097 in
  let doe := z `mod` 146097 in
  let yoe := (doe - doe / 1460 + doe / 36524 - doe / 146096) / 365 in
  let doy := doe - (365 * yoe + yoe / 4 - yoe / 100) in
  let mp := (5 * doy + 2) / 153 in
  let d := doy - (153 * mp + 2) / 5 + 1 in
  let m := if mp <? 10 then mp + 3 else mp - 9 in
  (yoe + era * 400 + (if m <=? 2 then 1 else 0), m, d).

Definition gmtime_r (seconds : Z) : tm :=
  let days := seconds / 86400 in
  let s := seconds `mod` 86400 in
  let '(y, m, d) := date_of_days days in
  Tm (y - 1900) (m - 1) d (s / 3600) ((s / 60) `mod` 60) (s `mod` 60).

(** [timegm] takes any day, hour, minute and second, and adds them up. *)
Definition timegm (t : tm) : Z :=
  86400 * days_of_date (tm_year t + 1900) (tm_mon t + 1) (tm_mday t) +
  3600 * tm_hour t + 60 * tm_min t + tm_sec t.

(** ** Formats *)

(** ["%0wd"] and ["%wd"]: a sign counts for the width, and comes before zeros. *)
Definition zero_padded (w : nat) (n : Z) : str :=
  let digits := decimal (Z.abs n) in
  if n <? 0 then "-"%char :: replicate (w - 1 - length digits) "0"%char ++ digits
  else replicate (w - length digits) "0"%char ++ digits.
Definition space_padded (w : nat) (n : Z) : str := padLeft (decimal n) w " ".

(** ** [Timestamp] *)

Definition NANOSECONDS_PER_SECOND : Z := 1000000000.
Definition LEN_YYYY_MM_DD : nat := 10.
Definition LEN_YYYY_MM_DD_HH_MM_SS : nat := 19.

(** C++'s [/] and [%] truncate. *)
Definition microsec (nsec : Z) : Z := nsec ÷ 1000.
Definition millisec (nsec : Z) : Z := nsec ÷ 1000000.
Definition sec (nsec : Z) : Z := nsec ÷ 1000000000.

Definition Timestamp_min : Z := 0.
Definition Timestamp_invalid : Z := - 2 ^ 63.
Definition MAX_TIME : Z := 4102444800000000000.
Definition isValid (nsec : Z) : bool := 0 <=? nsec.

(** An [int64_t] result: out of range it is undefined. *)
Definition int64 (z : Z) : outcome Z :=
  if bool_decide (in_s 64 z) then Ret z else Fault UndefinedBehaviour.

(** Sums and differences of timestamps and durations, and negation. *)
Definition ts_plus (lhs rhs : Z) : outcome Z := int64 (lhs + rhs).
Definition ts_minus (lhs rhs : Z) : outcome Z := int64 (lhs - rhs).
Definition ts_difference (lhs rhs : Z) : outcome Z := int64 (lhs - rhs).
Definition duration_plus (lhs rhs : Z) : outcome Z := int64 (lhs + rhs).
Definition duration_minus (lhs rhs : Z) : outcome Z := int64 (lhs - rhs).
Definition duration_neg (d : Z) : outcome Z := int64 (- d).

(** The compound assignments change the object they are called on, and only
    that. *)
Definition assign (r : Z → outcome Z) : M Z unit := λ self,
  match r self with
  | Ret v => (Ret tt, v)
  | Throw e => (Throw e, self)
  | Fault f => (Fault f, self)
  end.
Definition ts_plus_assign (duration : Z) : M Z unit := assign (λ self, ts_plus self duration).
Definition ts_minus_assign (duration : Z) : M Z unit := assign (λ self, ts_minus self duration).
Definition duration_plus_assign (duration : Z) : M Z unit := assign (λ self, duration_plus self duration).
Definition duration_minus_assign (duration : Z) : M Z unit := assign (λ self, duration_minus self duration).

(** [clock_gettime(CLOCK_REALTIME, &ts)]: [tv_sec] is converted to unsigned. *)
Definition now_of (tv_sec tv_nsec : Z) : Z := s64 (u64 (u64 (u64 tv_sec * 1000000000) + tv_nsec)).

Definition date_string (t : tm) : str :=
  space_padded 4 (tm_year t + 1900) ++ "-"%char :: zero_padded 2 (tm_mon t + 1) ++
  "-"%char :: zero_padded 2 (tm_mday t).
Definition clock_string (t : tm) : str :=
  zero_padded 2 (tm_hour t) ++ ":"%char :: zero_padded 2 (tm_min t) ++
  ":"%char :: zero_padded 2 (tm_sec t).

(** [snprintf] into 64 bytes cuts what does not fit. *)
Definition snprintf64 (s : str) : str := take 63 s.

Definition toString (nsec : Z) : str :=
  let seconds := nsec ÷ NANOSECONDS_PER_SECOND in
  let tm_time := gmtime_r seconds in
  let nano := Z.rem nsec NANOSECONDS_PER_SECOND in
  snprintf64 (date_string tm_time ++ " "%char :: clock_string tm_time ++
    "."%char :: zero_padded 9 nano).

Definition toDateString (nsec : Z) : str :=
  let seconds := nsec ÷ NANOSECONDS_PER_SECOND in
  snprintf64 (date_string (gmtime_r seconds)).

(** [std::string::substr], for a position inside the string. *)
Definition substr_checked (s : str) (pos n : nat) : outcome str :=
  if decide (pos ≤ length s)%nat then Ret (substr s pos n) else Throw OutOfRange.

(** [std::stoul] of what [toHHMMSS] passes: an optional sign and digits. *)
Definition stoul (s : str) : outcome Z :=
  match s with
  | c :: _ =>
      if is_digit c then
        let v := stoi_digits s 0 in if bool_decide (in_u 64 v) then Ret v else Throw OutOfRange
      else Throw InvalidArgument
  | [] => Throw InvalidArgument
  end.

Definition toHHMMSS (nsec : Z) : outcome Z :=
  let s := toString nsec in
  match substr_checked s 11 2, substr_checked s 14 2, substr_checked s 17 2 with
  | Ret h, Ret m, Ret s => stoul (h ++ m ++ s)
  | Throw e, _, _ | _, Throw e, _ | _, _, Throw e => Throw e
  | _, _, _ => Fault UndefinedBehaviour
  end.

(** ** [std::get_time] with ["%Y-%m-%d %H:%M:%S"] *)

(** At most [n] digits, at least one. *)
Fixpoint take_digits (n : nat) (s : str) (v : Z) (some : bool) : option (Z * str) :=
  match n, s with
  | S n, c :: rest =>
      if is_digit c then take_digits n rest (v * 10 + (chr c - chr "0")) true
      else if some then Some (v, s) else None
  | _, _ => if some then Some (v, s) else None
  end.
Definition number (n : nat) (lo hi : Z) (s : str) : option (Z * str) :=
  '(v, rest) ← take_digits n s 0 false;
  if (lo <=? v) && (v <=? hi) then Some (v, rest) else None.
Definition literal (c : ascii) (s : str) : option str :=
  match s with
  | x :: rest => if bool_decide (x = c) then Some rest else None
  | [] => None
  end.
(** White space in the format matches any amount of it. *)
Fixpoint skip_space (s : str) : str :=
  match s with
  | c :: rest => if bool_decide (c ∈ ws) then skip_space rest else s
  | [] => []
  end.

Definition get_time (s : str) : option tm :=
  '(y, s) ← number 4 0 9999 s;
  s ← literal "-" s;
  '(mo, s) ← number 2 1 12 s;
  s ← literal "-" s;
  '(d, s) ← number 2 1 31 s;
  '(h, s) ← number 2 0 23 (skip_space s);
  s ← literal ":" s;
  '(mi, s) ← number 2 0 59 s;
  s ← literal ":" s;
  '(sc, _) ← number 2 0 60 s;
  Some (Tm (y - 1900) (mo - 1) d h mi sc).

Definition fromYYYYmmddHHMMSS (str_date_time : str) : outcome Z :=
  if negb (bool_decide (length str_date_time = LEN_YYYY_MM_DD_HH_MM_SS)) then Throw RuntimeError
  else
    match get_time str_date_time with
    | None => Throw RuntimeError
    | Some timeinfo =>
        let epochTime := timegm timeinfo in
        int64 (epochTime * 1000000000)
    end.

Definition fromYYYYmmdd (str_date : str) : outcome Z :=
  if negb (bool_decide (length str_date = LEN_YYYY_MM_DD)) then Throw RuntimeError
  else fromYYYYmmddHHMMSS (str_date ++ lit " 00:00:00").

(** Comparisons and the formatters. *)
Definition Timestamp_eq (lhs rhs : Z) : bool := lhs =? rhs.
Definition Timestamp_ne (lhs rhs : Z) : bool := negb (lhs =? rhs).
Definition Timestamp_lt (lhs rhs : Z) : bool := lhs <? rhs.
Definition Timestamp_le (lhs rhs : Z) : bool := lhs <=? rhs.
Definition Timestamp_gt (lhs rhs : Z) : bool := rhs <? lhs.
Definition Timestamp_ge (lhs rhs : Z) : bool := rhs <=? lhs.
Definition Duration_eq (lhs rhs : Z) : bool := lhs =? rhs.
Definition Duration_ne (lhs rhs : Z) : bool := negb (lhs =? rhs).
Definition Duration_lt (lhs rhs : Z) : bool := lhs <? rhs.
Definition Duration_le (lhs rhs : Z) : bool := lhs <=? rhs.
Definition Duration_gt (lhs rhs : Z) : bool := rhs <? lhs.
Definition Duration_ge (lhs rhs : Z) : bool := rhs <=? lhs.
Definition format_Timestamp (ts : Z) : str := toString ts.
Definition format_Duration (d : Z) : str := decimal d ++ lit " nano".

(** What is added is taken off again: where the sum is representable, [+=]
    and then [-=] is the identity on timestamps and on durations. *)
Lemma plus_minus_assign self d :
  in_s 64 self → in_s 64 (self + d) →
  (do! ts_plus_assign d in ts_minus_assign d) self = (Ret tt, self) ∧
  (do! duration_plus_assign d in duration_minus_assign d) self = (Ret tt, self).
Proof.
  intros Hs Hd.
  assert (int64 (self + d) = Ret (self + d)) as H1 by (unfold int64; by rewrite bool_decide_true).
  assert (int64 (self + d - d) = Ret self) as H2.
  { replace (self + d - d) with self by lia. unfold int64. by rewrite bool_decide_true. }
  unfold bind, ts_plus_assign, ts_minus_assign, duration_plus_assign, duration_minus_assign, assign,
    ts_plus, ts_minus, duration_plus, duration_minus. by rewrite H1, H2.
Qed.

Example toString_1 : toString 1700000000123456789 = lit "2023-11-14 22:13:20.123456789".
Proof. vm_compute. reflexivity. Qed.
Example toString_2 : toString (-1) = lit "1970-01-01 00:00:00.-00000001".
Proof. vm_compute. reflexivity. Qed.
Example fromString_1 : fromYYYYmmdd (lit "2024-02-29") = Ret 1709164800000000000.
Proof. vm_compute. reflexivity. Qed.

(** ** The calendar *)

(** The days before a month from March on; January and February belong to the
    year that started the March before. *)
Lemma days_before_month_march y m :
  3 ≤ m ≤ 12 → days_before_month y m = (153 * (m - 3) + 2) / 5 + 59 + if is_leap y then 1 else 0.
Proof.
  intros Hm.
  assert (m ∈ [3; 4; 5; 6; 7; 8; 9; 10; 11; 12]) as Hin by (rewrite !elem_of_cons; lia).
  unfold days_before_month.
  rewrite !elem_of_cons, elem_of_nil in Hin.
  destruct_or! Hin; subst; try done; cbn; unfold month_length; cbn; by destruct (is_leap y).
Qed.

(** Days from March 1st of year 0 to March 1st of [y]. *)
Definition march (y : Z) : Z := 365 * y + y / 4 - y / 100 + y / 400.

Lemma is_leap_alt y :
  (if is_leap y then 1 else 0) = march y - march (y - 1) - 365.
Proof.
  unfold is_leap, march.
  destruct (Z.eqb_spec (y `mod` 4) 0), (Z.eqb_spec (y `mod` 100) 0), (Z.eqb_spec (y `mod` 400) 0);
    cbn; div_lia.
Qed.

Lemma days_of_date_march y mp d :
  0 ≤ mp ≤ 11 →
  let m := if mp <? 10 then mp + 3 else mp - 9 in
  days_of_date (y + (if m <=? 2 then 1 else 0)) m d =
  march y + (153 * mp + 2) / 5 + d - 1 - 719468.
Proof.
  intros Hmp m. unfold days_of_date, days_before_year, m. clear m.
  destruct (Z.ltb_spec mp 10).
  - destruct (Z.leb_spec (mp + 3) 2); [lia|]. rewrite Z.add_0_r.
    rewrite days_before_month_march, is_leap_alt by lia.
    replace (mp + 3 - 3) with mp by lia. unfold march. lia.
  - destruct (Z.leb_spec (mp - 9) 2); [|lia].
    replace (y + 1 - 1) with y by lia. fold (march y).
    assert (mp = 10 ∨ mp = 11) as [->| ->] by lia.
    + change (days_before_month (y + 1) (10 - 9)) with 0. div_lia.
    + change (days_before_month (y + 1) (11 - 9)) with 31. div_lia.
Qed.

(** The length of the month, from the days of the year that starts in March. *)
Lemma month_length_march y mp d :
  0 ≤ mp ≤ 11 → 0 ≤ d ≤ 365 → mp = (5 * d + 2) / 153 → (d = 365 → is_leap (y + 1) = true) →
  let m := if mp <? 10 then mp + 3 else mp - 9 in
  d - (153 * mp + 2) / 5 + 1 ≤ month_length (y + (if m <=? 2 then 1 else 0)) m.
Proof.
  intros Hmp Hd Heq Hleap m. subst m.
  assert (mp ∈ [0; 1; 2; 3; 4; 5; 6; 7; 8; 9; 10; 11]) as Hin by (rewrite !elem_of_cons; lia).
  rewrite !elem_of_cons, elem_of_nil in Hin.
  destruct_or! Hin; [rewrite Hin in Heq |- *; clear Hin; unfold month_length; simpl..]; try div_lia.
  destruct (is_leap (y + 1)); [div_lia|].
  assert (d ≠ 365) by (intros ->; by discriminate Hleap).
  div_lia.
Qed.

Lemma year_of_era doe :
  0 ≤ doe < 146097 →
  let yoe := (doe - doe / 1460 + doe / 36524 - doe / 146096) / 365 in
  let doy := doe - (365 * yoe + yoe / 4 - yoe / 100) in
  0 ≤ yoe < 400 ∧ 0 ≤ doy ≤ 365 ∧ (doy = 365 → is_leap (yoe + 1) = true).
Proof.
  intros H. cbv zeta. split_and!; [div_lia..|].
  intros Hd. unfold is_leap. 
  apply andb_true_iff; rewrite orb_true_iff, negb_true_iff, Z.eqb_neq, !Z.eqb_eq.
  split; div_lia.
Qed.

Lemma is_leap_era y k : is_leap (y + k * 400) = is_leap y.
Proof.
  unfold is_leap. 
  replace ((y + k * 400) `mod` 4) with (y `mod` 4) by div_lia.
  replace ((y + k * 400) `mod` 100) with (y `mod` 100) by div_lia.
  by rewrite Z.mod_add.
Qed.

Lemma month_length_era y k m : month_length (y + k * 400) m = month_length y m.
Proof. unfold month_length. by rewrite is_leap_era. Qed.

(** [date_of_days] finds the one valid date of a day. *)
Lemma date_of_days_spec n :
  let '(y, m, d) := date_of_days n in
  (1 ≤ m ≤ 12 ∧ 1 ≤ d ≤ month_length y m) ∧ days_of_date y m d = n ∧
  (0 ≤ n < 146097 → 1000 ≤ y ≤ 9999).
Proof.
  unfold date_of_days.
  set (era := (n + 719468) / 146097). set (doe := (n + 719468) `mod` 146097).
  assert (n + 719468 = 146097 * era + doe) as Hn by (apply Z.div_mod; lia).
  assert (0 ≤ doe < 146097) as Hdoe by (apply Z.mod_pos_bound; lia).
  destruct (year_of_era doe Hdoe) as (Hyoe&Hdoy&Hleap).
  set (yoe := (doe - doe / 1460 + doe / 36524 - doe / 146096) / 365) in *.
  set (doy := doe - (365 * yoe + yoe / 4 - yoe / 100)) in *.
  set (mp := (5 * doy + 2) / 153).
  assert (0 ≤ mp ≤ 11) as Hmp by (unfold mp; div_lia).
  split_and!.
  - by destruct (Z.ltb_spec mp 10); lia.
  - by destruct (Z.ltb_spec mp 10); lia.
  - subst mp. div_lia.
  - replace (yoe + era * 400 + _) with (yoe + (if (if mp <? 10 then mp + 3 else mp - 9) <=? 2 then 1 else 0) + era * 400) by lia.
    rewrite month_length_era. by apply month_length_march.
  - rewrite days_of_date_march by done. unfold march.
    assert (yoe / 400 = 0) by (apply Z.div_small; lia).
    replace (yoe + era * 400) with (yoe + (era * 4) * 100) at 3 by lia.
    replace (yoe + era * 400) with (yoe + (era * 100) * 4) at 2 by lia.
    rewrite !Z.div_add by lia. subst doy. lia.
  - intros Hn'. assert (era = 4 ∨ era = 5) by div_lia. destruct (_ <=? 2); lia.
Qed.

(** ** Reading what was printed *)

(** [ds] are the [w] digits of [n]. *)
Definition digits_of (w : nat) (n : Z) (ds : str) : Prop :=
  length ds = w ∧ Forall (λ c, is_digit c = true) ds ∧ dec_value ds 0 = n.

Lemma dec_value_bound ds v :
  Forall (λ c, is_digit c = true) ds → 0 ≤ v →
  0 ≤ dec_value ds v < (v + 1) * 10 ^ Z.of_nat (length ds).
Proof.
  intros Hds. revert v; induction Hds as [|c ds Hc Hds IH]; intros v Hv; [cbn; lia|].
  cbn [dec_value foldl length]. fold (dec_value ds (v * 10 + (chr c - chr "0"))).
  pose proof (is_digit_range c Hc). rewrite Nat2Z.inj_succ, Z.pow_succ_r by lia.
  specialize (IH (v * 10 + (chr c - chr "0")) ltac:(lia)). nia.
Qed.

Lemma length_dec_digits fuel n acc k :
  n < 10 ^ Z.of_nat (S k) → (length (dec_digits fuel n acc) ≤ S k + length acc)%nat.
Proof.
  revert n acc k; induction fuel as [|fuel IH]; intros n acc k Hn; cbn [dec_digits]; [lia|].
  destruct (Z.ltb_spec n 10); [cbn; lia|]. destruct k as [|k]; [cbn in Hn; lia|].
  specialize (IH (n / 10) (digit (n `mod` 10) :: acc) k). cbn [length] in IH.
  rewrite Nat2Z.inj_succ, Z.pow_succ_r in Hn by lia.
  assert (n / 10 < 10 ^ Z.of_nat (S k)) as Hdiv by (apply Z.div_lt_upper_bound; lia).
  specialize (IH Hdiv). lia.
Qed.

Lemma length_decimal n k : 0 ≤ n < 10 ^ Z.of_nat (S k) → (length (decimal n) ≤ S k)%nat.
Proof.
  intros Hn. unfold decimal. rewrite Z.abs_eq by lia. destruct (Z.ltb_spec n 0); [lia|].
  pose proof (length_dec_digits (S (Z.to_nat (Z.log2 n))) n [] k). cbn [length] in *. lia.
Qed.

Lemma dec_value_zeros k ds : dec_value (replicate k "0"%char ++ ds) 0 = dec_value ds 0.
Proof. induction k as [|k IH]; [done|]. exact IH. Qed.

Lemma zero_padded_digits k n : 0 ≤ n < 10 ^ Z.of_nat (S k) → digits_of (S k) n (zero_padded (S k) n).
Proof.
  intros Hn. unfold zero_padded. destruct (Z.ltb_spec n 0); [lia|]. rewrite Z.abs_eq by lia.
  pose proof (length_decimal n k Hn). destruct (decimal_nonneg n) as (c&ds&Heq&Hds&Hv); [lia|].
  split_and!.
  - rewrite length_app, length_replicate. lia.
  - apply Forall_app; split; [by apply Forall_replicate|by rewrite Heq].
  - by rewrite dec_value_zeros, Heq.
Qed.

(** A number of [S k] digits needs no padding. *)
Lemma space_padded_digits k n :
  10 ^ Z.of_nat k ≤ n < 10 ^ Z.of_nat (S k) → digits_of (S k) n (space_padded (S k) n).
Proof.
  intros Hn. assert (0 < 10 ^ Z.of_nat k) by lia.
  pose proof (length_decimal n k ltac:(lia)). destruct (decimal_nonneg n) as (c&ds&Heq&Hds&Hv); [lia|].
  pose proof (dec_value_bound _ 0 Hds ltac:(lia)) as Hb. rewrite Hv, <-Heq in Hb.
  assert (length (decimal n) = S k) as Hlen.
  { assert (¬ (length (decimal n) ≤ k)%nat); [|lia]. intros Hle.
    pose proof (Z.pow_le_mono_r 10 (Z.of_nat (length (decimal n))) (Z.of_nat k)). lia. }
  unfold space_padded, padLeft. rewrite Hlen, decide_True by lia.
  split_and!; [done|by rewrite Heq|by rewrite Heq].
Qed.

Lemma take_digits_value ds rest v b :
  Forall (λ c, is_digit c = true) ds → (ds = [] → b = true) →
  take_digits (length ds) (ds ++ rest) v b = Some (dec_value ds v, rest).
Proof.
  intros Hds. revert v b; induction Hds as [|c ds Hc Hds IH]; intros v b Hb; cbn.
  - by rewrite Hb.
  - rewrite Hc, IH; done.
Qed.

Lemma number_digits k lo hi n ds rest :
  digits_of (S k) n ds → lo ≤ n ≤ hi → number (S k) lo hi (ds ++ rest) = Some (n, rest).
Proof.
  intros (Hlen&Hds&<-) Hn. unfold number.
  rewrite <-Hlen, take_digits_value; [|done|intros ->; discriminate Hlen]. cbn.
  rewrite !(proj2 (Z.leb_le _ _)) by lia. done.
Qed.

Lemma skip_space_digits k n ds rest :
  digits_of (S k) n ds → skip_space (" "%char :: ds ++ rest) = ds ++ rest.
Proof.
  intros (Hlen&Hds&_). destruct ds as [|c ds]; [done|]. apply Forall_inv in Hds.
  destruct (digit_not_special c Hds) as [Hws _]. cbn [skip_space app].
  rewrite bool_decide_true by (vm_compute; constructor). by rewrite bool_decide_false.
Qed.

Lemma get_time_digits y mo d h mi s ys mos ds hs mis ss :
  digits_of 4 y ys → digits_of 2 mo mos → digits_of 2 d ds →
  digits_of 2 h hs → digits_of 2 mi mis → digits_of 2 s ss →
  0 ≤ y ≤ 9999 → 1 ≤ mo ≤ 12 → 1 ≤ d ≤ 31 → 0 ≤ h ≤ 23 → 0 ≤ mi ≤ 59 → 0 ≤ s ≤ 60 →
  get_time ((ys ++ "-"%char :: mos ++ "-"%char :: ds) ++ " "%char :: hs ++
            ":"%char :: mis ++ ":"%char :: ss) = Some (Tm (y - 1900) (mo - 1) d h mi s).
Proof.
  intros. unfold get_time. rewrite <-app_assoc, <-app_comm_cons, <-app_assoc, <-app_comm_cons.
  erewrite number_digits by done. cbn [mbind option_bind literal].
  rewrite bool_decide_true by done. cbn [mbind option_bind].
  erewrite number_digits by done. cbn [mbind option_bind literal].
  rewrite bool_decide_true by done. cbn [mbind option_bind].
  erewrite number_digits by done. cbn [mbind option_bind].
  erewrite skip_space_digits by done.
  erewrite number_digits by done. cbn [mbind option_bind literal].
  rewrite bool_decide_true by done. cbn [mbind option_bind].
  erewrite number_digits by done. cbn [mbind option_bind literal].
  rewrite bool_decide_true by done. cbn [mbind option_bind].
  rewrite <-(app_nil_r ss). by erewrite number_digits by done.
Qed.

Lemma get_time_midnight y mo d ys mos ds :
  digits_of 4 y ys → digits_of 2 mo mos → digits_of 2 d ds →
  0 ≤ y ≤ 9999 → 1 ≤ mo ≤ 12 → 1 ≤ d ≤ 31 →
  get_time ((ys ++ "-"%char :: mos ++ "-"%char :: ds) ++ lit " 00:00:00") =
  Some (Tm (y - 1900) (mo - 1) d 0 0 0).
Proof.
  intros. assert (digits_of 2 0 (lit "00")) by (split_and!; [done|by repeat constructor|done]).
  change (lit " 00:00:00") with (" "%char :: lit "00" ++ ":"%char :: lit "00" ++ ":"%char :: lit "00").
  apply get_time_digits; done || lia.
Qed.

(** The seconds of the day. *)
Lemma gmtime_r_spec s :
  0 ≤ s < 86400 * 146097 →
  let t := gmtime_r s in
  timegm t = s ∧ 1000 ≤ tm_year t + 1900 ≤ 9999 ∧ 1 ≤ tm_mon t + 1 ≤ 12 ∧ 1 ≤ tm_mday t ≤ 31 ∧
  tm_hour t = s `mod` 86400 / 3600 ∧ tm_min t = (s `mod` 86400 / 60) `mod` 60 ∧
  tm_sec t = (s `mod` 86400) `mod` 60 ∧ 0 ≤ tm_hour t ≤ 23 ∧ 0 ≤ tm_min t ≤ 59 ∧ 0 ≤ tm_sec t ≤ 59 ∧
  86400 * days_of_date (tm_year t + 1900) (tm_mon t + 1) (tm_mday t) = s - s `mod` 86400.
Proof.
  intros Hs. unfold gmtime_r, timegm. pose proof (date_of_days_spec (s / 86400)) as Hd.
  destruct (date_of_days (s / 86400)) as [[y m] d].
  cbn [tm_year tm_mon tm_mday tm_hour tm_min tm_sec].
  rewrite !Z.sub_add. destruct Hd as ([Hm Hd]&Hday&Hy). rewrite Hday.
  specialize (Hy ltac:(div_lia)). assert (month_length y m ≤ 31).
  { unfold month_length. by repeat case_match. }
  split_and!; try done; try lia; div_lia.
Qed.

Lemma date_string_digits s :
  0 ≤ s < 86400 * 146097 →
  let t := gmtime_r s in
  ∃ ys mos ds, date_string t = ys ++ "-"%char :: mos ++ "-"%char :: ds ∧
    digits_of 4 (tm_year t + 1900) ys ∧ digits_of 2 (tm_mon t + 1) mos ∧ digits_of 2 (tm_mday t) ds.
Proof.
  intros Hs. destruct (gmtime_r_spec s Hs) as (_&?&?&?&_). cbv zeta in *.
  eexists _, _, _. split; [reflexivity|].
  split_and!; [apply (space_padded_digits 3)|apply (zero_padded_digits 1)..]; lia.
Qed.

Lemma clock_string_digits s :
  0 ≤ s < 86400 * 146097 →
  let t := gmtime_r s in
  ∃ hs mis ss, clock_string t = hs ++ ":"%char :: mis ++ ":"%char :: ss ∧
    digits_of 2 (tm_hour t) hs ∧ digits_of 2 (tm_min t) mis ∧ digits_of 2 (tm_sec t) ss.
Proof.
  intros Hs. destruct (gmtime_r_spec s Hs) as (_&_&_&_&_&_&_&?&?&?&_). cbv zeta in *.
  eexists _, _, _. split; [reflexivity|]. split_and!; apply (zero_padded_digits 1); lia.
Qed.

Lemma length_date_string s :
  0 ≤ s < 86400 * 146097 → length (date_string (gmtime_r s)) = 10%nat.
Proof.
  intros Hs. destruct (date_string_digits s Hs) as (ys&mos&ds&->&(Hy&_)&(Hm&_)&(Hd&_)).
  rewrite !length_app. cbn [length]. rewrite length_app. cbn [length]. by rewrite Hy, Hm, Hd.
Qed.

Lemma length_clock_string s :
  0 ≤ s < 86400 * 146097 → length (clock_string (gmtime_r s)) = 8%nat.
Proof.
  intros Hs. destruct (clock_string_digits s Hs) as (ys&mos&ds&->&(Hy&_)&(Hm&_)&(Hd&_)).
  rewrite !length_app. cbn [length]. rewrite length_app. cbn [length]. by rewrite Hy, Hm, Hd.
Qed.

(** The seconds of a timestamp that is not negative. *)
Lemma seconds_range ts :
  0 ≤ ts < 2 ^ 63 → ts ÷ NANOSECONDS_PER_SECOND = ts / 1000000000 ∧ 0 ≤ ts / 1000000000 < 86400 * 146097.
Proof. intros. unfold NANOSECONDS_PER_SECOND. rewrite Z.quot_div_nonneg by lia. split; [done|div_lia]. Qed.

Lemma toDateString_eq ts :
  0 ≤ ts < 2 ^ 63 → toDateString ts = date_string (gmtime_r (ts / 1000000000)).
Proof.
  intros Hts. destruct (seconds_range ts Hts) as [Heq Hs]. unfold toDateString, snprintf64.
  rewrite Heq, take_ge; [done|]. rewrite length_date_string by done. lia.
Qed.

Lemma toString_seconds ts :
  0 ≤ ts < 2 ^ 63 →
  ∃ rest, toString ts = date_string (gmtime_r (ts / 1000000000)) ++ " "%char ::
                        clock_string (gmtime_r (ts / 1000000000)) ++ rest.
Proof.
  intros Hts. destruct (seconds_range ts Hts) as [Heq Hs]. unfold toString, snprintf64. rewrite Heq.
  rewrite take_app_ge by (rewrite length_date_string by done; lia).
  rewrite length_date_string by done. cbn [Nat.sub take].
  rewrite take_app_ge by (rewrite length_clock_string by done; lia). eauto.
Qed.

Lemma take_toString ts :
  0 ≤ ts < 2 ^ 63 →
  take 19 (toString ts) = date_string (gmtime_r (ts / 1000000000)) ++ " "%char ::
                          clock_string (gmtime_r (ts / 1000000000)).
Proof.
  intros Hts. destruct (seconds_range ts Hts) as [_ Hs]. destruct (toString_seconds ts Hts) as [rest ->].
  rewrite take_app_ge by (rewrite length_date_string by done; lia).
  rewrite length_date_string by done. cbn [Nat.sub take].
  rewrite take_app_le by (rewrite length_clock_string by done; lia).
  rewrite take_ge; [done|]. rewrite length_clock_string by done. lia.
Qed.

Lemma substr_checked_mid s a b c pos n :
  s = a ++ b ++ c → length a = pos → length b = n → substr_checked s pos n = Ret b.
Proof.
  intros -> <- <-. unfold substr_checked, substr.
  rewrite decide_True by (rewrite length_app; lia). by rewrite drop_app_length, take_app_length.
Qed.

Lemma stoul_digits ds n : ds ≠ [] → Forall (λ c, is_digit c = true) ds →
  dec_value ds 0 = n → in_u 64 n → stoul ds = Ret n.
Proof.
  intros Hne Hds <- Hn. destruct ds as [|c ds]; [done|]. unfold stoul.
  pose proof (Forall_inv Hds) as Hc. cbn beta in Hc. rewrite Hc.
  pose proof (stoi_digits_value (c :: ds) [] 0 Hds I) as Hv. rewrite app_nil_r in Hv.
  by rewrite Hv, bool_decide_true.
Qed.

Lemma dec_value_shift b v : dec_value b v = v * 10 ^ Z.of_nat (length b) + dec_value b 0.
Proof.
  revert v; induction b as [|c b IH]; intros v; [cbn; lia|].
  cbn [dec_value foldl length]. fold (dec_value b (v * 10 + (chr c - chr "0"))).
  fold (dec_value b (0 * 10 + (chr c - chr "0"))).
  rewrite IH, (IH (0 * 10 + _)), Nat2Z.inj_succ, Z.pow_succ_r by lia. ring.
Qed.

Lemma dec_value_app a b :
  dec_value (a ++ b) 0 = dec_value a 0 * 10 ^ Z.of_nat (length b) + dec_value b 0.
Proof. unfold dec_value at 1. rewrite foldl_app. apply dec_value_shift. Qed.

Lemma toHHMMSS_run ts :
  0 ≤ ts < 2 ^ 63 →
  let day := (ts / 1000000000) `mod` 86400 in
  toHHMMSS ts = Ret (10000 * (day / 3600) + 100 * ((day / 60) `mod` 60) + day `mod` 60).
Proof.
  intros Hts day. destruct (seconds_range ts Hts) as [_ Hs].
  destruct (toString_seconds ts Hts) as [rest Hstr].
  destruct (clock_string_digits _ Hs) as (hs&mis&ss&Hc&Hh&Hm&Hsec).
  destruct (gmtime_r_spec _ Hs) as (_&_&_&_&Eh&Em&Es&?&?&?&_).
  fold day in Eh, Em, Es. rewrite Eh, Em, Es in *.
  pose proof (length_date_string _ Hs) as Hlen. rewrite Hc in Hstr. clear Hc.
  destruct Hh as (Lh&Dh&Vh), Hm as (Lm&Dm&Vm), Hsec as (Ls&Ds&Vs).
  set (D := date_string _) in *. unfold toHHMMSS.
  rewrite (substr_checked_mid _ (D ++ [" "%char]) hs (":"%char :: mis ++ ":"%char :: ss ++ rest));
    [|rewrite Hstr; repeat (rewrite <-app_assoc || cbn [app]); reflexivity|rewrite length_app; cbn; lia|done].
  rewrite (substr_checked_mid _ (D ++ " "%char :: hs ++ [":"%char]) mis (":"%char :: ss ++ rest));
    [|rewrite Hstr; repeat (rewrite <-app_assoc || cbn [app]); reflexivity|by rewrite !length_app, Hlen; cbn; rewrite length_app, Lh|done].
  rewrite (substr_checked_mid _ (D ++ " "%char :: hs ++ ":"%char :: mis ++ [":"%char]) ss rest);
    [|rewrite Hstr; repeat (rewrite <-app_assoc || cbn [app]); reflexivity
     |by rewrite !length_app, Hlen; cbn; rewrite !length_app; cbn; rewrite length_app, Lh, Lm|done].
  apply stoul_digits.
  - destruct hs; [discriminate Lh|discriminate].
  - by rewrite !Forall_app.
  - rewrite !dec_value_app, length_app, Vh, Vm, Vs, Lm, Ls. cbn. lia.
  - unfold in_u. lia.
Qed.

Lemma int64_run z : in_s 64 z → int64 z = Ret z.
Proof. intros. unfold int64. by rewrite bool_decide_true. Qed.

Lemma fromYYYYmmddHHMMSS_run s c t :
  0 ≤ s < 86400 * 146097 → length c = 8%nat →
  get_time (date_string (gmtime_r s) ++ " "%char :: c) = Some t → in_s 64 (timegm t * 1000000000) →
  fromYYYYmmddHHMMSS (date_string (gmtime_r s) ++ " "%char :: c) = Ret (timegm t * 1000000000).
Proof.
  intros Hs Hlen Ht Hr. unfold fromYYYYmmddHHMMSS.
  rewrite bool_decide_true by (rewrite length_app, length_date_string by done; cbn; by rewrite Hlen).
  cbn [negb]. rewrite Ht. by apply int64_run.
Qed.

(** C37: a timestamp that is not negative is printed as the date and the
    time of day of the Gregorian calendar, and the parsers read this back:
    the first 19 characters of [toString] are the timestamp to the second,
    [toDateString] is its day, and [toHHMMSS] is the time of day as a
    number. *)
Theorem timestamp_roundtrip ts :
  0 ≤ ts < 2 ^ 63 →
  fromYYYYmmddHHMMSS (take LEN_YYYY_MM_DD_HH_MM_SS (toString ts)) = Ret (ts - ts `mod` 1000000000) ∧
  fromYYYYmmdd (toDateString ts) = Ret (ts - ts `mod` (86400 * 1000000000)) ∧
  toHHMMSS ts = Ret (let day := (ts / 1000000000) `mod` 86400 in
                     10000 * (day / 3600) + 100 * ((day / 60) `mod` 60) + day `mod` 60).
Proof.
  intros Hts. destruct (seconds_range ts Hts) as [_ Hs].
  destruct (gmtime_r_spec _ Hs) as (Ht&?&?&?&_&_&_&?&?&?&Hday).
  destruct (date_string_digits _ Hs) as (ys&mos&ds&Hd&Hy&Hmo&Hds).
  split_and!; [| |by apply toHHMMSS_run].
  - change LEN_YYYY_MM_DD_HH_MM_SS with 19%nat. rewrite take_toString by done.
    destruct (clock_string_digits _ Hs) as (hs&mis&ss&Hc&Hh&Hm&Hsec).
    erewrite fromYYYYmmddHHMMSS_run;
      [|done|by apply length_clock_string|rewrite Hd, Hc; apply get_time_digits; done || lia|].
    all: destruct (gmtime_r _) as [y mo d h mi sc]; cbn [tm_year tm_mon tm_mday tm_hour tm_min tm_sec] in *;
      rewrite !Z.add_simpl_r, Ht.
    + f_equal. div_lia.
    + unfold in_s. div_lia.
  - unfold fromYYYYmmdd. rewrite toDateString_eq by done.
    rewrite bool_decide_true by (by rewrite length_date_string). cbn [negb].
    assert (get_time (date_string (gmtime_r (ts / 1000000000)) ++ lit " 00:00:00") =
            Some (Tm (tm_year (gmtime_r (ts / 1000000000))) (tm_mon (gmtime_r (ts / 1000000000)))
                     (tm_mday (gmtime_r (ts / 1000000000))) 0 0 0)) as Hget.
    { rewrite Hd, (get_time_midnight _ _ _ _ _ _ Hy Hmo Hds), !Z.add_simpl_r by lia. done. }
    change (lit " 00:00:00") with (" "%char :: lit "00:00:00").
    erewrite fromYYYYmmddHHMMSS_run; [|done| |exact Hget|]; [|done|];
      unfold timegm; cbn [tm_year tm_mon tm_mday tm_hour tm_min tm_sec]; rewrite Hday.
    + f_equal. div_lia.
    + unfold in_s. div_lia.
Qed.

Lemma timestamp_roundtrip_witness :
  0 ≤ 1700000000123456789 < 2 ^ 63 ∧
  toString 1700000000123456789 = lit "2023-11-14 22:13:20.123456789" ∧
  fromYYYYmmddHHMMSS (take LEN_YYYY_MM_DD_HH_MM_SS (toString 1700000000123456789)) =
    Ret 1700000000000000000 ∧
  fromYYYYmmdd (toDateString 1700000000123456789) = Ret 1699920000000000000 ∧
  toHHMMSS 1700000000123456789 = Ret 221320.
Proof.
  split; [lia|]. split; [vm_compute; reflexivity|]. apply (timestamp_roundtrip 1700000000123456789). lia.
Defined.
