(* ===== verification/Doubles.v ===== *)
(** * Doubles: the code that computes with [double]

    The parsers [fast_parse_double] and [parseDouble] of
    [src/include/revoq/StringUtils.hpp] and the conversions between [Duration]
    and [double] of [src/include/revoq/TimeUtils.h].  A [double] is IEEE 754
    binary64, as the Standard Library's [SpecFloat] specifies it: 53 bits of
    precision, round to nearest even, no operation contracted into another.
    The theorems: integers that fit 53 bits are handled exactly, and
    [fast_parse_double] reads a negative number with decimals as a large
    positive one. *)

From Stdlib Require Import SpecFloat.
From S2P Require Import Prelude Strings Time.

(** ** [double] *)

Abbreviation double := spec_float.
Definition f64_mul : double → double → double := SFmul 53 1024.
Definition f64_add : double → double → double := SFadd 53 1024.
Definition f64_sub : double → double → double := SFsub 53 1024.
Definition f64_div : double → double → double := SFdiv 53 1024.

(** The conversion of an integer, rounded to the nearest [double]. *)
Definition of_int (z : Z) : double := binary_normalize 53 1024 z 0 false.

(** The literal [n / d]: the quotient of two exact numbers, rounded. *)
Definition literal_of (n d : Z) : double := f64_div (of_int n) (of_int d).

(** [static_cast<int64_t>]: truncation; out of range it is undefined. *)
Definition truncate (x : double) : option Z :=
  match x with
  | S754_zero _ => Some 0
  | S754_finite s m e =>
      let z := if 0 <=? e then Zpos m * 2 ^ e else Zpos m / 2 ^ (- e) in
      Some (if s then - z else z)
  | _ => None
  end.
Definition to_int64 (x : double) : outcome Z :=
  match truncate x with
  | Some z => int64 z
  | None => Fault UndefinedBehaviour
  end.

(** ** [Duration] *)

Definition from_msec (msec : double) : outcome Z := to_int64 (f64_mul msec (of_int (10 ^ 6))).
Definition from_nsec (nsec : Z) : Z := nsec.
Definition from_sec (sec : double) : outcome Z := to_int64 (f64_mul sec (of_int (10 ^ 9))).
Definition from_minute (minute : double) : outcome Z :=
  to_int64 (f64_mul (f64_mul minute (of_int (10 ^ 9))) (of_int 60)).
Definition from_hour (hour : double) : outcome Z :=
  to_int64 (f64_mul (f64_mul hour (of_int (10 ^ 9))) (of_int 3600)).
Definition from_day (day : double) : outcome Z :=
  to_int64 (f64_mul (f64_mul (f64_mul day (of_int (10 ^ 9))) (of_int 3600)) (of_int 24)).

Definition Duration_sec (nsec : Z) : double := f64_mul (of_int nsec) (literal_of 1 (10 ^ 9)).
Definition Duration_msec (nsec : Z) : double := f64_mul (of_int nsec) (literal_of 1 (10 ^ 6)).

(** The literals of an [unsigned long long]; those of a [long double] take
    the conversion of their argument to [double]. *)
Definition lit_ns (nsec : Z) : Z := from_nsec (s64 nsec).
Definition lit_ms (msec : Z) : outcome Z := from_msec (of_int msec).
Definition lit_s (sec : Z) : outcome Z := from_sec (of_int sec).
Definition lit_m (minute : Z) : outcome Z := from_minute (of_int minute).
Definition lit_h (hour : Z) : outcome Z := from_hour (of_int hour).
Definition lit_d (day : Z) : outcome Z := from_day (of_int day).

(** ** [fast_parse_double]

    [str] is the memory from the pointer on, [len] the length passed; reading
    past [str] is a fault.  The first character is read before [len] is
    looked at. *)

Fixpoint fast_parse_loop (len : nat) (str : str) (mantissa decimals : Z) : outcome (Z * Z) :=
  match len with
  | O => Ret (mantissa, decimals)
  | S len =>
      match str with
      | [] => Fault UndefinedBehaviour
      | c :: str =>
          if is_digit c then
            let mantissa := u64 (mantissa * 10 + (chr c - chr "0")) in
            fast_parse_loop len str mantissa (if 0 <=? decimals then decimals + 1 else decimals)
          else if bool_decide (c = "."%char) && (decimals <? 0) then
            fast_parse_loop len str mantissa 0
          else Ret (mantissa, decimals)
      end
  end.

Definition pow10_negative : list double := (λ k, literal_of 1 (10 ^ k)) <$> seqZ 0 16.

(** [sign * mantissa] is computed in [uint64_t]. *)
Definition fast_parse_double (str : str) (len : nat) : outcome double :=
  match str with
  | [] => Fault UndefinedBehaviour
  | c :: rest =>
      let negative := bool_decide (c = "-"%char) in
      let sign := if negative then -1 else 1 in
      let '(p, len) := if negative then (rest, (len - 1)%nat) else (str, len) in
      match fast_parse_loop len p 0 (-1) with
      | Ret (mantissa, decimals) =>
          if decimals <=? 0 then Ret (f64_mul (of_int sign) (of_int mantissa))
          else match pow10_negative !! Z.to_nat decimals with
               | Some scale => Ret (f64_mul (of_int (u64 (u64 sign * mantissa))) scale)
               | None => Fault UndefinedBehaviour
               end
      | Throw e => Throw e
      | Fault f => Fault f
      end
  end.

(** ** [parseDouble] *)

Fixpoint parseDouble_int (s : str) (result : double) : double * str :=
  match s with
  | c :: rest =>
      if is_digit c then
        parseDouble_int rest (f64_add (f64_mul result (of_int 10)) (of_int (chr c - chr "0")))
      else (result, s)
  | [] => (result, [])
  end.
Fixpoint parseDouble_frac (s : str) (result fraction : double) : double * str :=
  match s with
  | c :: rest =>
      if is_digit c then
        parseDouble_frac rest (f64_add result (f64_mul (of_int (chr c - chr "0")) fraction))
          (f64_mul fraction (literal_of 1 10))
      else (result, s)
  | [] => (result, [])
  end.

(** [None] is the return value [false]. *)
Definition parseDouble (s : str) : option double :=
  match s with
  | [] => None
  | c :: rest =>
      let negative := bool_decide (c = "-"%char) in
      let body := if negative || bool_decide (c = "+"%char) then rest else s in
      match body with
      | [] => None
      | _ =>
          let '(result, body) := parseDouble_int body (of_int 0) in
          let '(result, body) :=
            match body with
            | c :: rest =>
                if bool_decide (c = "."%char) then parseDouble_frac rest result (literal_of 1 10)
                else (result, body)
            | [] => (result, [])
            end in
          match body with
          | [] => Some (if negative then SFopp result else result)
          | _ => None
          end
      end
  end.

Example parse_1 : parseDouble (lit "-12.5") = Some (literal_of (-25) 2).
Proof. vm_compute. reflexivity. Qed.
Example parse_2 : parseDouble (lit "1.5e3") = None.
Proof. vm_compute. reflexivity. Qed.
Example fast_parse_1 : fast_parse_double (lit "12345.67") 8 = Ret (literal_of 1234567 100).
Proof. vm_compute. reflexivity. Qed.
Example lit_1 : lit_ms 250 = Ret 250000000.
Proof. vm_compute. reflexivity. Qed.

(** ** Integers of at most 53 bits are exact *)

(** The number of bits. *)
Lemma digits2_log2 p : Zpos (digits2_pos p) = Z.log2 (Zpos p) + 1.
Proof.
  induction p as [p IH|p IH|]; [| |done]; cbn [digits2_pos].
  - rewrite (Pos2Z.inj_xI p), Z.log2_succ_double, Pos2Z.inj_succ, IH by lia. lia.
  - rewrite (Pos2Z.inj_xO p), Z.log2_double, Pos2Z.inj_succ, IH by lia. lia.
Qed.

Definition bits (n : Z) : Z := Z.log2 n + 1.

Lemma Zdigits2_pos n : 0 < n → Zdigits2 n = bits n.
Proof. destruct n; try lia. intros _. apply digits2_log2. Qed.

Lemma bits_shift n k : 0 < n → 0 ≤ k → bits (n * 2 ^ k) = bits n + k.
Proof. intros. unfold bits. rewrite Z.log2_mul_pow2 by done. lia. Qed.

Lemma bits_spec n : 0 < n → 1 ≤ bits n ∧ 2 ^ (bits n - 1) ≤ n < 2 ^ bits n.
Proof.
  intros Hn. unfold bits. rewrite Z.add_simpl_r, Z.add_1_r.
  pose proof (Z.log2_nonneg n). split; [lia|]. by apply Z.log2_spec.
Qed.

Lemma bits_le n k : 0 < n < 2 ^ k → 0 ≤ k → bits n ≤ k.
Proof. intros Hn Hk. pose proof (Z.log2_lt_pow2 n k). unfold bits. lia. Qed.

(** Shifting out zeros is exact. *)
Lemma shr_1_double m : 0 < m → shr_1 (Build_shr_record (2 * m) false false) = Build_shr_record m false false.
Proof. by destruct m. Qed.

Lemma iter_shr_exact p q :
  0 < q →
  SpecFloat.iter_pos shr_1 p (Build_shr_record (q * 2 ^ Zpos p) false false) = Build_shr_record q false false.
Proof.
  revert q; induction p as [p IH|p IH|]; intros q Hq; cbn [SpecFloat.iter_pos].
  - replace (q * 2 ^ Zpos p~1) with (2 * (q * 2 ^ Zpos p * 2 ^ Zpos p)).
    + rewrite shr_1_double by lia. rewrite !IH by lia. done.
    + rewrite (Pos2Z.inj_xI p), Z.pow_add_r, (Z.mul_comm 2 (Zpos p)), Z.pow_mul_r by lia. lia.
  - replace (q * 2 ^ Zpos p~0) with (q * 2 ^ Zpos p * 2 ^ Zpos p).
    + rewrite !IH by lia. done.
    + rewrite (Pos2Z.inj_xO p), (Z.mul_comm 2 (Zpos p)), Z.pow_mul_r by lia. lia.
  - rewrite Z.pow_1_r, Z.mul_comm. by apply shr_1_double.
Qed.

(** The [double] of a positive integer of at most 53 bits. *)
Definition exact (s : bool) (n : Z) : double :=
  S754_finite s (Z.to_pos (n * 2 ^ (53 - bits n))) (bits n - 53).

Lemma round_aux_exact s n k :
  0 < n < 2 ^ 53 → 53 - bits n ≤ k →
  binary_round_aux 53 1024 s (n * 2 ^ k) (- k) loc_Exact = exact s n.
Proof.
  intros Hn Hk. pose proof (bits_spec n ltac:(lia)). pose proof (bits_le n 53 ltac:(lia) ltac:(lia)).
  set (j := k - (53 - bits n)).
  assert (∀ m e, 0 < m → bits m = 53 → -1000 ≤ e ≤ 0 →
    shr_fexp 53 1024 m e loc_Exact = (Build_shr_record m false false, e)) as Hstay.
  { intros m e Hm Hb He. unfold shr_fexp. rewrite Zdigits2_pos, Hb by done.
    unfold fexp, emin. rewrite Z.max_l by lia. by replace (53 + e - 53 - e) with 0 by lia. }
  assert (shr_fexp 53 1024 (n * 2 ^ k) (- k) loc_Exact =
          (Build_shr_record (n * 2 ^ (53 - bits n)) false false, bits n - 53)) as Hfirst.
  { unfold shr_fexp. rewrite Zdigits2_pos, bits_shift by lia. unfold fexp, emin.
    rewrite Z.max_l by lia. replace (bits n + k + - k - 53 - - k) with j by lia.
    destruct (decide (j = 0)) as [Hj|Hj].
    - rewrite Hj. cbn [shr shr_record_of_loc]. f_equal; [|lia]. do 2 f_equal. f_equal. lia.
    - destruct j as [|p|p] eqn:Ej; [done| |lia]. cbn [shr shr_record_of_loc].
      replace (n * 2 ^ k) with (n * 2 ^ (53 - bits n) * 2 ^ Zpos p).
      + rewrite iter_shr_exact by lia. f_equal. lia.
      + rewrite <-Z.mul_assoc, <-Z.pow_add_r by lia. do 2 f_equal. lia. }
  unfold binary_round_aux. rewrite Hfirst. cbn [shr_m loc_of_shr_record round_nearest_even].
  assert (0 < n * 2 ^ (53 - bits n)) by lia.
  rewrite Hstay by (done || rewrite ?bits_shift; lia). cbn [shr_m].
  unfold exact. destruct (n * 2 ^ (53 - bits n)) as [|p|p]; [lia| |lia].
  rewrite (proj2 (Z.leb_le _ _)) by lia. done.
Qed.

Lemma iter_xO m d : Zpos (Pos.iter xO m d) = Zpos m * 2 ^ Zpos d.
Proof.
  rewrite Pos2Nat.inj_iter, <-(positive_nat_Z d). induction (Pos.to_nat d) as [|k IH].
  - change (2 ^ Z.of_nat 0) with 1. cbn. lia.
  - cbn [Nat.iter nat_rect]. rewrite Pos2Z.inj_xO, IH, Nat2Z.inj_succ, Z.pow_succ_r by lia. lia.
Qed.

Lemma shl_align_spec m e e' :
  e' ≤ e → Zpos (fst (shl_align m e e')) = Zpos m * 2 ^ (e - e') ∧ snd (shl_align m e e') = e'.
Proof.
  intros He. unfold shl_align. destruct (e' - e) as [|d|d] eqn:E; [|lia|].
  - replace (e - e') with 0 by lia. cbn. lia.
  - cbn [fst snd]. rewrite iter_xO. by replace (e - e') with (Zpos d) by lia.
Qed.

Lemma shl_align_stay m e e' : e ≤ e' → shl_align m e e' = (m, e).
Proof. intros He. unfold shl_align. destruct (e' - e) eqn:E; done || lia. Qed.

Lemma round_exact s n k m :
  0 < n < 2 ^ 53 → 0 ≤ k → Zpos m = n * 2 ^ k → binary_round 53 1024 s m (- k) = exact s n.
Proof.
  intros Hn Hk Hm. pose proof (bits_spec n ltac:(lia)). pose proof (bits_le n 53 ltac:(lia) ltac:(lia)).
  unfold binary_round. rewrite digits2_log2. fold (bits (Zpos m)). rewrite Hm, bits_shift by lia.
  unfold fexp, emin. rewrite Z.max_l by lia.
  replace (bits n + k + - k - 53) with (- (53 - bits n)) by lia.
  destruct (decide (53 - bits n ≤ k)).
  - rewrite shl_align_stay, Hm by lia. by apply round_aux_exact.
  - destruct (shl_align_spec m (- k) (- (53 - bits n)) ltac:(lia)) as [Hfst Hsnd].
    destruct (shl_align m (- k) (- (53 - bits n))) as [m' e']. cbn [fst snd] in *. rewrite Hfst, Hsnd, Hm.
    rewrite <-Z.mul_assoc, <-Z.pow_add_r by lia.
    replace (k + (- k - - (53 - bits n))) with (53 - bits n) by lia. apply round_aux_exact; lia.
Qed.

(** The [double] of an integer of at most 53 bits. *)
Definition exactZ (n : Z) : double :=
  if n =? 0 then S754_zero false else exact (n <? 0) (Z.abs n).

Lemma normalize_exact n k :
  Z.abs n < 2 ^ 53 → 0 ≤ k → binary_normalize 53 1024 (n * 2 ^ k) (- k) false = exactZ n.
Proof.
  intros Hn Hk. unfold exactZ. destruct (Z.eqb_spec n 0) as [->|Hnz]; [done|].
  assert (0 < 2 ^ k) by lia.
  destruct (Z.ltb_spec n 0).
  - rewrite Z.abs_neq by lia. destruct (n * 2 ^ k) as [|p|p] eqn:E; [nia|nia|].
    cbn [binary_normalize]. apply round_exact; lia.
  - rewrite Z.abs_eq by lia. destruct (n * 2 ^ k) as [|p|p] eqn:E; [nia| |nia].
    cbn [binary_normalize]. apply round_exact; lia.
Qed.

Lemma of_int_exact n : Z.abs n < 2 ^ 53 → of_int n = exactZ n.
Proof.
  intros Hn. unfold of_int. rewrite <-(normalize_exact n 0) by lia.
  change (2 ^ 0) with 1. by rewrite Z.mul_1_r.
Qed.

Lemma exact_mantissa n :
  0 < n < 2 ^ 53 → Zpos (Z.to_pos (n * 2 ^ (53 - bits n))) = n * 2 ^ (53 - bits n).
Proof.
  intros Hn. pose proof (bits_le n 53 ltac:(lia) ltac:(lia)). rewrite Z2Pos.id; [done|]. lia.
Qed.

Lemma mul_exact s t a b :
  0 < a → 0 < b → a * b < 2 ^ 53 → f64_mul (exact s a) (exact t b) = exact (xorb s t) (a * b).
Proof.
  intros Ha Hb Hab. assert (a < 2 ^ 53 ∧ b < 2 ^ 53) as [??] by nia.
  pose proof (bits_spec a Ha) as [? Hba]. pose proof (bits_spec b Hb) as [? Hbb].
  pose proof (bits_le a 53 ltac:(lia) ltac:(lia)). pose proof (bits_le b 53 ltac:(lia) ltac:(lia)).
  change (f64_mul (exact s a) (exact t b)) with
    (binary_round_aux 53 1024 (xorb s t)
       (Zpos (Z.to_pos (a * 2 ^ (53 - bits a)) * Z.to_pos (b * 2 ^ (53 - bits b))))
       (bits a - 53 + (bits b - 53)) loc_Exact).
  rewrite Pos2Z.inj_mul, !exact_mantissa by lia.
  replace (a * 2 ^ (53 - bits a) * (b * 2 ^ (53 - bits b)))
    with (a * b * 2 ^ (106 - bits a - bits b)).
  - replace (bits a - 53 + (bits b - 53)) with (- (106 - bits a - bits b)) by lia.
    apply round_aux_exact; [nia|].
    assert (bits a + bits b - 1 ≤ bits (a * b)); [|lia].
    unfold bits at 3. assert (bits a - 1 + (bits b - 1) ≤ Z.log2 (a * b)); [|lia].
    apply Z.log2_le_pow2; [nia|]. rewrite Z.pow_add_r by lia. nia.
  - replace (106 - bits a - bits b) with ((53 - bits a) + (53 - bits b)) by lia.
    rewrite Z.pow_add_r by lia. ring.
Qed.

Lemma of_int_mul a b :
  Z.abs (a * b) < 2 ^ 53 → 0 < b → a ≠ 0 → f64_mul (of_int a) (of_int b) = of_int (a * b).
Proof.
  intros Hab Hb Ha. rewrite Z.abs_mul in Hab. assert (1 ≤ Z.abs a) by lia. rewrite (Z.abs_eq b) in Hab by lia.
  rewrite !of_int_exact by nia. unfold exactZ.
  rewrite !(proj2 (Z.eqb_neq _ _)) by nia. rewrite (Z.abs_eq b), mul_exact by nia.
  rewrite Z.abs_mul, (Z.abs_eq b) by lia. f_equal.
  rewrite (proj2 (Z.ltb_ge b 0)), xorb_false_r by lia. 
  destruct (Z.ltb_spec a 0), (Z.ltb_spec (a * b) 0); done || nia.
Qed.

Lemma of_int_mul_0 b : 0 < b < 2 ^ 53 → f64_mul (of_int 0) (of_int b) = of_int 0.
Proof.
  intros Hb. rewrite (of_int_exact b) by lia. unfold exactZ.
  rewrite (proj2 (Z.eqb_neq _ _)), (proj2 (Z.ltb_ge b 0)) by lia. done.
Qed.

Lemma of_int_mul_pos a b :
  Z.abs a * b < 2 ^ 53 → 0 < b < 2 ^ 53 → f64_mul (of_int a) (of_int b) = of_int (a * b).
Proof.
  intros Hab Hb. destruct (decide (a = 0)) as [->|]; [by apply of_int_mul_0|].
  apply of_int_mul; [|lia|done]. rewrite Z.abs_mul. lia.
Qed.

Lemma add_exact a b :
  Z.abs a < 2 ^ 53 → Z.abs b < 2 ^ 53 → Z.abs (a + b) < 2 ^ 53 →
  f64_add (of_int a) (of_int b) = of_int (a + b).
Proof.
  intros Ha Hb Hab. rewrite !of_int_exact by done.
  unfold exactZ at 1 2. destruct (Z.eqb_spec a 0) as [->|], (Z.eqb_spec b 0) as [->|].
  - done.
  - rewrite Z.add_0_l. unfold exactZ. by rewrite (proj2 (Z.eqb_neq b 0)).
  - rewrite Z.add_0_r. unfold exactZ. by rewrite (proj2 (Z.eqb_neq a 0)).
  - unfold f64_add, SFadd, exact.
    set (ea := bits (Z.abs a) - 53). set (eb := bits (Z.abs b) - 53).
    pose proof (bits_le (Z.abs a) 53 ltac:(lia) ltac:(lia)).
    pose proof (bits_le (Z.abs b) 53 ltac:(lia) ltac:(lia)).
    assert (∀ n ez, Z.abs n < 2 ^ 53 → n ≠ 0 → ez ≤ bits (Z.abs n) - 53 →
      cond_Zopp (n <? 0) (Zpos (fst (shl_align (Z.to_pos (Z.abs n * 2 ^ (53 - bits (Z.abs n))))
        (bits (Z.abs n) - 53) ez))) = n * 2 ^ (- ez)) as Halign.
    { intros z ez Hz Hnz Hez. rewrite (proj1 (shl_align_spec _ _ _ Hez)), exact_mantissa by lia.
      pose proof (bits_le (Z.abs z) 53 ltac:(lia) ltac:(lia)).
      rewrite <-Z.mul_assoc, <-Z.pow_add_r by lia.
      replace (53 - bits (Z.abs z) + (bits (Z.abs z) - 53 - ez)) with (- ez) by lia.
      unfold cond_Zopp. destruct (Z.ltb_spec z 0); lia. }
    rewrite !Halign by lia. rewrite <-Z.mul_add_distr_r.
    rewrite <-(Z.opp_involutive (Z.min ea eb)) at 2. apply normalize_exact; lia.
Qed.

Lemma opp_exact n : Z.abs n < 2 ^ 53 → n ≠ 0 → SFopp (of_int n) = of_int (- n).
Proof.
  intros Hn Hnz. rewrite !of_int_exact by lia. unfold exactZ.
  rewrite !(proj2 (Z.eqb_neq _ _)), Z.abs_opp by lia. unfold exact, SFopp. f_equal.
  destruct (Z.ltb_spec n 0), (Z.ltb_spec (- n) 0); done || lia.
Qed.

Lemma truncate_exact n : Z.abs n < 2 ^ 53 → truncate (of_int n) = Some n.
Proof.
  intros Hn. rewrite of_int_exact by done. unfold exactZ. destruct (Z.eqb_spec n 0) as [->|]; [done|].
  pose proof (bits_le (Z.abs n) 53 ltac:(lia) ltac:(lia)).
  unfold exact, truncate. rewrite exact_mantissa by lia. f_equal.
  destruct (Z.leb_spec 0 (bits (Z.abs n) - 53)).
  - replace (bits (Z.abs n) - 53) with 0 by lia. replace (53 - bits (Z.abs n)) with 0 by lia.
    change (2 ^ 0) with 1. destruct (Z.ltb_spec n 0); lia.
  - replace (- (bits (Z.abs n) - 53)) with (53 - bits (Z.abs n)) by lia.
    rewrite Z.div_mul by lia. destruct (Z.ltb_spec n 0); lia.
Qed.

Lemma to_int64_exact n : Z.abs n < 2 ^ 53 → to_int64 (of_int n) = Ret n.
Proof.
  intros Hn. unfold to_int64. rewrite truncate_exact by done. apply int64_run. unfold in_s. lia.
Qed.

(** A quotient by one is exact. *)
Lemma div_one s n : 0 < n < 2 ^ 53 → f64_div (exact s n) (of_int 1) = exact s n.
Proof.
  intros Hn. pose proof (bits_spec n ltac:(lia)). pose proof (bits_le n 53 ltac:(lia) ltac:(lia)).
  change (of_int 1) with (S754_finite false 4503599627370496 (-52)).
  change (f64_div (exact s n) _) with
    (let '(mz, ez, lz) := SFdiv_core_binary 53 1024 (Zpos (Z.to_pos (n * 2 ^ (53 - bits n)))) (bits n - 53)
       4503599627370496 (-52) in
     binary_round_aux 53 1024 (xorb s false) mz ez lz).
  rewrite exact_mantissa by done. unfold SFdiv_core_binary.
  rewrite Zdigits2_pos, bits_shift by lia.
  change (Zdigits2 4503599627370496) with 53. unfold fexp, emin.
  replace (bits n + (53 - bits n) + (bits n - 53) - (53 + -52)) with (bits n - 1) by lia.
  rewrite Z.max_l by lia.
  rewrite Z.min_l by lia.
  replace (bits n - 53 - -52 - (bits n - 1 - 53)) with 53 by lia.
  rewrite Z.shiftl_mul_pow2 by lia.
  replace (n * 2 ^ (53 - bits n) * 2 ^ 53) with (n * 2 ^ (54 - bits n) * 4503599627370496).
  - pose proof (Z.div_mul (n * 2 ^ (54 - bits n)) 4503599627370496 ltac:(lia)) as Hq.
    pose proof (Z.mod_mul (n * 2 ^ (54 - bits n)) 4503599627370496 ltac:(lia)) as Hr.
    unfold Z.div, Z.modulo in Hq, Hr.
    destruct (Z.div_eucl (n * 2 ^ (54 - bits n) * 4503599627370496) 4503599627370496) as [q r].
    rewrite Hq, Hr. rewrite xorb_false_r.
    replace (bits n - 1 - 53) with (- (54 - bits n)) by lia. apply round_aux_exact; lia.
  - change 4503599627370496 with (2 ^ 52). rewrite <-!Z.mul_assoc, <-!Z.pow_add_r by lia. do 2 f_equal. lia.
Qed.

(** ** Durations *)

(** A duration of a whole number of milliseconds, seconds, minutes, hours
    or days is that number times the unit in nanoseconds, exactly, as long as
    it is below [2 ^ 53] nanoseconds (104 days): the detour over [double]
    loses nothing. *)
Lemma durations_exact n :
  (Z.abs n * 10 ^ 6 < 2 ^ 53 → from_msec (of_int n) = Ret (n * 10 ^ 6)) ∧
  (Z.abs n * 10 ^ 9 < 2 ^ 53 → from_sec (of_int n) = Ret (n * 10 ^ 9)) ∧
  (Z.abs n * (60 * 10 ^ 9) < 2 ^ 53 → from_minute (of_int n) = Ret (n * (60 * 10 ^ 9))) ∧
  (Z.abs n * (3600 * 10 ^ 9) < 2 ^ 53 → from_hour (of_int n) = Ret (n * (3600 * 10 ^ 9))) ∧
  (Z.abs n * (86400 * 10 ^ 9) < 2 ^ 53 → from_day (of_int n) = Ret (n * (86400 * 10 ^ 9))).
Proof.
  unfold from_msec, from_sec, from_minute, from_hour, from_day.
  split_and!; intros Hn; rewrite !of_int_mul_pos by (rewrite ?Z.abs_mul; lia);
    rewrite to_int64_exact by (rewrite !Z.abs_mul; lia); f_equal; lia.
Qed.

Example literals_exact : lit_s 90 = Ret 90000000000 ∧ lit_d 2 = Ret 172800000000000.
Proof. split; [apply (durations_exact 90)|apply (durations_exact 2)]; lia. Qed.

(** ** The parsers *)

Lemma fast_parse_loop_digits ds rest len m d :
  Forall (λ c, is_digit c = true) ds → 0 ≤ m → dec_value ds m < 2 ^ 64 →
  fast_parse_loop (length ds + len) (ds ++ rest) m d =
  fast_parse_loop len rest (dec_value ds m) (if 0 <=? d then d + Z.of_nat (length ds) else d).
Proof.
  intros Hds. revert m d; induction Hds as [|c ds Hc Hds IH]; intros m d Hm Hv.
  { cbn. rewrite Z.add_0_r. by destruct (0 <=? d). }
  cbn [length Nat.add app fast_parse_loop]. rewrite Hc. pose proof (is_digit_range c Hc).
  change (dec_value (c :: ds) m) with (dec_value ds (m * 10 + (chr c - chr "0"))) in *.
  pose proof (dec_value_ge ds (m * 10 + (chr c - chr "0")) Hds ltac:(lia)).
  rewrite wrap_small by (unfold in_u; lia). rewrite IH by (done || lia). f_equal.
  destruct (Z.leb_spec 0 d); [|by rewrite (proj2 (Z.leb_gt _ _))].
  rewrite (proj2 (Z.leb_le _ _)) by lia. lia.
Qed.

Definition sign_str (negative : bool) : str := if negative then ["-"%char] else [].
Definition sign_of (negative : bool) : Z := if negative then -1 else 1.

(** The sign is taken off. *)
Lemma fast_parse_sign negative c s k :
  c ≠ "-"%char ∨ negative = true →
  fast_parse_double (sign_str negative ++ c :: s) (length (sign_str negative) + k) =
  match fast_parse_loop k (c :: s) 0 (-1) with
  | Ret (mantissa, decimals) =>
      if decimals <=? 0 then Ret (f64_mul (of_int (sign_of negative)) (of_int mantissa))
      else match pow10_negative !! Z.to_nat decimals with
           | Some scale => Ret (f64_mul (of_int (u64 (u64 (sign_of negative) * mantissa))) scale)
           | None => Fault UndefinedBehaviour
           end
  | Throw e => Throw e
  | Fault f => Fault f
  end.
Proof.
  intros Hc. unfold fast_parse_double, sign_str, sign_of. destruct negative; cbn [app length Nat.add].
  - rewrite bool_decide_true by done. by rewrite Nat.sub_succ, Nat.sub_0_r.
  - rewrite bool_decide_false by naive_solver. done.
Qed.

Lemma fast_parse_integer negative ds :
  ds ≠ [] → Forall (λ c, is_digit c = true) ds → dec_value ds 0 < 2 ^ 64 →
  fast_parse_double (sign_str negative ++ ds) (length (sign_str negative ++ ds)) =
  Ret (f64_mul (of_int (sign_of negative)) (of_int (dec_value ds 0))).
Proof.
  intros Hne Hds Hv. destruct ds as [|c ds]; [done|]. rewrite length_app.
  rewrite fast_parse_sign by (left; apply (digit_not_special c (Forall_inv Hds))).
  pose proof (fast_parse_loop_digits (c :: ds) [] 0 0 (-1) Hds ltac:(lia) Hv) as Hl.
  rewrite app_nil_r, Nat.add_0_r in Hl. rewrite Hl. done.
Qed.

Lemma fast_parse_decimals negative int frac :
  Forall (λ c, is_digit c = true) int → Forall (λ c, is_digit c = true) frac →
  dec_value (int ++ frac) 0 < 2 ^ 64 → (1 ≤ length frac ≤ 15)%nat →
  let s := sign_str negative ++ int ++ "."%char :: frac in
  fast_parse_double s (length s) =
  Ret (f64_mul (of_int (u64 (sign_of negative * dec_value (int ++ frac) 0)))
         (literal_of 1 (10 ^ Z.of_nat (length frac)))).
Proof.
  intros Hint Hfrac Hv Hlen s. subst s.
  assert (dec_value (int ++ frac) 0 = dec_value frac (dec_value int 0)) as Hval
    by (unfold dec_value; by rewrite foldl_app).
  pose proof (dec_value_ge int 0 Hint ltac:(lia)).
  pose proof (dec_value_ge frac (dec_value int 0) Hfrac ltac:(lia)).
  assert (∃ c t, int ++ "."%char :: frac = c :: t ∧ c ≠ "-"%char) as (c&t&Hct&Hc).
  { destruct int as [|c int]; [by eexists _, _|]. exists c, (int ++ "."%char :: frac). split; [done|].
    apply (digit_not_special c (Forall_inv Hint)). }
  rewrite length_app, Hct, fast_parse_sign, <-Hct by (by left).
  replace (length (int ++ "."%char :: frac)) with (length int + S (length frac + 0))%nat
    by (rewrite length_app; cbn [length]; lia).
  rewrite fast_parse_loop_digits by (done || lia). cbn [Z.leb Z.compare fast_parse_loop].
  change (is_digit ".") with false. rewrite bool_decide_true by done. cbn [andb Z.ltb Z.compare].
  rewrite <-(app_nil_r frac) at 2. rewrite fast_parse_loop_digits by (done || lia).
  cbn [fast_parse_loop Z.leb Z.compare]. rewrite <-Hval.
  rewrite (proj2 (Z.leb_gt _ _)), Z.add_0_l, Nat2Z.id by lia.
  unfold pow10_negative. rewrite list_lookup_fmap, lookup_seqZ_lt by lia. cbn [fmap option_fmap option_map].
  do 3 f_equal. unfold wrap. by rewrite Zmult_mod_idemp_l.
Qed.

Lemma parseDouble_int_digits ds v :
  Forall (λ c, is_digit c = true) ds → 0 ≤ v → dec_value ds v < 2 ^ 53 →
  parseDouble_int ds (of_int v) = (of_int (dec_value ds v), []).
Proof.
  intros Hds. revert v; induction Hds as [|c ds Hc Hds IH]; intros v Hv Hb; [done|].
  cbn [parseDouble_int]. rewrite Hc. pose proof (is_digit_range c Hc).
  change (dec_value (c :: ds) v) with (dec_value ds (v * 10 + (chr c - chr "0"))) in *.
  pose proof (dec_value_ge ds (v * 10 + (chr c - chr "0")) Hds ltac:(lia)).
  rewrite of_int_mul_pos, add_exact by lia. apply IH; [lia|done].
Qed.

(** The decimal form of a number: its sign and its digits. *)
Lemma decimal_sign n :
  ∃ ds, decimal n = sign_str (n <? 0) ++ ds ∧ ds ≠ [] ∧ Forall (λ c, is_digit c = true) ds ∧
        dec_value ds 0 = Z.abs n.
Proof.
  destruct (Z.ltb_spec n 0).
  - rewrite decimal_neg by done. destruct (decimal_nonneg (- n)) as (c&ds&Heq&Hds&Hv); [lia|].
    exists (c :: ds). rewrite Heq. split_and!; [done..|]. lia.
  - destruct (decimal_nonneg n) as (c&ds&Heq&Hds&Hv); [lia|].
    exists (c :: ds). rewrite Heq. split_and!; [done..|]. lia.
Qed.

Lemma sign_exact n : Z.abs n < 2 ^ 53 → n ≠ 0 →
  f64_mul (of_int (sign_of (n <? 0))) (of_int (Z.abs n)) = of_int n.
Proof.
  intros Hn Hnz. unfold sign_of.
  destruct (Z.ltb_spec n 0); rewrite of_int_mul_pos by lia; f_equal; lia.
Qed.

Lemma parseDouble_decimal n : Z.abs n < 2 ^ 53 → parseDouble (decimal n) = Some (of_int n).
Proof.
  intros Hn. destruct (decimal_sign n) as (ds&->&Hne&Hds&Hv).
  assert (parseDouble_int ds (of_int 0) = (of_int (Z.abs n), [])) as Hint
    by (rewrite parseDouble_int_digits, Hv by (done || lia); done).
  destruct ds as [|c ds]; [done|]. destruct (digit_not_special c (Forall_inv Hds)) as (_&Hm&Hp&_).
  unfold parseDouble, sign_str. destruct (Z.ltb_spec n 0); cbn [app].
  - rewrite bool_decide_true by done. cbn [orb]. rewrite Hint, opp_exact by lia. do 2 f_equal. lia.
  - rewrite !bool_decide_false by done. cbn [orb]. rewrite Hint. do 2 f_equal. lia.
Qed.

(** Both parsers read an integer of less than [2 ^ 53] exactly, whatever
    its sign. *)
Lemma parse_integer_exact n :
  Z.abs n < 2 ^ 53 → n ≠ 0 →
  fast_parse_double (decimal n) (length (decimal n)) = Ret (of_int n) ∧
  parseDouble (decimal n) = Some (of_int n) ∧ truncate (of_int n) = Some n.
Proof.
  intros Hn Hnz. split_and!; [|by apply parseDouble_decimal|by apply truncate_exact].
  destruct (decimal_sign n) as (ds&->&Hne&Hds&Hv).
  rewrite fast_parse_integer, Hv by (done || lia). by rewrite sign_exact.
Qed.

(** C38: a number with decimals is its digits times a power of ten, but
    [fast_parse_double] multiplies a negative sign in [uint64_t]: the digits
    [m] of a negative number become [2 ^ 64 - m], and ["-1.5"] is read as more
    than [10 ^ 18]. *)
Theorem fast_parse_double_negative :
  (∀ int frac m, Forall (λ c, is_digit c = true) int → Forall (λ c, is_digit c = true) frac →
     dec_value (int ++ frac) 0 = m → 0 < m < 2 ^ 64 → (1 ≤ length frac ≤ 15)%nat →
     let positive := int ++ "."%char :: frac in
     let negative := "-"%char :: positive in
     let scale := literal_of 1 (10 ^ Z.of_nat (length frac)) in
     fast_parse_double positive (length positive) = Ret (f64_mul (of_int m) scale) ∧
     fast_parse_double negative (length negative) = Ret (f64_mul (of_int (2 ^ 64 - m)) scale)) ∧
  ∃ x, fast_parse_double (lit "-1.5") 4 = Ret x ∧ SFltb (of_int (10 ^ 18)) x = true.
Proof.
  split; [|eexists; split; vm_compute; reflexivity].
  intros int frac m Hint Hfrac Hm Hr Hlen. cbv zeta. rewrite <-Hm in Hr.
  pose proof (fast_parse_decimals false int frac Hint Hfrac ltac:(lia) Hlen) as Hpos.
  pose proof (fast_parse_decimals true int frac Hint Hfrac ltac:(lia) Hlen) as Hneg.
  cbv zeta in *. cbn [sign_str app sign_of] in Hpos, Hneg. rewrite Hpos, Hneg. rewrite Hm in *.
  split; do 3 f_equal.
  - rewrite Z.mul_1_l. apply wrap_small. unfold in_u. lia.
  - unfold wrap. symmetry. apply (Z.mod_unique_pos _ _ (-1)); lia.
Qed.
