(* ===== verification/Tsc.v ===== *)
(** * TscTimer: timing with the CPU's cycle counter

    The x86-64 Linux branches of [src/include/revoq/TscTimer.h].  What the
    hardware and the system report, the counter, the steady clock, CPUID,
    [/proc/cpuinfo], the number of cores, is an argument of the operation that
    reads it; sleeping and the threads of [detect_tsc_offset_issue] only supply
    such readings.  The static atomics are the record [tsc_state]. *)

From Stdlib Require Import SpecFloat.
From S2P Require Import Prelude Strings Time Doubles.

Record tsc_state := TscState {
  ticks_per_ns : double;
  last_chk_cycles : Z;
  last_chk_steady : Z;
  has_tsc_offset_issue : bool;
}.
Definition tsc_initial : tsc_state := TscState (of_int 1) 0 0 false.

Definition set_ticks_per_ns (x : double) (st : tsc_state) : tsc_state :=
  TscState x (last_chk_cycles st) (last_chk_steady st) (has_tsc_offset_issue st).
Definition set_checkpoint (cycles steady : Z) (st : tsc_state) : tsc_state :=
  TscState (ticks_per_ns st) cycles steady (has_tsc_offset_issue st).
Definition set_offset_issue (st : tsc_state) : tsc_state :=
  TscState (ticks_per_ns st) (last_chk_cycles st) (last_chk_steady st) true.

(** ** Suitability *)

(** [max_level] is [__get_cpuid_max(0x80000000, nullptr)], [edx] what the leaf
    0x80000007 gives. *)
Definition has_invariant_tsc (max_level edx : Z) : bool :=
  if (max_level =? 0) || (max_level <? 0x80000007) then false else Z.testbit edx 8.

Fixpoint cpuinfo_loop (lines : list str) (has_constant_tsc has_nonstop_tsc : bool) : bool * bool :=
  match lines with
  | [] => (has_constant_tsc, has_nonstop_tsc)
  | line :: lines =>
      if contains line (lit "flags") then
        let has_constant_tsc := contains line (lit "constant_tsc") in
        let has_nonstop_tsc := contains line (lit "nonstop_tsc") in
        if has_constant_tsc && has_nonstop_tsc then (has_constant_tsc, has_nonstop_tsc)
        else cpuinfo_loop lines has_constant_tsc has_nonstop_tsc
      else cpuinfo_loop lines has_constant_tsc has_nonstop_tsc
  end.

(** [cpuinfo] is [None] when the file does not open. *)
Definition is_suitable_for_cross_core_timing (max_level edx : Z) (cpuinfo : option (list str)) : bool :=
  if negb (has_invariant_tsc max_level edx) then false
  else match cpuinfo with
       | None => false
       | Some lines => let '(c, n) := cpuinfo_loop lines false false in c && n
       end.

(** ** Offsets between the cores *)

(** [core_timestamps core] is the counter of that core. *)
Definition detect_tsc_offset_issue (num_cores : Z) (core_timestamps : nat → Z) (st : tsc_state) : tsc_state :=
  if num_cores <? 2 then st
  else
    let ts := core_timestamps <$> seq 0 (Z.to_nat (num_cores `min` 4)) in
    let min_ts := foldr Z.min (core_timestamps 0%nat) ts in
    let max_ts := foldr Z.max (core_timestamps 0%nat) ts in
    let spread := u64 (max_ts - min_ts) in
    if 10000000000 <? spread then set_offset_issue st else st.
Definition has_cross_core_offset_issue (st : tsc_state) : bool := has_tsc_offset_issue st.

(** ** Calibration *)

(** The readings of [calibrate], in its order: the counter before and after
    the sleep, the time the sleep took, the steady clock afterwards. *)
Definition calibrate (suitable : bool) (c0 c1 elapsed steady num_cores : Z) (core_timestamps : nat → Z)
    (st : tsc_state) : outcome tsc_state :=
  if negb suitable then Throw RuntimeError
  else
    let ns := of_int elapsed in
    let ticks := f64_div (of_int (u64 (c1 - c0))) ns in
    if SFltb ticks (literal_of 1 2) || SFltb (of_int 10) ticks then Throw RuntimeError
    else
      let st := set_ticks_per_ns ticks st in
      let st := set_checkpoint c1 steady st in
      Ret (detect_tsc_offset_issue num_cores core_timestamps st).

(** [0.85 * old + 0.15 * new] when the drift is over the threshold. *)
Definition recalibrate_if_drift (rel_threshold : double) (interval now_sc_ns now_cyc : Z)
    (st : tsc_state) : outcome tsc_state :=
  let last_sc_ns := last_chk_steady st in
  if last_sc_ns =? 0 then Ret st
  else
    match int64 (now_sc_ns - last_sc_ns), int64 (interval * 1000000) with
    | Ret elapsed, Ret limit =>
        if elapsed <? limit then Ret st
        else
          let last_cyc := last_chk_cycles st in
          let sc_ns := of_int elapsed in
          let cyc := of_int (u64 (now_cyc - last_cyc)) in
          if SFleb sc_ns (of_int 0) || SFleb cyc (of_int 0) then Ret st
          else
            let new_tpn := f64_div cyc sc_ns in
            let old_tpn := ticks_per_ns st in
            let st :=
              if SFleb old_tpn (of_int 0) then set_ticks_per_ns new_tpn st
              else
                let drift := f64_div (SFabs (f64_sub new_tpn old_tpn)) old_tpn in
                if SFltb rel_threshold drift then
                  let blended := f64_add (f64_mul (literal_of 85 100) old_tpn)
                                         (f64_mul (literal_of 15 100) new_tpn) in
                  set_ticks_per_ns blended st
                else st in
            Ret (set_checkpoint now_cyc now_sc_ns st)
    | _, _ => Fault UndefinedBehaviour
    end.

(** ** Measurement *)

Definition delta_ns (st : tsc_state) (start stop : Z) : double :=
  let tpn := ticks_per_ns st in
  f64_div (of_int (u64 (stop - start))) (if SFltb (of_int 0) tpn then tpn else of_int 1).
Definition delta_us (st : tsc_state) (start stop : Z) : double :=
  f64_div (delta_ns st start stop) (of_int 1000).

(** ** Theorems *)

(** The loop keeps the answer of the last line of flags, and leaves at the
    first line that has both. *)
Lemma cpuinfo_loop_spec lines c n :
  c && n = false →
  (let '(c, n) := cpuinfo_loop lines c n in c && n) = true ↔
  ∃ line, line ∈ lines ∧ contains line (lit "flags") = true ∧
          contains line (lit "constant_tsc") = true ∧ contains line (lit "nonstop_tsc") = true.
Proof.
  revert c n; induction lines as [|line lines IH]; intros c n Hcn; cbn [cpuinfo_loop].
  { rewrite Hcn. split; [done|]. intros (?&[]%not_elem_of_nil&_). }
  assert (∀ P : str → Prop, ¬ P line →
    ((∃ x, x ∈ lines ∧ P x) ↔ ∃ x, x ∈ line :: lines ∧ P x)) as Hskip.
  { intros P HP. split; intros (x&Hx&HPx); exists x; (split; [|done]).
    - by right.
    - apply elem_of_cons in Hx as [->|Hx]; [by destruct (HP HPx)|done]. }
  destruct (contains line (lit "flags")) eqn:Hf.
  - destruct (contains line (lit "constant_tsc")) eqn:Hc, (contains line (lit "nonstop_tsc")) eqn:Hn;
      cbn [andb].
    + split; [|reflexivity]. intros _. exists line. split_and!; [by left|exact Hf|exact Hc|exact Hn].
    + rewrite IH by reflexivity. apply (Hskip (λ x, _ ∧ _ ∧ _)). intros (_&_&?). congruence.
    + rewrite IH by reflexivity. apply (Hskip (λ x, _ ∧ _ ∧ _)). intros (_&?&_). congruence.
    + rewrite IH by reflexivity. apply (Hskip (λ x, _ ∧ _ ∧ _)). intros (_&?&_). congruence.
  - rewrite IH by exact Hcn. apply (Hskip (λ x, _ ∧ _ ∧ _)). intros (?&_). congruence.
Qed.

(** The system counts as suitable exactly if CPUID reports the invariant
    counter and some line of flags of [/proc/cpuinfo] has both
    [constant_tsc] and [nonstop_tsc], although the scan only remembers the
    last line it saw. *)
Lemma suitable_iff max_level edx cpuinfo :
  is_suitable_for_cross_core_timing max_level edx cpuinfo = true ↔
  (max_level ≠ 0 ∧ 0x80000007 ≤ max_level ∧ Z.testbit edx 8 = true) ∧
  ∃ lines line, cpuinfo = Some lines ∧ line ∈ lines ∧ contains line (lit "flags") = true ∧
    contains line (lit "constant_tsc") = true ∧ contains line (lit "nonstop_tsc") = true.
Proof.
  unfold is_suitable_for_cross_core_timing, has_invariant_tsc.
  destruct (Z.eqb_spec max_level 0) as [|Hnz]; [split; [discriminate|intros [(?&_) _]; congruence]|].
  destruct (Z.ltb_spec max_level 0x80000007); [split; [discriminate|intros [(_&?&_) _]; lia]|].
  cbn [orb]. destruct (Z.testbit edx 8); [|split; [discriminate|intros [(_&_&?) _]; discriminate]].
  cbn [negb]. destruct cpuinfo as [lines|];
    [|split; [discriminate|intros (_&?&?&?&_); discriminate]].
  rewrite cpuinfo_loop_spec by reflexivity. split.
  - intros (line&Hline). split; [split_and!; [exact Hnz|lia|reflexivity]|].
    exists lines, line. split; [reflexivity|exact Hline].
  - intros (_&lines'&line&[= <-]&Hline). exists line. exact Hline.
Qed.

Lemma foldr_min_spec d l : foldr Z.min d l ∈ d :: l ∧ ∀ x, x ∈ d :: l → foldr Z.min d l ≤ x.
Proof.
  induction l as [|y l [IHin IHle]]; cbn [foldr].
  - split; [by left|]. intros x [->|[]%not_elem_of_nil]%elem_of_cons. done.
  - split.
    + destruct (Z.min_spec y (foldr Z.min d l)) as [[_ ->]|[_ ->]]; set_solver.
    + intros x [->|[->|Hx]%elem_of_cons]%elem_of_cons; [|lia|].
      * specialize (IHle d ltac:(left)). lia.
      * specialize (IHle x ltac:(by right)). lia.
Qed.

Lemma foldr_max_spec d l : foldr Z.max d l ∈ d :: l ∧ ∀ x, x ∈ d :: l → x ≤ foldr Z.max d l.
Proof.
  induction l as [|y l [IHin IHle]]; cbn [foldr].
  - split; [by left|]. intros x [->|[]%not_elem_of_nil]%elem_of_cons. done.
  - split.
    + destruct (Z.max_spec y (foldr Z.max d l)) as [[_ ->]|[_ ->]]; set_solver.
    + intros x [->|[->|Hx]%elem_of_cons]%elem_of_cons; [|lia|].
      * specialize (IHle d ltac:(left)). lia.
      * specialize (IHle x ltac:(by right)). lia.
Qed.

(** The offset check raises its flag exactly if the counters of two of the
    first four cores differ by more than [10 ^ 10] cycles; it never clears
    the flag, and with fewer than two cores it does nothing. *)
Lemma detect_tsc_offset_issue_iff num_cores core_timestamps st :
  (∀ i, in_u 64 (core_timestamps i)) →
  has_cross_core_offset_issue (detect_tsc_offset_issue num_cores core_timestamps st) = true ↔
  has_cross_core_offset_issue st = true ∨
  (2 ≤ num_cores ∧ ∃ i j : nat, Z.of_nat i < num_cores `min` 4 ∧ Z.of_nat j < num_cores `min` 4 ∧
     10000000000 < core_timestamps i - core_timestamps j).
Proof.
  intros Hu. unfold detect_tsc_offset_issue. destruct (Z.ltb_spec num_cores 2); [naive_solver lia|].
  set (ts := core_timestamps <$> seq 0 (Z.to_nat (num_cores `min` 4))).
  assert (∀ x, x ∈ core_timestamps 0%nat :: ts ↔
    ∃ i : nat, Z.of_nat i < num_cores `min` 4 ∧ x = core_timestamps i) as Hts.
  { intros x. unfold ts. rewrite elem_of_cons, list_elem_of_fmap. setoid_rewrite elem_of_seq. split.
    - intros [->|(i&->&Hi)]; [exists 0%nat|exists i]; (split; [lia|done]).
    - intros (i&Hi&->). right. exists i. split; [done|lia]. }
  destruct (foldr_min_spec (core_timestamps 0%nat) ts) as [Hmin Hle].
  destruct (foldr_max_spec (core_timestamps 0%nat) ts) as [Hmax Hge].
  apply Hts in Hmin as (jmin&Hjmin&Hmin). apply Hts in Hmax as (jmax&Hjmax&Hmax).
  assert (foldr Z.min (core_timestamps 0%nat) ts ≤ foldr Z.max (core_timestamps 0%nat) ts) as Hord
    by (rewrite Hmin; apply Hge, Hts; eauto).
  rewrite wrap_small by (pose proof (Hu jmin); pose proof (Hu jmax); unfold in_u in *; lia).
  destruct (Z.ltb_spec 10000000000 (foldr Z.max (core_timestamps 0%nat) ts - foldr Z.min (core_timestamps 0%nat) ts)).
  - split; [|done]. intros _. right. split; [lia|]. exists jmax, jmin. split_and!; [done..|lia].
  - split; [by left|]. intros [?|(_&i&j&Hi&Hj&Hd)]; [done|].
    assert (core_timestamps i ≤ foldr Z.max (core_timestamps 0%nat) ts) by (apply Hge, Hts; eauto).
    assert (foldr Z.min (core_timestamps 0%nat) ts ≤ core_timestamps j) by (apply Hle, Hts; eauto).
    lia.
Qed.

(** Before a calibration a cycle counts as a nanosecond: the interval is the
    difference of the counters, across a wrap-around too. *)
Lemma delta_ns_initial start d :
  in_u 64 start → 0 < d < 2 ^ 53 → delta_ns tsc_initial start (u64 (start + d)) = of_int d.
Proof.
  intros Hs Hd. unfold delta_ns, tsc_initial. cbn [ticks_per_ns].
  change (SFltb (of_int 0) (of_int 1)) with true. cbn match.
  replace (u64 (u64 (start + d) - start)) with d.
  - rewrite (of_int_exact d) by lia. unfold exactZ.
    rewrite (proj2 (Z.eqb_neq d 0)), Z.abs_eq, div_one by lia. done.
  - unfold wrap. rewrite Zminus_mod_idemp_l. replace (start + d - start) with d by lia.
    rewrite Z.mod_small by lia. done.
Qed.
