(* ===== verification/Platform.v ===== *)
(** * Platform: CPU sets, affinity and scheduling policies

    The Linux branches of [src/include/revoq/JournalPlatform.h],
    [src/include/revoq/CpuAffinity.h] and
    [src/include/revoq/RealtimePriority.h].  The scheduler is not under
    [src/]: what a system call answers is a parameter (the class [Scheduler]),
    which sees the thread's state and how many calls were made before.  A call
    that fails changes nothing; one that succeeds has its documented effect.
    Waiting and logging are left out. *)

From S2P Require Import Prelude Strings.

(** ** The thread, as the scheduler knows it *)

Definition SCHED_OTHER : Z := 0.
Definition SCHED_FIFO : Z := 1.
Definition SCHED_RR : Z := 2.
Definition SCHED_BATCH : Z := 3.
Definition SCHED_IDLE : Z := 5.
Definition CPU_SETSIZE : Z := 1024.

Record thread := Thread {
  t_affinity : gset Z;
  t_policy : Z;
  t_priority : Z;
  t_locked : bool * bool;   (** current and future memory *)
  t_calls : nat;            (** system calls so far *)
}.

(** Result codes, 0 for success; the CPUs that are there. *)
Class Scheduler := {
  online : gset Z;
  setaffinity_rc : thread → gset Z → Z;
  getaffinity_rc : thread → Z;
  setschedparam_rc : thread → Z → Z → Z;
  getschedparam_rc : thread → Z;
  mlockall_rc : thread → bool → Z;
  munlockall_rc : thread → Z;
  getcpu : thread → Z;
  priority_min : Z → Z;
  priority_max : Z → Z;
}.

Definition tick (t : thread) : thread :=
  Thread (t_affinity t) (t_policy t) (t_priority t) (t_locked t) (S (t_calls t)).
Definition with_affinity (s : gset Z) (t : thread) : thread :=
  Thread s (t_policy t) (t_priority t) (t_locked t) (t_calls t).
Definition with_schedparam (policy priority : Z) (t : thread) : thread :=
  Thread (t_affinity t) policy priority (t_locked t) (t_calls t).
Definition with_locked (l : bool * bool) (t : thread) : thread :=
  Thread (t_affinity t) (t_policy t) (t_priority t) l (t_calls t).

(** [CPU_SET] ignores a CPU outside the set's width. *)
Definition CPU_SET (cpu : Z) (s : gset Z) : gset Z :=
  if (0 <=? cpu) && (cpu <? CPU_SETSIZE) then {[cpu]} ∪ s else s.

Section system.
Context `{Scheduler}.

(** A system call: the thread's state only changes when it succeeds. *)
Definition syscall (rc : thread → Z) (effect : thread → thread) : M thread Z := λ t,
  (Ret (rc t), if rc t =? 0 then effect (tick t) else tick t).

Definition pthread_setaffinity_np (cpuset : gset Z) : M thread Z :=
  syscall (λ t, setaffinity_rc t cpuset) (with_affinity (cpuset ∩ online)).
Definition pthread_getaffinity_np : M thread (Z * gset Z) := λ t,
  (Ret (getaffinity_rc t, if getaffinity_rc t =? 0 then t_affinity t else ∅), tick t).
Definition pthread_setschedparam (policy priority : Z) : M thread Z :=
  syscall (λ t, setschedparam_rc t policy priority) (with_schedparam policy priority).

(** ** JournalPlatform.h *)

(** [std::getline(ss, token, ',')] until it fails: the fields, without an
    empty last one. *)
Definition getline_tokens (s : str) : list str :=
  let fs := fields "," s in
  match last fs with Some [] => removelast fs | _ => fs end.

Fixpoint cpuListContains_loop (tokens : list str) (cpu : Z) : outcome bool :=
  match tokens with
  | [] => Ret false
  | token :: tokens =>
      match token with
      | [] => cpuListContains_loop tokens cpu
      | c :: _ =>
          if negb (is_digit c) then cpuListContains_loop tokens cpu
          else
            let dash := find_char token "-" 0 in
            match stoi (match dash with Some d => substr token 0 d | None => token end) with
            | Ret lo =>
                match (match dash with
                       | None => Ret lo
                       | Some d => stoi (substr_from token (d + 1))
                       end) with
                | Ret hi => if (lo <=? cpu) && (cpu <=? hi) then Ret true
                            else cpuListContains_loop tokens cpu
                | Throw e => Throw e
                | Fault f => Fault f
                end
            | Throw e => Throw e
            | Fault f => Fault f
            end
      end
  end.
Definition cpuListContains (list : str) (cpu : Z) : outcome bool :=
  cpuListContains_loop (getline_tokens list) cpu.

(** The first line, or nothing when the file does not open. *)
Definition readCpuListFile (contents : option str) : str :=
  match contents with
  | Some s => default [] (head (fields "010" s))
  | None => []
  end.

Fixpoint housekeeping_loop (isolated nohz_full : str) (cpus : list Z) (cpuset : gset Z) (selected : Z) :
    outcome (gset Z * Z) :=
  match cpus with
  | [] => Ret (cpuset, selected)
  | cpu :: cpus =>
      match cpuListContains isolated cpu with
      | Ret true => housekeeping_loop isolated nohz_full cpus cpuset selected
      | Ret false =>
          match cpuListContains nohz_full cpu with
          | Ret true => housekeeping_loop isolated nohz_full cpus cpuset selected
          | Ret false => housekeeping_loop isolated nohz_full cpus (CPU_SET cpu cpuset) (selected + 1)
          | Throw e => Throw e
          | Fault f => Fault f
          end
      | Throw e => Throw e
      | Fault f => Fault f
      end
  end.

(** [sysconf_cpus] is [sysconf(_SC_NPROCESSORS_CONF)]; the files are those of
    the kernel's isolated and nohz_full CPUs. *)
Definition makeHousekeepingCpuSet (isolated_file nohz_full_file : option str) (sysconf_cpus : Z) :
    outcome (gset Z * bool) :=
  let isolated := readCpuListFile isolated_file in
  let nohz_full := readCpuListFile nohz_full_file in
  let cpu_count :=
    if (sysconf_cpus <=? 0) || (CPU_SETSIZE <? sysconf_cpus) then CPU_SETSIZE else sysconf_cpus in
  match housekeeping_loop isolated nohz_full (seqZ 0 cpu_count) ∅ 0 with
  | Ret (cpuset, selected) =>
      if 0 <? selected then Ret (cpuset, true)
      else Ret (foldl (λ s cpu, CPU_SET cpu s) cpuset (seqZ 0 cpu_count), 0 <? cpu_count)
  | Throw e => Throw e
  | Fault f => Fault f
  end.

Definition lift_outcome {A} (o : outcome A) : M thread A := λ t, (o, t).

Definition pinThreadToBackgroundCpus (isolated_file nohz_full_file : option str) (sysconf_cpus : Z)
    (background_worker_cpu : Z) : M thread bool :=
  let housekeeping :=
    let! '(cpuset, ok) := lift_outcome (makeHousekeepingCpuSet isolated_file nohz_full_file sysconf_cpus) in
    if negb ok then ret false
    else let! rc := pthread_setaffinity_np cpuset in ret (rc =? 0) in
  if 0 <=? background_worker_cpu then
    let! rc := pthread_setaffinity_np (CPU_SET background_worker_cpu ∅) in
    if rc =? 0 then ret true else housekeeping
  else housekeeping.

(** ** CpuAffinity.h *)

Definition pinToCore (core_id : Z) : M thread bool :=
  let! result := pthread_setaffinity_np (CPU_SET core_id ∅) in ret (result =? 0).
Definition pinToCores (core_ids : list Z) : M thread bool :=
  let cpuset := foldl (λ s core_id, CPU_SET core_id s) ∅ core_ids in
  let! result := pthread_setaffinity_np cpuset in ret (result =? 0).
Definition getCurrentAffinity : M thread (list Z) :=
  let! '(rc, cpuset) := pthread_getaffinity_np in
  ret (if rc =? 0 then filter (λ i, i ∈ cpuset) (seqZ 0 CPU_SETSIZE) else []).
Definition getCurrentCore : M thread Z := gets getcpu.
Definition pinAndVerify (core_id : Z) : M thread bool :=
  let! pinned := pinToCore core_id in
  if negb pinned then ret false
  else let! current := getCurrentCore in ret (current =? core_id).

Record ScopedCpuPin := CpuPin { core_id_ : Z; pinned_ : bool; original_affinity_ : list Z }.
Definition ScopedCpuPin_ctor (core_id : Z) : M thread ScopedCpuPin :=
  let! original := getCurrentAffinity in
  let! pinned := pinToCore core_id in
  ret (CpuPin core_id pinned original).
Definition ScopedCpuPin_dtor (p : ScopedCpuPin) : M thread unit :=
  if pinned_ p && negb (bool_decide (original_affinity_ p = []))
  then do! pinToCores (original_affinity_ p) in ret tt
  else ret tt.

(** ** RealtimePriority.h *)

Definition setRealtimePriority (priority policy : Z) : M thread bool :=
  if (priority <? 1) || (99 <? priority) then ret false
  else let! result := pthread_setschedparam policy priority in ret (result =? 0).
Definition setNormalPriority : M thread bool :=
  let! result := pthread_setschedparam SCHED_OTHER 0 in ret (result =? 0).
Definition getCurrentPriority : M thread (Z * Z) := λ t,
  (Ret (if getschedparam_rc t =? 0 then (t_policy t, t_priority t) else (SCHED_OTHER, 0)), tick t).
Definition isRealtime : M thread bool :=
  let! '(policy, _) := getCurrentPriority in ret ((policy =? SCHED_FIFO) || (policy =? SCHED_RR)).
Definition getPriorityRange (policy : Z) : Z * Z := (priority_min policy, priority_max policy).

Definition lockMemory : M thread bool :=
  let! rc := syscall (λ t, mlockall_rc t true) (with_locked (true, true)) in ret (rc =? 0).
Definition lockCurrentMemory : M thread bool :=
  let! rc := syscall (λ t, mlockall_rc t false) (with_locked (true, false)) in ret (rc =? 0).
Definition unlockMemory : M thread bool :=
  let! rc := syscall munlockall_rc (with_locked (false, false)) in ret (rc =? 0).

Record ScopedRealtimePriority := RtPriority { enabled_ : bool; original_policy_ : Z; original_priority_ : Z }.
Definition ScopedRealtimePriority_ctor (priority policy : Z) : M thread ScopedRealtimePriority :=
  let! '(orig_policy, orig_priority) := getCurrentPriority in
  let! enabled := setRealtimePriority priority policy in
  ret (RtPriority enabled orig_policy orig_priority).
Definition ScopedRealtimePriority_dtor (p : ScopedRealtimePriority) : M thread unit :=
  if enabled_ p then
    if original_policy_ p =? SCHED_OTHER then do! setNormalPriority in ret tt
    else do! setRealtimePriority (original_priority_ p) (original_policy_ p) in ret tt
  else ret tt.
End system.

(** ** Lists of CPUs *)

Definition cpu_range : Type := Z * Z.
Definition range_ok (r : cpu_range) : Prop := 0 ≤ r.1 ≤ r.2 ∧ r.2 < 2 ^ 31.
Definition in_range (cpu : Z) (r : cpu_range) : bool := (r.1 <=? cpu) && (cpu <=? r.2).

(** The kernel's form: ["0-3,8,12-15"]. *)
Definition print_range (r : cpu_range) : str :=
  if r.1 =? r.2 then decimal r.1 else decimal r.1 ++ "-"%char :: decimal r.2.
Definition print_ranges (rs : list cpu_range) : str := join (print_range <$> rs) [","%char].

Lemma find_char_app (a b : str) c : c ∉ a → find_char (a ++ c :: b) c 0 = Some (length a).
Proof.
  intros Hc. unfold find_char, find_pred. rewrite drop_0.
  assert (list_find (λ x, bool_decide (x = c)) (a ++ c :: b) = Some (length a, c)) as ->; [|done].
  apply list_find_Some. split_and!.
  - by rewrite lookup_app_r, Nat.sub_diag by lia.
  - by rewrite bool_decide_true.
  - intros j y Hj Hlt. rewrite lookup_app_l in Hj by done.
    rewrite bool_decide_false; [tauto|]. intros ->. by apply Hc, (list_elem_of_lookup_2 _ j).
Qed.

Lemma find_char_notin (a : str) c : c ∉ a → find_char a c 0 = None.
Proof.
  intros Hc. destruct (find_char a c 0) as [e|] eqn:He; [|done].
  apply find_char_Some in He as (_&f&Hf&_). rewrite drop_0 in Hf.
  destruct Hc. rewrite Hf. apply elem_of_app. right. by left.
Qed.

Lemma decimal_digits n : 0 ≤ n → Forall (λ c, is_digit c = true) (decimal n) ∧ decimal n ≠ [].
Proof. intros Hn. destruct (decimal_nonneg n Hn) as (c&ds&->&Hds&_). done. Qed.

Lemma digits_notin (s : str) c : Forall (λ c, is_digit c = true) s → is_digit c = false → c ∉ s.
Proof. rewrite Forall_forall. intros Hs Hc Hin. apply Hs in Hin. congruence. Qed.

(** The characters of a printed list: digits, dashes and commas. *)
Lemma print_range_chars r c :
  range_ok r → c ∈ print_range r → is_digit c = true ∨ c = "-"%char.
Proof.
  intros [Hr _] Hc. pose proof (decimal_digits r.1 ltac:(lia)) as [H1 _].
  pose proof (decimal_digits r.2 ltac:(lia)) as [H2 _]. rewrite Forall_forall in H1, H2.
  unfold print_range in Hc. destruct (r.1 =? r.2); [by left; apply H1|].
  apply elem_of_app in Hc as [Hc|[->|Hc]%elem_of_cons]; [left; by apply H1|by right|left; by apply H2].
Qed.

Lemma print_range_nonempty r : range_ok r → print_range r ≠ [].
Proof.
  intros [Hr _]. pose proof (decimal_digits r.1 ltac:(lia)) as [_ Hne]. unfold print_range.
  destruct (r.1 =? r.2); [done|]. by destruct (decimal r.1).
Qed.

Lemma getline_tokens_ranges rs :
  Forall range_ok rs → getline_tokens (print_ranges rs) = print_range <$> rs.
Proof.
  intros Hrs. unfold getline_tokens, print_ranges. destruct rs as [|r rs]; [done|].
  rewrite fields_join; [|done|].
  - destruct (last (print_range <$> r :: rs)) as [l|] eqn:Hl; [|done].
    apply last_Some_elem_of, list_elem_of_fmap in Hl as (r'&->&Hr'). rewrite Forall_forall in Hrs.
    pose proof (print_range_nonempty r' (Hrs _ Hr')). by destruct (print_range r').
  - apply Forall_fmap. eapply Forall_impl; [exact Hrs|]. intros r' Hr' Hin.
    by apply (print_range_chars _ _ Hr') in Hin as [|].
Qed.

Lemma cpuListContains_loop_ranges rs cpu :
  Forall range_ok rs →
  cpuListContains_loop (print_range <$> rs) cpu = Ret (existsb (in_range cpu) rs).
Proof.
  induction 1 as [|r rs [Hr Hr'] _ IH]; [done|].
  rewrite fmap_cons. cbn [existsb cpuListContains_loop].
  destruct (decimal_nonneg r.1) as (c&ds&Heq&Hds&_); [lia|].
  pose proof (decimal_digits r.1 ltac:(lia)) as [Hd _].
  assert (∃ t, print_range r = c :: t) as [t Ht].
  { unfold print_range. rewrite Heq. destruct (r.1 =? r.2); eexists; reflexivity. }
  rewrite Ht. pose proof (Forall_inv Hds) as Hc. cbn beta in Hc. rewrite Hc. cbn [negb]. rewrite <-Ht, !IH.
  generalize (existsb (in_range cpu) rs). intros b. unfold print_range, in_range. destruct (Z.eqb_spec r.1 r.2) as [He|He].
  - rewrite find_char_notin by (by eapply digits_notin). rewrite stoi_decimal by lia.
    rewrite <-He. by destruct (_ && _).
  - rewrite find_char_app by (by eapply digits_notin).
    unfold substr, substr_from. rewrite drop_0, take_app_length, stoi_decimal by lia.
    rewrite cons_middle, app_assoc, drop_app_length' by (rewrite length_app; cbn; lia).
    rewrite stoi_decimal by lia. by destruct (_ && _).
Qed.

(** The membership test on a printed list of ranges. *)
Lemma cpuListContains_ranges rs cpu :
  Forall range_ok rs → cpuListContains (print_ranges rs) cpu = Ret (existsb (in_range cpu) rs).
Proof.
  intros Hrs. unfold cpuListContains. rewrite getline_tokens_ranges by done.
  by apply cpuListContains_loop_ranges.
Qed.

Lemma fields_head_newline rs t :
  Forall range_ok rs → t = [] ∨ t = ["010"%char] →
  readCpuListFile (Some (print_ranges rs ++ t)) = print_ranges rs.
Proof.
  intros Hrs Ht. assert ("010"%char ∉ print_ranges rs) as Hnl.
  { induction Hrs as [|r rs Hr Hrs IH]; [apply not_elem_of_nil|]. unfold print_ranges in *.
    assert ("010"%char ∉ print_range r) as Hh by (intros Hin; by apply (print_range_chars r _ Hr) in Hin as [|]).
    destruct rs as [|r' rs]; [exact Hh|]. rewrite fmap_cons, join_cons by done.
    rewrite !not_elem_of_app. split_and!; [done|by rewrite list_elem_of_singleton|done]. }
  unfold readCpuListFile. destruct Ht as [->| ->].
  - by rewrite app_nil_r, fields_none.
  - by rewrite fields_app.
Qed.

Lemma CPU_SET_in cpu s : 0 ≤ cpu < CPU_SETSIZE → CPU_SET cpu s = {[cpu]} ∪ s.
Proof. intros. unfold CPU_SET. rewrite (proj2 (Z.leb_le _ _)), (proj2 (Z.ltb_lt _ _)) by lia. done. Qed.

Lemma foldl_CPU_SET cpus s :
  Forall (λ cpu, 0 ≤ cpu < CPU_SETSIZE) cpus →
  foldl (λ s cpu, CPU_SET cpu s) s cpus = list_to_set cpus ∪ s.
Proof.
  intros Hc. revert s; induction Hc as [|cpu cpus Hcpu Hcpus IH]; intros s; cbn; [set_solver|].
  rewrite CPU_SET_in, IH by done. set_solver.
Qed.

Lemma housekeeping_loop_spec iso nohz cpus s n :
  Forall range_ok iso → Forall range_ok nohz → Forall (λ cpu, 0 ≤ cpu < CPU_SETSIZE) cpus →
  let free := filter (λ cpu, existsb (in_range cpu) iso = false ∧ existsb (in_range cpu) nohz = false) cpus in
  housekeeping_loop (print_ranges iso) (print_ranges nohz) cpus s n =
  Ret (list_to_set free ∪ s, n + Z.of_nat (length free)).
Proof.
  intros Hiso Hnohz Hc. revert s n; induction Hc as [|cpu cpus Hcpu Hcpus IH]; intros s n; cbv zeta in *.
  { cbn. do 2 f_equal; [set_solver|lia]. }
  cbn [housekeeping_loop]. rewrite !cpuListContains_ranges by done. rewrite filter_cons.
  destruct (existsb (in_range cpu) iso) eqn:Hi; [rewrite decide_False by naive_solver; apply IH|].
  destruct (existsb (in_range cpu) nohz) eqn:Hn; [rewrite decide_False by naive_solver; apply IH|].
  rewrite decide_True, CPU_SET_in, IH by done. cbn [list_to_set length]. do 2 f_equal; [set_solver|lia].
Qed.

(** The background threads are given the CPUs that neither of the
    kernel's lists names, and all CPUs when there are none left: for lists in
    the kernel's form, with or without a line end, the set is computed
    without an exception and is exactly that. *)
Lemma makeHousekeepingCpuSet_spec iso nohz ti tn count :
  Forall range_ok iso → Forall range_ok nohz →
  (ti = [] ∨ ti = ["010"%char]) → (tn = [] ∨ tn = ["010"%char]) → 0 < count ≤ CPU_SETSIZE →
  ∃ cpuset,
    makeHousekeepingCpuSet (Some (print_ranges iso ++ ti)) (Some (print_ranges nohz ++ tn)) count =
      Ret (cpuset, true) ∧
    let free cpu := 0 ≤ cpu < count ∧ existsb (in_range cpu) iso = false ∧ existsb (in_range cpu) nohz = false in
    ((∃ cpu, free cpu) → ∀ cpu, cpu ∈ cpuset ↔ free cpu) ∧
    ((¬ ∃ cpu, free cpu) → ∀ cpu, cpu ∈ cpuset ↔ 0 ≤ cpu < count).
Proof.
  intros Hiso Hnohz Hti Htn Hcount. unfold makeHousekeepingCpuSet.
  rewrite !fields_head_newline by done.
  rewrite (proj2 (Z.leb_gt count 0)), (proj2 (Z.ltb_ge CPU_SETSIZE count)) by lia. cbn [orb].
  assert (Forall (λ cpu, 0 ≤ cpu < CPU_SETSIZE) (seqZ 0 count)) as Hcpus
    by (apply Forall_forall; intros cpu ?%elem_of_seqZ; lia).
  rewrite housekeeping_loop_spec by done. cbv zeta. rewrite Z.add_0_l.
  set (free := filter _ _).
  assert (∀ cpu, cpu ∈ free ↔ 0 ≤ cpu < count ∧ existsb (in_range cpu) iso = false ∧
    existsb (in_range cpu) nohz = false) as Hfree.
  { intros cpu. unfold free. rewrite list_elem_of_filter, elem_of_seqZ, Z.add_0_l. tauto. }
  destruct (Z.ltb_spec 0 (Z.of_nat (length free))) as [Hlt|Hge].
  - eexists. split; [reflexivity|]. rewrite union_empty_r_L. setoid_rewrite elem_of_list_to_set.
    split; intros Hex cpu; [apply Hfree|].
    destruct Hex. destruct free as [|c fs]; [cbn in Hlt; lia|]. exists c. apply Hfree. by left.
  - destruct free as [|c fs]; [|cbn in Hge; lia]. eexists. split.
    { rewrite (proj2 (Z.ltb_lt 0 count)) by lia. reflexivity. }
    rewrite foldl_CPU_SET by done. split.
    + intros (cpu&Hcpu%Hfree). by apply not_elem_of_nil in Hcpu.
    + intros _ cpu. rewrite elem_of_union, elem_of_list_to_set, elem_of_seqZ. set_solver by lia.
Qed.

Lemma makeHousekeepingCpuSet_spec_witness :
  Forall range_ok [(2, 5); (7, 7)] ∧
  lit "2-5,7" = print_ranges [(2, 5); (7, 7)] ∧
  ∃ cpuset, makeHousekeepingCpuSet (Some (lit "2-5,7" ++ ["010"%char])) (Some ([] ++ [])) 8 = Ret (cpuset, true) ∧
    6 ∈ cpuset ∧ 4 ∉ cpuset.
Proof.
  assert (Forall range_ok [(2, 5); (7, 7)]) as Hr by (repeat constructor; cbn; lia).
  split; [exact Hr|]. split; [vm_compute; reflexivity|].
  change (lit "2-5,7") with (print_ranges [(2, 5); (7, 7)]).
  change (@nil ascii ++ []) with (print_ranges [] ++ []).
  destruct (makeHousekeepingCpuSet_spec [(2, 5); (7, 7)] [] ["010"%char] [] 8) as (cpuset&Heq&Hfree&_);
    [exact Hr|constructor|by right|by left|unfold CPU_SETSIZE; lia|].
  exists cpuset. split; [exact Heq|]. 
  assert (∃ cpu, 0 ≤ cpu < 8 ∧ existsb (in_range cpu) [(2, 5); (7, 7)] = false ∧
    existsb (in_range cpu) [] = false) as Hex by (exists 6; split_and!; [lia|lia|reflexivity..]).
  specialize (Hfree Hex). rewrite !Hfree. split; [split_and!; [lia|lia|reflexivity..]|].
  intros (_&Hin&_). vm_compute in Hin. discriminate Hin.
Defined.

(** ** The scoped guards *)

Section guards.
Context `{Scheduler}.

Lemma set_to_list_id (s : gset Z) :
  (∀ i, i ∈ s → 0 ≤ i < CPU_SETSIZE) →
  foldl (λ s i, CPU_SET i s) ∅ (filter (λ i, i ∈ s) (seqZ 0 CPU_SETSIZE)) = s.
Proof.
  intros Hs. rewrite foldl_CPU_SET.
  - apply set_eq. intros i. rewrite elem_of_union, elem_of_list_to_set, list_elem_of_filter, elem_of_seqZ, (elem_of_empty (C := gset Z)).
    specialize (Hs i). rewrite Z.add_0_l. tauto.
  - apply Forall_forall. intros i [_ Hi%elem_of_seqZ]%list_elem_of_filter. lia.
Qed.

Lemma to_list_nil (s : gset Z) :
  (∀ i, i ∈ s → 0 ≤ i < CPU_SETSIZE) → filter (λ i, i ∈ s) (seqZ 0 CPU_SETSIZE) = [] → s = ∅.
Proof. intros Hs Hnil. rewrite <-(set_to_list_id s Hs), Hnil. done. Qed.

(** A [ScopedCpuPin] pins the thread to its core, or leaves the affinity
    alone and says so, and its destructor puts back the set of CPUs the
    thread had, if the system lets it. *)
Lemma ScopedCpuPin_restores core t p t1 :
  getaffinity_rc t = 0 → t_affinity t ⊆ online → t_affinity t ≠ ∅ →
  (∀ i, i ∈ t_affinity t → 0 ≤ i < CPU_SETSIZE) → 0 ≤ core < CPU_SETSIZE →
  ScopedCpuPin_ctor core t = (Ret p, t1) →
  let t2 := (ScopedCpuPin_dtor p t1).2 in
  (pinned_ p = false → t_affinity t1 = t_affinity t ∧ t2 = t1) ∧
  (pinned_ p = true → t_affinity t1 = {[core]} ∩ online ∧
     (setaffinity_rc t1 (t_affinity t) = 0 → t_affinity t2 = t_affinity t)).
Proof.
  intros Hget Hon Hne Hr Hcore.
  unfold ScopedCpuPin_ctor, getCurrentAffinity, pinToCore, pthread_getaffinity_np, pthread_setaffinity_np, syscall,
    bind, ret.
  rewrite Hget, !CPU_SET_in, !union_empty_r_L by done. cbn [Z.eqb].
  set (rc := setaffinity_rc _ _). intros [= <- <-]. unfold ScopedCpuPin_dtor. cbn [pinned_ original_affinity_].
  split.
  - intros ->. cbn [andb]. done.
  - intros ->. cbn [andb].
    rewrite bool_decide_false by (intros Hnil; by apply Hne, to_list_nil).
    cbn [negb]. split; [done|]. intros Hrc.
    unfold pinToCores, pthread_setaffinity_np, syscall, bind, ret. rewrite set_to_list_id by done.
    cbn [snd]. rewrite Hrc. cbn. set_solver.
Qed.

(** A [ScopedRealtimePriority] sets the policy and priority asked for, or
    leaves the thread alone and says so.  Its destructor gives back a normal
    or a real-time policy, if the system lets it, but not [SCHED_BATCH] or
    [SCHED_IDLE]: their priority is 0, which [setRealtimePriority] refuses, so
    the thread keeps the real-time priority. *)
Lemma ScopedRealtimePriority_restores priority policy t p t1 :
  getschedparam_rc t = 0 → ScopedRealtimePriority_ctor priority policy t = (Ret p, t1) →
  let t2 := (ScopedRealtimePriority_dtor p t1).2 in
  (enabled_ p = false → (t_policy t1, t_priority t1) = (t_policy t, t_priority t) ∧ t2 = t1) ∧
  (enabled_ p = true → 1 ≤ priority ≤ 99 ∧ (t_policy t1, t_priority t1) = (policy, priority) ∧
     (t_policy t = SCHED_OTHER ∧ t_priority t = 0 ∨ t_policy t ≠ SCHED_OTHER ∧ 1 ≤ t_priority t ≤ 99 →
      setschedparam_rc t1 (t_policy t) (t_priority t) = 0 →
      (t_policy t2, t_priority t2) = (t_policy t, t_priority t)) ∧
     (t_policy t = SCHED_BATCH ∨ t_policy t = SCHED_IDLE → t_priority t = 0 →
      (t_policy t2, t_priority t2) = (policy, priority))).
Proof.
  intros Hget. unfold ScopedRealtimePriority_ctor, getCurrentPriority, setRealtimePriority, bind.
  rewrite Hget. cbn [Z.eqb].
  destruct (Z.ltb_spec priority 1); [|destruct (Z.ltb_spec 99 priority)]; cbn [orb].
  1, 2: intros [= <- <-]; done.
  unfold pthread_setschedparam, syscall, ret. set (rc := setschedparam_rc _ _ _).
  intros [= <- <-]. unfold ScopedRealtimePriority_dtor. cbn [enabled_ original_policy_ original_priority_].
  split; [by intros ->|]. intros ->. split; [done|]. split; [done|]. split.
  - intros Hp Hrc. destruct (Z.eqb_spec (t_policy t) SCHED_OTHER) as [He|He].
    + destruct Hp as [[_ Hz]|[? _]]; [|done]. rewrite He, Hz in *.
      unfold setNormalPriority, pthread_setschedparam, syscall, bind, ret. rewrite Hrc. done.
    + destruct Hp as [[? _]|[_ Hr]]; [done|]. unfold setRealtimePriority.
      rewrite (proj2 (Z.ltb_ge (t_priority t) 1)), (proj2 (Z.ltb_ge 99 (t_priority t))) by lia. cbn [orb].
      unfold pthread_setschedparam, syscall, bind, ret. rewrite Hrc. done.
  - intros Hp Hz. rewrite (proj2 (Z.eqb_neq _ _)) by (by destruct Hp as [-> | ->]).
    unfold setRealtimePriority. rewrite Hz. done.
Qed.
End guards.

(** A scheduler of eight CPUs that allows what is documented. *)
#[export] Instance eight_cpus : Scheduler := {|
  online := list_to_set (seqZ 0 8);
  setaffinity_rc := λ _ s, if decide (s ∩ list_to_set (seqZ 0 8) = ∅) then 22 else 0;
  getaffinity_rc := λ _, 0;
  setschedparam_rc := λ _ policy priority,
    if bool_decide (policy ∈ [SCHED_FIFO; SCHED_RR]) then
      if (1 <=? priority) && (priority <=? 99) then 0 else 22
    else if bool_decide (policy ∈ [SCHED_OTHER; SCHED_BATCH; SCHED_IDLE]) && (priority =? 0) then 0 else 22;
  getschedparam_rc := λ _, 0;
  mlockall_rc := λ _ _, 0;
  munlockall_rc := λ _, 0;
  getcpu := λ _, 0;
  priority_min := λ policy, if bool_decide (policy ∈ [SCHED_FIFO; SCHED_RR]) then 1 else 0;
  priority_max := λ policy, if bool_decide (policy ∈ [SCHED_FIFO; SCHED_RR]) then 99 else 0;
|}.

Lemma ScopedCpuPin_restores_witness :
  let t := Thread (list_to_set (seqZ 0 4)) SCHED_OTHER 0 (false, false) 0 in
  ∃ p t1, ScopedCpuPin_ctor 6 t = (Ret p, t1) ∧ pinned_ p = true ∧
    t_affinity t1 = {[6]} ∧ t_affinity (ScopedCpuPin_dtor p t1).2 = t_affinity t.
Proof.
  intros t. destruct (ScopedCpuPin_ctor 6 t) as [r t1] eqn:Hc.
  assert (∃ p, r = Ret p ∧ pinned_ p = true) as (p&->&Hp)
    by (apply (f_equal fst) in Hc; cbn [fst] in Hc; rewrite <-Hc; eexists; split; vm_compute; reflexivity).
  destruct (ScopedCpuPin_restores 6 t p t1) as [_ Hpin]; [reflexivity| | | |unfold CPU_SETSIZE; lia|exact Hc|].
  - apply (bool_decide_eq_true_1 _). vm_compute. reflexivity.
  - apply (bool_decide_eq_true_1 (t_affinity t ≠ ∅)). vm_compute. reflexivity.
  - intros i Hi. apply elem_of_list_to_set, elem_of_seqZ in Hi. unfold CPU_SETSIZE. lia.
  - destruct (Hpin Hp) as [Ht1 Hback]. exists p, t1. split_and!; [reflexivity|exact Hp| |].
    + rewrite Ht1. vm_compute. reflexivity.
    + apply Hback. vm_compute. reflexivity.
Defined.

Lemma ScopedRealtimePriority_restores_witness :
  let t := Thread (list_to_set (seqZ 0 4)) SCHED_BATCH 0 (false, false) 0 in
  ∃ p t1, ScopedRealtimePriority_ctor 50 SCHED_FIFO t = (Ret p, t1) ∧ enabled_ p = true ∧
    (t_policy (ScopedRealtimePriority_dtor p t1).2, t_priority (ScopedRealtimePriority_dtor p t1).2) = (SCHED_FIFO, 50).
Proof.
  intros t. destruct (ScopedRealtimePriority_ctor 50 SCHED_FIFO t) as [r t1] eqn:Hc.
  assert (∃ p, r = Ret p ∧ enabled_ p = true) as (p&->&Hp)
    by (apply (f_equal fst) in Hc; cbn [fst] in Hc; rewrite <-Hc; eexists; split; vm_compute; reflexivity).
  destruct (ScopedRealtimePriority_restores 50 SCHED_FIFO t p t1) as [_ Hrt]; [reflexivity|exact Hc|].
  destruct (Hrt Hp) as (_&_&_&Hlost). exists p, t1. split_and!; [reflexivity|exact Hp|].
  apply Hlost; [by left|reflexivity].
Defined.
