(* ===== verification/Base.v ===== *)
(** * Base: modes, categories, locations and where a journal's files are

    [src/include/revoq/JournalBase.h].  [ILocator] is the C++ interface as a
    class; [LocatorLaws] is what the pages, the writer and the reader rely on,
    and [Locator] the implementation the program ships, proved to satisfy it. *)

From S2P Require Import Prelude Memory Hash Strings.

(** ** Enumerations *)

Inductive Mode := ModeUNKNOWN | LIVE | REPLAY.
Inductive Category :=
  | CategoryUNKNOWN | MARKETDATA | RESEARCHDATA | EXECUTION | CategoryLOG | SYSTEM | STRATEGY.
Inductive Layout := LayoutUNKNOWN | JOURNAL | LayoutLOG.

#[global] Instance Mode_eq_dec : EqDecision Mode.
Proof. solve_decision. Defined.
#[global] Instance Category_eq_dec : EqDecision Category.
Proof. solve_decision. Defined.
#[global] Instance Layout_eq_dec : EqDecision Layout.
Proof. solve_decision. Defined.

Definition str2mode : gmap str Mode :=
  <[lit "live" := LIVE]> (<[lit "replay" := REPLAY]> ∅).
Definition str2category : gmap str Category :=
  <[lit "marketdata" := MARKETDATA]> (<[lit "researchdata" := RESEARCHDATA]>
  (<[lit "executiondata" := EXECUTION]> (<[lit "log" := CategoryLOG]> ∅))).

Definition categoryToStr (c : Category) : str :=
  match c with
  | MARKETDATA => lit "marketdata"
  | RESEARCHDATA => lit "researchdata"
  | EXECUTION => lit "executiondata"
  | CategoryLOG => lit "log"
  | _ => lit "unknown"
  end.
Definition modeToStr (m : Mode) : str :=
  match m with LIVE => lit "live" | REPLAY => lit "replay" | _ => lit "unknown" end.
Definition layoutToStr (l : Layout) : str :=
  match l with JOURNAL => lit "journal" | LayoutLOG => lit "log" | _ => lit "unknown" end.

(** [enum class MsgType]: the values the journal itself gives a meaning to. *)
Module MsgType.
Definition Invalid : Z := 0.
Definition Trade : Z := 100.
Definition MarketDepth20 : Z := 101.
Definition BBO : Z := 102.
Definition BookReset : Z := 103.
Definition PageEnd : Z := 10000.
Definition SessionStart : Z := 10001.
Definition SessionEnd : Z := 10002.
Definition SimulationStart : Z := 10003.
Definition SimulationEnd : Z := 10004.
End MsgType.

(** ** [class Location]

    The locator a [Location] carries is the [ILocator] instance in scope. *)

Record Location := MkLocation {
  mode : Mode;
  category : Category;
  group : str;
  name : str;
  category_str : str;
  mode_str : str;
  uname : str;
  uid : Z
}.

Definition makeUname (cat_str g n mod_str : str) : str :=
  cat_str ++ "/"%char :: g ++ "/"%char :: n ++ "/"%char :: mod_str.

Definition Location_ctor (m : Mode) (c : Category) (g n : str) : Location :=
  let u := makeUname (categoryToStr c) g n (modeToStr m) in
  MkLocation m c g n (categoryToStr c) (modeToStr m) u (hashStr32 u 0).

(** [Location::make] asserts that both names are there. *)
Definition Location_make {S} (m : Mode) (c : Category) (g n : str) : M S Location :=
  if bool_decide (g = []) || bool_decide (n = []) then crash AssertionFailed
  else ret (Location_ctor m c g n).

(** ** [class ILocator] *)

(** File names are what [fmt::format] prints. *)
Class ILocator `{Fmt} := {
  exists_ : Location → Layout → M world bool;
  layoutDir : Location → Layout → str;
  makeLayoutDir : Location → Layout → M world str;
  makeLayoutFile : Location → Layout → str → M world path;
  listPageId : Location → Z → M world (list Z);
  getHome : str
}.

(** A page file's name. *)
Definition page_name `{Fmt} (dest_id id : Z) : str :=
  fmt_08x dest_id ++ "."%char :: fmt_dec id ++ lit ".journal".

(** Every file of directory [d] is a page file. *)
Definition only_pages `{Fmt} (w : world) (d : str) : Prop :=
  ∀ n, is_Some (w_files w !! (d, n)) →
    ∃ dst id, in_u 32 dst ∧ 0 ≤ id < 2 ^ 31 ∧ n = page_name dst id.

(** What the rest of the program relies on. *)
Class LocatorLaws `{ILocator} := {
  #[global] locator_fmt :: FmtLaws;
  makeLayoutDir_run w loc l :
    makeLayoutDir loc l w = (Ret (layoutDir loc l), set_dirs ({[layoutDir loc l]} ∪.) w);
  listPageId_run w loc dest_id :
    in_u 32 dest_id → only_pages w (layoutDir loc JOURNAL) →
    ∃ ids,
      listPageId loc dest_id w = (Ret ids, set_dirs ({[layoutDir loc JOURNAL]} ∪.) w) ∧
      StronglySorted Z.le ids ∧ NoDup ids ∧
      ∀ id, id ∈ ids ↔ 0 ≤ id < 2 ^ 31 ∧
        is_Some (w_files w !! (layoutDir loc JOURNAL, page_name dest_id id));
  listPageId_maps loc dest_id w x w' :
    listPageId loc dest_id w = (x, w') → w_maps w' = w_maps w
}.

(** ** [class Locator] *)

(** [std::filesystem::path]'s [operator/] on POSIX. *)
Definition path_append (a b : str) : str :=
  match b with
  | "/"%char :: _ => b
  | _ =>
      match last a with
      | None => b
      | Some c => if bool_decide (c = "/"%char) then a ++ b else a ++ "/"%char :: b
      end
  end.

(** The names [directory_iterator] visits, in an unspecified order. *)
Definition dir_entries (w : world) (d : str) : list str :=
  (map_to_list (w_files w)) ≫= (λ e, if decide (e.1.1 = d) then [e.1.2] else []).

Section Locator.
Context `{Fmt} (home_path_ : str).

Definition Locator_layoutDir (location : Location) (l : Layout) : str :=
  path_append (path_append (path_append (path_append (path_append home_path_
    (categoryToStr (category location))) (group location)) (name location))
    (layoutToStr l)) (modeToStr (mode location)).

Definition Locator_exists (location : Location) (l : Layout) : M world bool :=
  gets (λ w, bool_decide (Locator_layoutDir location l ∈ w_dirs w)).

Definition Locator_makeLayoutDir (location : Location) (l : Layout) : M world str :=
  let p := Locator_layoutDir location l in
  let! there := gets (λ w, bool_decide (p ∈ w_dirs w)) in
  do! when (negb there) (modify (set_dirs ({[p]} ∪.))) in
  ret p.

(** [FileUtils::touch] opens an output stream: the file becomes empty. *)
Definition touch (p : path) : M world unit :=
  modify (set_files <[p := File 0 ∅]>).

Definition Locator_makeLayoutFile (location : Location) (l : Layout) (name : str) : M world path :=
  let! p := Locator_makeLayoutDir location l in
  let p2 := (p, name ++ "."%char :: layoutToStr l) in
  let! there := gets (λ w, bool_decide (is_Some (w_files w !! p2))) in
  do! when (negb there) (touch p2) in
  ret p2.

(** The loop over the entries: [parts[1]] is read only when [parts[0]] is
    the destination, and is not checked to be there. *)
Fixpoint page_ids_of (hex_dest_id : str) (entries : list str) (page_ids : list Z)
    : outcome (list Z) :=
  match entries with
  | [] => Ret page_ids
  | entry :: entries =>
      let parts := split entry "." in
      if bool_decide (parts !! 0%nat = Some hex_dest_id) then
        match parts !! 1%nat with
        | None => Fault UndefinedBehaviour
        | Some part =>
            match stoi part with
            | Ret id => page_ids_of hex_dest_id entries (page_ids ++ [id])
            | Throw e => Throw e
            | Fault f => Fault f
            end
        end
      else page_ids_of hex_dest_id entries page_ids
  end.

Definition Locator_listPageId (location : Location) (dest_id : Z) : M world (list Z) :=
  let hex_dest_id := fmt_08x dest_id in
  let! p := Locator_makeLayoutDir location JOURNAL in
  let! entries := gets (λ w, dir_entries w p) in
  let! page_ids := (λ w, (page_ids_of hex_dest_id entries [], w)) in
  ret (merge_sort Z.le page_ids).

Definition Locator : ILocator := {|
  exists_ := Locator_exists;
  layoutDir := Locator_layoutDir;
  makeLayoutDir := Locator_makeLayoutDir;
  makeLayoutFile := Locator_makeLayoutFile;
  listPageId := Locator_listPageId;
  getHome := home_path_
|}.
End Locator.

(** ** The shipped locator keeps the interface's promises *)

Lemma list_eq_cons_inv {A} (x y : A) xs ys : x :: xs = y :: ys → x = y ∧ xs = ys.
Proof. by intros [=]. Qed.

Lemma page_name_split `{FmtLaws} dest_id id :
  in_u 32 dest_id → 0 ≤ id < 2 ^ 31 → split (page_name dest_id id) "." = [fmt_08x dest_id; fmt_dec id; lit "journal"].
Proof.
  intros Hd Hid. rewrite split_eq. unfold page_name.
  rewrite fields_app by by apply fmt_08x_no_dot.
  change (lit ".journal") with ("."%char :: lit "journal").
  rewrite fields_app by by apply fmt_dec_no_dot. done.
Qed.

Lemma page_name_eq `{FmtLaws} dst1 id1 dst2 id2 :
  in_u 32 dst1 → in_u 32 dst2 → 0 ≤ id1 < 2 ^ 31 → 0 ≤ id2 < 2 ^ 31 →
  page_name dst1 id1 = page_name dst2 id2 → dst1 = dst2 ∧ id1 = id2.
Proof.
  intros Hd1 Hd2 Hi1 Hi2 Heq. apply (f_equal (λ s, split s ".")) in Heq.
  rewrite !page_name_split in Heq by done. apply list_eq_cons_inv in Heq as [Hhex Heq].
  apply list_eq_cons_inv in Heq as [Hdec _]. split.
  - by apply fmt_08x_inj.
  - apply (f_equal stoi) in Hdec. rewrite !stoi_fmt_dec in Hdec by done. congruence.
Qed.

(** A page file's name determines the destination and the page number: two
    pages of a directory never share a file. *)
Lemma page_name_inj `{FmtLaws} dst1 id1 dst2 id2 :
  in_u 32 dst1 → in_u 32 dst2 → 0 ≤ id1 < 2 ^ 31 → 0 ≤ id2 < 2 ^ 31 →
  page_name dst1 id1 = page_name dst2 id2 → dst1 = dst2 ∧ id1 = id2.
Proof. apply page_name_eq. Qed.

Lemma page_name_inj_witness :
  in_u 32 42 ∧ 0 ≤ 7 < 2 ^ 31 ∧
  (@page_name std_fmt 42 7 = @page_name std_fmt 42 7 → 42 = 42 ∧ 7 = 7).
Proof.
  split; [unfold in_u; lia|]. split; [lia|].
  apply (@page_name_inj std_fmt _ 42 7 42 7); unfold in_u; lia.
Defined.

Lemma page_ids_of_spec `{FmtLaws} dest_id entries acc :
  in_u 32 dest_id → NoDup entries →
  (∀ n, n ∈ entries → ∃ dst id, in_u 32 dst ∧ 0 ≤ id < 2 ^ 31 ∧ n = page_name dst id) →
  ∃ ids, page_ids_of (fmt_08x dest_id) entries acc = Ret (acc ++ ids) ∧ NoDup ids ∧
    ∀ id, id ∈ ids ↔ 0 ≤ id < 2 ^ 31 ∧ page_name dest_id id ∈ entries.
Proof.
  intros Hdest Hnd Hall. revert acc; induction Hnd as [|n entries Hn Hnd IH]; intros acc.
  { exists []. rewrite app_nil_r. split_and!; [done|constructor|].
    intros id. rewrite !elem_of_nil. tauto. }
  destruct (Hall n) as (dst&id&Hdst&Hid&->); [by left|].
  assert (∀ acc, ∃ ids, page_ids_of (fmt_08x dest_id) entries acc = Ret (acc ++ ids) ∧ NoDup ids ∧
    ∀ id, id ∈ ids ↔ 0 ≤ id < 2 ^ 31 ∧ page_name dest_id id ∈ entries) as IH'.
  { intros. apply IH. intros. apply Hall. by right. }
  simpl. rewrite page_name_split by done. simpl. case_bool_decide as Heq.
  - apply (inj Some), fmt_08x_inj in Heq as ->; [|done..].
    rewrite stoi_fmt_dec by done. destruct (IH' (acc ++ [id])) as (ids&Hids&Hnd'&Hin).
    exists (id :: ids). rewrite Hids, <-app_assoc. split_and!; [done| |].
    + constructor; [|done]. rewrite Hin. tauto.
    + intros id'. rewrite !elem_of_cons, Hin. split.
      * intros [->|[? ?]]; auto.
      * intros [? [Hp|?]]; [|by auto]. apply page_name_eq in Hp as [_ ->]; auto.
  - destruct (IH' acc) as (ids&Hids&Hnd'&Hin). exists ids. split_and!; [done..|].
    intros id'. rewrite elem_of_cons, Hin. split; [by intros [? ?]; auto|].
    intros [? [Hp|?]]; [|by auto]. apply page_name_eq in Hp as [-> _]; [done|done..].
Qed.

Lemma dir_entries_elem w d n : n ∈ dir_entries w d ↔ is_Some (w_files w !! (d, n)).
Proof.
  unfold dir_entries. rewrite list_elem_of_bind. split.
  - intros ([[d' n'] f]&Hn&Hf). apply elem_of_map_to_list in Hf. simpl in Hn.
    case_decide; simplify_eq; [|by apply elem_of_nil in Hn].
    apply list_elem_of_singleton in Hn as ->. eauto.
  - intros [f Hf]. exists ((d, n), f). split; [|by apply elem_of_map_to_list].
    simpl. rewrite decide_True by done. by apply list_elem_of_singleton.
Qed.

Lemma dir_entries_NoDup w d : NoDup (dir_entries w d).
Proof.
  unfold dir_entries. pose proof (NoDup_fst_map_to_list (w_files w)) as Hnd.
  induction (map_to_list (w_files w)) as [|[[d' n'] f] l IH]; simpl; [constructor|].
  inversion Hnd as [|?? Hx Hnd']; subst. case_decide; simpl in *; [subst|by apply IH].
  constructor; [|by apply IH]. intros Hin. apply Hx.
  apply list_elem_of_bind in Hin as ([[d'' n''] f']&Hn&Hl). simpl in Hn.
  case_decide; [|by apply elem_of_nil in Hn]. apply list_elem_of_singleton in Hn as ->.
  simpl in *. subst. by apply (list_elem_of_fmap_2 fst) in Hl.
Qed.

Lemma set_dirs_same d w : d ∈ w_dirs w → set_dirs ({[d]} ∪.) w = w.
Proof. destruct w as [dirs]; unfold set_dirs; simpl. intros. f_equal. set_solver. Qed.

Lemma Locator_makeLayoutDir_run home w loc l :
  Locator_makeLayoutDir home loc l w =
    (Ret (Locator_layoutDir home loc l), set_dirs ({[Locator_layoutDir home loc l]} ∪.) w).
Proof.
  unfold Locator_makeLayoutDir, bind, gets. case_bool_decide; simpl; [|done].
  unfold ret. by rewrite set_dirs_same.
Qed.

Lemma Locator_listPageId_run `{FmtLaws} home w loc dest_id :
  in_u 32 dest_id → only_pages w (Locator_layoutDir home loc JOURNAL) →
  ∃ ids,
    Locator_listPageId home loc dest_id w =
      (Ret ids, set_dirs ({[Locator_layoutDir home loc JOURNAL]} ∪.) w) ∧
    StronglySorted Z.le ids ∧ NoDup ids ∧
    ∀ id, id ∈ ids ↔ 0 ≤ id < 2 ^ 31 ∧
      is_Some (w_files w !! (Locator_layoutDir home loc JOURNAL, page_name dest_id id)).
Proof.
  intros Hdest Hpages. set (d := Locator_layoutDir home loc JOURNAL) in *.
  set (w' := set_dirs ({[d]} ∪.) w).
  destruct (page_ids_of_spec dest_id (dir_entries w' d) []) as (ids&Hids&Hnd&Hin);
    [done|apply dir_entries_NoDup| |].
  { intros n Hn%dir_entries_elem. by apply Hpages. }
  exists (merge_sort Z.le ids). split_and!.
  - unfold Locator_listPageId. erewrite bind_Ret by apply Locator_makeLayoutDir_run.
    fold d w'. unfold bind, gets, ret. by rewrite Hids.
  - apply (StronglySorted_merge_sort Z.le).
  - by rewrite merge_sort_Permutation.
  - intros id. rewrite merge_sort_Permutation, Hin, dir_entries_elem. done.
Qed.

(** Listing maps and unmaps nothing, whatever is in the directory. *)
Lemma Locator_listPageId_maps `{FmtLaws} home loc dest_id w x w' :
  Locator_listPageId home loc dest_id w = (x, w') → w_maps w' = w_maps w.
Proof.
  unfold Locator_listPageId. erewrite bind_Ret by apply Locator_makeLayoutDir_run.
  unfold bind, gets, ret. destruct (page_ids_of _ _ _); intros Heq; by injection Heq as <- <-.
Qed.

Lemma Locator_laws_hold `{FmtLaws} home : @LocatorLaws _ (Locator home).
Proof.
  split; [done|intros; apply Locator_makeLayoutDir_run|intros; by apply Locator_listPageId_run
         |intros ????? Hrun; exact (Locator_listPageId_maps _ _ _ _ _ _ Hrun)].
Qed.
#[export] Instance Locator_ok `{FmtLaws} home : @LocatorLaws _ (Locator home) := Locator_laws_hold home.


#[export] Hint Resolve set_dirs_same : run.
