(* ===== verification/Page.v ===== *)
(** * Page: a mapped page file and its header

    [src/include/revoq/JournalPage.h].  A [Page] is the object the C++ class
    is: the mapping's address and what the destructor needs.  [Page_load] is
    [Page::load] with every validation in order, [findPageId] the binary
    search over page start times. *)

From S2P Require Import Prelude Memory Frame Strings Base Mmap.

Definition PAGE_SIZE_MARKETDATA : Z := 128 * 1024 * 1024.
Definition PAGE_SIZE_EXECUTION : Z := 4 * 1024 * 1024.
Definition PAGE_SIZE_DEFAULT : Z := 2 * 1024 * 1024.

Definition findPageSize (location : Location) (dest_id : Z) : Z :=
  if bool_decide (category location = MARKETDATA) || bool_decide (category location = RESEARCHDATA)
  then PAGE_SIZE_MARKETDATA
  else if bool_decide (category location = EXECUTION) && negb (dest_id =? 0)
  then PAGE_SIZE_EXECUTION
  else PAGE_SIZE_DEFAULT.

(** [struct PageHeader]: the offset of each field. *)
Definition sizeof_PageHeader : Z := 64.
Definition off_version : Z := 0.
Definition off_page_header_length : Z := 4.
Definition off_page_size : Z := 8.
Definition off_frame_header_length : Z := 12.
Definition off_last_frame_position : Z := 16.

Record Page := MkPage {
  pg_location : Location;
  pg_dest_id : Z;
  pg_page_id : Z;
  pg_prefault : bool;
  pg_size : Z;
  pg_header : ptr;
  pg_owned : bool
}.

Section page_ops.
Context `{Env} `{ILocator}.

(** [~Page()] *)
Definition Page_release (p : Page) : M world unit :=
  when (pg_owned p)
    (let msync_mode :=
       if bool_decide (category (pg_location p) = MARKETDATA) ||
          bool_decide (category (pg_location p) = RESEARCHDATA) then NONE else ASYNC in
     let! _ok := releaseMmapBuffer (Some (pg_header p)) (pg_prefault p) msync_mode in
     ret tt).

Definition getPageSize (p : Page) : M world Z := load 4 (ptr_add (pg_header p) off_page_size).
Definition page_address (p : Page) : ptr := pg_header p.

Definition firstFrameAddress (p : Page) : M world ptr :=
  let! n := load 4 (ptr_add (pg_header p) off_page_header_length) in
  ret (ptr_add (page_address p) n).
Definition lastFrameAddress (p : Page) : M world ptr :=
  let! n := load 8 (ptr_add (pg_header p) off_last_frame_position) in
  ret (ptr_add (page_address p) n).
Definition addressBorder (p : Page) : M world ptr :=
  let! n := getPageSize p in
  ret (ptr_add (page_address p) (n - FRAME_ALIGNMENT)).

(** The generation time of the frame at [frame], 0 if none is committed. *)
Definition frame_time (frame : ptr) : M world Z :=
  let! len := load 4 (ptr_add frame off_length) in
  if len =? 0 then ret 0 else getGenTime frame.
Definition beginTime (p : Page) : M world Z :=
  let! frame := firstFrameAddress p in frame_time frame.
Definition endTime (p : Page) : M world Z :=
  let! frame := lastFrameAddress p in frame_time frame.

Definition isFull (p : Page) : M world bool :=
  let! last_frame := lastFrameAddress p in
  let! frame_len := load 4 (ptr_add last_frame off_length) in
  let! last := lastFrameAddress p in
  let! border := addressBorder p in
  ret (addr border <? addr last + framePhysicalLength frame_len).

Definition setLastFramePosition (p : Page) (position : Z) : M world unit :=
  store 8 (ptr_add (pg_header p) off_last_frame_position) position.

Definition getPagePath (location : Location) (dest_id id : Z) : M world path :=
  let! dir := makeLayoutDir location JOURNAL in
  ret (dir, page_name dest_id id).

(** The header of a page nobody has written yet. *)
Definition init_header (header : ptr) (page_size : Z) : M world unit :=
  do! memset0 header sizeof_PageHeader in
  do! store 4 (ptr_add header off_version) JOURNAL_PAGE_VERSION in
  do! store 4 (ptr_add header off_page_header_length) sizeof_PageHeader in
  do! store 4 (ptr_add header off_page_size) page_size in
  do! store 4 (ptr_add header off_frame_header_length) sizeof_FrameHeader in
  store 8 (ptr_add header off_last_frame_position) sizeof_PageHeader.

Definition validate_header (header : ptr) (page_size : Z) : M world unit :=
  let! version := load 4 (ptr_add header off_version) in
  do! throw_if (negb (version =? JOURNAL_PAGE_VERSION)) (JournalVersionMismatch version) in
  let! len := load 4 (ptr_add header off_page_header_length) in
  do! throw_if (negb (len =? sizeof_PageHeader)) (JournalHeaderLengthMismatch len) in
  let! size := load 4 (ptr_add header off_page_size) in
  do! throw_if (negb (size =? page_size)) (JournalPageSizeMismatch size) in
  let! pos := load 8 (ptr_add header off_last_frame_position) in
  throw_if (page_size <=? pos) (JournalBadLastFramePosition pos).

Definition Page_load (location : Location) (dest_id page_id : Z) (is_writing prefault : bool)
    : M world Page :=
  let page_size := findPageSize location dest_id in
  let! pa := getPagePath location dest_id page_id in
  let! address := try_catch (loadMmapBuffer pa page_size is_writing prefault)
                    (λ _, throw JournalMmapFailed) in
  do! throw_if (addr address =? 0) JournalNullAddress in
  let! pos := load 8 (ptr_add address off_last_frame_position) in
  let is_new_page := pos =? 0 in
  do! when is_new_page (init_header address page_size) in
  do! validate_header address page_size in
  ret (MkPage location dest_id page_id prefault page_size address true).

(** [Page::loadFromAddress]: the header was initialised by the warmer. *)
Definition loadFromAddress (location : Location) (dest_id page_id : Z) (address : option ptr)
    (prefault : bool) : M world Page :=
  match address with
  | None => throw JournalNullAddress
  | Some header =>
      let! page_size := load 4 (ptr_add header off_page_size) in
      let! version := load 4 (ptr_add header off_version) in
      do! throw_if (negb (version =? JOURNAL_PAGE_VERSION)) (JournalVersionMismatch version) in
      let! len := load 4 (ptr_add header off_page_header_length) in
      do! throw_if (negb (len =? sizeof_PageHeader)) (JournalHeaderLengthMismatch len) in
      ret (MkPage location dest_id page_id prefault page_size header true)
  end.

(** The binary search over [page_ids]; every page opened is released at the
    end of its iteration. *)
Fixpoint findPageId_loop (fuel : nat) (location : Location) (dest_id time : Z)
    (page_ids : list Z) (left right best_page : Z) : M world Z :=
  match fuel with
  | O => crash OutOfFuel
  | S fuel =>
      if left <=? right then
        let mid := left + (right - left) ÷ 2 in
        let mid_page := nth (Z.to_nat mid) page_ids 0 in
        let! page := Page_load location dest_id mid_page false false in
        let! page_begin_time := beginTime page in
        do! Page_release page in
        if page_begin_time =? 0 then
          findPageId_loop fuel location dest_id time page_ids left (mid - 1) best_page
        else if page_begin_time <=? time then
          findPageId_loop fuel location dest_id time page_ids (mid + 1) right mid_page
        else findPageId_loop fuel location dest_id time page_ids left (mid - 1) best_page
      else ret best_page
  end.

Definition findPageId (location : Location) (dest_id time : Z) : M world Z :=
  let! page_ids := listPageId location dest_id in
  match page_ids with
  | [] => ret 1
  | front :: _ =>
      if time =? 0 then ret front
      else findPageId_loop (S (length page_ids)) location dest_id time page_ids
             0 (Z.of_nat (length page_ids) - 1) front
  end.
End page_ops.

(** ** The header of a page, abstractly *)

Definition page_path `{ILocator} (location : Location) (dest_id id : Z) : path :=
  (layoutDir location JOURNAL, page_name dest_id id).

(** The header [Page_load] accepts, with the last frame at [pos]. *)
Record header_ok (w : world) (pa : path) (size pos : Z) : Prop := {
  hd_version : fle w pa off_version 4 = JOURNAL_PAGE_VERSION;
  hd_length : fle w pa off_page_header_length 4 = sizeof_PageHeader;
  hd_size : fle w pa off_page_size 4 = size;
  hd_pos : fle w pa off_last_frame_position 8 = pos;
  hd_bounds : sizeof_PageHeader ≤ pos < size
}.

Ltac unfold_offsets :=
  unfold off_version, off_page_header_length, off_page_size, off_frame_header_length,
    off_last_frame_position, sizeof_PageHeader, sizeof_FrameHeader, off_length, off_msg_type,
    off_flags, off_sequence, off_gen_time, off_event_time, JOURNAL_PAGE_VERSION,
    FRAME_ALIGNMENT, getHeaderLength in *.

Lemma findPageSize_cases location dest_id :
  findPageSize location dest_id = PAGE_SIZE_MARKETDATA ∨
  findPageSize location dest_id = PAGE_SIZE_EXECUTION ∨
  findPageSize location dest_id = PAGE_SIZE_DEFAULT.
Proof. unfold findPageSize. repeat case_match; auto. Qed.

Lemma findPageSize_bounds location dest_id :
  2 ^ 21 ≤ findPageSize location dest_id ≤ 2 ^ 27 ∧ findPageSize location dest_id `mod` 64 = 0.
Proof.
  by destruct (findPageSize_cases location dest_id) as [-> | [-> | ->]].
Qed.

Lemma header_ok_agree w w' pa size pos :
  agree w w' pa 0 64 → header_ok w pa size pos → header_ok w' pa size pos.
Proof.
  intros Hag []. split; [..|done]; unfold_offsets;
    rewrite (fle_agree w w') by (eapply agree_sub; [done|lia..]); done.
Qed.

(** The bytes [init_header] leaves. *)
Definition init_world (w : world) (pa : path) (size : Z) : world :=
  fwrite (fwrite (fwrite (fwrite (fwrite (fzero w pa 0 64)
    pa 0 (le_bytes 4 2)) pa 4 (le_bytes 4 64)) pa 8 (le_bytes 4 size))
    pa 12 (le_bytes 4 32)) pa 16 (le_bytes 8 64).

Lemma init_header_run w b pa n size :
  mapped w b pa n true → 64 ≤ n →
  init_header (Ptr b 0) size w = (Ret tt, init_world w pa size).
Proof.
  intros Hm Hn. unfold init_header. unfold_offsets. do 5 mstep.
  apply (store_run _ (Ptr b 16) pa n); cbn; [mapped_tac|lia..].
Qed.

Lemma init_world_header w pa size :
  is_Some (w_files w !! pa) → 64 < size < 2 ^ 32 → header_ok (init_world w pa size) pa size 64.
Proof.
  intros Hf Hs. unfold init_world. split; unfold_offsets; mem_simpl; try done; [|lia].
  apply wrap_small. unfold in_u. lia.
Qed.

Lemma init_world_touches w pa size : touches pa w (init_world w pa size).
Proof.
  unfold init_world. touches_tac.
Qed.

Lemma init_world_size w pa size pa' : file_size (init_world w pa size) pa' = file_size w pa'.
Proof. unfold init_world. by rewrite !file_size_fwrite, file_size_fzero. Qed.

Lemma init_world_agree w pa size pa' off n :
  apart pa 0 64 pa' off n → agree w (init_world w pa size) pa' off n.
Proof.
  intros Hap. unfold init_world.
  repeat (eapply agree_trans; [|apply agree_fwrite; rewrite length_le_bytes by lia;
    unfold apart in *; destruct Hap as [?|[?|?]]; auto; lia]).
  by apply agree_fzero.
Qed.

Section Page_lemmas.
Context `{Env} `{!NoErrors} `{!EnvLaws} `{ILocator} `{!LocatorLaws}.

Lemma getPagePath_run w location dest_id id :
  getPagePath location dest_id id w =
    (Ret (page_path location dest_id id), set_dirs ({[layoutDir location JOURNAL]} ∪.) w).
Proof. unfold getPagePath. by erewrite bind_Ret by apply makeLayoutDir_run. Qed.

Lemma validate_header_run w b pa n wr size pos :
  mapped w b pa n wr → 64 ≤ n → header_ok w pa size pos →
  validate_header (Ptr b 0) size w = (Ret tt, w).
Proof.
  intros Hm Hn [Hv Hl Hs Hp Hb]. unfold validate_header. unfold_offsets.
  mstep. rewrite bind_guard by by rewrite Hv. mstep. rewrite bind_guard by by rewrite Hl.
  mstep. rewrite bind_guard by by rewrite Hs, Z.eqb_refl. mstep. rewrite Hp.
  by destruct (Z.leb_spec size pos); [lia|].
Qed.

(** What opening a page leaves of the rest of the world. *)
Record opened (w w' : world) (pa : path) (size : Z) (master : bool) (b : Z) : Prop := {
  op_touches : touches pa w w';
  op_mapped : mapped w' b pa size master;
  op_fresh : w_maps w !! b = None;
  op_file pa' : is_Some (w_files w' !! pa') ↔ pa' = pa ∨ is_Some (w_files w !! pa');
  op_size : file_size w' pa = if master then Z.max (file_size w pa) size else file_size w pa;
  op_size_other pa' : pa' ≠ pa → file_size w' pa' = file_size w pa';
  op_maps : w_maps w' = <[b := Mapping pa size master]> (w_maps w);
  op_dirs : w_dirs w' = {[pa.1]} ∪ w_dirs w;
  op_ticks : w_ticks w' = w_ticks w
}.

Lemma map_page_run w location dest_id page_id is_writing prefault :
  let pa := page_path location dest_id page_id in
  let size := findPageSize location dest_id in
  let master := is_writing || prefault in
  master = true ∨ size ≤ file_size w pa →
  ∃ w' b,
    Page_load location dest_id page_id is_writing prefault w =
      bind (load 8 (Ptr b off_last_frame_position)) (λ pos,
      do! when (pos =? 0) (init_header (Ptr b 0) size) in
      do! validate_header (Ptr b 0) size in
      ret (MkPage location dest_id page_id prefault size (Ptr b 0) true)) w' ∧
    opened w w' pa size master b ∧ (∀ pa' i, fbyte w' pa' i = fbyte w pa' i).
Proof.
  intros pa size master Hlong. pose proof (findPageSize_bounds location dest_id) as [Hsz _].
  unfold Page_load. erewrite bind_Ret by apply getPagePath_run. fold pa size.
  set (w1 := set_dirs _ w).
  destruct (loadMmapBuffer_run w1 pa size is_writing prefault) as (w'&b&Hrun&Hrm); [lia|].
  fold master in Hrm. exists w', b.
  erewrite bind_Ret by (apply try_catch_Ret; exact Hrun).
  pose proof (rm_pos _ _ _ _ _ _ Hrm) as Hpos.
  rewrite bind_guard by (apply Z.eqb_neq; unfold addr; cbn; lia).
  split; [done|]. split; [split|].
  - etrans; [apply touches_dirs|by eapply remapped_touches].
  - eapply remapped_mapped; [done|lia|]. destruct Hlong as [?|?]; auto.
  - apply (rm_fresh _ _ _ _ _ _ Hrm).
  - intros pa'. by rewrite (rm_file _ _ _ _ _ _ Hrm).
  - apply (rm_size _ _ _ _ _ _ Hrm).
  - apply (rm_size_other _ _ _ _ _ _ Hrm).
  - apply (rm_maps _ _ _ _ _ _ Hrm).
  - apply (rm_dirs _ _ _ _ _ _ Hrm).
  - apply (rm_ticks _ _ _ _ _ _ Hrm).
  - intros. by rewrite (rm_bytes _ _ _ _ _ _ Hrm).
Qed.

(** Opening a page that is there and sound: no byte changes. *)
Lemma Page_load_existing w location dest_id page_id is_writing prefault pos :
  let pa := page_path location dest_id page_id in
  let size := findPageSize location dest_id in
  header_ok w pa size pos → size ≤ file_size w pa →
  ∃ w' b,
    Page_load location dest_id page_id is_writing prefault w =
      (Ret (MkPage location dest_id page_id prefault size (Ptr b 0) true), w') ∧
    opened w w' pa size (is_writing || prefault) b ∧
    (∀ pa' i, fbyte w' pa' i = fbyte w pa' i).
Proof.
  intros pa size Hh Hlong. pose proof (findPageSize_bounds location dest_id) as [Hsz _].
  destruct (map_page_run w location dest_id page_id is_writing prefault)
    as (w'&b&->&Hop&Hb); [by right|]. fold pa size in Hop |- *.
  pose proof (op_mapped _ _ _ _ _ _ Hop) as Hm.
  assert (header_ok w' pa size pos) as Hh'.
  { eapply header_ok_agree; [|done]. intros i _. by rewrite Hb. }
  exists w', b. pose proof (hd_pos _ _ _ _ Hh') as Hp. pose proof (hd_bounds _ _ _ _ Hh').
  unfold_offsets. mstep. rewrite Hp. destruct (Z.eqb_spec pos 0); [lia|]. cbn [when]. mstep.
  erewrite bind_Ret by (eapply validate_header_run; [done|lia|done]). done.
Qed.

(** Opening a page nobody has written yet, as a writer (or with [prefault]):
    the header is initialised, the rest of the file stays as it was. *)
Lemma Page_load_new w location dest_id page_id is_writing prefault :
  let pa := page_path location dest_id page_id in
  let size := findPageSize location dest_id in
  fle w pa off_last_frame_position 8 = 0 → is_writing || prefault = true →
  ∃ w' b,
    Page_load location dest_id page_id is_writing prefault w =
      (Ret (MkPage location dest_id page_id prefault size (Ptr b 0) true), w') ∧
    opened w w' pa size true b ∧
    header_ok w' pa size sizeof_PageHeader ∧
    agree w w' pa 64 (size - 64).
Proof.
  intros pa size Hz Hmaster. pose proof (findPageSize_bounds location dest_id) as [Hsz _].
  destruct (map_page_run w location dest_id page_id is_writing prefault)
    as (w1&b&->&Hop&Hb); [by left|]. fold pa size in Hop |- *. rewrite Hmaster in Hop.
  pose proof (op_mapped _ _ _ _ _ _ Hop) as Hm.
  assert (is_Some (w_files w1 !! pa)) as Hf by (apply (op_file _ _ _ _ _ _ Hop); auto).
  assert (header_ok (init_world w1 pa size) pa size 64) as Hh by (apply init_world_header; lia || done).
  pose proof (init_world_touches w1 pa size) as Ht.
  assert (mapped (init_world w1 pa size) b pa size true) as Hm' by by eapply touches_mapped.
  exists (init_world w1 pa size), b. unfold_offsets. mstep.
  assert (fle w1 pa 16 8 = 0) as ->.
  { rewrite <-Hz. apply fle_agree. intros i _. apply Hb. }
  cbn [Z.eqb when]. erewrite bind_Ret by (eapply init_header_run; [done|lia]).
  erewrite bind_Ret by (eapply validate_header_run; [done|lia|done]).
  split; [done|]. split; [|split; [done|]].
  - destruct Hop. split; try done.
    + by etrans.
    + intros pa'. destruct (decide (pa' = pa)) as [->|].
      * split; [auto|]. intros _. unfold init_world. by repeat apply file_is_Some_fwrite; apply file_is_Some_fzero.
      * rewrite (tc_file _ _ _ Ht) by done. apply op_file0.
    + by rewrite init_world_size.
    + intros. by rewrite init_world_size, op_size_other0.
  - intros i Hi. rewrite (init_world_agree w1 pa size pa 64 (size - 64)); [apply Hb| |done].
    right; left; lia.
Qed.
End Page_lemmas.

(** ** Every outcome of opening a page *)

(** What the checks say of the header they find, in the order they run. *)
Definition header_verdict (w : world) (pa : path) (size : Z) : option exn :=
  let version := fle w pa off_version 4 in
  let len := fle w pa off_page_header_length 4 in
  let page_size := fle w pa off_page_size 4 in
  let pos := fle w pa off_last_frame_position 8 in
  if negb (version =? JOURNAL_PAGE_VERSION) then Some (JournalVersionMismatch version)
  else if negb (len =? sizeof_PageHeader) then Some (JournalHeaderLengthMismatch len)
  else if negb (page_size =? size) then Some (JournalPageSizeMismatch page_size)
  else if size <=? pos then Some (JournalBadLastFramePosition pos)
  else None.

Definition load_verdict (w : world) (pa : path) (size : Z) (master : bool) (page : Page)
    : outcome Page :=
  if fle w pa off_last_frame_position 8 =? 0 then
    (* a page without a header: the initialisation needs a writable mapping *)
    if master then Ret page else Fault Sigsegv
  else match header_verdict w pa size with
       | Some e => Throw e
       | None => Ret page
       end.

Lemma validate_header_verdict w b pa n wr size :
  mapped w b pa n wr → 64 ≤ n →
  validate_header (Ptr b 0) size w =
    (match header_verdict w pa size with Some e => Throw e | None => Ret tt end, w).
Proof.
  intros Hm Hn. unfold validate_header, header_verdict. unfold_offsets. cbv zeta. mstep.
  destruct (negb (fle w pa 0 4 =? 2)); [done|]. rewrite bind_guard by done. mstep.
  destruct (negb (fle w pa 4 4 =? 64)); [done|]. rewrite bind_guard by done. mstep.
  destruct (negb (fle w pa 8 4 =? size)); [done|]. rewrite bind_guard by done. mstep.
  by destruct (size <=? fle w pa 16 8).
Qed.

Lemma header_verdict_same w w' pa size :
  (∀ pa i, fbyte w' pa i = fbyte w pa i) → header_verdict w' pa size = header_verdict w pa size.
Proof.
  intros Hb. unfold header_verdict. by rewrite !(fle_agree w w') by by intros ??.
Qed.

Lemma init_header_readonly w b pa n size :
  mapped w b pa n false → 64 ≤ n → init_header (Ptr b 0) size w = (Fault Sigsegv, w).
Proof.
  intros (Hm&Hs&_) Hn. unfold init_header. apply bind_Fault. unfold memset0, locate.
  cbn [p_base p_off]. rewrite Hm. unfold_offsets. cbn [m_size m_writable].
  by rewrite (proj2 (Z.leb_le (0 + 64) n)) by lia.
Qed.

(** C31: [Page::load] of a page file that is long enough (or opened for
    writing, which makes it long enough): the outcome is exactly what the
    header of the file says -- a page whose header was never written is
    initialised by a writer and crashes a read-only opener, a bad version,
    header length, page size or last-frame position is its own exception, and
    a sound header is accepted.  In every case one new mapping stays behind,
    the rejections included: nothing unmaps a page that was refused. *)
Theorem Page_load_spec `{Env} `{!NoErrors} `{!EnvLaws} `{ILocator} `{!LocatorLaws}
    w location dest_id page_id is_writing prefault :
  let pa := page_path location dest_id page_id in
  let size := findPageSize location dest_id in
  let master := is_writing || prefault in
  master = true ∨ size ≤ file_size w pa →
  ∃ b w',
    let page := MkPage location dest_id page_id prefault size (Ptr b 0) true in
    Page_load location dest_id page_id is_writing prefault w =
      (load_verdict w pa size master page, w') ∧
    w_maps w !! b = None ∧ w_maps w' = <[b := Mapping pa size master]> (w_maps w) ∧
    (if (fle w pa off_last_frame_position 8 =? 0) && master
     then header_ok w' pa size sizeof_PageHeader ∧ agree w w' pa 64 (size - 64) ∧
          (∀ pa' i, pa' ≠ pa → fbyte w' pa' i = fbyte w pa' i)
     else ∀ pa' i, fbyte w' pa' i = fbyte w pa' i).
Proof.
  intros pa size master Hlong. pose proof (findPageSize_bounds location dest_id) as [Hsz _].
  fold size in Hsz. destruct (Z.eqb_spec (fle w pa off_last_frame_position 8) 0) as [Hz|Hz].
  1: destruct master eqn:Hmaster.
  - destruct (Page_load_new w location dest_id page_id is_writing prefault)
      as (w'&b&Hrun&Hop&Hh&Hag); [done..|].
    exists b, w'. unfold load_verdict. fold pa size in Hrun, Hop, Hh, Hag |- *. rewrite Hz. cbn [Z.eqb].
    split_and!; [done|apply (op_fresh _ _ _ _ _ _ Hop)|apply (op_maps _ _ _ _ _ _ Hop)|].
    cbn [andb]. split_and!; [done|done|]. intros. by apply (tc_bytes _ _ _ (op_touches _ _ _ _ _ _ Hop)).
  - destruct (map_page_run w location dest_id page_id is_writing prefault)
      as (w'&b&->&Hop&Hb); [by right; destruct Hlong|]. fold master pa size in Hop |- *.
    rewrite Hmaster in Hop. pose proof (op_mapped _ _ _ _ _ _ Hop) as Hm.
    exists b, w'. unfold load_verdict. rewrite Hz. cbn [Z.eqb].
    split_and!; [|apply (op_fresh _ _ _ _ _ _ Hop)|apply (op_maps _ _ _ _ _ _ Hop)|done].
    unfold_offsets. mstep. rewrite (fle_agree w w') by by intros ??. rewrite Hz. cbn [Z.eqb when].
    eapply bind_Fault, init_header_readonly; [done|lia].
  - destruct (map_page_run w location dest_id page_id is_writing prefault)
      as (w'&b&->&Hop&Hb); [done|]. fold master pa size in Hop |- *.
    pose proof (op_mapped _ _ _ _ _ _ Hop) as Hm. exists b, w'. unfold load_verdict.
    rewrite (proj2 (Z.eqb_neq _ 0)) by done. cbn [andb].
    split_and!; [|apply (op_fresh _ _ _ _ _ _ Hop)|apply (op_maps _ _ _ _ _ _ Hop)|done].
    unfold_offsets. mstep. rewrite (fle_agree w w') by by intros ??.
    rewrite (proj2 (Z.eqb_neq _ 0)) by done. cbn [when]. mstep.
    unfold bind. erewrite validate_header_verdict by (done || lia).
    erewrite header_verdict_same by done. by destruct (header_verdict w pa size).
Qed.

(** ** Opening, looking and closing again *)

(** [w'] shows the same files and the same mappings as [w]. *)
Record same_store (w w' : world) : Prop := {
  ss_bytes pa i : fbyte w' pa i = fbyte w pa i;
  ss_size pa : file_size w' pa = file_size w pa;
  ss_file pa : is_Some (w_files w' !! pa) ↔ is_Some (w_files w !! pa);
  ss_maps : w_maps w' = w_maps w;
  ss_ticks : w_ticks w' = w_ticks w
}.

#[export] Instance same_store_preorder : PreOrder same_store.
Proof.
  split; [by split|]. intros w1 w2 w3 [] []. split; intros; try congruence.
  by rewrite ss_file1.
Qed.

Lemma same_store_fle w w' pa off n : same_store w w' → fle w' pa off n = fle w pa off n.
Proof. intros []. apply fle_agree. by intros ??. Qed.

Lemma same_store_header w w' pa size pos :
  same_store w w' → header_ok w pa size pos → header_ok w' pa size pos.
Proof. intros []. apply header_ok_agree. by intros ??. Qed.

Lemma same_store_dirs w d : same_store w (set_dirs ({[d]} ∪.) w).
Proof. by split. Qed.

(** The time a page starts at, as [beginTime] computes it. *)
Definition page_begin (w : world) (pa : path) : Z :=
  if fle w pa (sizeof_PageHeader + off_length) 4 =? 0 then 0
  else s64 (fle w pa (sizeof_PageHeader + off_gen_time) 8).

Section open_close.
Context `{Env} `{!NoErrors} `{!EnvLaws} `{ILocator} `{!LocatorLaws}.

Lemma frame_time_run w p pa n wr :
  mapped w (p_base p) pa n wr → 0 ≤ p_off p → p_off p + 32 ≤ n →
  frame_time p w =
    (Ret (if fle w pa (p_off p + off_length) 4 =? 0 then 0
          else s64 (fle w pa (p_off p + off_gen_time) 8)), w).
Proof.
  intros Hm Hoff Hn. unfold frame_time, getGenTime. unfold_offsets. mstep.
  case_match; [done|]. by mstep.
Qed.

Lemma beginTime_run w p b pa n wr size pos :
  pg_header p = Ptr b 0 → mapped w b pa n wr → 96 ≤ n → header_ok w pa size pos →
  beginTime p w = (Ret (page_begin w pa), w).
Proof.
  intros Hp Hm Hn Hh. pose proof (hd_length _ _ _ _ Hh) as Hl.
  unfold beginTime, firstFrameAddress, page_address. rewrite Hp. unfold_offsets.
  rewrite bind_assoc. mstep. rewrite Hl. mstep.
  erewrite frame_time_run; [|done|cbn; lia..]. done.
Qed.

Lemma unmap_run w b prefault mode :
  ∃ ok w', releaseMmapBuffer (Some (Ptr b 0)) prefault mode w = (Ret ok, w') ∧
    w_files w' = w_files w ∧ w_dirs w' = w_dirs w ∧ w_ticks w' = w_ticks w ∧
    w_maps w' = delete b (w_maps w).
Proof.
  unfold releaseMmapBuffer.
  assert (∃ w1, when prefault syscall_ignored w = (Ret tt, w1) ∧ w_files w1 = w_files w ∧
    w_dirs w1 = w_dirs w ∧ w_ticks w1 = w_ticks w ∧ w_maps w1 = w_maps w) as (w1&Hw&?&?&?&Hm).
  { destruct prefault; cbn [when]; [|by exists w].
    rewrite syscall_ignored_run. by eexists. }
  erewrite bind_Ret by exact Hw.
  destruct mode; [|erewrite bind_Ret by apply syscall_ignored_run|erewrite bind_Ret by apply syscall_errno_run];
    cbn beta iota; rewrite munmap_run; eexists _, _; (split; [done|]); split_and!; try done; simpl; by f_equal.
Qed.

Lemma Page_release_run w p b :
  pg_header p = Ptr b 0 → pg_owned p = true →
  ∃ w', Page_release p w = (Ret tt, w') ∧ w_files w' = w_files w ∧ w_dirs w' = w_dirs w ∧
    w_ticks w' = w_ticks w ∧ w_maps w' = delete b (w_maps w).
Proof.
  intros Hp Ho. unfold Page_release. rewrite Ho, Hp. cbn [when]. cbv zeta.
  match goal with |- context [releaseMmapBuffer _ ?pf ?mode] =>
    destruct (unmap_run w b pf mode) as (ok&w'&Hrun&Hrest) end.
  exists w'. by erewrite bind_Ret by exact Hrun.
Qed.

(** One look at a page: open it read-only, read its start time, close it. *)
Lemma peek_run w location dest_id page_id pos :
  let pa := page_path location dest_id page_id in
  let size := findPageSize location dest_id in
  header_ok w pa size pos → size ≤ file_size w pa →
  ∃ w1 w2 w3 page,
    Page_load location dest_id page_id false false w = (Ret page, w1) ∧
    beginTime page w1 = (Ret (page_begin w pa), w2) ∧
    Page_release page w2 = (Ret tt, w3) ∧ same_store w w3.
Proof.
  intros pa size Hh Hlong. pose proof (findPageSize_bounds location dest_id) as [Hsz _].
  destruct (Page_load_existing w location dest_id page_id false false pos)
    as (w1&b&Hload&Hop&Hb); [done..|]. fold pa size in Hop.
  set (page := MkPage _ _ _ _ _ _ _) in Hload.
  assert (header_ok w1 pa size pos) as Hh1.
  { eapply header_ok_agree; [|done]. intros i _. apply Hb. }
  destruct (Page_release_run w1 page b) as (w3&Hrel&Hf&Hd&Ht&Hm); [done..|].
  exists w1, w1, w3, page. split_and!; [done| |done|].
  - erewrite beginTime_run; [|done|apply (op_mapped _ _ _ _ _ _ Hop)|lia|done].
    do 2 f_equal. unfold page_begin. by rewrite !(fle_agree w w1) by by intros ??.
  - destruct Hop. split.
    + intros pa' i. rewrite <-Hb. by apply fbyte_files.
    + intros pa'. rewrite (file_size_files w1 w3) by done.
      destruct (decide (pa' = pa)) as [->|]; [done|by apply op_size_other0].
    + intros pa'. rewrite Hf, op_file0. split; [|auto]. intros [->|?]; [|done].
      apply file_size_pos. lia.
    + by rewrite Hm, op_maps0, delete_insert_id.
    + by rewrite Ht, op_ticks0.
Qed.
End open_close.

(** ** The search for the page of a time *)

(** Page [id] had started by [time]. *)
Definition started_by `{ILocator} (w : world) (location : Location) (dest_id time id : Z) : bool :=
  let t := page_begin w (page_path location dest_id id) in negb (t =? 0) && (t <=? time).

(** Page [id] can be opened read-only. *)
Definition page_sound `{ILocator} (w : world) (location : Location) (dest_id id : Z) : Prop :=
  let pa := page_path location dest_id id in
  let size := findPageSize location dest_id in
  (∃ pos, header_ok w pa size pos) ∧ size ≤ file_size w pa.

Lemma page_sound_same `{ILocator} w w' location dest_id id :
  same_store w w' → page_sound w location dest_id id → page_sound w' location dest_id id.
Proof.
  intros Hs ((pos&Hh)&Hlen). split.
  - exists pos. by eapply same_store_header.
  - by rewrite (ss_size _ _ Hs).
Qed.

Lemma started_by_same `{ILocator} w w' location dest_id time id :
  same_store w w' → started_by w' location dest_id time id = started_by w location dest_id time id.
Proof.
  intros Hs. unfold started_by, page_begin. by rewrite !(same_store_fle w w') by done.
Qed.

Section search.
Context `{Env} `{!NoErrors} `{!EnvLaws} `{ILocator} `{!LocatorLaws}.
Context (location : Location) (dest_id time : Z) (ids : list Z).

Abbreviation count := (Z.of_nat (length ids)).
Abbreviation id_at i := (nth (Z.to_nat i) ids 0).
Abbreviation started w i := (started_by w location dest_id time (id_at i)).

(** What the loop maintains: the pages are sound, a page before a started
    one is started, and the answer is neither left of [left] nor right of
    [right]. *)
Record search_inv (w : world) (left right : Z) : Prop := {
  si_range : 0 ≤ left ∧ left ≤ right + 1 ∧ right < count;
  si_sound id : id ∈ ids → page_sound w location dest_id id;
  si_mono i j : 0 ≤ i ≤ j → j < count → started w j = true → started w i = true;
  si_low i : 0 ≤ i < left → started w i = true;
  si_high i : right < i < count → started w i = false
}.

Lemma search_inv_same w w' left right :
  same_store w w' → search_inv w left right → search_inv w' left right.
Proof.
  intros Hs []. split; try done; intros.
  - eapply page_sound_same; [done|auto].
  - erewrite started_by_same in * by done. eauto.
  - erewrite started_by_same by done. eauto.
  - erewrite started_by_same by done. eauto.
Qed.

Lemma search_inv_right w left right mid :
  search_inv w left right → left ≤ mid ≤ right → started w mid = true →
  search_inv w (mid + 1) right.
Proof.
  intros [] ? Hmid. split; [lia|done..| |].
  - intros i Hi. apply (si_mono0 i mid); [lia..|done].
  - intros. apply si_high0. lia.
Qed.

Lemma search_inv_left w left right mid :
  search_inv w left right → left ≤ mid ≤ right → started w mid = false →
  search_inv w left (mid - 1).
Proof.
  intros [] ? Hmid. split; [lia|done..|].
  intros i Hi. apply not_true_is_false. intros Hst.
  rewrite (si_mono0 mid i) in Hmid; [done|lia..|done].
Qed.

Lemma search_mid left right :
  left ≤ right → left ≤ left + (right - left) ÷ 2 ≤ right.
Proof.
  intros. pose proof (Z.quot_pos (right - left) 2 ltac:(lia) ltac:(lia)).
  pose proof (Z.quot_le_upper_bound (right - left) 2 (right - left) ltac:(lia) ltac:(lia)). lia.
Qed.

(** The page the loop settles on: the last of the [n] started ones. *)
Definition search_result (w : world) (r : outcome Z) (w' : world) : Prop :=
  ∃ n, r = Ret (id_at (Z.max 0 (n - 1))) ∧ same_store w w' ∧ 0 ≤ n ≤ count ∧
    ∀ i, 0 ≤ i < count → started w i = bool_decide (i < n).

Lemma search_result_same w1 w r w' :
  same_store w1 w → search_result w r w' → search_result w1 r w'.
Proof.
  intros Hs (n&->&Hs'&Hn&Hi). exists n. split_and!; [done|by etrans|lia|lia|].
  intros. rewrite <-Hi by done. by rewrite (started_by_same w1 w).
Qed.

Lemma findPageId_loop_run fuel left right best w :
  search_inv w left right → (Z.to_nat (right - left + 1) < fuel)%nat →
  best = id_at (Z.max 0 (left - 1)) →
  ∃ r w', findPageId_loop fuel location dest_id time ids left right best w = (r, w') ∧
    search_result w r w'.
Proof.
  revert left right best w; induction fuel as [|fuel IH];
    intros left right best w Hinv Hfuel Hbest; [lia|].
  cbn [findPageId_loop]. pose proof Hinv as [Hr _ _ Hlow Hhigh].
  destruct (Z.leb_spec left right) as [Hlr|].
  2:{ eexists _, _; split; [done|]. exists left. rewrite Hbest.
      split_and!; [done..|lia|lia|].
      intros i Hi. case_bool_decide; [apply Hlow; lia|apply Hhigh; lia]. }
  pose proof (search_mid left right Hlr) as Hmid. set (mid := left + _) in *.
  assert (id_at mid ∈ ids) as Hin by (apply list_elem_of_In, nth_In; lia).
  destruct (si_sound _ _ _ Hinv _ Hin) as [[pos Hh] Hlen].
  destruct (peek_run w location dest_id (id_at mid) pos)
    as (w1&w2&w3&page&Hload&Hbegin&Hrel&Hsame); [done..|].
  cbv zeta. erewrite bind_Ret by exact Hload. erewrite bind_Ret by exact Hbegin.
  erewrite bind_Ret by exact Hrel.
  assert (started w mid = negb (page_begin w (page_path location dest_id (id_at mid)) =? 0) &&
    (page_begin w (page_path location dest_id (id_at mid)) <=? time)) as Hst by done.
  assert (∀ left' right' best', search_inv w left' right' → right' - left' < right - left →
    best' = id_at (Z.max 0 (left' - 1)) →
    ∃ r w', findPageId_loop fuel location dest_id time ids left' right' best' w3 = (r, w') ∧
      search_result w r w') as Hrec.
  { intros left' right' best' Hinv' ? Hbest'. pose proof (si_range _ _ _ Hinv').
    destruct (IH left' right' best' w3) as (r&w'&Hrun&Hres); [by eapply search_inv_same|lia|done|].
    exists r, w'. split; [done|by eapply search_result_same]. }
  destruct (Z.eqb_spec (page_begin w (page_path location dest_id (id_at mid))) 0).
  { apply Hrec; [by eapply search_inv_left|lia|done]. }
  destruct (Z.leb_spec (page_begin w (page_path location dest_id (id_at mid))) time).
  - apply Hrec; [by eapply search_inv_right|lia|]. do 2 f_equal. lia.
  - apply Hrec; [by eapply search_inv_left|lia|done].
Qed.

(** Of sorted pages, the loop's answer is the last started one. *)
Lemma search_result_last w r w' :
  StronglySorted Z.le ids → ids ≠ [] → search_result w r w' →
  let started id := started_by w location dest_id time id = true in
  ∃ z, r = Ret z ∧ z ∈ ids ∧ same_store w w' ∧
    (started z ∧ (∀ id, id ∈ ids → started id → id ≤ z) ∨
     (∀ id, id ∈ ids → ¬ started id ∧ z ≤ id)).
Proof.
  intros Hsort Hne (n&->&Hs&Hn&Hspec) st. subst st.
  assert (0 < count) as Hlen by (destruct ids; simpl in *; done || lia).
  eexists; split; [done|]. split; [apply (elem_of_nth _ 0); eexists; split; [|done]; lia|].
  split; [done|]. destruct (decide (n = 0)) as [->|].
  - right. intros id (i&Hi&<-)%(elem_of_nth _ 0). rewrite Hspec by done.
    rewrite bool_decide_false by lia. split; [done|]. apply StronglySorted_nth; [done|lia].
  - left. rewrite Hspec by lia. rewrite bool_decide_true by lia. split; [done|].
    intros id (i&Hi&<-)%(elem_of_nth _ 0). rewrite Hspec by done.
    intros ?%bool_decide_eq_true. apply StronglySorted_nth; [done|lia].
Qed.
End search.

(** The pages of a destination that started by [time] come first. *)
Definition starts_ordered `{ILocator} (w : world) (location : Location) (dest_id time : Z) : Prop :=
  ∀ id1 id2, 0 ≤ id1 ≤ id2 → id2 < 2 ^ 31 →
    is_Some (w_files w !! page_path location dest_id id1) →
    is_Some (w_files w !! page_path location dest_id id2) →
    started_by w location dest_id time id2 = true → started_by w location dest_id time id1 = true.

(** The search, for those who call it. *)
Lemma findPageId_run `{Env} `{!NoErrors} `{!EnvLaws} `{ILocator} `{!LocatorLaws}
    w location dest_id time :
  let page id := 0 ≤ id < 2 ^ 31 ∧ is_Some (w_files w !! page_path location dest_id id) in
  let started id := started_by w location dest_id time id = true in
  in_u 32 dest_id → only_pages w (layoutDir location JOURNAL) →
  (∀ id, page id → page_sound w location dest_id id) →
  starts_ordered w location dest_id time →
  ∃ r w', findPageId location dest_id time w = (Ret r, w') ∧ same_store w w' ∧
    ((∀ id, ¬ page id) ∧ r = 1 ∨
     page r ∧ (time = 0 → ∀ id, page id → r ≤ id) ∧
     (time ≠ 0 → started r ∧ (∀ id, page id → started id → id ≤ r) ∨
                 (∀ id, page id → ¬ started id ∧ r ≤ id))).
Proof.
  intros page started Hdest Honly Hsound Hord. unfold findPageId.
  destruct (listPageId_run w location dest_id) as (ids&Hrun&Hsort&Hnd&Hids); [done..|].
  erewrite bind_Ret by exact Hrun. set (w1 := set_dirs _ w).
  assert (same_store w w1) as Hs1 by apply same_store_dirs.
  assert (∀ id, id ∈ ids ↔ page id) as Hids' by done. clear Hids.
  destruct (decide (ids = [])) as [->|Hne].
  { exists 1, w1. split_and!; [done..|]. left. split; [|done].
    intros id Hid%Hids'. by apply elem_of_nil in Hid. }
  destruct ids as [|front ids'] eqn:Eids; [done|]. rewrite <-Eids in *.
  destruct (Z.eqb_spec time 0) as [->|Ht].
  { exists front, w1. split_and!; [done..|]. right. split_and!; [|intros _|done].
    - apply Hids'. subst. by left.
    - intros id (i&Hi&<-)%Hids'%(elem_of_nth _ 0).
      replace front with (nth 0 ids 0) by by subst. apply StronglySorted_nth; [done|lia]. }
  destruct (findPageId_loop_run location dest_id time ids (S (length ids)) 0
    (Z.of_nat (length ids) - 1) front w1) as (r&w'&Hloop&Hres); [|lia|by subst|].
  { split; [destruct ids; simpl; lia| | |lia|lia].
    - intros id Hid%Hids'. eapply page_sound_same; [done|by apply Hsound].
    - intros i j ??. rewrite !(started_by_same w w1) by done.
      assert (∀ k, 0 ≤ k < Z.of_nat (length ids) → page (nth (Z.to_nat k) ids 0)) as Hpage.
      { intros k Hk. apply Hids', (elem_of_nth _ 0). by exists k. }
      destruct (Hpage i ltac:(lia)) as [??], (Hpage j ltac:(lia)) as [??].
      apply Hord; [|lia|done..]. split; [lia|]. apply StronglySorted_nth; [done|lia]. }
  apply search_result_last in Hres as (z&->&Hz%Hids'&Hs&Hlast); [|done..].
  exists z, w'. split_and!; [done|by etrans|]. right. split_and!; [done..|]. intros _.
  destruct Hlast as [[Hst Hall]|Hnone]; [left|right].
  - split; [unfold started; by erewrite <-started_by_same|].
    intros id Hid%Hids' Hsid. apply Hall; [done|]. by erewrite started_by_same.
  - intros id Hid%Hids'. destruct (Hnone id Hid) as [Hn ?]. split; [|done].
    unfold started. by erewrite <-(started_by_same w w1).
Qed.

(** C32: [Page::findPageId]: when every page file of the destination is sound
    and the pages are ordered in time, the search ends and returns the last
    page that had started by [time], the first page if none had, and 1 if
    there is no page; it leaves every byte, file and mapping as it found them. *)
Theorem findPageId_spec `{Env} `{!NoErrors} `{!EnvLaws} `{ILocator} `{!LocatorLaws}
    w location dest_id time :
  let page id := 0 ≤ id < 2 ^ 31 ∧ is_Some (w_files w !! page_path location dest_id id) in
  let started id := started_by w location dest_id time id = true in
  in_u 32 dest_id → only_pages w (layoutDir location JOURNAL) →
  (∀ id, page id → page_sound w location dest_id id) →
  starts_ordered w location dest_id time →
  ∃ r w', findPageId location dest_id time w = (Ret r, w') ∧ same_store w w' ∧
    ((∀ id, ¬ page id) ∧ r = 1 ∨
     page r ∧ (time = 0 → ∀ id, page id → r ≤ id) ∧
     (time ≠ 0 → started r ∧ (∀ id, page id → started id → id ≤ r) ∨
                 (∀ id, page id → ¬ started id ∧ r ≤ id))).
Proof. apply findPageId_run. Qed.

(** ** A directory with two pages *)

Definition demo_bytes (fields : list (Z * Z * Z)) : gmap Z Z :=
  foldr (λ '(off, n, v) m, put_bytes m off (le_bytes n v)) ∅ fields.

(** A page file whose header is in order, holding one frame of time [t]. *)
Definition demo_page (size t : Z) : file :=
  File size (demo_bytes [(0, 4, 2); (4, 4, 64); (8, 4, size); (12, 4, 32); (16, 8, 64);
                         (64, 4, 40); (68, 2, 7); (72, 8, 0); (80, 8, t); (96, 8, 12345)]).

Definition demo_location : Location := Location_ctor LIVE STRATEGY (lit "g") (lit "n").
#[local] Existing Instance std_fmt.
Definition demo_locator : ILocator := Locator (lit "/tmp").
#[local] Existing Instance demo_locator.
#[local] Existing Instance env_ok.
Definition demo_path (id : Z) : path := page_path demo_location 0 id.

Definition demo_world : world :=
  World ∅ (<[demo_path 1 := demo_page (2 ^ 21) 100]> (<[demo_path 2 := demo_page (2 ^ 21) 200]> ∅))
    ∅ 0 0 [].

Lemma demo_files pa :
  is_Some (w_files demo_world !! pa) → pa = demo_path 1 ∨ pa = demo_path 2.
Proof.
  simpl. intros [f Hf]. apply lookup_insert_Some in Hf as [[<- _]|[_ Hf]]; [auto|].
  apply lookup_insert_Some in Hf as [[<- _]|[_ Hf]]; [auto|]. by rewrite lookup_empty in Hf.
Qed.

Lemma demo_pages id :
  0 ≤ id < 2 ^ 31 → is_Some (w_files demo_world !! demo_path id) → id = 1 ∨ id = 2.
Proof.
  intros Hid Hf. apply demo_files in Hf.
  assert (∀ k, 0 ≤ k < 2 ^ 31 → demo_path id = demo_path k → id = k) as Hinj.
  { intros k Hk Heq. apply (f_equal snd) in Heq. simpl in Heq. apply page_name_eq in Heq as [_ ?]; [done|unfold in_u; lia..|done|done]. }
  destruct Hf as [Hf|Hf]; apply Hinj in Hf; auto; lia.
Qed.

Lemma findPageId_spec_witness :
  ∃ r w', findPageId demo_location 0 150 demo_world = (Ret r, w') ∧
    r = 1 ∧ same_store demo_world w'.
Proof.
  destruct (findPageId_spec demo_world demo_location 0 150)
    as (r&w'&Hrun&Hs&Hr).
  - unfold in_u; lia.
  - intros n [Hn|Hn]%demo_files; [exists 0, 1|exists 0, 2]; apply (f_equal snd) in Hn;
      (split; [unfold in_u; lia|]; split; [lia|exact Hn]).
  - intros id [Hid Hf]. apply demo_pages in Hf as [-> | ->]; [| |done];
      (split; [exists 64; split; vm_compute; done|vm_compute; done]).
  - intros id1 id2 Hle Hlt Hf1 Hf2. apply demo_pages in Hf1; [|lia]. apply demo_pages in Hf2; [|lia].
    destruct Hf1 as [-> | ->], Hf2 as [-> | ->]; first [lia | by vm_compute].
  - assert (0 ≤ 1 < 2 ^ 31 ∧ is_Some (w_files demo_world !! demo_path 1)) as Hp1.
    { split; [lia|]. by vm_compute; eexists. }
    exists r, w'. split; [done|]. split; [|done].
    destruct Hr as [[Hno _]|[[Hid Hf] [_ Hr]]]; [by destruct (Hno 1)|].
    apply demo_pages in Hf as [-> | ->]; [done| |done].
    destruct (Hr ltac:(done)) as [[Hst _]|Hno]; [by vm_compute in Hst|].
    destruct (Hno 1 Hp1) as [Hn1 _]. destruct Hn1. vm_compute. reflexivity.
Defined.

Lemma Page_load_spec_witness :
  let pa := demo_path 1 in
  (false || false = true ∨ findPageSize demo_location 0 ≤ file_size demo_world pa) ∧
  ∃ page w', Page_load demo_location 0 1 false false demo_world = (Ret page, w').
Proof.
  intros pa. assert (false || false = true ∨ findPageSize demo_location 0 ≤ file_size demo_world pa) as H.
  { right. by vm_compute. }
  split; [exact H|].
  destruct (Page_load_spec demo_world demo_location 0 1 false false H)
    as (b&w'&Hrun&_). eexists _, w'. rewrite Hrun. vm_compute. reflexivity.
Defined.
