(* ===== verification/Warmer.v ===== *)
(** * Warmer: pages mapped ahead of the writer

    [src/include/revoq/PageWarmer.h].  A ring of slots shared by the warmer
    thread, which maps and initialises the next page files, and the writer,
    which claims them.  One atomic operation of the C++ is one access to the
    ring; [warm_pass] is one turn of the thread's loop. *)

From S2P Require Import Prelude Memory Frame Base Mmap Page.

(** [RingSize] of [PageWarmer<>], also [kWriterPageWarmerRingSize]. *)
Definition RingSize : Z := 16.

Record PageSlot := MkSlot {
  sl_page_id : Z;             (* -1 empty, -2 being warmed, >= 0 ready *)
  sl_address : option ptr;
  sl_size : Z;
  sl_sequence : Z;
  sl_owned : bool
}.

Record warmer := MkWarmer {
  wm_location : Location;
  wm_dest_id : Z;
  wm_page_size : Z;
  wm_is_writer : bool;
  wm_distance : Z;
  wm_running : bool;
  wm_write_index : Z;
  wm_read_index : Z;
  wm_current_page : Z;
  wm_local_seq : Z;
  wm_ring : list PageSlot
}.

Definition empty_slot : PageSlot := MkSlot (-1) None 0 0 false.

Definition set_ring (ring : list PageSlot) (m : warmer) : warmer :=
  MkWarmer (wm_location m) (wm_dest_id m) (wm_page_size m) (wm_is_writer m) (wm_distance m)
    (wm_running m) (wm_write_index m) (wm_read_index m) (wm_current_page m) (wm_local_seq m) ring.
Definition set_write_index (i : Z) (m : warmer) : warmer :=
  MkWarmer (wm_location m) (wm_dest_id m) (wm_page_size m) (wm_is_writer m) (wm_distance m)
    (wm_running m) i (wm_read_index m) (wm_current_page m) (wm_local_seq m) (wm_ring m).
Definition set_read_index (i : Z) (m : warmer) : warmer :=
  MkWarmer (wm_location m) (wm_dest_id m) (wm_page_size m) (wm_is_writer m) (wm_distance m)
    (wm_running m) (wm_write_index m) i (wm_current_page m) (wm_local_seq m) (wm_ring m).
Definition set_local_seq (i : Z) (m : warmer) : warmer :=
  MkWarmer (wm_location m) (wm_dest_id m) (wm_page_size m) (wm_is_writer m) (wm_distance m)
    (wm_running m) (wm_write_index m) (wm_read_index m) (wm_current_page m) i (wm_ring m).
Definition set_running (b : bool) (m : warmer) : warmer :=
  MkWarmer (wm_location m) (wm_dest_id m) (wm_page_size m) (wm_is_writer m) (wm_distance m)
    b (wm_write_index m) (wm_read_index m) (wm_current_page m) (wm_local_seq m) (wm_ring m).

(** [updateCurrentPage] *)
Definition updateCurrentPage (page_id : Z) (m : warmer) : warmer :=
  MkWarmer (wm_location m) (wm_dest_id m) (wm_page_size m) (wm_is_writer m) (wm_distance m)
    (wm_running m) (wm_write_index m) (wm_read_index m) page_id (wm_local_seq m) (wm_ring m).

Definition PageWarmer_ctor (location : Location) (dest_id page_size : Z) (is_writer : bool)
    (warmup_distance : Z) : warmer :=
  MkWarmer location dest_id page_size is_writer (Z.min warmup_distance (RingSize / 2)) false
    0 0 (-1) 1 (replicate (Z.to_nat RingSize) empty_slot).

Definition start (m : warmer) : warmer := set_running true m.
Definition stop (m : warmer) : warmer := set_running false m.

Definition slot_at (m : warmer) (idx : Z) : PageSlot :=
  default empty_slot (wm_ring m !! Z.to_nat idx).
Definition put_slot (idx : Z) (s : PageSlot) (m : warmer) : warmer :=
  set_ring (<[Z.to_nat idx := s]> (wm_ring m)) m.

(** [(start + i) & (RingSize - 1)] *)
Definition ring_index (i : Z) : Z := Z.land (u64 i) (RingSize - 1).

(** The writer's scan, [i] slots after [read_index_]; [n] slots are left. *)
Fixpoint getWarmedPage_from (n : nat) (i start_read page_id : Z) (m : warmer)
    : option (ptr * Z) * warmer :=
  match n with
  | O => (None, m)
  | S n =>
      let idx := ring_index (start_read + i) in
      let slot := slot_at m idx in
      if sl_page_id slot =? page_id then
        let m := put_slot idx (MkSlot (-1) (sl_address slot) (sl_size slot) (sl_sequence slot) false) m in
        let m := set_read_index (Z.land (idx + 1) (RingSize - 1)) m in
        ((λ a, (a, sl_size slot)) <$> sl_address slot, m)
      else getWarmedPage_from n (i + 1) start_read page_id m
  end.

(** [getWarmedPage]: the address and size of the page, if it is ready. *)
Definition getWarmedPage (page_id : Z) (m : warmer) : option (ptr * Z) * warmer :=
  getWarmedPage_from (Z.to_nat RingSize) 0 (wm_read_index m) page_id m.

Definition isPageInRing (page_id : Z) (m : warmer) : bool :=
  existsb (λ s, sl_page_id s =? page_id) (wm_ring m).

Section Warmer.
Context `{Env} `{ILocator}.

(** [releaseAllPages]: what the destructor unmaps. *)
Fixpoint release_slots (ring : list PageSlot) : M world (list PageSlot) :=
  match ring with
  | [] => ret []
  | s :: ring =>
      let! s' :=
        match sl_owned s, sl_address s with
        | true, Some a =>
            let! _ok := releaseMmapBuffer (Some a) false NONE in
            ret (MkSlot (sl_page_id s) None (sl_size s) (sl_sequence s) false)
        | _, _ => ret s
        end in
      let! ring' := release_slots ring in
      ret (s' :: ring')
  end.
Definition releaseAllPages (m : warmer) : M world warmer :=
  let! ring := release_slots (wm_ring m) in ret (set_ring ring m).

(** The header of a page file the warmer created. *)
Definition warm_header (a : ptr) (page_size : Z) : M world unit :=
  do! store 4 (ptr_add a off_version) JOURNAL_PAGE_VERSION in
  do! store 4 (ptr_add a off_page_header_length) sizeof_PageHeader in
  do! store 4 (ptr_add a off_page_size) (u32 page_size) in
  do! store 4 (ptr_add a off_frame_header_length) sizeof_FrameHeader in
  do! store 8 (ptr_add a off_last_frame_position) sizeof_PageHeader in
  memset0 (ptr_add a sizeof_PageHeader) (page_size - sizeof_PageHeader).

(** [warmPageIntoSlot], one access to shared state after the other.  First
    the thread looks whether the page's file exists ... *)
Definition warm_look (m : warmer) (page_id : Z) : M world (path * bool) :=
  let! page_file := getPagePath (wm_location m) (wm_dest_id m) (s32 page_id) in
  let! file_existed := gets (λ w, bool_decide (is_Some (w_files w !! page_file))) in
  ret (page_file, file_existed).

(** ... then it maps the file and, if the file did not exist, writes a header
    and zeroes the rest. *)
Definition warm_map (m : warmer) (look : path * bool) : M world ptr :=
  let! a := loadMmapBuffer look.1 (wm_page_size m) (wm_is_writer m) true in
  do! when (wm_is_writer m && negb look.2) (warm_header a (wm_page_size m)) in
  ret a.

(** The slot it publishes at the end. *)
Definition warmPageIntoSlot (m : warmer) (page_id seq : Z) : M world PageSlot :=
  let! look := warm_look m page_id in
  let! a := warm_map m look in
  ret (MkSlot page_id (Some a) (wm_page_size m) seq true).

(** A slot the thread has claimed for a page. *)
Record warming := Warming { wg_slot : Z; wg_page : Z; wg_seq : Z }.

(** The page [current_page + i] is not in the ring, and the slot at the write
    index is empty: the thread claims it. *)
Definition warm_claim (current_page i : Z) : M (world * warmer) (option warming) :=
  let next_page_id := current_page + i in
  let! m := gets snd in
  if isPageInRing next_page_id m then ret None
  else
    let slot_idx := ring_index (wm_write_index m) in
    let slot := slot_at m slot_idx in
    if negb (sl_page_id slot =? -1) then ret None
    else
      let busy := MkSlot (-2) (sl_address slot) (sl_size slot) (sl_sequence slot) (sl_owned slot) in
      let seq := wm_local_seq m in
      do! modify (λ s, (s.1, set_local_seq (u64 (seq + 1)) (put_slot slot_idx busy s.2))) in
      ret (Some (Warming slot_idx next_page_id seq)).

(** The page is ready: the slot's stores, and the write index moves on. *)
Definition warm_publish (g : warming) (warmed : PageSlot) : M (world * warmer) unit :=
  modify (λ s, (s.1, set_write_index (u64 (wm_write_index s.2 + 1)) (put_slot (wg_slot g) warmed s.2))).

(** It could not be mapped: the slot is empty again. *)
Definition warm_fail (g : warming) : M (world * warmer) unit :=
  modify (λ s, let slot := slot_at s.2 (wg_slot g) in
    (s.1, put_slot (wg_slot g)
       (MkSlot (-1) (sl_address slot) (sl_size slot) (sl_sequence slot) (sl_owned slot)) s.2)).

(** One iteration of the inner loop: warm page [current_page + i]. *)
Definition warm_next (current_page i : Z) : M (world * warmer) unit :=
  let! g := warm_claim current_page i in
  match g with
  | None => ret tt
  | Some g =>
      let! m := gets snd in
      try_catch
        (let! warmed := lift_fst (warmPageIntoSlot m (wg_page g) (wg_seq g)) in warm_publish g warmed)
        (λ _, warm_fail g)
  end.

Fixpoint warm_ahead (n : nat) (current_page i : Z) : M (world * warmer) unit :=
  match n with
  | O => ret tt
  | S n => do! warm_next current_page i in warm_ahead n current_page (i + 1)
  end.

(** [cleanupOldPages]: slots the writer has left far behind. *)
Definition cleanup_slot (threshold : Z) (s : PageSlot) : M world PageSlot :=
  if (0 <=? sl_page_id s) && (sl_page_id s <? threshold) then
    match sl_owned s, sl_address s with
    | true, Some a =>
        let! _ok := releaseMmapBuffer (Some a) false NONE in
        ret (MkSlot (-1) None (sl_size s) (sl_sequence s) false)
    | _, _ => ret (MkSlot (-1) (sl_address s) (sl_size s) (sl_sequence s) (sl_owned s))
    end
  else ret s.
Fixpoint cleanup_slots (threshold : Z) (ring : list PageSlot) : M world (list PageSlot) :=
  match ring with
  | [] => ret []
  | s :: ring =>
      let! s' := cleanup_slot threshold s in
      let! ring' := cleanup_slots threshold ring in
      ret (s' :: ring')
  end.
Definition cleanupOldPages (current_page : Z) : M (world * warmer) unit :=
  let! m := gets snd in
  let! ring := lift_fst (cleanup_slots (current_page - RingSize) (wm_ring m)) in
  modify (λ s, (s.1, set_ring ring s.2)).

(** One turn of [warmupLoop]'s loop, from the load of [current_page_]. *)
Definition warm_pass : M (world * warmer) unit :=
  let! m := gets snd in
  let current_page := wm_current_page m in
  if negb (wm_running m) || (current_page <? 0) then ret tt
  else
    do! warm_ahead (Z.to_nat (wm_distance m)) current_page 1 in
    cleanupOldPages current_page.

(** [~PageWarmer()] *)
Definition PageWarmer_release (m : warmer) : M world warmer := releaseAllPages (stop m).
End Warmer.
