(* ===== verification/Writer.v ===== *)
(** * Writer: the journal's write side

    [src/include/revoq/JournalWriter.h].  The writer's members are the record
    [writer]; an operation runs in [M (world * writer)], so the members keep
    the values they had when an exception is thrown.  The policy's [serialize]
    is the field [serialize]: with it the write lock is taken, and a lock
    nobody will release is the fault [Spin].  The retire thread is
    [retire_step], which may run between any two operations. *)

From S2P Require Import Prelude Memory Frame Base Mmap Page Warmer.

Definition DEFAULT_JOURNAL_WRITER_RETAINED_PAGES : Z := 10.
Definition kWriterPageWarmerRingSize : Z := RingSize.

Record JournalWriterOptions := MkWriterOptions {
  opt_prefault : bool;
  opt_warmup_pages : Z;
  opt_background_threads : bool;
  opt_retained_page_limit : Z
}.
Definition default_options : JournalWriterOptions :=
  MkWriterOptions true 0 true DEFAULT_JOURNAL_WRITER_RETAINED_PAGES.

(** The members no operation changes. *)
Record writer_config := MkConfig {
  serialize : bool;                 (* WriterPolicy::serialize *)
  location_ : Location;
  dest_id_ : Z;
  prefault_ : bool;
  background_threads_ : bool;
  max_retained_pages_ : Z;
  page_size_ : Z
}.

Record writer := MkWriter {
  wr_cfg : writer_config;
  writing_ : bool;
  current_sequence_ : Z;
  current_page_id_ : Z;
  current_page_ : option Page;
  open_frame_header_ : option ptr;
  current_frame_address_ : ptr;
  page_warmer_ : option warmer;
  retired_pages_ : list Page;
  retire_queue_ : list Page;
  retire_running_ : bool
}.

(** ** Member updates *)

Definition set_writing (b : bool) (r : writer) : writer :=
  MkWriter (wr_cfg r) b (current_sequence_ r) (current_page_id_ r) (current_page_ r)
    (open_frame_header_ r) (current_frame_address_ r) (page_warmer_ r) (retired_pages_ r)
    (retire_queue_ r) (retire_running_ r).
Definition set_sequence (n : Z) (r : writer) : writer :=
  MkWriter (wr_cfg r) (writing_ r) n (current_page_id_ r) (current_page_ r)
    (open_frame_header_ r) (current_frame_address_ r) (page_warmer_ r) (retired_pages_ r)
    (retire_queue_ r) (retire_running_ r).
Definition set_page_id (n : Z) (r : writer) : writer :=
  MkWriter (wr_cfg r) (writing_ r) (current_sequence_ r) n (current_page_ r)
    (open_frame_header_ r) (current_frame_address_ r) (page_warmer_ r) (retired_pages_ r)
    (retire_queue_ r) (retire_running_ r).
Definition set_page (p : option Page) (r : writer) : writer :=
  MkWriter (wr_cfg r) (writing_ r) (current_sequence_ r) (current_page_id_ r) p
    (open_frame_header_ r) (current_frame_address_ r) (page_warmer_ r) (retired_pages_ r)
    (retire_queue_ r) (retire_running_ r).
Definition set_open_frame (h : option ptr) (r : writer) : writer :=
  MkWriter (wr_cfg r) (writing_ r) (current_sequence_ r) (current_page_id_ r) (current_page_ r)
    h (current_frame_address_ r) (page_warmer_ r) (retired_pages_ r)
    (retire_queue_ r) (retire_running_ r).
Definition set_frame_address (a : ptr) (r : writer) : writer :=
  MkWriter (wr_cfg r) (writing_ r) (current_sequence_ r) (current_page_id_ r) (current_page_ r)
    (open_frame_header_ r) a (page_warmer_ r) (retired_pages_ r)
    (retire_queue_ r) (retire_running_ r).
Definition set_warmer (m : option warmer) (r : writer) : writer :=
  MkWriter (wr_cfg r) (writing_ r) (current_sequence_ r) (current_page_id_ r) (current_page_ r)
    (open_frame_header_ r) (current_frame_address_ r) m (retired_pages_ r)
    (retire_queue_ r) (retire_running_ r).
Definition set_retired (ps : list Page) (r : writer) : writer :=
  MkWriter (wr_cfg r) (writing_ r) (current_sequence_ r) (current_page_id_ r) (current_page_ r)
    (open_frame_header_ r) (current_frame_address_ r) (page_warmer_ r) ps
    (retire_queue_ r) (retire_running_ r).
Definition set_queue (ps : list Page) (r : writer) : writer :=
  MkWriter (wr_cfg r) (writing_ r) (current_sequence_ r) (current_page_id_ r) (current_page_ r)
    (open_frame_header_ r) (current_frame_address_ r) (page_warmer_ r) (retired_pages_ r)
    ps (retire_running_ r).
Definition set_retire_running (b : bool) (r : writer) : writer :=
  MkWriter (wr_cfg r) (writing_ r) (current_sequence_ r) (current_page_id_ r) (current_page_ r)
    (open_frame_header_ r) (current_frame_address_ r) (page_warmer_ r) (retired_pages_ r)
    (retire_queue_ r) b.

(** The monad of the writer's operations. *)
Abbreviation W := (M (world * writer)).
Definition this : W writer := gets snd.
Definition update (f : writer → writer) : W unit := modify (λ s, (s.1, f s.2)).
Definition io {A} (m : M world A) : W A := lift_fst m.

(** A use of [current_page_->]: there is a page by then. *)
Definition the_page : W Page := λ s,
  match current_page_ s.2 with
  | Some p => (Ret p, s)
  | None => (Fault Sigsegv, s)
  end.

(** ** The write lock *)

(** [while (flag.exchange(true)) pause;] -- with the lock held by nobody who
    will release it, this spins for ever. *)
Definition acquire_lock : W unit := λ s,
  if writing_ s.2 then (Fault Spin, s) else (Ret tt, (s.1, set_writing true s.2)).
Definition release_lock : W unit := update (set_writing false).

(** [WriteLockGuard<serialize> lock(writing_); m] *)
Definition with_lock {A} (m : W A) : W A :=
  let! r := this in
  if serialize (wr_cfg r) then
    do! acquire_lock in
    let! a := try_catch m (λ e, do! release_lock in throw e) in
    do! release_lock in
    ret a
  else m.

Section Writer.
Context `{Env} `{ILocator}.

(** Both branches of [nextSeq], run by the one thread that holds the lock. *)
Definition nextSeq : W Z :=
  let! r := this in
  let s := current_sequence_ r in
  do! update (set_sequence (u64 (s + 1))) in
  ret s.

(** ** Resuming an existing journal *)

(** [for (page_id = highest_page; page_id > 0; --page_id)] *)
Fixpoint findLastWrittenPage_loop (fuel : nat) (c : writer_config) (page_id : Z) : M world Z :=
  match fuel with
  | O => crash OutOfFuel
  | S fuel =>
      if 0 <? page_id then
        let! found := try_catch
          (let! page := Page_load (location_ c) (dest_id_ c) page_id false (prefault_ c) in
           let! last_frame_pos := load 8 (ptr_add (pg_header page) off_last_frame_position) in
           do! Page_release page in
           ret (sizeof_PageHeader <? last_frame_pos))
          (λ _, ret false) in
        if found then ret page_id else findLastWrittenPage_loop fuel c (page_id - 1)
      else ret 0
  end.

Definition findLastWrittenPage (c : writer_config) : M world Z :=
  let! page_ids := listPageId (location_ c) (dest_id_ c) in
  match last page_ids with
  | None => ret 0
  | Some highest_page => findLastWrittenPage_loop (S (Z.to_nat highest_page)) c highest_page
  end.

(** The scan of a page's frames: [last] is the last sequence, if any. *)
Fixpoint findLastSequence_loop (fuel : nat) (page_size : Z) (a end_addr : ptr) (last : option Z)
    : M world (option Z) :=
  match fuel with
  | O => crash OutOfFuel
  | S fuel =>
      if addr a + sizeof_FrameHeader <=? addr end_addr then
        let! len := load 4 (ptr_add a off_length) in
        if (len =? 0) || (len <? sizeof_FrameHeader) || (page_size <? len) then ret last
        else
          let stride := framePhysicalLength len in
          if addr end_addr <? addr a + stride then ret last
          else
            let! seq := load 8 (ptr_add a off_sequence) in
            do! (match last with
                 | Some last_seq => if last_seq <? seq then ret tt else crash AssertionFailed
                 | None => ret tt
                 end) in
            let! msg_type := load 2 (ptr_add a off_msg_type) in
            if msg_type =? MsgType.PageEnd then ret (Some seq)
            else findLastSequence_loop fuel page_size (ptr_add a stride) end_addr (Some seq)
      else ret last
  end.

(** Every turn advances by at least 64 bytes. *)
Definition scan_fuel (page_size : Z) : nat := S (Z.to_nat (page_size / 32)).

Definition findLastSequenceNumber (c : writer_config) (page_id : Z) : M world Z :=
  if page_id <? 0 then ret 0
  else
    try_catch
      (let! page := Page_load (location_ c) (dest_id_ c) page_id false (prefault_ c) in
       let! a := firstFrameAddress page in
       let end_addr := ptr_add (page_address page) (page_size_ c) in
       let! last := findLastSequence_loop (scan_fuel (page_size_ c)) (page_size_ c) a end_addr None in
       do! Page_release page in
       ret (default 0 last))
      (λ _, ret 0).

(** ** Construction *)

Definition loadInitialPage : W unit :=
  let! r := this in
  let c := wr_cfg r in
  let new_page_id := s32 (current_page_id_ r + 1) in
  do! update (set_page_id new_page_id) in
  let! page := io (Page_load (location_ c) (dest_id_ c) new_page_id true (prefault_ c)) in
  do! update (set_page (Some page)) in
  let! a := io (firstFrameAddress page) in
  update (set_frame_address a).

Definition ctor_body (options : JournalWriterOptions) : W unit :=
  let! r := this in
  let c := wr_cfg r in
  let! last_page_id := io (findLastWrittenPage c) in
  do! when (0 <? last_page_id)
    (do! update (set_page_id last_page_id) in
     let! last_seq := io (findLastSequenceNumber c last_page_id) in
     update (set_sequence (u64 (last_seq + 1)))) in
  do! loadInitialPage in
  do! when (0 <? opt_warmup_pages options)
    (do! throw_if (kWriterPageWarmerRingSize <? opt_warmup_pages options) InvalidArgument in
     let! r := this in
     update (set_warmer (Some (updateCurrentPage (current_page_id_ r)
       (start (PageWarmer_ctor (location_ c) (dest_id_ c) (page_size_ c) true
                 (opt_warmup_pages options))))))) in
  when (background_threads_ c) (update (set_retire_running true)).

Definition initial_writer (ser : bool) (location : Location) (dest_id : Z)
    (options : JournalWriterOptions) : writer :=
  MkWriter
    (MkConfig ser location dest_id (opt_prefault options) (opt_background_threads options)
       (opt_retained_page_limit options) (findPageSize location dest_id))
    false 0 0 None None (Ptr 0 0) None [] [] false.

(** [shared_ptr::reset()] of the last reference. *)
Definition release_opt (p : option Page) : M world unit :=
  match p with Some p => Page_release p | None => ret tt end.

(** The constructor; when its body throws, the members built so far are
    destroyed and there is no writer. *)
Definition JournalWriter_ctor (ser : bool) (location : Location) (dest_id : Z)
    (options : JournalWriterOptions) : M world writer := λ w,
  match ctor_body options (w, initial_writer ser location dest_id options) with
  | (Ret tt, (w, r)) => (Ret r, w)
  | (Throw e, (w, r)) => bind (release_opt (current_page_ r)) (λ _, throw e) w
  | (Fault f, (w, _)) => (Fault f, w)
  end.

(** ** Writing *)

(** [while (retired_pages_.size() > max_retained_pages_)]: the oldest page
    goes to the retire thread, or is destroyed here. *)
Fixpoint retire_overflow (n : nat) : W unit :=
  match n with
  | O => ret tt
  | S n =>
      let! r := this in
      if max_retained_pages_ (wr_cfg r) <? Z.of_nat (length (retired_pages_ r)) then
        match retired_pages_ r with
        | [] => ret tt
        | old_page :: rest =>
            do! update (set_retired rest) in
            do! (if background_threads_ (wr_cfg r)
                 then update (λ r, set_queue (retire_queue_ r ++ [old_page]) r)
                 else io (Page_release old_page)) in
            retire_overflow n
        end
      else ret tt
  end.

(** The next page, from the warmer if it has it. *)
Definition next_page (new_page_id : Z) : W Page :=
  let! r := this in
  let c := wr_cfg r in
  let fresh := io (Page_load (location_ c) (dest_id_ c) new_page_id true (prefault_ c)) in
  match page_warmer_ r with
  | None => fresh
  | Some m =>
      let '(warmed, m) := getWarmedPage new_page_id m in
      do! update (set_warmer (Some m)) in
      let! page :=
        match warmed with
        | Some (a, _) =>
            io (loadFromAddress (location_ c) (dest_id_ c) new_page_id (Some a) (prefault_ c))
        | None => fresh
        end in
      do! update (λ r, set_warmer (updateCurrentPage new_page_id <$> page_warmer_ r) r) in
      ret page
  end.

(** The sentinel frame that ends a page. *)
Definition write_PageEnd (page : Page) : W unit :=
  let! r := this in
  let h := current_frame_address_ r in
  do! io (memset0 h sizeof_FrameHeader) in
  let! now := io read_clock in
  do! io (setGenTime h now) in
  do! io (setEventTime h 0) in
  do! io (setMsgType h MsgType.PageEnd) in
  do! io (setFlags h FRAME_NORMAL) in
  let! seq := nextSeq in
  do! io (setSequence h seq) in
  do! io (store 4 (ptr_add h off_length) sizeof_FrameHeader) in
  io (setLastFramePosition page (addr h - addr (page_address page))).

(** The block [if (current_page_)] of [rotatePage]: the page gets its
    sentinel and is retired. *)
Definition finish_page (page : Page) : W unit :=
  let! r := this in
  let border := ptr_add (page_address page) (page_size_ (wr_cfg r) - FRAME_ALIGNMENT) in
  do! (if addr (current_frame_address_ r) <=? addr border
       then ret tt else crash AssertionFailed) in
  do! try_catch (write_PageEnd page) (λ _, ret tt) in
  do! update (λ r, set_page None (set_retired (retired_pages_ r ++ [page]) r)) in
  let! r := this in
  retire_overflow (length (retired_pages_ r)).

Definition rotatePage : W unit :=
  let! r := this in
  let new_page_id := s32 (current_page_id_ r + 1) in
  do! update (set_page_id new_page_id) in
  let! next := next_page new_page_id in
  do! (match current_page_ r with
       | None => ret tt
       | Some page => finish_page page
       end) in
  do! update (set_page (Some next)) in
  let! a := io (firstFrameAddress next) in
  update (set_frame_address a).

(** [new (raw) FrameHeader{}] and the stores to its fields. *)
Definition new_frame (timestamp msg_type flags : Z) : W ptr :=
  let! r := this in
  let h := current_frame_address_ r in
  do! io (memset0 h sizeof_FrameHeader) in
  do! io (setGenTime h timestamp) in
  do! io (setEventTime h 0) in
  do! io (setMsgType h msg_type) in
  do! io (setFlags h flags) in
  let! seq := nextSeq in
  do! io (setSequence h seq) in
  do! io (store 4 (ptr_add h off_length) 0) in
  ret h.

Definition openFrame (timestamp msg_type payload_size flags : Z) : W ptr :=
  let total_size := u64 (sizeof_FrameHeader + payload_size) in
  let stride := framePhysicalLength (u32 total_size) in
  let! page := the_page in
  let! r := this in
  let border := ptr_add (page_address page) (page_size_ (wr_cfg r) - FRAME_ALIGNMENT) in
  do! when (addr border <? addr (current_frame_address_ r) + stride) rotatePage in
  new_frame timestamp msg_type flags.

(** [before_publish] is the hook that runs just before the release-store. *)
Definition closeFrame (h : ptr) (payload_size : Z) (before_publish : ptr → M world unit) : W unit :=
  let total_size := u64 (sizeof_FrameHeader + payload_size) in
  do! io (before_publish h) in
  do! io (store 4 (ptr_add h off_length) (u32 total_size)) in
  let! page := the_page in
  do! io (setLastFramePosition page (addr h - addr (page_address page))) in
  update (set_frame_address (ptr_add h (framePhysicalLength (u32 total_size)))).

Definition no_hook (h : ptr) : M world unit := ret tt.

Definition ensure_page : W unit :=
  let! r := this in
  match current_page_ r with None => rotatePage | Some _ => ret tt end.

Definition writeBytes (timestamp msg_type : Z) (data : list Z) : W unit :=
  with_lock
    (do! ensure_page in
     let size := Z.of_nat (length data) in
     let! hdr := openFrame timestamp msg_type size FRAME_NORMAL in
     do! when (0 <? size) (io (store_bytes (ptr_add hdr sizeof_FrameHeader) data)) in
     closeFrame hdr size no_hook).

Definition mark (timestamp msg_type : Z) : W unit :=
  with_lock
    (do! ensure_page in
     let! hdr := openFrame timestamp msg_type 0 FRAME_NORMAL in
     closeFrame hdr 0 no_hook).

(** [openData<T>]: [size] is [sizeof(T)]; the result is the payload's
    address.  The lock stays taken until [closeData]. *)
Definition openData (size timestamp msg_type flags : Z) : W ptr :=
  let! r := this in
  do! when (serialize (wr_cfg r)) acquire_lock in
  do! ensure_page in
  let! hdr := openFrame timestamp msg_type size flags in
  do! update (set_open_frame (Some hdr)) in
  ret (ptr_add hdr sizeof_FrameHeader).

Definition closeData (size : Z) (before_publish : ptr → M world unit) : W unit :=
  let! r := this in
  let unlock := when (serialize (wr_cfg r)) release_lock in
  match open_frame_header_ r with
  | None => do! unlock in throw RuntimeError
  | Some hdr =>
      do! try_catch
        (do! closeFrame hdr size before_publish in update (set_open_frame None))
        (λ e, do! unlock in throw e) in
      unlock
  end.

Definition getCurrentSequence : W Z := let! r := this in ret (current_sequence_ r).
Definition getCurrentPageId : W Z := let! r := this in ret (current_page_id_ r).

(** ** The retire thread and the destructor *)

Fixpoint release_all (pages : list Page) : M world unit :=
  match pages with
  | [] => ret tt
  | page :: pages => do! Page_release page in release_all pages
  end.

(** One page of the queue destroyed, off the writer's thread. *)
Definition retire_step : W unit :=
  let! r := this in
  match retire_queue_ r with
  | [] => ret tt
  | page :: rest =>
      do! update (set_queue rest) in
      io (Page_release page)
  end.

(** [~JournalWriter()], with the join on the retire thread. *)
Definition JournalWriter_release : W unit :=
  let! r := this in
  do! (match page_warmer_ r with
       | None => ret tt
       | Some m => let! _m := io (PageWarmer_release m) in update (set_warmer None)
       end) in
  do! io (release_opt (current_page_ r)) in
  do! update (set_page None) in
  do! when (background_threads_ (wr_cfg r))
    (do! update (λ r, set_retire_running false
                   (set_retired [] (set_queue (retire_queue_ r ++ retired_pages_ r) r))) in
     let! r := this in
     do! update (set_queue []) in
     io (release_all (retire_queue_ r))) in
  let! r := this in
  do! io (release_all (retired_pages_ r)) in
  update (set_retired []).
End Writer.

(** [calculateCRC16]: the Modbus checksum, bit by bit. *)
Fixpoint crc16_bits (n : nat) (crc : Z) : Z :=
  match n with
  | O => crc
  | S n =>
      crc16_bits n (if Z.land crc 1 =? 0 then Z.shiftr crc 1
                    else Z.lxor (Z.shiftr crc 1) 0xA001)
  end.
Definition calculateCRC16 (data : list Z) : Z :=
  foldl (λ crc b, crc16_bits 8 (Z.lxor crc b)) 0xFFFF data.

Lemma calculateCRC16_check :
  calculateCRC16 [49; 50; 51; 52; 53; 54; 55; 56; 57] = 0x4B37.
Proof. reflexivity. Qed.
