(* ===== verification/WriterState.v ===== *)
(** * WriterState: what a writer and its files stand for

    The abstract journal of a writer is a list of closed pages, each a list of
    frames that ends in [PageEnd], and the frames of the current page.
    [page_state] says that a page file holds given frames and is blank behind
    them, [disk] that the files of a destination hold a journal, [rep] that a
    writer stands at its end.  The lemmas say how the stores of the writer
    move between these states. *)

From S2P Require Import Prelude Memory Frame Base Mmap Page Warmer Writer.

(** ** Executing writer code *)

Lemma io_run {A} (m : M world A) w r x w' : m w = (x, w') → io m (w, r) = (x, (w', r)).
Proof. intros Hm. unfold io. by eapply lift_fst_run. Qed.

Lemma update_run f w r : update f (w, r) = (Ret tt, (w, f r)).
Proof. done. Qed.

Lemma this_run w r : this (w, r) = (Ret r, (w, r)).
Proof. done. Qed.

(** [wstep] executes the operation at the head of a writer computation. *)
Ltac wstep :=
  first
    [ rewrite bind_ret_l
    | rewrite bind_assoc
    | rewrite (bind_Ret _ _ _ _ _ (this_run _ _))
    | rewrite (bind_Ret _ _ _ _ _ (update_run _ _ _))
    | erewrite bind_Ret by
        (apply io_run;
         first [ eapply load_run | eapply store_run | eapply memset0_run
               | eapply load_bytes_run | eapply store_bytes_run ];
         [ mapped_tac | cbn [p_off ptr_add]; lia.. ]) ];
  cbn [p_off p_base ptr_add]; rewrite ?Z.add_0_l, ?Z.add_0_r.

(** ** The bytes of a frame being written *)

(** What [openFrame] leaves at [o]: everything but a length. *)
Definition open_world (w : world) (pa : path) (o ts ty flags seq : Z) : world :=
  fwrite (fwrite (fwrite (fwrite (fwrite (fwrite (fzero w pa o 32)
    pa (o + 16) (le_bytes 8 ts)) pa (o + 24) (le_bytes 8 0))
    pa (o + 4) (le_bytes 2 (u16 ty))) pa (o + 6) (le_bytes 2 flags))
    pa (o + 8) (le_bytes 8 seq)) pa o (le_bytes 4 0).

(** What [closeFrame] does to it. *)
Definition commit_world (w : world) (pa : path) (o total : Z) : world :=
  fwrite (fwrite w pa o (le_bytes 4 total)) pa 16 (le_bytes 8 o).

Lemma open_world_touches w pa o ts ty flags seq : touches pa w (open_world w pa o ts ty flags seq).
Proof. unfold open_world. touches_tac. Qed.

Lemma open_world_agree w pa o ts ty flags seq off n :
  off + n ≤ o ∨ o + 32 ≤ off → agree w (open_world w pa o ts ty flags seq) pa off n.
Proof.
  intros Hap. unfold open_world.
  repeat (eapply agree_trans; [|apply agree_fwrite; rewrite length_le_bytes by lia;
    unfold apart; lia]).
  apply agree_fzero. unfold apart. lia.
Qed.

Lemma commit_world_touches w pa o total : touches pa w (commit_world w pa o total).
Proof. unfold commit_world. touches_tac. Qed.

Lemma commit_world_agree w pa o total off n :
  24 ≤ o → off + n ≤ 16 ∨ 24 ≤ off ∧ (off + n ≤ o ∨ o + 4 ≤ off) →
  agree w (commit_world w pa o total) pa off n.
Proof.
  intros ? Hap. unfold commit_world.
  repeat (eapply agree_trans; [|apply agree_fwrite; rewrite length_le_bytes by lia;
    unfold apart; lia]). apply agree_refl.
Qed.

(** ** A page that holds frames [fs] *)

(** Where the last frame of [fs] is; an empty page points at its first slot. *)
Definition last_pos (fs : list frame) : Z := sizeof_PageHeader + frames_span (removelast fs).

Definition page_end (fs : list frame) : Z := sizeof_PageHeader + frames_span fs.

Record page_state (w : world) (pa : path) (size : Z) (fs : list frame) : Prop := {
  ps_header : header_ok w pa size (last_pos fs);
  ps_laid : laid w pa sizeof_PageHeader fs (page_end fs);
  ps_blank i : page_end fs ≤ i < size → fbyte w pa i = 0;
  ps_fits : page_end fs ≤ size
}.

Lemma frames_span_nonneg fs : Forall frame_wf fs → 0 ≤ frames_span fs.
Proof. induction 1 as [|f fs Hf _ IH]; simpl; [done|]. apply frame_wf_stride in Hf. lia. Qed.

Lemma laid_wf w pa o fs e : laid w pa o fs e → Forall frame_wf fs.
Proof.
  revert o; induction fs as [|f fs IH]; intros o; simpl; [constructor|].
  intros (?&?&?). constructor; eauto.
Qed.

Lemma last_pos_snoc fs f : last_pos (fs ++ [f]) = page_end fs.
Proof. unfold last_pos, page_end. by rewrite removelast_last. Qed.

Lemma page_end_snoc fs f : page_end (fs ++ [f]) = page_end fs + frame_stride f.
Proof. unfold page_end. rewrite frames_span_app. simpl. lia. Qed.

Lemma page_end_ge w pa size fs : page_state w pa size fs → 64 ≤ page_end fs.
Proof.
  intros [_ Hl _ _]. apply laid_wf, frames_span_nonneg in Hl.
  unfold page_end, sizeof_PageHeader. lia.
Qed.

Lemma page_state_agree w w' pa size fs :
  64 ≤ size → agree w w' pa 0 size → page_state w pa size fs → page_state w' pa size fs.
Proof.
  intros Hsz Hag Hps. pose proof (page_end_ge _ _ _ _ Hps). destruct Hps as [Hh Hl Hb Hf]. split.
  - eapply header_ok_agree; [|done]. eapply agree_sub; [done|lia..].
  - eapply laid_agree; [|done]. unfold sizeof_PageHeader. eapply agree_sub; [done|lia..].
  - intros i Hi. rewrite Hag by lia. by apply Hb.
  - done.
Qed.

Lemma page_state_empty w pa size :
  64 < size → header_ok w pa size sizeof_PageHeader →
  (∀ i, 64 ≤ i < size → fbyte w pa i = 0) → page_state w pa size [].
Proof. intros ? Hh Hb. split; unfold page_end; simpl; unfold_offsets; done || lia. Qed.

(** Writing a frame behind the last one: what the new world must show. *)
Lemma page_state_snoc w w' pa size fs f pos :
  let o := page_end fs in
  header_ok w pa size pos → laid w pa sizeof_PageHeader fs o → sizeof_PageHeader ≤ o →
  frame_wf f → o + frame_stride f ≤ size →
  agree w w' pa 0 16 → agree w w' pa 24 (o - 24) →
  (∀ i, o + frame_length f ≤ i < size → fbyte w' pa i = 0) →
  fle w' pa 16 8 = o → frame_at w' pa o f →
  page_state w' pa size (fs ++ [f]).
Proof.
  intros o Hh Hl Hge Hwf Hfit Hhead Hfs Htail Hpos Hat. unfold sizeof_PageHeader in Hge.
  pose proof (frame_wf_stride f Hwf) as (Hlen&Hstr&_). split.
  - rewrite last_pos_snoc. fold o. destruct Hh as [? ? ? ? ?].
    split; unfold_offsets; [rewrite (fle_agree w) by (eapply agree_sub; [exact Hhead|lia..]); done..|done|lia].
  - rewrite page_end_snoc. fold o. apply laid_snoc; [|done..].
    eapply laid_agree; [|done]. unfold sizeof_PageHeader. eapply agree_sub; [exact Hfs|lia..].
  - rewrite page_end_snoc. fold o. intros i Hi. apply Htail. lia.
  - by rewrite page_end_snoc.
Qed.

(** ** The sentinel *)

Definition PageEnd_frame (now seq : Z) : frame := Frame MsgType.PageEnd FRAME_NORMAL seq now 0 [].

(** What [write_PageEnd] leaves at [o]. *)
Definition sentinel_world (w : world) (pa : path) (o now seq : Z) : world :=
  fwrite (fwrite (fwrite (fwrite (fwrite (fwrite (fwrite (count_tick (fzero w pa o 32))
    pa (o + 16) (le_bytes 8 now)) pa (o + 24) (le_bytes 8 0))
    pa (o + 4) (le_bytes 2 (u16 MsgType.PageEnd))) pa (o + 6) (le_bytes 2 FRAME_NORMAL))
    pa (o + 8) (le_bytes 8 seq)) pa o (le_bytes 4 32)) pa 16 (le_bytes 8 o).

Lemma PageEnd_frame_wf now seq : in_s 64 now → in_u 64 seq → frame_wf (PageEnd_frame now seq).
Proof.
  intros. split; [by vm_compute|]. by split_and!.
Qed.

Lemma PageEnd_frame_stride now seq : frame_stride (PageEnd_frame now seq) = 64.
Proof. done. Qed.

Lemma touches_tick pa w : touches pa w (count_tick w).
Proof. by split. Qed.

Lemma agree_tick w pa off n : agree w (count_tick w) pa off n.
Proof. by intros ??. Qed.

Lemma sentinel_world_touches w pa o now seq : touches pa w (sentinel_world w pa o now seq).
Proof.
  unfold sentinel_world.
  do 7 (etrans; [|apply touches_fwrite]). etrans; [|apply touches_tick]. apply touches_fzero.
Qed.

Lemma sentinel_world_agree w pa o now seq off n :
  64 ≤ o → off + n ≤ 16 ∨ 24 ≤ off ∧ (off + n ≤ o ∨ o + 32 ≤ off) →
  agree w (sentinel_world w pa o now seq) pa off n.
Proof.
  intros Ho Hap. unfold sentinel_world.
  do 7 (eapply agree_trans; [|apply agree_fwrite; rewrite length_le_bytes by lia;
    unfold apart; lia]).
  eapply agree_trans; [|apply agree_tick]. apply agree_fzero. unfold apart. lia.
Qed.

Lemma page_state_sentinel w pa size fs now seq :
  page_state w pa size fs → is_Some (w_files w !! pa) → size ≤ 2 ^ 32 →
  in_s 64 now → in_u 64 seq → page_end fs + 64 ≤ size →
  page_state (sentinel_world w pa (page_end fs) now seq) pa size (fs ++ [PageEnd_frame now seq]).
Proof.
  intros Hps Hfile Hsz Hnow Hseq Hfit. pose proof (page_end_ge _ _ _ _ Hps) as Hge.
  change 64 with (frame_stride (PageEnd_frame now seq)) in Hfit.
  eapply page_state_snoc; [apply Hps|apply Hps|done|by apply PageEnd_frame_wf|done| | | | |];
    [apply sentinel_world_agree; [done|lia]..| | |].
  - intros i Hi. change (frame_length (PageEnd_frame now seq)) with 32 in Hi.
    rewrite (sentinel_world_agree w pa (page_end fs) now seq i 1) by lia.
    apply (ps_blank _ _ _ _ Hps). lia.
  - unfold sentinel_world. rewrite fle_fwrite_eq; [|file_tac|lia].
    apply wrap_small. unfold in_u. rewrite PageEnd_frame_stride in Hfit. lia.
  - unfold frame_at, sentinel_world. unfold_offsets. rewrite !Z.add_0_r.
    change (frame_length (PageEnd_frame now seq)) with 32. cbn [fr_type fr_flags fr_seq fr_gen fr_event fr_payload PageEnd_frame].
    set (w0 := count_tick (fzero w pa (page_end fs) 32)).
    assert (is_Some (w_files w0 !! pa)) by (unfold w0; simpl; file_tac).
    split_and!; mem_simpl; try done.
    + by apply wrap_small.
    + by apply swrap_wrap.
Qed.

(** ** The abstract journal *)

Record ajournal := AJ {
  aj_first : Z;                       (* the first page's number *)
  aj_closed : list (list frame);      (* the pages before the current one *)
  aj_cur : list frame;
  aj_seq : Z                          (* the next sequence number *)
}.

Definition aj_page (j : ajournal) : Z := aj_first j + Z.of_nat (length (aj_closed j)).

(** All frames, oldest first. *)
Definition aj_frames (j : ajournal) : list frame := concat (aj_closed j) ++ aj_cur j.

Definition is_PageEnd (f : frame) : bool := fr_type f =? MsgType.PageEnd.
(** The frames an application wrote. *)
Definition aj_data (j : ajournal) : list frame :=
  filter (λ f, is_PageEnd f = false) (aj_frames j).

Definition a_append (ts ty flags : Z) (payload : list Z) (j : ajournal) : ajournal :=
  AJ (aj_first j) (aj_closed j) (aj_cur j ++ [Frame ty flags (aj_seq j) ts 0 payload])
     (u64 (aj_seq j + 1)).

Definition a_rotate (now : Z) (j : ajournal) : ajournal :=
  AJ (aj_first j) (aj_closed j ++ [aj_cur j ++ [PageEnd_frame now (aj_seq j)]]) []
     (u64 (aj_seq j + 1)).

(** The room the code keeps: a frame must end before the last 64 bytes. *)
Definition a_fits (size stride : Z) (j : ajournal) : bool :=
  page_end (aj_cur j) + stride <=? size - FRAME_ALIGNMENT.

Definition a_write (size now ts ty flags : Z) (payload : list Z) (j : ajournal) : ajournal :=
  let stride := framePhysicalLength (sizeof_FrameHeader + Z.of_nat (length payload)) in
  a_append ts ty flags payload (if a_fits size stride j then j else a_rotate now j).

(** ** Pages the writer holds *)

Definition base_of (p : Page) : Z := p_base (pg_header p).
Definition page_live (w : world) (p : Page) : Prop :=
  pg_header p = Ptr (base_of p) 0 ∧ pg_owned p = true ∧ is_Some (w_maps w !! base_of p).

(** The pages a writer must still release: all mapped, at different places. *)
Definition held (r : writer) : list Page :=
  option_list (current_page_ r) ++ retired_pages_ r ++ retire_queue_ r.

(** The pages its warmer has mapped and not handed out. *)
Definition warm_page (m : warmer) (s : PageSlot) : list Page :=
  match sl_owned s, sl_address s with
  | true, Some a => [MkPage (wm_location m) (wm_dest_id m) (sl_page_id s) true (sl_size s) a true]
  | _, _ => []
  end.
Definition warm_pages (m : warmer) : list Page := wm_ring m ≫= warm_page m.
Definition warmed (r : writer) : list Page := from_option warm_pages [] (page_warmer_ r).

(** Where all of them are. *)
Definition page_bases (r : writer) : list Z := base_of <$> held r ++ warmed r.

(** Memory of others is left alone: what is mapped and no page of the
    writer's stays mapped, and none of its pages comes to lie there. *)
Definition spares_others (w w' : world) (r r' : writer) : Prop :=
  ∀ b mp, w_maps w !! b = Some mp → b ∉ page_bases r → w_maps w' !! b = Some mp ∧ b ∉ page_bases r'.

Lemma spares_others_trans w1 w2 w3 r1 r2 r3 :
  spares_others w1 w2 r1 r2 → spares_others w2 w3 r2 r3 → spares_others w1 w3 r1 r3.
Proof. intros H1 H2 b mp Hm Hb. destruct (H1 _ _ Hm Hb). by apply H2. Qed.

Lemma spares_others_touches pa w w' r r' :
  touches pa w w' → page_bases r' ⊆ page_bases r → spares_others w w' r r'.
Proof. intros Ht Hs b mp Hm Hb. split; [by apply (tc_maps _ _ _ Ht)|]. intros Hin. by apply Hb, Hs. Qed.

Definition pages_live (w : world) (ps : list Page) : Prop :=
  NoDup (base_of <$> ps) ∧ Forall (page_live w) ps.

(** Only mappings were removed, none of them a base of [ps]. *)
Record unmapped (w w' : world) (ps : list Page) : Prop := {
  un_files : w_files w' = w_files w;
  un_dirs : w_dirs w' = w_dirs w;
  un_ticks : w_ticks w' = w_ticks w;
  un_maps p : p ∈ ps → w_maps w' !! base_of p = w_maps w !! base_of p
}.

Lemma unmapped_refl w ps : unmapped w w ps.
Proof. by split. Qed.

Lemma unmapped_trans w1 w2 w3 ps :
  unmapped w1 w2 ps → unmapped w2 w3 ps → unmapped w1 w3 ps.
Proof. intros [] []. split; intros; try congruence. by rewrite un_maps1, un_maps0. Qed.

Lemma unmapped_sub w w' ps ps' : unmapped w w' ps → ps' ⊆ ps → unmapped w w' ps'.
Proof. intros [] Hs. split; auto. Qed.

Lemma unmapped_live w w' ps : unmapped w w' ps → pages_live w ps → pages_live w' ps.
Proof.
  intros Hun [Hnd Hall]. split; [done|]. apply Forall_forall. intros p Hp.
  eapply (proj1 (Forall_forall _ _)) in Hall as (?&?&?); [|done].
  split_and!; [done..|]. by rewrite (un_maps _ _ _ Hun).
Qed.

Lemma unmapped_page_state w w' ps pa size fs :
  64 ≤ size → unmapped w w' ps → page_state w pa size fs → page_state w' pa size fs.
Proof.
  intros ? Hun. apply page_state_agree; [done|]. intros i _.
  apply fbyte_files, (un_files _ _ _ Hun).
Qed.

Lemma pages_live_cons w p ps :
  pages_live w (p :: ps) ↔ page_live w p ∧ (base_of p ∉ base_of <$> ps) ∧ pages_live w ps.
Proof.
  unfold pages_live. rewrite fmap_cons, NoDup_cons, Forall_cons. tauto.
Qed.

Lemma pages_live_perm w ps ps' : ps ≡ₚ ps' → pages_live w ps → pages_live w ps'.
Proof. intros Hp [??]. split; [by rewrite <-Hp|by rewrite <-Hp]. Qed.

Lemma pages_live_app w ps qs : pages_live w (ps ++ qs) → pages_live w ps ∧ pages_live w qs.
Proof.
  intros [Hnd Hall]. rewrite fmap_app in Hnd. apply NoDup_app in Hnd as (?&_&?).
  by apply Forall_app in Hall as [??].
Qed.

Lemma pages_live_disjoint w ps qs p : pages_live w (ps ++ qs) → p ∈ ps → base_of p ∉ base_of <$> qs.
Proof.
  intros [Hnd _] Hp Hq. rewrite fmap_app in Hnd. apply NoDup_app in Hnd as (_&Hd&_).
  by apply (Hd (base_of p)); [apply list_elem_of_fmap_2|].
Qed.

Lemma pages_live_join w ps qs :
  pages_live w ps → pages_live w qs → (∀ p, p ∈ ps → base_of p ∉ base_of <$> qs) →
  pages_live w (ps ++ qs).
Proof.
  intros [Hnd Hall] [Hnd' Hall'] Hd. split; [|by apply Forall_app].
  rewrite fmap_app. apply NoDup_app. split_and!; [done| |done].
  intros b (p&->&Hp)%list_elem_of_fmap. by apply Hd.
Qed.

(** Pages that are live in [w] are live in [w'] if their mappings stayed. *)
Lemma pages_live_carry w w' ps :
  (∀ p, p ∈ ps → w_maps w' !! base_of p = w_maps w !! base_of p) → pages_live w ps → pages_live w' ps.
Proof.
  intros Hm [Hnd Hall]. split; [done|]. apply Forall_forall. intros p Hp.
  eapply (proj1 (Forall_forall _ _)) in Hall as (?&?&?); [|exact Hp].
  split_and!; [done..|]. by rewrite Hm.
Qed.

(** Which pages are live does not depend on their order. *)
#[export] Instance pages_live_proper w : Proper (Permutation ==> iff) (pages_live w).
Proof. intros ps ps' Hp. split; by apply pages_live_perm. Qed.

Lemma pages_live_touches pa w w' ps : touches pa w w' → pages_live w ps → pages_live w' ps.
Proof.
  intros Ht [? Hall]. split; [done|]. eapply Forall_impl; [done|].
  intros p (?&?&[m Hm]). split_and!; [done..|]. exists m. by eapply tc_maps.
Qed.

Section retire.
Context `{Env} `{!NoErrors} `{!EnvLaws} `{ILocator} `{!LocatorLaws}.

Lemma Page_release_unmapped w p ps :
  pages_live w (p :: ps) →
  ∃ w', Page_release p w = (Ret tt, w') ∧ unmapped w w' ps ∧
    (∀ b, b ≠ base_of p → w_maps w' !! b = w_maps w !! b).
Proof.
  intros ((Hp&Ho&_)&Hnin&_)%pages_live_cons.
  destruct (Page_release_run w p (base_of p)) as (w'&Hrun&Hf&Hd&Ht&Hm); [done..|].
  exists w'. split; [done|]. split; [|intros b Hb; by rewrite Hm, lookup_delete_ne].
  split; [done..|]. intros q Hq. rewrite Hm.
  rewrite lookup_delete_ne; [done|]. intros Heq. apply Hnin. rewrite Heq.
  by apply list_elem_of_fmap_2.
Qed.

(** What [retire_overflow] does to the writer: pages move out of
    [retired_pages_], nothing else changes. *)
Record retired_some (r r' : writer) : Prop := {
  rt_cfg : wr_cfg r' = wr_cfg r;
  rt_writing : writing_ r' = writing_ r;
  rt_seq : current_sequence_ r' = current_sequence_ r;
  rt_id : current_page_id_ r' = current_page_id_ r;
  rt_page : current_page_ r' = current_page_ r;
  rt_open : open_frame_header_ r' = open_frame_header_ r;
  rt_addr : current_frame_address_ r' = current_frame_address_ r;
  rt_warmer : page_warmer_ r' = page_warmer_ r;
  rt_held : retired_pages_ r' ++ retire_queue_ r' ⊆ retired_pages_ r ++ retire_queue_ r
}.

Lemma retired_some_refl r : retired_some r r.
Proof. by split. Qed.

Lemma retired_some_trans r1 r2 r3 : retired_some r1 r2 → retired_some r2 r3 → retired_some r1 r3.
Proof. intros [] []. split; try congruence. by etrans. Qed.

Lemma retire_overflow_run n w r extra :
  (length (retired_pages_ r) ≤ n)%nat →
  pages_live w (retired_pages_ r ++ retire_queue_ r ++ extra) →
  ∃ w' r', retire_overflow n (w, r) = (Ret tt, (w', r')) ∧ retired_some r r' ∧
    unmapped w w' extra ∧
    (∀ b, b ∉ base_of <$> retired_pages_ r → w_maps w' !! b = w_maps w !! b) ∧
    pages_live w' (retired_pages_ r' ++ retire_queue_ r' ++ extra).
Proof.
  revert w r; induction n as [|n IH]; intros w r Hn Hlive; cbn [retire_overflow].
  { exists w, r. by split_and!. }
  wstep. destruct (Z.ltb_spec (max_retained_pages_ (wr_cfg r)) (Z.of_nat (length (retired_pages_ r)))).
  2:{ exists w, r. by split_and!. }
  destruct (retired_pages_ r) as [|old rest] eqn:Hr.
  { exists w, r. split_and!; try done. by rewrite Hr. }
  wstep. simpl in Hn. set (r1 := set_retired rest r).
  destruct (background_threads_ (wr_cfg r)) eqn:Hbg.
  - rewrite (bind_Ret _ _ _ _ _ (update_run _ _ _)).
    destruct (IH w (set_queue (retire_queue_ r1 ++ [old]) r1)) as (w'&r'&Hrun&Hsome&Hun&Ho&Hlive').
    + simpl. lia.
    + simpl. eapply pages_live_perm; [|exact Hlive]. simpl.
      rewrite <-app_assoc. simpl. by rewrite !(app_assoc rest), <-Permutation_middle.
    + exists w', r'. split_and!; [done| |done| |done].
      * eapply retired_some_trans; [|done]. split; try done. simpl. rewrite Hr. set_solver.
      * intros b [_ Hb]%not_elem_of_cons. by apply Ho.
  - destruct (Page_release_unmapped w old (rest ++ retire_queue_ r ++ extra)) as (w1&Hrel&Hun1&Ho1); [done|].
    erewrite bind_Ret by by apply io_run.
    destruct (IH w1 r1) as (w'&r'&Hrun&Hsome&Hun&Ho&Hlive').
    + simpl. lia.
    + simpl. eapply unmapped_live; [done|]. by apply pages_live_cons in Hlive as (_&_&?).
    + exists w', r'. split_and!; [done| | | |done].
      * eapply retired_some_trans; [|done]. split; try done. simpl. rewrite Hr. set_solver.
      * eapply unmapped_trans; [|done]. eapply unmapped_sub; [done|set_solver].
      * intros b [Hb1 Hb]%not_elem_of_cons. by rewrite Ho, Ho1.
Qed.
End retire.

(** ** How files and members represent a journal *)

Section represent.
Context `{Env} `{!NoErrors} `{!EnvLaws} `{ILocator} `{!LocatorLaws}.

Definition page_file (c : writer_config) (id : Z) : path := page_path (location_ c) (dest_id_ c) id.
Definition cur_file (c : writer_config) (j : ajournal) : path := page_file c (aj_page j).

(** A page nobody has written frames to: its file is missing, or has the
    header of an empty page, as the warmer leaves it. *)
Definition page_ahead (w : world) (pa : path) (size : Z) : Prop :=
  w_files w !! pa = None ∨ (page_state w pa size [] ∧ size ≤ file_size w pa).

Lemma page_ahead_same w w' pa size :
  64 ≤ size → (∀ i, fbyte w' pa i = fbyte w pa i) → (is_Some (w_files w' !! pa) → is_Some (w_files w !! pa)) →
  file_size w pa ≤ file_size w' pa → page_ahead w pa size → page_ahead w' pa size.
Proof.
  intros Hsz Hb Hf Hs [Hz|[Hps Hl]]; [left|right].
  - rewrite eq_None_not_Some in Hz |- *. tauto.
  - split; [|lia]. eapply page_state_agree; [done| |done]. intros i _. apply Hb.
Qed.

Lemma page_ahead_touches w w' pa pa' size :
  64 ≤ size → touches pa' w w' → pa ≠ pa' → page_ahead w pa size → page_ahead w' pa size.
Proof.
  intros Hsz Ht Hne. apply page_ahead_same; [done|..].
  - intros i. by apply (tc_bytes _ _ _ Ht).
  - by rewrite (tc_file _ _ _ Ht).
  - apply (tc_size _ _ _ Ht).
Qed.

(** The pages other than the current one: those before it hold their
    frames, those after it were never written. *)
Record pages_around (w : world) (c : writer_config) (j : ajournal) : Prop := {
  pa_range : 0 ≤ aj_first j ∧ aj_page j < 2 ^ 31;
  pa_closed k fs : aj_closed j !! k = Some fs →
    page_state w (page_file c (aj_first j + Z.of_nat k)) (page_size_ c) fs;
  pa_sized k : (k < length (aj_closed j))%nat →
    page_size_ c ≤ file_size w (page_file c (aj_first j + Z.of_nat k));
  pa_ahead id : aj_page j < id < 2 ^ 31 → page_ahead w (page_file c id) (page_size_ c);
  pa_seq : in_u 64 (aj_seq j);
  pa_names : only_pages w (layoutDir (location_ c) JOURNAL);
  pa_low id : 0 ≤ id < aj_first j → w_files w !! page_file c id = None
}.

(** The files represent [j]. *)
Record disk (w : world) (c : writer_config) (j : ajournal) : Prop := {
  dk_around : pages_around w c j;
  dk_cur : page_state w (cur_file c j) (page_size_ c) (aj_cur j);
  dk_border : page_end (aj_cur j) ≤ page_size_ c - FRAME_ALIGNMENT
}.

(** The files while a frame with [n] payload bytes is being written: its
    header is there but for the length, its payload is the writer's. *)
Record disk_open (w : world) (c : writer_config) (j : ajournal) (ts ty flags n : Z) : Prop := {
  do_around : pages_around w c j;
  do_header : header_ok w (cur_file c j) (page_size_ c) (last_pos (aj_cur j));
  do_laid : laid w (cur_file c j) sizeof_PageHeader (aj_cur j) (page_end (aj_cur j));
  do_start : sizeof_PageHeader ≤ page_end (aj_cur j);
  do_length : fle w (cur_file c j) (page_end (aj_cur j) + off_length) 4 = 0;
  do_type : fle w (cur_file c j) (page_end (aj_cur j) + off_msg_type) 2 = ty;
  do_flags : fle w (cur_file c j) (page_end (aj_cur j) + off_flags) 2 = flags;
  do_sequence : fle w (cur_file c j) (page_end (aj_cur j) + off_sequence) 8 = aj_seq j;
  do_gen : s64 (fle w (cur_file c j) (page_end (aj_cur j) + off_gen_time) 8) = ts;
  do_event : fle w (cur_file c j) (page_end (aj_cur j) + off_event_time) 8 = 0;
  do_tail i : page_end (aj_cur j) + sizeof_FrameHeader + n ≤ i < page_size_ c →
    fbyte w (cur_file c j) i = 0;
  do_fits : page_end (aj_cur j) + framePhysicalLength (sizeof_FrameHeader + n) ≤
    page_size_ c - FRAME_ALIGNMENT;
  do_size : 0 ≤ n ≤ 2 ^ 32 - 96
}.

(** What the warmer's slots hold while the writer is on page [p]: a ready
    slot has its page mapped, and if the page is ahead, its file initialised. *)
Record slot_ready (w : world) (c : writer_config) (p : Z) (s : PageSlot) : Prop := {
  sr_owned : sl_owned s = true;
  sr_range : 0 ≤ sl_page_id s < 2 ^ 31;
  sr_mapped : ∃ b, sl_address s = Some (Ptr b 0) ∧
    mapped w b (page_file c (sl_page_id s)) (page_size_ c) true;
  sr_fresh : p < sl_page_id s → header_ok w (page_file c (sl_page_id s)) (page_size_ c) sizeof_PageHeader
}.
Definition slot_ok (w : world) (c : writer_config) (p : Z) (s : PageSlot) : Prop :=
  (sl_owned s = false ∧ sl_page_id s < 0) ∨ slot_ready w c p s.

Record warm_ok (w : world) (c : writer_config) (p : Z) (m : warmer) : Prop := {
  wo_location : wm_location m = location_ c;
  wo_dest : wm_dest_id m = dest_id_ c;
  wo_size : wm_page_size m = page_size_ c;
  wo_writer : wm_is_writer m = true;
  wo_length : length (wm_ring m) = Z.to_nat RingSize;
  wo_slots : Forall (slot_ok w c p) (wm_ring m)
}.

(** The writer's members agree with [j]: it has the current page mapped and
    stands behind its last frame. *)
Record members (w : world) (r : writer) (j : ajournal) : Prop := {
  mb_cfg : page_size_ (wr_cfg r) = findPageSize (location_ (wr_cfg r)) (dest_id_ (wr_cfg r));
  mb_dest : in_u 32 (dest_id_ (wr_cfg r));
  mb_range : 0 ≤ aj_page j < 2 ^ 31;
  mb_warmer m : page_warmer_ r = Some m → warm_ok w (wr_cfg r) (aj_page j) m;
  mb_id : current_page_id_ r = aj_page j;
  mb_live : pages_live w (held r ++ warmed r);
  mb_page : ∃ page, current_page_ r = Some page ∧
    mapped w (base_of page) (cur_file (wr_cfg r) j) (page_size_ (wr_cfg r)) true ∧
    current_frame_address_ r = Ptr (base_of page) (page_end (aj_cur j))
}.

(** A writer and the files represent [j]. *)
Record rep (w : world) (r : writer) (j : ajournal) : Prop := {
  rep_members : members w r j;
  rep_disk : disk w (wr_cfg r) j;
  rep_seq : current_sequence_ r = aj_seq j
}.

Record rep_open (w : world) (r : writer) (j : ajournal) (ts ty flags n : Z) : Prop := {
  ro_members : members w r j;
  ro_disk : disk_open w (wr_cfg r) j ts ty flags n;
  ro_seq : current_sequence_ r = u64 (aj_seq j + 1)
}.

Lemma page_file_inj c id1 id2 :
  in_u 32 (dest_id_ c) → 0 ≤ id1 < 2 ^ 31 → 0 ≤ id2 < 2 ^ 31 →
  page_file c id1 = page_file c id2 → id1 = id2.
Proof.
  unfold page_file, page_path. intros Hd Hr1 Hr2 Heq. apply (f_equal snd) in Heq. simpl in Heq.
  by apply page_name_eq in Heq as [_ ?].
Qed.

(** A store to a page file leaves the directory in order. *)
Lemma only_pages_touches w w' c id :
  in_u 32 (dest_id_ c) → 0 ≤ id < 2 ^ 31 → touches (page_file c id) w w' →
  only_pages w (layoutDir (location_ c) JOURNAL) → only_pages w' (layoutDir (location_ c) JOURNAL).
Proof.
  intros Hd Hid Ht Hn n Hf.
  destruct (decide ((layoutDir (location_ c) JOURNAL, n) = page_file c id)) as [Heq|Hne].
  - apply (f_equal snd) in Heq. simpl in Heq. by exists (dest_id_ c), id.
  - apply Hn. by apply (tc_file _ _ _ Ht).
Qed.

Lemma absent_touches w w' c id id' :
  in_u 32 (dest_id_ c) → 0 ≤ id < 2 ^ 31 → 0 ≤ id' < 2 ^ 31 → id' ≠ id →
  touches (page_file c id) w w' → w_files w !! page_file c id' = None →
  w_files w' !! page_file c id' = None.
Proof.
  intros Hd Hid Hid' Hne Ht. rewrite !eq_None_not_Some. rewrite (tc_file _ _ _ Ht); [done|].
  intros Heq%page_file_inj; done.
Qed.

Lemma pages_around_touches w w' c j :
  in_u 32 (dest_id_ c) → 64 ≤ page_size_ c →
  touches (cur_file c j) w w' → pages_around w c j → pages_around w' c j.
Proof.
  intros Hd Hsz Ht [Hr Hc Hl Ha Hs Hn Hlow].
  assert (0 ≤ aj_page j < 2 ^ 31) as Hcur by (unfold aj_page in *; lia). split; try done.
  - intros k fs Hk. pose proof (lookup_lt_Some _ _ _ Hk). unfold aj_page in Hr.
    eapply page_state_agree; [done| |by apply Hc]. eapply touches_agree; [done|].
    intros Heq%page_file_inj; [|done|unfold aj_page; lia..]. unfold aj_page in Heq. lia.
  - intros k Hk. etrans; [by apply Hl|apply (tc_size _ _ _ Ht)].
  - intros id Hid. eapply page_ahead_touches; [done..| |by apply Ha].
    unfold aj_page in *. intros Heq%page_file_inj; [|done|unfold aj_page; lia..]. unfold aj_page in Heq. lia.
  - by eapply only_pages_touches.
  - intros id Hid. eapply absent_touches; try done; [unfold aj_page in *; lia..|]. by apply Hlow.
Qed.

Lemma pages_around_append w c j ts ty flags payload :
  pages_around w c j → pages_around w c (a_append ts ty flags payload j).
Proof. intros [Hr Hc Hl Ha Hs Hn Hlow]. split; try done. by apply wrap_range. Qed.

(** The slots in another world: bytes of headers ahead and the slots' own
    mappings are what matters. *)
Lemma slot_ok_carry w w' c p p' s :
  64 ≤ page_size_ c → p ≤ p' →
  (∀ id, p' < id < 2 ^ 31 → header_ok w (page_file c id) (page_size_ c) sizeof_PageHeader →
    header_ok w' (page_file c id) (page_size_ c) sizeof_PageHeader) →
  (∀ pa, file_size w pa ≤ file_size w' pa) →
  (∀ b mp, sl_owned s = true → sl_address s = Some (Ptr b 0) → w_maps w !! b = Some mp → w_maps w' !! b = Some mp) →
  slot_ok w c p s → slot_ok w' c p' s.
Proof.
  intros Hsz Hp Hag Hgrow Hm [?|[Ho Hr (b&Ha&Hmap&Hlen&?) Hf]]; [by left|right]. split; [done|done| |].
  - exists b. split; [done|]. split; [by eapply Hm|]. split; [by etrans|done].
  - intros Hlt. apply Hag; [lia|]. apply Hf. lia.
Qed.

Lemma warm_ok_carry w w' c p p' m :
  64 ≤ page_size_ c → p ≤ p' →
  (∀ id, p' < id < 2 ^ 31 → header_ok w (page_file c id) (page_size_ c) sizeof_PageHeader →
    header_ok w' (page_file c id) (page_size_ c) sizeof_PageHeader) →
  (∀ pa, file_size w pa ≤ file_size w' pa) →
  (∀ q mp, q ∈ warm_pages m → w_maps w !! base_of q = Some mp → w_maps w' !! base_of q = Some mp) →
  warm_ok w c p m → warm_ok w' c p' m.
Proof.
  intros Hsz Hp Hag Hgrow Hm []. split; try done. apply Forall_forall. intros s Hs.
  eapply slot_ok_carry; [done..| |by eapply (proj1 (Forall_forall _ _) wo_slots0)].
  intros b mp Ho Ha. eapply (Hm (MkPage _ _ _ _ _ (Ptr b 0) _)).
  apply list_elem_of_bind. exists s. split; [|done]. unfold warm_page. rewrite Ho, Ha. by left.
Qed.

(** Opening a page that is ahead: it is mapped, empty, and nothing else changes. *)
Lemma Page_load_ahead w location dest_id page_id prefault :
  let pa := page_path location dest_id page_id in
  let size := findPageSize location dest_id in
  page_ahead w pa size →
  ∃ w' b,
    Page_load location dest_id page_id true prefault w =
      (Ret (MkPage location dest_id page_id prefault size (Ptr b 0) true), w') ∧
    opened w w' pa size true b ∧ page_state w' pa size [].
Proof.
  intros pa size Hah. pose proof (findPageSize_bounds location dest_id) as [Hsz _]. fold size in Hsz.
  destruct Hah as [Hnone|[Hps Hlong]].
  - destruct (Page_load_new w location dest_id page_id true prefault) as (w1&b&Hload&Hop&Hh&Hag); [|done|].
    { apply fle_zero; [lia|]. intros i _. by apply fbyte_absent. }
    exists w1, b. split_and!; [done..|]. apply page_state_empty; [lia|done|].
    intros i Hi. rewrite Hag by lia. by apply fbyte_absent.
  - destruct (Page_load_existing w location dest_id page_id true prefault _ (ps_header _ _ _ _ Hps) Hlong)
      as (w1&b&Hload&Hop&Hb).
    exists w1, b. split_and!; [done..|]. eapply page_state_agree; [lia| |done]. intros i _. apply Hb.
Qed.

(** A page that was opened joins the live ones. *)
Lemma opened_pages_live w w1 pa n wr new ps :
  pages_live w ps → opened w w1 pa n wr (base_of new) →
  pg_header new = Ptr (base_of new) 0 → pg_owned new = true →
  pages_live w1 (new :: ps).
Proof.
  intros Hlive Hop Hh Ho. apply pages_live_cons. split_and!.
  - split_and!; [done..|]. rewrite (op_maps _ _ _ _ _ _ Hop), lookup_insert_eq. by eexists.
  - destruct Hlive as [_ Hall]. intros (q&Heq&Hq)%list_elem_of_fmap.
    eapply (proj1 (Forall_forall _ _)) in Hall as (_&_&[m Hm]); [|done].
    by rewrite <-Heq, (op_fresh _ _ _ _ _ _ Hop) in Hm.
  - eapply pages_live_touches; [apply (op_touches _ _ _ _ _ _ Hop)|done].
Qed.

Lemma members_touches w w' r j :
  touches (cur_file (wr_cfg r) j) w w' → members w r j → members w' r j.
Proof.
  intros Ht [Hcfg Hd Hrg Hwm ? Hlive (page&?&?&?)]. pose proof (findPageSize_bounds (location_ (wr_cfg r)) (dest_id_ (wr_cfg r))) as [Hsz _].
  rewrite <-Hcfg in Hsz. split; try done.
  - intros m Hm. eapply warm_ok_carry; [lia|reflexivity| |apply (tc_size _ _ _ Ht)| |by apply Hwm].
    + intros id Hid. apply header_ok_agree. eapply touches_agree; [done|]. intros Heq%page_file_inj; [lia|done|lia..].
    + intros q mp _. apply (tc_maps _ _ _ Ht).
  - by eapply pages_live_touches.
  - exists page. split_and!; [done| |done]. by eapply touches_mapped.
Qed.

Lemma members_size w r j : members w r j → 2 ^ 21 ≤ page_size_ (wr_cfg r) ≤ 2 ^ 27.
Proof. intros []. rewrite mb_cfg0. apply findPageSize_bounds. Qed.

(** ** Publishing an open frame *)

(** The payload is what the slot holds when the length is stored. *)
Lemma disk_close w w' c j ts ty flags n :
  let pa := cur_file c j in let o := page_end (aj_cur j) in
  in_u 32 (dest_id_ c) → 64 ≤ page_size_ c ≤ 2 ^ 27 →
  disk_open w c j ts ty flags n → touches pa w w' →
  agree w w' pa 0 16 → agree w w' pa 24 (o - 24) → agree w w' pa (o + 4) (page_size_ c - (o + 4)) →
  fle w' pa o 4 = 32 + n → fle w' pa 16 8 = o →
  0 < ty < 2 ^ 16 → in_u 16 flags → in_s 64 ts → Forall (in_u 8) (fbytes w pa (o + 32) n) →
  disk w' c (a_append ts ty flags (fbytes w pa (o + 32) n) j).
Proof.
  intros pa o Hd Hsz Hop Ht Hhead Hfs Htail Hlen Hpos Hty Hfl Hts Hpl.
  pose proof (do_start _ _ _ _ _ _ _ Hop) as Hst. pose proof (do_fits _ _ _ _ _ _ _ Hop) as Hfit.
  pose proof (do_size _ _ _ _ _ _ _ Hop) as Hn. fold o in Hst, Hfit.
  set (f := Frame ty flags (aj_seq j) ts 0 (fbytes w pa (o + 32) n)).
  assert (frame_length f = 32 + n) as Hlf.
  { unfold frame_length, sizeof_FrameHeader. simpl. by rewrite length_fbytes by lia. }
  assert (frame_stride f = framePhysicalLength (32 + n)) as Hsf.
  { unfold frame_stride. by rewrite Hlf. }
  assert (frame_wf f) as Hwf.
  { unfold frame_wf. rewrite Hlf. simpl.
    pose proof (pa_seq _ _ _ (do_around _ _ _ _ _ _ _ Hop)).
    refine (conj Hty (conj Hfl (conj _ (conj Hts (conj _ (conj Hpl _)))))); [done|done|lia]. }
  pose proof (pages_around_touches w w' c j Hd ltac:(lia) Ht (do_around _ _ _ _ _ _ _ Hop)) as Har.
  destruct Hop as [_ Hh Hl _ _ Hty' Hfl' Hsq Hgen Hev Htl _ _]. unfold FRAME_ALIGNMENT in Hfit.
  split; [by apply pages_around_append| |].
  - eapply (page_state_snoc w w' pa _ (aj_cur j) f); try done.
    + rewrite Hsf. unfold sizeof_FrameHeader in *. fold o. lia.
    + intros i Hi. rewrite Hlf in Hi. fold o in Hi. unfold sizeof_FrameHeader in *.
      rewrite Htail by lia. apply Htl. fold o. lia.
    + unfold frame_at. rewrite Hlf. fold pa o in Hty', Hfl', Hsq, Hgen, Hev |- *.
      unfold f; cbn [fr_type fr_flags fr_seq fr_gen fr_event fr_payload]. unfold_offsets.
      pose proof (framePhysicalLength_bounds (32 + n) ltac:(lia)) as [Hpl' _].
      rewrite Z.add_0_r, length_fbytes by lia.
      rewrite !(fle_agree w w' pa (o + _)) by (eapply agree_sub; [exact Htail|lia..]).
      rewrite (fbytes_agree w w') by (eapply agree_sub; [exact Htail|lia..]).
      split_and!; try done. by rewrite Hev.
  - change (aj_cur (a_append _ _ _ _ _)) with (aj_cur j ++ [f]). rewrite page_end_snoc, Hsf. unfold FRAME_ALIGNMENT, sizeof_FrameHeader in *. fold o. lia.
Qed.
End represent.
