(* ===== verification/WarmSpec.v ===== *)
(** * WarmSpec: the next page, from the warmer or from the disk

    [PageWarmer::getWarmedPage], [Page::loadFromAddress] and the writer's use
    of both when it rotates (PageWarmer.h, JournalPage.h, JournalWriter.h): the
    page the writer gets is the next page file, mapped and empty, whether the
    warmer had it ready or not, and the warmer's ring stays consistent. *)

From S2P Require Import Prelude Memory Frame Base Mmap Page Warmer Writer WriterState.

(** ** The ring *)

Definition emptied (s : PageSlot) : PageSlot := MkSlot (-1) (sl_address s) (sl_size s) (sl_sequence s) false.

(** The ring after slot [i] was claimed. *)
Definition claimed (m : warmer) (i : nat) (s : PageSlot) (m' : warmer) : Prop :=
  wm_ring m' = <[i := emptied s]> (wm_ring m) ∧
  wm_location m' = wm_location m ∧ wm_dest_id m' = wm_dest_id m ∧ wm_page_size m' = wm_page_size m ∧
  wm_is_writer m' = wm_is_writer m.

Lemma slot_at_lookup m idx : 0 ≤ sl_page_id (slot_at m idx) → wm_ring m !! Z.to_nat idx = Some (slot_at m idx).
Proof. unfold slot_at. destruct (wm_ring m !! Z.to_nat idx); [done|]. cbn. lia. Qed.

(** The scan finds a slot of the page, or leaves the ring alone. *)
Lemma getWarmedPage_cases page_id m :
  0 ≤ page_id →
  (∃ i s m', wm_ring m !! i = Some s ∧ sl_page_id s = page_id ∧ claimed m i s m' ∧
    getWarmedPage page_id m = ((λ a, (a, sl_size s)) <$> sl_address s, m')) ∨
  getWarmedPage page_id m = (None, m).
Proof.
  intros Hid. unfold getWarmedPage. generalize (Z.to_nat RingSize) as n, 0 as i.
  induction n as [|n IH]; intros i; [by right|]. cbn [getWarmedPage_from].
  set (idx := ring_index _). destruct (Z.eqb_spec (sl_page_id (slot_at m idx)) page_id) as [Heq|]; [|apply IH].
  left. eexists (Z.to_nat idx), (slot_at m idx), _.
  split; [apply slot_at_lookup; lia|]. split; [done|]. split; [|reflexivity]. by split_and!.
Qed.

Lemma bind_insert {A B} (f : A → list B) l i x y :
  l !! i = Some x → f y = [] → l ≫= f ≡ₚ f x ++ (<[i := y]> l ≫= f).
Proof.
  intros Hi Hy. rewrite (insert_take_drop l i y) by by eapply lookup_lt_Some.
  rewrite <-(take_drop_middle l i x Hi) at 1. rewrite !bind_app, !bind_cons, Hy. cbn [app].
  apply Permutation_app_swap_app.
Qed.

Lemma warm_page_same m m' s :
  wm_location m' = wm_location m → wm_dest_id m' = wm_dest_id m → warm_page m' s = warm_page m s.
Proof. intros Hl Hd. unfold warm_page. by rewrite Hl, Hd. Qed.

Lemma warm_pages_bind m m' :
  wm_location m' = wm_location m → wm_dest_id m' = wm_dest_id m →
  warm_pages m' = wm_ring m' ≫= warm_page m.
Proof.
  intros Hl Hd. unfold warm_pages. induction (wm_ring m') as [|s l IH]; [done|].
  by rewrite !bind_cons, IH, (warm_page_same m).
Qed.

Lemma claimed_pages m i s m' :
  claimed m i s m' → wm_ring m !! i = Some s → warm_pages m ≡ₚ warm_page m s ++ warm_pages m'.
Proof.
  intros (Hr&Hl&Hd&_) Hi. rewrite (warm_pages_bind m m'), Hr by done.
  by apply bind_insert.
Qed.

Section claim.
Context `{Env} `{!NoErrors} `{!EnvLaws} `{ILocator} `{!LocatorLaws}.

Lemma claimed_ok w c p m i s m' : claimed m i s m' → warm_ok w c p m → warm_ok w c p m'.
Proof.
  intros (Hr&Hl&Hd&Hz&Hw) []. split; try congruence; rewrite Hr; [by rewrite length_insert|].
  apply Forall_insert; [done|]. left. cbn. split; [done|lia].
Qed.

(** A page from the ring: its header is looked at and it is the writer's. *)
Lemma loadFromAddress_run w location dest_id page_id b pa n wr prefault size pos :
  mapped w b pa n wr → 64 ≤ n → header_ok w pa size pos →
  loadFromAddress location dest_id page_id (Some (Ptr b 0)) prefault w =
    (Ret (MkPage location dest_id page_id prefault size (Ptr b 0) true), w).
Proof.
  intros Hm Hn [Hv Hl Hs Hp Hbd]. unfold loadFromAddress. unfold_offsets.
  mstep. mstep. rewrite bind_guard by by rewrite Hv. mstep. rewrite bind_guard by by rewrite Hl.
  by rewrite Hs.
Qed.

Lemma page_state_header w pa size fs pos : page_state w pa size fs → header_ok w pa size pos → pos = last_pos fs.
Proof. intros [[] _ _ _] []. congruence. Qed.

(** A file that is ahead and has a header is an empty page. *)
Lemma page_ahead_header w pa size :
  page_ahead w pa size → header_ok w pa size sizeof_PageHeader → page_state w pa size [].
Proof.
  intros [Hnone|[Hps _]] Hh; [|done]. pose proof (hd_version _ _ _ _ Hh) as Hv.
  rewrite fle_zero in Hv; [done|unfold_offsets; lia|]. intros i _. by apply fbyte_absent.
Qed.

Definition next_file (c : writer_config) (j : ajournal) : path := page_file c (aj_page j + 1).

(** The next page, wherever it comes from. *)
Record got_page (w w1 : world) (r r1 : writer) (j : ajournal) (new : Page) : Prop := {
  gp_touches : touches (next_file (wr_cfg r) j) w w1;
  gp_ticks : w_ticks w1 = w_ticks w;
  gp_header : pg_header new = Ptr (base_of new) 0;
  gp_mapped : mapped w1 (base_of new) (next_file (wr_cfg r) j) (page_size_ (wr_cfg r)) true;
  gp_state : page_state w1 (next_file (wr_cfg r) j) (page_size_ (wr_cfg r)) [];
  gp_live : pages_live w1 (new :: held r ++ warmed r1);
  gp_others b mp : w_maps w !! b = Some mp → b ∉ page_bases r →
    b ≠ base_of new ∧ b ∉ base_of <$> warmed r1;
  gp_writer : r1 = set_warmer (page_warmer_ r1) (set_page_id (aj_page j + 1) r);
  gp_none : page_warmer_ r = None → page_warmer_ r1 = None;
  gp_warmer m : page_warmer_ r1 = Some m → warm_ok w1 (wr_cfg r) (aj_page j + 1) m
}.

Lemma warm_ok_next w w1 c j m :
  in_u 32 (dest_id_ c) → 64 ≤ page_size_ c → 0 ≤ aj_page j → aj_page j + 1 < 2 ^ 31 →
  touches (next_file c j) w w1 → warm_ok w c (aj_page j) m →
  warm_ok w1 c (aj_page j + 1) (updateCurrentPage (aj_page j + 1) m).
Proof.
  intros Hd Hsz Hr Hid Ht Hok. apply (warm_ok_carry w w1 c (aj_page j) (aj_page j + 1)) in Hok; [|done|lia|..].
  - by destruct Hok.
  - intros id Hid'. apply header_ok_agree. eapply touches_agree; [done|]. intros Heq%page_file_inj; [lia|done|lia..].
  - apply (tc_size _ _ _ Ht).
  - intros q mp _. apply (tc_maps _ _ _ Ht).
Qed.

(** [Page::load] of the next page, for a writer with or without a warmer. *)
Lemma load_next_page w r j mw :
  members w r j → disk w (wr_cfg r) j → aj_page j + 1 < 2 ^ 31 →
  from_option warm_pages [] mw = warmed r → (page_warmer_ r = None → mw = None) →
  (∀ m, mw = Some m → warm_ok w (wr_cfg r) (aj_page j) m) →
  ∃ w1 new,
    Page_load (location_ (wr_cfg r)) (dest_id_ (wr_cfg r)) (aj_page j + 1) true (prefault_ (wr_cfg r)) w =
      (Ret new, w1) ∧
    got_page w w1 r (set_warmer (updateCurrentPage (aj_page j + 1) <$> mw) (set_page_id (aj_page j + 1) r)) j new.
Proof.
  intros Hmb Hdk Hid Hwp Hnone Hok. pose proof (members_size _ _ _ Hmb) as Hsz.
  destruct Hmb as [Hcfg Hd Hrg Hwm Hcid Hlive _]. set (c := wr_cfg r) in *.
  destruct (Page_load_ahead w (location_ c) (dest_id_ c) (aj_page j + 1) (prefault_ c))
    as (w1&b&Hload&Hop&Hps).
  { rewrite <-Hcfg. apply (pa_ahead _ _ _ (dk_around _ _ _ Hdk)). lia. }
  rewrite <-Hcfg in *. set (new := MkPage _ _ _ _ _ _ _) in Hload.
  change (page_path _ _ _) with (next_file c j) in *.
  exists w1, new. split; [done|]. pose proof (op_touches _ _ _ _ _ _ Hop) as Ht.
  assert (warmed (set_warmer (updateCurrentPage (aj_page j + 1) <$> mw) (set_page_id (aj_page j + 1) r)) = warmed r) as Hsame.
  { rewrite <-Hwp. unfold warmed. simpl. destruct mw as [m|]; [|done]. simpl. by apply (warm_pages_bind m). }
  split; try done.
  - apply (op_ticks _ _ _ _ _ _ Hop).
  - apply (op_mapped _ _ _ _ _ _ Hop).
  - eapply opened_pages_live; [|done..]. by rewrite Hsame.
  - intros b' mp Hm Hb. split.
    + intros Heq. change (b' = b) in Heq. by rewrite Heq, (op_fresh _ _ _ _ _ _ Hop) in Hm.
    + rewrite Hsame. unfold page_bases in Hb. rewrite fmap_app in Hb. set_solver.
  - simpl. intros Hn. by rewrite Hnone.
  - simpl. intros m (m0&->&->)%fmap_Some. fold c. eapply warm_ok_next; [done|lia..|done|by apply Hok].
Qed.

(** The ring has the page: the claimed slot is the writer's. *)
Lemma claim_next_page w r j m i s m' :
  members w r j → disk w (wr_cfg r) j → aj_page j + 1 < 2 ^ 31 → page_warmer_ r = Some m →
  wm_ring m !! i = Some s → sl_page_id s = aj_page j + 1 → claimed m i s m' →
  ∃ b new, sl_address s = Some (Ptr b 0) ∧
    loadFromAddress (location_ (wr_cfg r)) (dest_id_ (wr_cfg r)) (aj_page j + 1) (Some (Ptr b 0))
      (prefault_ (wr_cfg r)) w = (Ret new, w) ∧
    got_page w w r (set_warmer (Some (updateCurrentPage (aj_page j + 1) m')) (set_page_id (aj_page j + 1) r)) j new.
Proof.
  intros Hmb Hdk Hid Hm Hi Hs Hcl. pose proof (members_size _ _ _ Hmb) as Hsz.
  destruct Hmb as [Hcfg Hd Hrg Hwm Hcid Hlive _]. set (c := wr_cfg r) in *. specialize (Hwm _ Hm).
  pose proof (wo_slots _ _ _ _ Hwm) as Hsl. eapply Forall_lookup_1 in Hsl; [|exact Hi].
  destruct Hsl as [[_ Hneg]|[Ho Hr (b&Ha&Hmap) Hf]]; [lia|]. rewrite Hs in *.
  pose proof (Hf ltac:(lia)) as Hh.
  exists b, (MkPage (location_ c) (dest_id_ c) (aj_page j + 1) (prefault_ c) (page_size_ c) (Ptr b 0) true).
  split; [done|]. split; [eapply loadFromAddress_run; [done|lia|done]|].
  assert (warm_ok w c (aj_page j) m') as Hok by by eapply claimed_ok.
  set (r1 := set_warmer _ _).
  assert (warmed r ≡ₚ MkPage (wm_location m) (wm_dest_id m) (sl_page_id s) true (sl_size s) (Ptr b 0) true :: warmed r1) as Hperm.
  { unfold warmed. rewrite Hm. simpl. rewrite (claimed_pages _ _ _ _ Hcl Hi). unfold warm_page. rewrite Ho, Ha.
    cbn [app]. f_equiv. by rewrite (warm_pages_bind m' (updateCurrentPage _ _)). }
  split; try done.
  - apply page_ahead_header; [|done]. apply (pa_ahead _ _ _ (dk_around _ _ _ Hdk)). lia.
  - rewrite Hperm in Hlive. rewrite <-Permutation_middle in Hlive.
    apply pages_live_cons in Hlive as ((_&_&Hl)&Hnin&Hlive). apply pages_live_cons. by split_and!.
  - intros b' mp _ Hb. unfold page_bases in Hb. rewrite Hperm, fmap_app, fmap_cons in Hb.
    split; [|set_solver]. intros ->. apply Hb, elem_of_app. right. by left.
  - simpl. intros Hn. congruence.
  - simpl. intros m0 [= <-]. fold c. eapply warm_ok_next; [done|lia..|reflexivity|done].
Qed.

(** [next_page], for a writer with or without a warmer. *)
Lemma next_page_run w r j :
  members w r j → disk w (wr_cfg r) j → aj_page j + 1 < 2 ^ 31 →
  ∃ w1 r1 new,
    next_page (aj_page j + 1) (w, set_page_id (aj_page j + 1) r) = (Ret new, (w1, r1)) ∧
    got_page w w1 r r1 j new.
Proof.
  intros Hmb Hdk Hid. pose proof (mb_range _ _ _ Hmb) as Hr. unfold next_page. wstep.
  change (page_warmer_ (set_page_id _ r)) with (page_warmer_ r). destruct (page_warmer_ r) as [m|] eqn:Hm.
  2:{ destruct (load_next_page w r j None Hmb Hdk Hid) as (w1&new&Hload&Hg); [|done..|].
      { unfold warmed. by rewrite Hm. }
      erewrite io_run by exact Hload. eexists _, _, _. split; [done|].
      assert (set_page_id (aj_page j + 1) r = set_warmer None (set_page_id (aj_page j + 1) r)) as ->; [|exact Hg].
      destruct r. simpl in Hm. by subst. }
  destruct (getWarmedPage_cases (aj_page j + 1) m) as [(i&s&m'&Hi&Hs&Hcl&->)| ->]; [lia|..].
  - destruct (claim_next_page w r j m i s m' Hmb Hdk Hid Hm Hi Hs Hcl) as (b&new&Ha&Hload&Hg).
    rewrite Ha. wstep. cbn [fmap option_fmap option_map].
    erewrite bind_Ret by by apply io_run. wstep. eexists _, _, _. split; [reflexivity|]. exact Hg.
  - destruct (load_next_page w r j (Some m) Hmb Hdk Hid) as (w1&new&Hload&Hg).
    { unfold warmed. by rewrite Hm. }
    { by rewrite Hm. }
    { intros m0 [= <-]. by apply (mb_warmer _ _ _ Hmb). }
    wstep. erewrite bind_Ret by by apply io_run. wstep. eexists _, _, _. split; [reflexivity|]. exact Hg.
Qed.
End claim.
