(* ===== verification/WriterSpec.v ===== *)
(** * WriterSpec: the writer's operations implement the abstract journal

    Rotation, [openFrame], [closeFrame] and the public operations built from
    them, each proved against its abstract counterpart of [WriterState]. *)

From S2P Require Import Prelude Memory Frame Base Mmap Page Warmer Writer WriterState WarmSpec.

Section operations.
Context `{Env} `{!NoErrors} `{!EnvLaws} `{ILocator} `{!LocatorLaws}.

(** Everything the disk representation says is about the files. *)
Lemma disk_files w w' c j :
  64 ≤ page_size_ c → w_files w' = w_files w → disk w c j → disk w' c j.
Proof.
  intros Hsz Hf [[Hr Hc Hl Ha Hs Hn Hlow] Hcur Hb].
  assert (∀ pa off n, agree w w' pa off n) as Hag by (intros pa off n i _; by apply fbyte_files).
  split; [split| |]; try done.
  - intros k fs Hk. eapply page_state_agree; [done|apply Hag|by apply Hc].
  - intros k Hk. rewrite (file_size_files w w') by done. by apply Hl.
  - intros id Hid. eapply page_ahead_same; [done|..|by apply Ha].
    + intros i. by apply (Hag _ i 1); lia.
    + by rewrite Hf.
    + by rewrite (file_size_files w w').
  - intros n Hn'. apply Hn. by rewrite <-Hf.
  - intros id Hid. rewrite Hf. by apply Hlow.
  - by eapply page_state_agree.
Qed.

(** Rotation, seen in the files: the next page gets a header, the current
    one its sentinel. *)
Lemma disk_rotate w w1 c j now :
  in_u 32 (dest_id_ c) → 2 ^ 21 ≤ page_size_ c ≤ 2 ^ 27 → aj_page j + 1 < 2 ^ 31 →
  in_s 64 now → disk w c j → page_size_ c ≤ file_size w1 (cur_file c j) →
  touches (next_file c j) w w1 → page_state w1 (next_file c j) (page_size_ c) [] →
  disk (sentinel_world w1 (cur_file c j) (page_end (aj_cur j)) now (aj_seq j)) c (a_rotate now j).
Proof.
  intros Hd Hsz Hid Hnow Hdisk Hfile Ht Hps.
  destruct Hdisk as [[Hr Hc Hl Ha Hs Hnm Hlow] Hcur Hb]. unfold FRAME_ALIGNMENT in Hb.
  assert (is_Some (w_files w1 !! cur_file c j)) as Hf1 by (apply file_size_pos; lia).
  pose proof (sentinel_world_touches w1 (cur_file c j) (page_end (aj_cur j)) now (aj_seq j)) as Ht2.
  set (w2 := sentinel_world _ _ _ _ _) in *.
  assert (∀ id, 0 ≤ id < 2 ^ 31 → id ≠ aj_page j + 1 → page_file c id ≠ next_file c j) as Hne1.
  { intros id Hid1 Hid2 Heq%page_file_inj; [|done|lia|unfold aj_page in *; lia]. lia. }
  assert (∀ id, 0 ≤ id < 2 ^ 31 → id ≠ aj_page j → page_file c id ≠ cur_file c j) as Hne2.
  { intros id Hid1 Hid2 Heq%page_file_inj; [|done|lia|unfold aj_page in *; lia]. lia. }
  assert (cur_file c j ≠ next_file c j) as Hne by (apply Hne1; unfold aj_page in *; lia).
  assert (aj_page (a_rotate now j) = aj_page j + 1) as Hpage.
  { unfold aj_page. simpl. rewrite length_app. simpl. lia. }
  split; [split| |].
  - rewrite Hpage. simpl. lia.
  - intros k fs Hk. simpl in Hk |- *. apply lookup_app_Some in Hk as [Hk|[Hk1 Hk2]].
    + pose proof (lookup_lt_Some _ _ _ Hk). unfold aj_page in *.
      eapply page_state_agree; [lia| |by apply Hc].
      eapply agree_trans; eapply touches_agree; [done|apply Hne1; lia|done|apply Hne2; lia].
    + apply list_lookup_singleton_Some in Hk2 as [Hk2 <-].
      replace (aj_first j + Z.of_nat k) with (aj_page j) by (unfold aj_page; lia).
      apply page_state_sentinel; try done; [|lia..].
      eapply page_state_agree; [lia| |done]. by eapply touches_agree.
  - intros k Hk. simpl in Hk |- *. rewrite length_app in Hk. simpl in Hk.
    etrans; [|apply (tc_size _ _ _ Ht2)]. destruct (decide (k < length (aj_closed j))%nat).
    + etrans; [by apply Hl|apply (tc_size _ _ _ Ht)].
    + by replace (aj_first j + Z.of_nat k) with (aj_page j) by (unfold aj_page; lia).
  - intros id. rewrite Hpage. intros Hlt. unfold aj_page in *.
    eapply page_ahead_touches; [lia|done|apply Hne2; lia|].
    eapply page_ahead_touches; [lia|done|apply Hne1; lia|]. apply Ha. unfold aj_page. lia.
  - by apply wrap_range.
  - eapply (only_pages_touches w1 _ c (aj_page j)); [done|unfold aj_page in *; lia|done|].
    eapply (only_pages_touches w _ c (aj_page j + 1)); [done|unfold aj_page in *; lia|done|done].
  - intros id Hlt. simpl in Hlt. unfold aj_page in *.
    eapply (absent_touches w1 _ c (aj_page j)); unfold aj_page in *; [done|lia..|done|].
    eapply (absent_touches w _ c (aj_page j + 1)); unfold aj_page in *; [done|lia..|done|]. by apply Hlow.
  - unfold cur_file. rewrite Hpage. fold (next_file c j).
    eapply page_state_agree; [lia| |exact Hps]. by eapply touches_agree.
  - unfold page_end, FRAME_ALIGNMENT. simpl. unfold sizeof_PageHeader. lia.
Qed.

Lemma write_PageEnd_run w r page b pa n o :
  pg_header page = Ptr b 0 → mapped w b pa n true → 64 ≤ o → o + 64 ≤ n →
  current_frame_address_ r = Ptr b o →
  write_PageEnd page (w, r) =
    (Ret tt, (sentinel_world w pa o (env_clock (w_ticks w)) (current_sequence_ r),
              set_sequence (u64 (current_sequence_ r + 1)) r)).
Proof.
  intros Hp Hm Ho Hn Ha. unfold write_PageEnd, setGenTime, setEventTime, setMsgType, setFlags,
    setSequence, setLastFramePosition, nextSeq, page_address. rewrite Hp. wstep. rewrite Ha.
  unfold_offsets. wstep.
  assert (mapped (count_tick (fzero w pa o 32)) b pa n true) as Hm' by (simpl; by apply mapped_fzero).
  erewrite bind_Ret by (apply io_run; reflexivity).
  change (w_ticks (fzero w pa o 32)) with (w_ticks w).
  do 11 wstep. erewrite io_run by (eapply store_run; [mapped_tac|cbn; lia..]).
  unfold addr, sentinel_world; cbn [p_base p_off ptr_add]. do 4 f_equal. lia.
Qed.
(** What a write never changes of the writer. *)
Record kept (r r' : writer) : Prop := {
  kp_cfg : wr_cfg r' = wr_cfg r;
  kp_writing : writing_ r' = writing_ r;
  kp_open : open_frame_header_ r' = open_frame_header_ r;
  kp_warmer : page_warmer_ r = None → page_warmer_ r' = None
}.

Lemma kept_refl r : kept r r.
Proof. by split. Qed.
Lemma kept_trans r1 r2 r3 : kept r1 r2 → kept r2 r3 → kept r1 r3.
Proof. intros [] []. split; try congruence. auto. Qed.

Lemma firstFrameAddress_run w p b pa n wr size pos :
  pg_header p = Ptr b 0 → mapped w b pa n wr → 64 ≤ n → header_ok w pa size pos →
  firstFrameAddress p w = (Ret (Ptr b 64), w).
Proof.
  intros Hp Hm Hn Hh. unfold firstFrameAddress, page_address. rewrite Hp.
  pose proof (hd_length _ _ _ _ Hh) as Hl. unfold_offsets. mstep. by rewrite Hl.
Qed.

Lemma finish_page_run w r page extra pa n o :
  pg_header page = Ptr (base_of page) 0 → mapped w (base_of page) pa n true →
  page_size_ (wr_cfg r) = n → 64 ≤ o → o + 64 ≤ n →
  current_frame_address_ r = Ptr (base_of page) o →
  pages_live w (page :: retired_pages_ r ++ retire_queue_ r ++ extra) →
  let w1 := sentinel_world w pa o (env_clock (w_ticks w)) (current_sequence_ r) in
  ∃ w' r', finish_page page (w, r) = (Ret tt, (w', r')) ∧
    retired_some (set_page None (set_retired (retired_pages_ r ++ [page])
                    (set_sequence (u64 (current_sequence_ r + 1)) r))) r' ∧
    unmapped w1 w' extra ∧
    (∀ b, b ∉ base_of <$> page :: retired_pages_ r → w_maps w' !! b = w_maps w1 !! b) ∧
    pages_live w' (retired_pages_ r' ++ retire_queue_ r' ++ extra).
Proof.
  intros Hp Hm Hn Ho Hfit Ha Hlive w1. unfold finish_page. wstep. rewrite Ha, Hn.
  unfold page_address, addr, FRAME_ALIGNMENT. rewrite Hp. cbn [p_base p_off ptr_add].
  rewrite (proj2 (Z.leb_le _ _)) by lia. wstep.
  erewrite bind_Ret by (apply try_catch_Ret; by eapply write_PageEnd_run).
  fold w1. do 2 wstep. set (r1 := set_page None _).
  destruct (retire_overflow_run (length (retired_pages_ r1)) w1 r1 extra)
    as (w'&r'&Hrun&Hsome&Hun&Ho'&Hl'); [done| |].
  2:{ exists w', r'. split_and!; try done. intros b Hb. apply Ho'. simpl. set_solver. }
  simpl.
  eapply pages_live_perm; [|eapply pages_live_touches; [apply sentinel_world_touches|exact Hlive]].
  rewrite <-app_assoc. apply Permutation_middle.
Qed.

Lemma unmapped_mapped w w' ps p pa n wr :
  unmapped w w' ps → p ∈ ps → mapped w (base_of p) pa n wr → mapped w' (base_of p) pa n wr.
Proof.
  intros Hun Hp (Hm&Hs&?). split_and!; [|by rewrite (file_size_files w w') by apply Hun|done].
  by rewrite (un_maps _ _ _ Hun).
Qed.

(** The members once the next page is installed. *)
Lemma members_install w c r new j :
  wr_cfg r = c → page_size_ c = findPageSize (location_ c) (dest_id_ c) →
  in_u 32 (dest_id_ c) → 0 ≤ aj_page j < 2 ^ 31 → current_page_id_ r = aj_page j →
  (∀ m, page_warmer_ r = Some m → warm_ok w c (aj_page j) m) →
  pages_live w (new :: retired_pages_ r ++ retire_queue_ r ++ warmed r) →
  mapped w (base_of new) (cur_file c j) (page_size_ c) true →
  members w (set_frame_address (Ptr (base_of new) (page_end (aj_cur j))) (set_page (Some new) r)) j.
Proof.
  intros <- ????? Hlive Hm. split; try done.
  - unfold held. simpl. by rewrite <-app_assoc.
  - by exists new.
Qed.

(** Rotation leaves the memory of others alone. *)
Lemma rotate_spares w w2 w3 r r3 mw page new :
  current_page_ r = Some page →
  (∀ b mp, w_maps w !! b = Some mp → b ∉ page_bases r →
    b ≠ base_of new ∧ b ∉ base_of <$> from_option warm_pages [] mw) →
  (∀ b mp, w_maps w !! b = Some mp → w_maps w2 !! b = Some mp) →
  (∀ b, b ∉ base_of <$> page :: retired_pages_ r → w_maps w3 !! b = w_maps w2 !! b) →
  page_warmer_ r3 = mw →
  retired_pages_ r3 ++ retire_queue_ r3 ⊆ (retired_pages_ r ++ [page]) ++ retire_queue_ r →
  spares_others w w3 r (set_frame_address (Ptr (base_of new) 64) (set_page (Some new) r3)).
Proof.
  intros Hpage Hoth Hm2 Hrest Hmw Hsub b mp Hm Hb. destruct (Hoth _ _ Hm Hb) as [Hne Hwb].
  assert (b ∉ base_of <$> page :: retired_pages_ r ++ retire_queue_ r) as Hheld.
  { intros Hin. apply Hb. unfold page_bases, held. rewrite Hpage, fmap_app. apply elem_of_app. by left. }
  split.
  - rewrite Hrest; [by apply Hm2|]. intros Hin. apply Hheld.
    rewrite app_comm_cons, fmap_app. apply elem_of_app. by left.
  - unfold page_bases, held, warmed. simpl. rewrite Hmw, fmap_app.
    intros [->|[(q&->&Hq)%list_elem_of_fmap|Hin]%elem_of_app]%elem_of_cons; [done| |done].
    apply Hheld, list_elem_of_fmap_2. apply Hsub in Hq. set_solver.
Qed.

(** Rotation implements [a_rotate]. *)
(** The warmer's pages while the writer closes page [p] and unmaps others. *)
Lemma warm_ok_finish w1 w2 w3 c p m ps :
  in_u 32 (dest_id_ c) → 64 ≤ page_size_ c → 0 ≤ p → p + 1 < 2 ^ 31 →
  touches (page_file c p) w1 w2 → unmapped w2 w3 ps → warm_pages m ⊆ ps →
  warm_ok w1 c (p + 1) m → warm_ok w3 c (p + 1) m.
Proof.
  intros Hd Hsz Hp Hp' Ht Hun Hsub. eapply (warm_ok_carry w1); [lia|reflexivity|..].
  - intros id Hid. apply header_ok_agree. eapply agree_trans; [eapply touches_agree; [exact Ht|]|].
    + intros Heq%page_file_inj; [lia|done|lia..].
    + intros i _. apply fbyte_files, (un_files _ _ _ Hun).
  - intros pa. rewrite (file_size_files w2 w3) by apply (un_files _ _ _ Hun). apply (tc_size _ _ _ Ht).
  - intros q mp Hq Hl. rewrite (un_maps _ _ _ Hun); [by apply (tc_maps _ _ _ Ht)|]. by apply Hsub.
Qed.

Lemma rotatePage_run w r j :
  rep w r j → aj_page j + 1 < 2 ^ 31 →
  ∃ w' r', rotatePage (w, r) = (Ret tt, (w', r')) ∧
    rep w' r' (a_rotate (env_clock (w_ticks w)) j) ∧ kept r r' ∧ spares_others w w' r r'.
Proof.
  intros [Hmb Hdk Hseq] Hid. destruct (next_page_run w r j Hmb Hdk Hid) as (w1&r1&new&Hnext&Hg).
  pose proof (members_size _ _ _ Hmb) as Hsz. pose proof (mb_page _ _ _ Hmb) as (page&Hpage&Hmap&Haddr).
  pose proof (page_end_ge _ _ _ _ (dk_cur _ _ _ Hdk)) as Hge.
  pose proof (dk_border _ _ _ Hdk) as Hborder. unfold FRAME_ALIGNMENT in Hborder.
  destruct Hg as [Ht1 Htk Hnh Hmapn Hps Hlive Hoth Hr1 Hnone Hwm].
  set (c := wr_cfg r) in *.
  assert (mapped w1 (base_of page) (cur_file c j) (page_size_ c) true) as Hmap1 by by eapply touches_mapped.
  set (mw := page_warmer_ r1) in *. clearbody mw. subst r1.
  assert (pages_live w1 (page :: retired_pages_ r ++ retire_queue_ r ++ new :: from_option warm_pages [] mw)) as Hlive1.
  { unfold held in Hlive. rewrite Hpage in Hlive. unfold warmed in Hlive. simpl in Hlive.
    by rewrite app_assoc, <-Permutation_middle, Permutation_swap. }
  pose proof (proj1 (pages_live_cons _ _ _) Hlive1) as [[Hph _] _].
  destruct (finish_page_run w1 (set_warmer mw (set_page_id (aj_page j + 1) r)) page
    (new :: from_option warm_pages [] mw) _ (page_size_ c) (page_end (aj_cur j)) Hph Hmap1
    eq_refl Hge ltac:(lia) Haddr Hlive1) as (w3&r3&Hfin&Hsome&Hun&Hrest&Hlive3).
  change (current_sequence_ (set_warmer _ _)) with (current_sequence_ r) in *. rewrite Htk, Hseq in *.
  set (now := env_clock (w_ticks w)) in *.
  pose proof (sentinel_world_touches w1 (cur_file c j) (page_end (aj_cur j)) now (aj_seq j)) as Ht2.
  set (w2 := sentinel_world _ _ _ _ _) in *.
  assert (disk w3 c (a_rotate now j)) as Hdk3.
  { eapply disk_files; [lia|apply (un_files _ _ _ Hun)|].
    apply disk_rotate with w; try done; [apply Hmb|apply env_clock_range|]. by destruct Hmap1 as (_&?&_). }
  assert (mapped w3 (base_of new) (next_file c j) (page_size_ c) true) as Hmap3.
  { eapply unmapped_mapped; [done|by left|]. by eapply touches_mapped. }
  assert (aj_page (a_rotate now j) = aj_page j + 1) as Hpage'.
  { unfold aj_page. simpl. rewrite length_app. simpl. lia. }
  assert (cur_file c (a_rotate now j) = next_file c j) as Hcur'.
  { unfold cur_file. by rewrite Hpage'. }
  pose proof (ps_header _ _ _ _ (dk_cur _ _ _ Hdk3)) as Hh3. rewrite Hcur' in Hh3.
  pose proof (mb_range _ _ _ Hmb) as Hrg.
  unfold rotatePage. wstep. rewrite (mb_id _ _ _ Hmb).
  rewrite swrap_small by (unfold in_s; simpl; lia). wstep.
  erewrite bind_Ret by exact Hnext. rewrite Hpage. erewrite bind_Ret by exact Hfin.
  wstep. erewrite bind_Ret by (apply io_run;
    eapply firstFrameAddress_run; [exact Hnh|exact Hmap3|lia|exact Hh3]).
  eexists _, _. split; [done|].
  pose proof (rotate_spares w w2 w3 r r3 mw page new) as Hsp.
  destruct Hsome as [Hs1 Hs2 Hs3 Hs4 Hs5 Hs6 Hs7 Hs8 Hs9]. simpl in Hs8. split_and!.
  - split; [|simpl; by rewrite Hs1|simpl; by rewrite Hs3].
    change (Ptr (base_of new) 64) with (Ptr (base_of new) (page_end (aj_cur (a_rotate now j)))).
    apply members_install with c; rewrite ?Hcur', ?Hpage', ?Hs4; try done; try apply Hmb; [lia|..].
    + intros m Hm. rewrite Hs8 in Hm. eapply (warm_ok_finish w1 w2 w3); [apply Hmb|lia..|exact Ht2|exact Hun| |by apply Hwm].
      rewrite Hm. set_solver.
    + unfold warmed. by rewrite Hs8, app_assoc, Permutation_middle, <-app_assoc.
  - split; try done. simpl. intros Hn. rewrite Hs8. by apply Hnone.
  - apply Hsp; try done. intros b mp Hm. by apply (tc_maps _ _ _ Ht2), (tc_maps _ _ _ Ht1).
Qed.
End operations.

Section writing.
Context `{Env} `{!NoErrors} `{!EnvLaws} `{ILocator} `{!LocatorLaws}.

Lemma disk_new_frame w c j ts ty flags n :
  in_u 32 (dest_id_ c) → 64 ≤ page_size_ c → is_Some (w_files w !! cur_file c j) →
  disk w c j → 0 ≤ n ≤ 2 ^ 32 - 96 →
  page_end (aj_cur j) + framePhysicalLength (sizeof_FrameHeader + n) ≤ page_size_ c - FRAME_ALIGNMENT →
  in_s 64 ts → in_u 16 flags →
  disk_open (open_world w (cur_file c j) (page_end (aj_cur j)) ts ty flags (aj_seq j)) c j
    ts (u16 ty) flags n.
Proof.
  intros Hd Hsz Hfile [Har Hcur _] Hn Hfit Hts Hfl. pose proof (page_end_ge _ _ _ _ Hcur) as Hge.
  set (o := page_end (aj_cur j)) in *. set (w' := open_world _ _ _ _ _ _ _).
  pose proof (pa_seq _ _ _ Har) as Hseq. unfold sizeof_FrameHeader in Hfit.
  pose proof (framePhysicalLength_bounds (32 + n) ltac:(lia)) as [Hb _].
  split; try done; fold o; unfold_offsets; rewrite ?Z.add_0_r.
  - apply pages_around_touches with w; [done..|apply open_world_touches|done].
  - eapply header_ok_agree; [|apply Hcur]. apply open_world_agree. lia.
  - eapply laid_agree; [|apply Hcur]. fold o. unfold sizeof_PageHeader.
    apply open_world_agree. lia.
  - unfold w', open_world. mem_simpl. done.
  - unfold w', open_world. mem_simpl. by rewrite wrap_wrap.
  - unfold w', open_world. mem_simpl. by apply wrap_small.
  - unfold w', open_world. mem_simpl. by apply wrap_small.
  - unfold w', open_world. mem_simpl. by apply swrap_wrap.
  - unfold w', open_world. mem_simpl. done.
  - intros i Hi. unfold w'. rewrite (open_world_agree w _ o ts ty flags (aj_seq j) i 1) by lia.
    apply Hcur. fold o. lia.
Qed.

(** The stores of a new frame header, wherever there is room for one. *)
Lemma new_frame_stores w r b pa n o ts ty flags :
  mapped w b pa n true → 0 ≤ o → o + 32 ≤ n → current_frame_address_ r = Ptr b o →
  new_frame ts ty flags (w, r) =
    (Ret (Ptr b o), (open_world w pa o ts ty flags (current_sequence_ r),
                     set_sequence (u64 (current_sequence_ r + 1)) r)).
Proof.
  intros Hm Ho Hn Ha.
  unfold new_frame, setGenTime, setEventTime, setMsgType, setFlags, setSequence, nextSeq.
  wstep. rewrite Ha. unfold_offsets. by repeat wstep.
Qed.

Lemma new_frame_run w r j ts ty flags n :
  rep w r j → 0 ≤ n ≤ 2 ^ 32 - 96 → a_fits (page_size_ (wr_cfg r)) (framePhysicalLength (32 + n)) j = true →
  in_s 64 ts → in_u 16 flags →
  ∃ w' r', new_frame ts ty flags (w, r) = (Ret (current_frame_address_ r), (w', r')) ∧
    rep_open w' r' j ts (u16 ty) flags n ∧ kept r r' ∧ spares_others w w' r r' ∧
    current_frame_address_ r' = current_frame_address_ r.
Proof.
  intros [Hmb Hdk Hseq] Hn Hfit%Z.leb_le Hts Hfl. pose proof (members_size _ _ _ Hmb) as Hsz.
  pose proof (page_end_ge _ _ _ _ (dk_cur _ _ _ Hdk)) as Hge. unfold FRAME_ALIGNMENT in Hfit.
  pose proof (framePhysicalLength_bounds (32 + n) ltac:(lia)) as [Hb _].
  pose proof (mb_page _ _ _ Hmb) as (page&Hpage&Hmap&Haddr).
  set (pa := cur_file (wr_cfg r) j) in *. set (o := page_end (aj_cur j)) in *.
  exists (open_world w pa o ts ty flags (aj_seq j)), (set_sequence (u64 (aj_seq j + 1)) r). split_and!.
  - rewrite (new_frame_stores w r (base_of page) pa (page_size_ (wr_cfg r)) o) by (done || lia).
    by rewrite Hseq, Haddr.
  - split; [|apply disk_new_frame; [apply Hmb|simpl; lia| |done..]|done].
    + apply (members_touches w); [apply open_world_touches|]. by destruct Hmb.
    + eapply (mapped_file w (base_of page)); [|done]. lia.
  - by split.
  - eapply spares_others_touches; [apply open_world_touches|done].
  - done.
Qed.

(** The journal a frame of [stride] bytes goes to. *)
Definition a_room (size stride now : Z) (j : ajournal) : ajournal :=
  if a_fits size stride j then j else a_rotate now j.

Lemma a_rotate_fits size stride now j :
  stride ≤ size - 128 → a_fits size stride (a_rotate now j) = true.
Proof.
  intros. apply Z.leb_le. unfold page_end, FRAME_ALIGNMENT, sizeof_PageHeader. simpl. lia.
Qed.

Lemma the_page_run w r page : current_page_ r = Some page → the_page (w, r) = (Ret page, (w, r)).
Proof. intros Hp. unfold the_page. simpl. by rewrite Hp. Qed.

Lemma total_small n : 0 ≤ n ≤ 2 ^ 32 - 96 → u32 (u64 (32 + n)) = 32 + n.
Proof. intros. rewrite !wrap_small; unfold in_u; [done|lia|]. rewrite wrap_small; unfold in_u; lia. Qed.

Lemma openFrame_run w r j ts ty flags n :
  let stride := framePhysicalLength (32 + n) in
  let j' := a_room (page_size_ (wr_cfg r)) stride (env_clock (w_ticks w)) j in
  rep w r j → aj_page j + 1 < 2 ^ 31 →
  0 ≤ n ≤ 2 ^ 32 - 96 → stride ≤ page_size_ (wr_cfg r) - 128 → in_s 64 ts → in_u 16 flags →
  ∃ w' r', openFrame ts ty n flags (w, r) = (Ret (current_frame_address_ r'), (w', r')) ∧
    rep_open w' r' j' ts (u16 ty) flags n ∧ kept r r' ∧ spares_others w w' r r'.
Proof.
  intros stride j' Hrep Hid Hn Hstr Hts Hfl.
  pose proof (mb_page _ _ _ (rep_members _ _ _ Hrep)) as (page&Hpage&Hmap&Haddr).
  assert (pg_header page = Ptr (base_of page) 0) as Hph.
  { destruct (mb_live _ _ _ (rep_members _ _ _ Hrep)) as [_ Hall]. unfold held in Hall.
    rewrite Hpage in Hall. by apply Forall_inv in Hall as [? _]. }
  unfold openFrame. change sizeof_FrameHeader with 32. cbv zeta. rewrite total_small by done.
  fold stride. erewrite bind_Ret by by apply the_page_run. wstep. rewrite Haddr.
  unfold page_address, addr. rewrite Hph. cbn [p_base p_off ptr_add]. unfold FRAME_ALIGNMENT.
  unfold j', a_room. destruct (a_fits _ _ j) eqn:Hfit.
  - pose proof Hfit as Hfit'%Z.leb_le. unfold FRAME_ALIGNMENT in Hfit'.
    rewrite (proj2 (Z.ltb_ge _ _)) by lia. cbn [when]. wstep.
    destruct (new_frame_run w r j ts ty flags n) as (w'&r'&Hrun&Hro&Hk&Hsp&Ha); try done.
    exists w', r'. by rewrite Ha.
  - pose proof Hfit as Hfit'%Z.leb_gt. unfold FRAME_ALIGNMENT in Hfit'.
    rewrite (proj2 (Z.ltb_lt _ _)) by lia. cbn [when].
    destruct (rotatePage_run w r j) as (w1&r1&Hrot&Hrep1&Hk1&Hsp1); [done..|].
    erewrite bind_Ret by exact Hrot.
    destruct (new_frame_run w1 r1 (a_rotate (env_clock (w_ticks w)) j) ts ty flags n)
      as (w'&r'&Hrun&Hro&Hk&Hsp&Ha); try done.
    { apply a_rotate_fits. by rewrite (kp_cfg _ _ Hk1). }
    exists w', r'. rewrite Ha. split_and!; [done..|by eapply kept_trans|by eapply spares_others_trans].
Qed.

(** While a frame is open the payload area is the application's. *)
Lemma rep_open_payload w w' r j ts ty flags n :
  let pa := cur_file (wr_cfg r) j in
  let o := page_end (aj_cur j) in
  touches pa w w' → agree w w' pa 0 (o + 32) →
  agree w w' pa (o + 32 + n) (page_size_ (wr_cfg r) - (o + 32 + n)) →
  rep_open w r j ts ty flags n → rep_open w' r j ts ty flags n.
Proof.
  intros pa o Ht Hlow Hhigh [Hmb Hdo Hseq]. pose proof (members_size _ _ _ Hmb) as Hsz.
  pose proof (mb_dest _ _ _ Hmb) as Hd. pose proof (do_start _ _ _ _ _ _ _ Hdo) as Hge.
  split; [by eapply members_touches| |done]. destruct Hdo as [Har Hh Hl _ ? ? ? ? ? ? Htl ? ?].
  subst pa o. unfold_offsets.
  split; unfold_offsets; try (rewrite (fle_agree w w') by (eapply agree_sub; [exact Hlow|lia..])); try done.
  - by eapply pages_around_touches; [..|lia| |].
  - eapply header_ok_agree; [|done]. eapply agree_sub; [exact Hlow|lia..].
  - eapply laid_agree; [|done]. unfold sizeof_PageHeader. eapply agree_sub; [exact Hlow|lia..].
  - intros i Hi. rewrite Hhigh by lia. by apply Htl.
Qed.

(** The payload the frame has when it is published. *)
Definition slot_payload (w : world) (r : writer) (j : ajournal) (n : Z) : list Z :=
  fbytes w (cur_file (wr_cfg r) j) (page_end (aj_cur j) + 32) n.

Lemma page_end_append ts ty flags payload j :
  page_end (aj_cur (a_append ts ty flags payload j)) =
    page_end (aj_cur j) + framePhysicalLength (32 + Z.of_nat (length payload)).
Proof. simpl. by rewrite page_end_snoc. Qed.

Lemma members_advance w w' r j j' page e :
  members w r j → touches (cur_file (wr_cfg r) j) w w' → aj_page j' = aj_page j →
  current_page_ r = Some page → page_end (aj_cur j') = e →
  members w' (set_frame_address (Ptr (base_of page) e) r) j'.
Proof.
  intros Hmb Ht Hpg Hpage <-. apply (members_touches _ _ _ _ Ht) in Hmb.
  destruct Hmb as [? ? ? ? Hid ? (page'&Hpage'&Hmap&_)].
  assert (page' = page) as -> by congruence.
  split; rewrite ?Hpg; try done. exists page. split_and!; [done| |done].
  unfold cur_file. by rewrite Hpg.
Qed.

(** [closeFrame] publishes; the hook may touch the frame while it is open. *)
Lemma closeFrame_run w w1 r j ts ty flags n hook :
  rep_open w1 r j ts ty flags n →
  hook (current_frame_address_ r) w = (Ret tt, w1) →
  0 < ty < 2 ^ 16 → in_u 16 flags → in_s 64 ts → Forall (in_u 8) (slot_payload w1 r j n) →
  ∃ w' r', closeFrame (current_frame_address_ r) n hook (w, r) = (Ret tt, (w', r')) ∧
    rep w' r' (a_append ts ty flags (slot_payload w1 r j n) j) ∧ kept r r' ∧ spares_others w1 w' r r'.
Proof.
  intros [Hmb Hdo Hseq] Hhook Hty Hfl Hts Hpl. pose proof (members_size _ _ _ Hmb) as Hsz.
  pose proof (mb_page _ _ _ Hmb) as (page&Hpage&Hmap&Haddr).
  pose proof (do_start _ _ _ _ _ _ _ Hdo) as Hge. pose proof (do_size _ _ _ _ _ _ _ Hdo) as Hn.
  pose proof (do_fits _ _ _ _ _ _ _ Hdo) as Hfit. unfold_offsets.
  pose proof (framePhysicalLength_bounds (32 + n) ltac:(lia)) as [Hb _].
  assert (pg_header page = Ptr (base_of page) 0) as Hph.
  { destruct (mb_live _ _ _ Hmb) as [_ Hall]. unfold held in Hall.
    rewrite Hpage in Hall. by apply Forall_inv in Hall as [? _]. }
  rewrite Haddr in *. unfold closeFrame. change sizeof_FrameHeader with 32. cbv zeta.
  rewrite total_small by done. erewrite bind_Ret by by apply io_run. unfold_offsets. wstep.
  erewrite bind_Ret by by apply the_page_run. unfold setLastFramePosition, page_address. rewrite Hph.
  unfold_offsets. wstep. eexists _, _. split; [done|]. split; [|split; [by split|]].
  2:{ eapply (spares_others_touches (cur_file (wr_cfg r) j)); [etrans; apply touches_fwrite|done]. }
  set (pa := cur_file (wr_cfg r) j) in *. set (o := page_end (aj_cur j)) in *.
  unfold addr; cbn [p_base p_off]. replace (base_of page + o - (base_of page + 0)) with o by lia.
  fold (commit_world w1 pa o (32 + n)).
  assert (is_Some (w_files w1 !! pa)) as Hfile by (eapply mapped_file; [|done]; lia).
  split.
  - eapply members_advance; [done|apply commit_world_touches|done|done|].
    rewrite page_end_append. unfold slot_payload. by rewrite length_fbytes by lia.
  - apply (disk_close w1 (commit_world w1 pa o (32 + n))); try done; [apply Hmb|lia|..].
    + apply commit_world_touches.
    + apply commit_world_agree; lia.
    + apply commit_world_agree; lia.
    + apply commit_world_agree; lia.
    + unfold commit_world. mem_simpl. apply wrap_small. unfold in_u. lia.
    + unfold commit_world. mem_simpl. apply wrap_small. unfold in_u. lia.
  - done.
Qed.
End writing.

Section api.
Context `{Env} `{!NoErrors} `{!EnvLaws} `{ILocator} `{!LocatorLaws}.

Lemma rep_set_writing w r j b : rep w r j → rep w (set_writing b r) j.
Proof. intros [[]]. by split; [split|..]. Qed.

Lemma rep_open_set_writing w r j ts ty flags n b :
  rep_open w r j ts ty flags n → rep_open w (set_writing b r) j ts ty flags n.
Proof. intros [[]]. by split; [split|..]. Qed.

Lemma rep_set_open_frame w r j h : rep w r j → rep w (set_open_frame h r) j.
Proof. intros [[]]. by split; [split|..]. Qed.

(** A writer gets a warmer, or its warmer's ring changes. *)
Lemma rep_set_warmer w r j mw :
  (∀ m, mw = Some m → warm_ok w (wr_cfg r) (aj_page j) m) →
  pages_live w (held r ++ from_option warm_pages [] mw) → rep w r j → rep w (set_warmer mw r) j.
Proof. intros ?? [[]]. by split; [split|..]. Qed.

Lemma rep_open_set_open_frame w r j ts ty flags n h :
  rep_open w r j ts ty flags n → rep_open w (set_open_frame h r) j ts ty flags n.
Proof. intros [[]]. by split; [split|..]. Qed.

(** The lock is free again afterwards, whatever the policy. *)
Definition locked (r : writer) : writer :=
  if serialize (wr_cfg r) then set_writing true r else r.

Lemma with_lock_run {A} (m : W A) w r a w' r' :
  writing_ r = false → m (w, locked r) = (Ret a, (w', r')) → kept (locked r) r' →
  with_lock m (w, r) = (Ret a, (w', set_writing false r')).
Proof.
  intros Hw Hm Hk. unfold with_lock. wstep. unfold locked in *. destruct (serialize (wr_cfg r)).
  - unfold acquire_lock, bind at 1. simpl. rewrite Hw. unfold bind, try_catch. by rewrite Hm.
  - rewrite Hm. do 2 f_equal. destruct Hk as [_ Hk _], r'. simpl in *. unfold set_writing. simpl.
    by rewrite Hk, Hw.
Qed.

Lemma ensure_page_run w r j : members w r j → ensure_page (w, r) = (Ret tt, (w, r)).
Proof. intros Hmb. destruct (mb_page _ _ _ Hmb) as (page&Hp&_). unfold ensure_page. wstep. by rewrite Hp. Qed.

Lemma payload_fits size n :
  size `mod` 64 = 0 → 0 ≤ n ≤ size - 160 → size ≤ 2 ^ 27 →
  framePhysicalLength (32 + n) ≤ size - 128.
Proof.
  intros Hs Hn Hsz. rewrite framePhysicalLength_small by lia.
  pose proof (Z.div_mod size 64 ltac:(lia)). pose proof (Z.div_mod (32 + n + 63) 64 ltac:(lia)).
  pose proof (Z.mod_pos_bound (32 + n + 63) 64 ltac:(lia)). lia.
Qed.

Lemma members_mod w r j : members w r j → page_size_ (wr_cfg r) `mod` 64 = 0.
Proof. intros Hmb. rewrite (mb_cfg _ _ _ Hmb). apply findPageSize_bounds. Qed.

(** The payload store of [writeBytes]. *)
Lemma store_payload_run w r j ts ty flags data :
  let n := Z.of_nat (length data) in
  rep_open w r j ts ty flags n →
  ∃ w', when (0 <? n) (io (store_bytes (ptr_add (current_frame_address_ r) sizeof_FrameHeader) data))
          (w, r) = (Ret tt, (w', r)) ∧
    rep_open w' r j ts ty flags n ∧ slot_payload w' r j n = data ∧ spares_others w w' r r.
Proof.
  intros n Hro. destruct (Z.ltb_spec 0 n) as [Hpos|Hz]; cbn [when].
  - pose proof Hro as [Hmb Hdo _]. pose proof (members_size _ _ _ Hmb) as Hsz.
    pose proof (mb_page _ _ _ Hmb) as (page&Hpage&Hmap&Haddr).
    pose proof (do_start _ _ _ _ _ _ _ Hdo) as Hge. pose proof (do_fits _ _ _ _ _ _ _ Hdo) as Hfit.
    pose proof (do_size _ _ _ _ _ _ _ Hdo) as Hn. unfold_offsets.
    pose proof (framePhysicalLength_bounds (32 + n) ltac:(lia)) as [Hb _].
    rewrite Haddr. set (pa := cur_file _ _) in *. set (o := page_end _) in *.
    exists (fwrite w pa (o + 32) data). split_and!.
    + apply io_run. eapply (store_bytes_run w (Ptr (base_of page) (o + 32)) pa); [done|cbn; lia..].
    + eapply rep_open_payload; [apply touches_fwrite|..|done]; apply agree_fwrite; unfold apart;
        fold o n; lia.
    + unfold slot_payload. fold pa o. apply fbytes_fwrite_eq; [|done].
      eapply mapped_file; [|done]. lia.
    + by eapply spares_others_touches; [apply touches_fwrite|].
  - exists w. split; [done|]. split; [done|]. unfold n in *. destruct data; [|simpl in *; lia].
    split; [|by intros b mp]. unfold slot_payload. simpl. apply nil_length_inv, Nat2Z.inj. by rewrite length_fbytes.
Qed.

(** The body of [writeBytes], under the lock or not. *)
Lemma write_body_run w r j ts ty data :
  let n := Z.of_nat (length data) in
  let j' := a_write (page_size_ (wr_cfg r)) (env_clock (w_ticks w)) ts ty FRAME_NORMAL data j in
  rep w r j → aj_page j + 1 < 2 ^ 31 → 0 < ty < 2 ^ 16 → in_s 64 ts →
  Forall (in_u 8) data → n ≤ page_size_ (wr_cfg r) - 160 →
  ∃ w' r',
    (do! ensure_page in
     let! hdr := openFrame ts ty n FRAME_NORMAL in
     do! when (0 <? n) (io (store_bytes (ptr_add hdr sizeof_FrameHeader) data)) in
     closeFrame hdr n no_hook) (w, r) = (Ret tt, (w', r')) ∧ rep w' r' j' ∧ kept r r' ∧ spares_others w w' r r'.
Proof.
  intros n j' Hrep Hid Hty Hts Hdata Hn. pose proof (rep_members _ _ _ Hrep) as Hmb.
  pose proof (members_size _ _ _ Hmb) as Hsz. pose proof (members_mod _ _ _ Hmb) as Hmod.
  erewrite bind_Ret by by eapply ensure_page_run.
  destruct (openFrame_run w r j ts ty FRAME_NORMAL n) as (w1&r1&Hopen&Hro&Hk1&Hsp1);
    [done..|lia|apply payload_fits; lia|done|done|].
  erewrite bind_Ret by exact Hopen.
  destruct (store_payload_run _ _ _ _ _ _ data Hro) as (w2&Hst&Hro2&Hpl&Hsp2). fold n in Hst, Hro2, Hpl.
  erewrite bind_Ret by exact Hst.
  destruct (closeFrame_run w2 w2 r1 _ _ _ _ _ no_hook Hro2) as (w3&r3&Hclose&Hrep3&Hk3&Hsp3); [done|..].
  { rewrite wrap_small; [done|]. unfold in_u. lia. }
  { done. }
  { done. }
  { by rewrite Hpl. }
  exists w3, r3. split; [done|]. split; [|split].
  - rewrite Hpl, wrap_small in Hrep3 by (unfold in_u; lia). done.
  - by eapply kept_trans.
  - do 2 (eapply spares_others_trans; [done|]). done.
Qed.

Lemma page_bases_locked r : page_bases (locked r) = page_bases r.
Proof. unfold locked. by case_match. Qed.
Lemma spares_locked w w' r r' : spares_others w w' (locked r) r' → spares_others w w' r r'.
Proof. unfold spares_others. by rewrite page_bases_locked. Qed.
End api.

Lemma writeBytes_run `{Env} `{!NoErrors} `{!EnvLaws} `{ILocator} `{!LocatorLaws}
    w r j ts ty data :
  rep w r j → writing_ r = false → aj_page j + 1 < 2 ^ 31 → 0 < ty < 2 ^ 16 → in_s 64 ts →
  Forall (in_u 8) data → Z.of_nat (length data) ≤ page_size_ (wr_cfg r) - 160 →
  ∃ w' r', writeBytes ts ty data (w, r) = (Ret tt, (w', r')) ∧
    rep w' r' (a_write (page_size_ (wr_cfg r)) (env_clock (w_ticks w)) ts ty FRAME_NORMAL data j) ∧
    wr_cfg r' = wr_cfg r ∧ writing_ r' = false ∧ open_frame_header_ r' = open_frame_header_ r ∧
    spares_others w w' r r'.
Proof.
  intros Hrep Hw Hid Hty Hts Hdata Hn.
  assert (wr_cfg (locked r) = wr_cfg r) as Hc by (unfold locked; by case_match).
  assert (open_frame_header_ (locked r) = open_frame_header_ r) as Ho by (unfold locked; by case_match).
  destruct (write_body_run w (locked r) j ts ty data) as (w'&r'&Hrun&Hrep'&Hk&Hsp); try done.
  { unfold locked. case_match; [by apply rep_set_writing|done]. }
  { by rewrite Hc. }
  exists w', (set_writing false r'). split; [by apply with_lock_run|]. rewrite <-Hc.
  split; [by apply rep_set_writing|]. simpl. destruct Hk as [Hk1 Hk2 Hk3 _].
  split_and!; try congruence.
  by apply spares_locked.
Qed.

(** C7: [JournalWriter::writeBytes] implements the abstract append: a writer
    that stands for journal [j] returns, with the lock free, a writer and files
    that stand for [j] with exactly one more frame -- the caller's type,
    timestamp and payload, the next sequence number -- and, if the frame did
    not fit the page, a [PageEnd] frame before it and a new page.  Every frame
    written earlier, on this page and on the closed ones, is unchanged. *)
Theorem writeBytes_refines `{Env} `{!NoErrors} `{!EnvLaws} `{ILocator} `{!LocatorLaws}
    w r j ts ty data :
  rep w r j → writing_ r = false → aj_page j + 1 < 2 ^ 31 → 0 < ty < 2 ^ 16 → in_s 64 ts →
  Forall (in_u 8) data → Z.of_nat (length data) ≤ page_size_ (wr_cfg r) - 160 →
  ∃ w' r', writeBytes ts ty data (w, r) = (Ret tt, (w', r')) ∧
    rep w' r' (a_write (page_size_ (wr_cfg r)) (env_clock (w_ticks w)) ts ty FRAME_NORMAL data j) ∧
    wr_cfg r' = wr_cfg r ∧ writing_ r' = false ∧ open_frame_header_ r' = open_frame_header_ r.
Proof.
  intros Hrep Hw Hid Hty Hts Hdata Hn.
  destruct (writeBytes_run w r j ts ty data Hrep Hw Hid Hty Hts Hdata Hn) as (w'&r'&?&?&?&?&?&_).
  by exists w', r'.
Qed.
