(* ===== verification/WriterApi.v ===== *)
(** * WriterApi: the typed interface, the lock, errors and the end of a writer

    [openData] and [closeData] as one write with the application's stores in
    between; what the write lock does on every path out of an operation; what
    becomes of a payload no page can hold; the destructor. *)

From S2P Require Import Prelude Memory Frame Base Mmap Page Warmer Writer WriterState.
From S2P Require Import WriterSpec.

Section typed.
Context `{Env} `{!NoErrors} `{!EnvLaws} `{ILocator} `{!LocatorLaws}.

Lemma kept_locked r r' : kept (locked r) r' → wr_cfg r' = wr_cfg r ∧
  open_frame_header_ r' = open_frame_header_ r ∧
  writing_ r' = (if serialize (wr_cfg r) then true else writing_ r).
Proof. intros [Hc Hw Ho _]. unfold locked in *. by destruct (serialize (wr_cfg r)). Qed.

Lemma rep_locked w r j : rep w r j → rep w (locked r) j.
Proof. intros Hrep. unfold locked. case_match; [by apply rep_set_writing|done]. Qed.

Lemma openData_run w r j n ts ty flags :
  let j' := a_room (page_size_ (wr_cfg r)) (framePhysicalLength (32 + n)) (env_clock (w_ticks w)) j in
  rep w r j → writing_ r = false → aj_page j + 1 < 2 ^ 31 → in_s 64 ts → in_u 16 flags →
  0 ≤ n ≤ page_size_ (wr_cfg r) - 160 →
  ∃ w' r', openData n ts ty flags (w, r) = (Ret (ptr_add (current_frame_address_ r') 32), (w', r')) ∧
    rep_open w' r' j' ts (u16 ty) flags n ∧ wr_cfg r' = wr_cfg r ∧
    open_frame_header_ r' = Some (current_frame_address_ r') ∧ writing_ r' = serialize (wr_cfg r) ∧
    spares_others w w' r r'.
Proof.
  intros j' Hrep Hw Hid Hts Hfl Hn.
  pose proof (members_size _ _ _ (rep_members _ _ _ Hrep)) as Hsz.
  pose proof (members_mod _ _ _ (rep_members _ _ _ Hrep)) as Hmod.
  assert (wr_cfg (locked r) = wr_cfg r) as Hc by (unfold locked; by case_match).
  destruct (openFrame_run w (locked r) j ts ty flags n) as (w'&r'&Hrun&Hro&Hk&Hsp);
    [by apply rep_locked|done|lia|rewrite Hc; apply payload_fits; lia|done|done|].
  destruct (kept_locked _ _ Hk) as (Hc'&_&Hw'). rewrite Hc in Hro. fold j' in Hro.
  exists w', (set_open_frame (Some (current_frame_address_ r')) r'). split; [|split_and!].
  - unfold openData. wstep.
    assert (when (serialize (wr_cfg r)) acquire_lock (w, r) = (Ret tt, (w, locked r))) as Hlock.
    { unfold locked. destruct (serialize (wr_cfg r)); [|done]. cbn [when].
      unfold acquire_lock. simpl. by rewrite Hw. }
    erewrite bind_Ret by exact Hlock.
    erewrite bind_Ret by (eapply ensure_page_run, rep_members, rep_locked; exact Hrep).
    by erewrite bind_Ret by exact Hrun.
  - by apply rep_open_set_open_frame.
  - done.
  - done.
  - simpl. rewrite Hw', Hw. by destruct (serialize (wr_cfg r)).
  - by apply spares_locked in Hsp.
Qed.

Lemma closeData_run w w1 r j ts ty flags n hook :
  rep_open w1 r j ts ty flags n → hook (current_frame_address_ r) w = (Ret tt, w1) →
  open_frame_header_ r = Some (current_frame_address_ r) → writing_ r = serialize (wr_cfg r) →
  0 < ty < 2 ^ 16 → in_u 16 flags → in_s 64 ts → Forall (in_u 8) (slot_payload w1 r j n) →
  ∃ w' r', closeData n hook (w, r) = (Ret tt, (w', r')) ∧
    rep w' r' (a_append ts ty flags (slot_payload w1 r j n) j) ∧
    wr_cfg r' = wr_cfg r ∧ open_frame_header_ r' = None ∧ writing_ r' = false ∧
    spares_others w1 w' r r'.
Proof.
  intros Hro Hhook Hopen Hw Hty Hfl Hts Hpl.
  destruct (closeFrame_run w w1 r j ts ty flags n hook) as (w'&r'&Hrun&Hrep&[Hc Hwr Ho _]&Hsp); [done..|].
  unfold closeData. wstep. rewrite Hopen.
  erewrite bind_Ret by (apply try_catch_Ret; by erewrite bind_Ret by exact Hrun).
  destruct (serialize (wr_cfg r)) eqn:Hser; cbn [when].
  - eexists _, _. split; [done|]. split; [by apply rep_set_writing, rep_set_open_frame|done].
  - eexists _, _. split; [done|]. split; [by apply rep_set_open_frame|]. simpl. by rewrite Hwr, Hw.
Qed.
End typed.

(** C8: The typed interface is one write.  [openData] returns the address of
    [size] payload bytes in the mapped page, holding the lock if writers are
    serialised; whatever the application then stores there -- and nowhere else
    -- [closeData] commits it: writer and files stand for the journal with
    exactly that frame appended, no frame is open and the lock is free. *)
Theorem openData_closeData_refines `{Env} `{!NoErrors} `{!EnvLaws} `{ILocator} `{!LocatorLaws}
    w r j n ts ty flags :
  rep w r j → writing_ r = false → aj_page j + 1 < 2 ^ 31 → 0 < ty < 2 ^ 16 → in_s 64 ts →
  in_u 16 flags → 0 ≤ n ≤ page_size_ (wr_cfg r) - 160 →
  ∃ w1 r1 pa b off,
    openData n ts ty flags (w, r) = (Ret (Ptr b off), (w1, r1)) ∧
    mapped w1 b pa (page_size_ (wr_cfg r)) true ∧ 0 ≤ off ∧ off + n ≤ page_size_ (wr_cfg r) ∧
    writing_ r1 = serialize (wr_cfg r) ∧
    ∀ w2 data,
      touches pa w1 w2 → agree w1 w2 pa 0 off →
      agree w1 w2 pa (off + n) (page_size_ (wr_cfg r) - (off + n)) →
      fbytes w2 pa off n = data → Forall (in_u 8) data →
      ∃ w3 r3, closeData n no_hook (w2, r1) = (Ret tt, (w3, r3)) ∧
        rep w3 r3 (a_write (page_size_ (wr_cfg r)) (env_clock (w_ticks w)) ts ty flags data j) ∧
        open_frame_header_ r3 = None ∧ writing_ r3 = false.
Proof.
  intros Hrep Hw Hid Hty Hts Hfl Hn.
  destruct (openData_run w r j n ts ty flags) as (w1&r1&Hopen&Hro&Hc&Ho&Hw1&_); [done..|].
  rewrite wrap_small in Hro by (unfold in_u; lia). set (j' := a_room _ _ _ _) in Hro.
  pose proof (mb_page _ _ _ (ro_members _ _ _ _ _ _ _ Hro)) as (page&_&Hmap&Haddr).
  pose proof (do_start _ _ _ _ _ _ _ (ro_disk _ _ _ _ _ _ _ Hro)) as Hge.
  pose proof (do_fits _ _ _ _ _ _ _ (ro_disk _ _ _ _ _ _ _ Hro)) as Hfit.
  pose proof (do_size _ _ _ _ _ _ _ (ro_disk _ _ _ _ _ _ _ Hro)) as Hsz. unfold_offsets.
  pose proof (framePhysicalLength_bounds (32 + n) ltac:(lia)) as [Hb _]. rewrite Hc in Hfit, Hmap.
  rewrite Haddr in Hopen. exists w1, r1, (cur_file (wr_cfg r1) j'), (base_of page), (page_end (aj_cur j') + 32).
  rewrite Hc. split_and!; [exact Hopen|done|lia|lia|done|].
  intros w2 data Ht Hlow Hhigh Hpl Hdata. rewrite <-Hc in Hhigh, Ht, Hlow, Hpl.
  pose proof (rep_open_payload w1 w2 r1 j' ts ty flags n Ht Hlow Hhigh Hro) as Hro2.
  destruct (closeData_run w2 w2 r1 j' ts ty flags n no_hook) as (w3&r3&Hclose&Hrep3&_&Ho3&Hw3&_); try done.
  { by rewrite Hw1, Hc. }
  { unfold slot_payload. by rewrite Hpl. }
  exists w3, r3. split_and!; try done. unfold slot_payload in Hrep3. rewrite Hpl in Hrep3.
  unfold a_write, a_room in *. replace (Z.of_nat (length data)) with n; [done|].
  rewrite <-Hpl, length_fbytes; lia.
Qed.

(** ** The write lock on every path *)

(** [m] leaves [obs] of the members as it found it, on every path out. *)
Definition keeps {X A} (obs : writer → X) (m : W A) : Prop := ∀ s, obs (m s).2.2 = obs s.2.

Section keeps.
Context {X : Type} (obs : writer → X).

Lemma keeps_bind {A B} (m : W A) (k : A → W B) :
  keeps obs m → (∀ a, keeps obs (k a)) → keeps obs (bind m k).
Proof.
  intros Hm Hk s. unfold bind. specialize (Hm s).
  destruct (m s) as [[a|e|f] s']; simpl in *; [|done..]. by rewrite Hk.
Qed.
Lemma keeps_ret {A} (a : A) : keeps obs (ret a).
Proof. by intros s. Qed.
Lemma keeps_throw {A} e : keeps obs (throw e : W A).
Proof. by intros s. Qed.
Lemma keeps_crash {A} f : keeps obs (crash f : W A).
Proof. by intros s. Qed.
Lemma keeps_this : keeps obs this.
Proof. by intros s. Qed.
Lemma keeps_page : keeps obs the_page.
Proof. intros s. unfold the_page. by case_match. Qed.
Lemma keeps_io {A} (m : M world A) : keeps obs (io m).
Proof. intros [w r]. unfold io, lift_fst. simpl. by destruct (m w). Qed.
Lemma keeps_update f : (∀ r, obs (f r) = obs r) → keeps obs (update f).
Proof. intros Hf [w r]. apply Hf. Qed.
Lemma keeps_catch {A} (m : W A) h :
  keeps obs m → (∀ e, keeps obs (h e)) → keeps obs (try_catch m h).
Proof.
  intros Hm Hh s. unfold try_catch. specialize (Hm s).
  destruct (m s) as [[a|e|f] s']; simpl in *; [done| |done]. by rewrite Hh.
Qed.
Lemma keeps_when b m : keeps obs m → keeps obs (when b m).
Proof. destruct b; [done|]. intros _. apply keeps_ret. Qed.
End keeps.

Create HintDb keeps discriminated.
#[export] Hint Resolve keeps_bind keeps_ret keeps_throw keeps_crash
  keeps_this keeps_page keeps_io keeps_catch keeps_when : keeps.

(** Decides [keeps] of a computation that matches on data. *)
Ltac lock_tac :=
  repeat first
    [ progress (eauto with keeps)
    | apply keeps_bind; [|intros]
    | apply keeps_catch; [|intros]
    | apply keeps_when
    | case_match ].

Section paths.
Context `{Env} `{ILocator} {X : Type} (obs : writer → X).

(** The members a write changes are none of those [obs] looks at. *)
Class Stable : Prop := {
  st_seq n r : obs (set_sequence n r) = obs r;
  st_id n r : obs (set_page_id n r) = obs r;
  st_page p r : obs (set_page p r) = obs r;
  st_addr a r : obs (set_frame_address a r) = obs r;
  st_warmer m r : obs (set_warmer m r) = obs r;
  st_retired ps r : obs (set_retired ps r) = obs r;
  st_queue ps r : obs (set_queue ps r) = obs r
}.
Context `{!Stable}.

#[local] Hint Extern 1 (keeps _ (update _)) =>
  apply keeps_update; intros;
  rewrite ?st_seq, ?st_id, ?st_page, ?st_addr, ?st_warmer, ?st_retired, ?st_queue;
  reflexivity : keeps.

Lemma nextSeq_keeps : keeps obs nextSeq.
Proof. unfold nextSeq. lock_tac. Qed.
#[local] Hint Resolve nextSeq_keeps : keeps.

Lemma retire_overflow_keeps n : keeps obs (retire_overflow n).
Proof. induction n as [|n IH]; cbn [retire_overflow]; lock_tac. Qed.
#[local] Hint Resolve retire_overflow_keeps : keeps.

Lemma next_page_keeps id : keeps obs (next_page id).
Proof. unfold next_page. lock_tac. Qed.
#[local] Hint Resolve next_page_keeps : keeps.

Lemma finish_page_keeps p : keeps obs (finish_page p).
Proof. unfold finish_page, write_PageEnd. lock_tac. Qed.
#[local] Hint Resolve finish_page_keeps : keeps.

Lemma rotatePage_keeps : keeps obs rotatePage.
Proof. unfold rotatePage. lock_tac. Qed.
#[local] Hint Resolve rotatePage_keeps : keeps.

Lemma openFrame_keeps ts ty n flags : keeps obs (openFrame ts ty n flags).
Proof. unfold openFrame, new_frame. lock_tac. Qed.
#[local] Hint Resolve openFrame_keeps : keeps.

Lemma closeFrame_keeps h n hook : keeps obs (closeFrame h n hook).
Proof. unfold closeFrame. lock_tac. Qed.

Lemma ensure_page_keeps : keeps obs ensure_page.
Proof. unfold ensure_page. lock_tac. Qed.
End paths.
#[export] Hint Resolve nextSeq_keeps retire_overflow_keeps next_page_keeps finish_page_keeps
  rotatePage_keeps openFrame_keeps closeFrame_keeps ensure_page_keeps : keeps.

#[export] Instance writing_stable : Stable writing_.
Proof. by split. Qed.
#[export] Instance cfg_stable : Stable wr_cfg.
Proof. by split. Qed.
#[export] Hint Resolve writing_stable cfg_stable : keeps.
#[export] Hint Extern 1 (keeps _ (update _)) =>
  apply keeps_update; intros; reflexivity : keeps.

(** Throwing under [with_lock] releases the lock. *)
Lemma with_lock_throw {A} (m : W A) w r e w' r' :
  keeps writing_ m → writing_ r = false → with_lock m (w, r) = (Throw e, (w', r')) → writing_ r' = false.
Proof.
  intros Hm Hw. unfold with_lock. wstep. pose proof (Hm (w, r)) as Hm1. simpl in Hm1.
  destruct (serialize (wr_cfg r)).
  2:{ intros Hrun. rewrite Hrun in Hm1. simpl in Hm1. congruence. }
  unfold acquire_lock, bind at 1. simpl. rewrite Hw. unfold bind at 1, try_catch.
  destruct (m (w, set_writing true r)) as [[a|e'|f] [w1 r1]]; simpl; intros [=]. by subst.
Qed.

(** C20: The scoped lock is exception safe: when [writeBytes] (and so [mark])
    throws -- the next page cannot be created, whichever system call fails --
    the lock is free, and the next writer can go on. *)
Theorem writeBytes_throw_unlocks `{Env} `{ILocator} w r ts ty data e w' r' :
  writing_ r = false → writeBytes ts ty data (w, r) = (Throw e, (w', r')) → writing_ r' = false.
Proof. intros Hw. apply with_lock_throw; [|done]. lock_tac. Qed.

(** C21: The split lock of the typed interface is not: when [openData] throws
    under the multi-writer policy it leaves the lock taken, and every later
    write of any thread spins for ever. *)
Theorem openData_throw_keeps_lock `{Env} `{ILocator} w r n ts ty flags e w' r' :
  serialize (wr_cfg r) = true → writing_ r = false →
  openData n ts ty flags (w, r) = (Throw e, (w', r')) →
  writing_ r' = true ∧
  ∀ ts' ty' data, writeBytes ts' ty' data (w', r') = (Fault Spin, (w', r')).
Proof.
  intros Hs Hw Hrun. assert (writing_ r' = true ∧ wr_cfg r' = wr_cfg r) as [Hw' Hc].
  { unfold openData in Hrun. rewrite (bind_Ret _ _ _ _ _ (this_run _ _)), Hs in Hrun. cbn [when] in Hrun.
    unfold acquire_lock, bind at 1 in Hrun. simpl in Hrun. rewrite Hw in Hrun.
    match type of Hrun with ?m ?s = _ =>
      assert (keeps writing_ m) as Hk1 by lock_tac; assert (keeps wr_cfg m) as Hk2 by lock_tac;
      specialize (Hk1 s); specialize (Hk2 s) end.
    rewrite Hrun in Hk1, Hk2. done. }
  split; [done|]. intros ts' ty' data. unfold writeBytes, with_lock. wstep. rewrite Hc, Hs.
  unfold acquire_lock, bind at 1. simpl. by rewrite Hw'.
Qed.

(** [closeData] without an open frame throws, changes no byte -- and under
    the multi-writer policy it clears the lock even when another thread holds
    it. *)
Lemma closeData_without_frame `{Env} `{ILocator} w r n hook :
  open_frame_header_ r = None →
  closeData n hook (w, r) =
    (Throw RuntimeError, (w, if serialize (wr_cfg r) then set_writing false r else r)).
Proof. intros Ho. unfold closeData. wstep. rewrite Ho. by destruct (serialize (wr_cfg r)). Qed.

(** ** Payloads no page can hold *)

Section oversized.
Context `{Env} `{!NoErrors} `{!EnvLaws} `{ILocator} `{!LocatorLaws}.

Lemma store_beyond w b pa n wr off bs :
  w_maps w !! b = Some (Mapping pa n wr) → 0 ≤ off → n < off + Z.of_nat (length bs) →
  store_bytes (Ptr b off) bs w = (Fault Sigsegv, w).
Proof.
  intros Hm Hoff Hn. unfold store_bytes, locate. cbn [p_base p_off]. rewrite Hm. cbn [m_size].
  rewrite (proj2 (Z.leb_le 0 off)), (proj2 (Z.leb_gt _ _)) by lia. done.
Qed.

(** A large frame that does not even fit an empty page. *)
Lemma oversized_stride size n :
  2 ^ 21 ≤ size ≤ 2 ^ 27 → size - 96 < n ≤ 2 ^ 32 - 96 → size - 64 < framePhysicalLength (32 + n).
Proof.
  intros Hs Hn. pose proof (framePhysicalLength_bounds (32 + n) ltac:(lia)) as [Hb _]. lia.
Qed.

Lemma open_oversized w r j ts ty flags n :
  rep w r j → aj_page j + 1 < 2 ^ 31 → page_size_ (wr_cfg r) - 96 < n ≤ 2 ^ 32 - 96 →
  ∃ w' r' b pa, openFrame ts ty n flags (w, r) = (Ret (Ptr b 64), (w', r')) ∧
    w_maps w' !! b = Some (Mapping pa (page_size_ (wr_cfg r)) true).
Proof.
  intros Hrep Hid Hn. pose proof (members_size _ _ _ (rep_members _ _ _ Hrep)) as Hsz.
  pose proof (mb_page _ _ _ (rep_members _ _ _ Hrep)) as (page&Hpage&Hmap&Haddr).
  pose proof (page_end_ge _ _ _ _ (dk_cur _ _ _ (rep_disk _ _ _ Hrep))) as Hge.
  assert (pg_header page = Ptr (base_of page) 0) as Hph.
  { destruct (mb_live _ _ _ (rep_members _ _ _ Hrep)) as [_ Hall]. unfold held in Hall.
    rewrite Hpage in Hall. by apply Forall_inv in Hall as [? _]. }
  pose proof (oversized_stride _ _ Hsz Hn) as Hstr.
  destruct (rotatePage_run w r j Hrep Hid) as (w1&r1&Hrot&Hrep1&Hk1&_).
  pose proof (mb_page _ _ _ (rep_members _ _ _ Hrep1)) as (page1&_&Hmap1&Haddr1).
  rewrite (kp_cfg _ _ Hk1) in Hmap1. set (pa := cur_file _ _) in Hmap1.
  eexists _, _, (base_of page1), pa. split.
  - unfold openFrame. change sizeof_FrameHeader with 32. cbv zeta. rewrite total_small by lia.
    erewrite bind_Ret by by apply the_page_run. wstep. rewrite Haddr.
    unfold page_address, addr. rewrite Hph. cbn [p_base p_off ptr_add]. unfold FRAME_ALIGNMENT.
    rewrite (proj2 (Z.ltb_lt _ _)) by lia. cbn [when].
    erewrite bind_Ret by exact Hrot.
    apply (new_frame_stores w1 r1 (base_of page1) pa (page_size_ (wr_cfg r)) 64); [done|lia|lia|exact Haddr1].
  - pose proof (open_world_touches w1 pa 64 ts ty flags (current_sequence_ r1)) as Ht.
    apply (tc_maps _ _ _ Ht). by destruct Hmap1.
Qed.
End oversized.

Lemma with_lock_fault {A} (m : W A) w r f s :
  writing_ r = false → m (w, locked r) = (Fault f, s) → with_lock m (w, r) = (Fault f, s).
Proof.
  intros Hw Hm. unfold with_lock. wstep. unfold locked in Hm. destruct (serialize (wr_cfg r)); [|done].
  unfold acquire_lock, bind at 1. simpl. rewrite Hw. unfold bind, try_catch. by rewrite Hm.
Qed.


(** ** The end of a writer *)

Section destructor.
Context `{Env} `{!NoErrors} `{!EnvLaws} `{ILocator} `{!LocatorLaws}.

(** [ps] were unmapped and nothing else happened. *)
Record released (w w' : world) (ps : list Page) : Prop := {
  rl_files : w_files w' = w_files w;
  rl_gone p : p ∈ ps → w_maps w' !! base_of p = None;
  rl_rest b : b ∉ base_of <$> ps → w_maps w' !! b = w_maps w !! b
}.

Lemma released_app w1 w2 w3 ps qs :
  (∀ p, p ∈ ps → base_of p ∉ base_of <$> qs) →
  released w1 w2 ps → released w2 w3 qs → released w1 w3 (ps ++ qs).
Proof.
  intros Hd [] []. split; [congruence| |].
  - intros p [Hp|Hp]%elem_of_app; [|by auto]. rewrite rl_rest1 by by apply Hd. auto.
  - intros b Hb. rewrite fmap_app, not_elem_of_app in Hb. destruct Hb. by rewrite rl_rest1, rl_rest0.
Qed.

Lemma unmapped_released w w' p :
  w_files w' = w_files w → w_maps w' = delete (base_of p) (w_maps w) → released w w' [p].
Proof.
  intros Hf Hm. split; [done| |].
  - intros q ->%list_elem_of_singleton. by rewrite Hm, lookup_delete_eq.
  - intros b Hb. rewrite Hm, lookup_delete_ne; [done|]. intros <-. apply Hb. by left.
Qed.

Lemma Page_release_released w p :
  page_live w p → ∃ w', Page_release p w = (Ret tt, w') ∧ released w w' [p].
Proof.
  intros (Hp&Ho&_). destruct (Page_release_run w p (base_of p)) as (w'&Hrun&Hf&_&_&Hm); [done..|].
  exists w'. split; [done|]. by apply unmapped_released.
Qed.

Lemma released_nil w : released w w [].
Proof. split; [done|by intros p Hp%elem_of_nil|done]. Qed.

Lemma released_perm w w' ps qs : ps ≡ₚ qs → released w w' ps → released w w' qs.
Proof.
  intros Hp [Hf Hg Hk]. split; [done| |].
  - intros p Hin. apply Hg. by rewrite Hp.
  - intros b Hb. apply Hk. by rewrite Hp.
Qed.

#[export] Instance released_proper w w' : Proper (Permutation ==> iff) (released w w').
Proof. intros ps qs Hp. split; by apply released_perm. Qed.

(** Releasing some of the live pages leaves the others live. *)
Lemma released_live w w' ps qs : released w w' ps → pages_live w (ps ++ qs) → pages_live w' qs.
Proof.
  intros Hr Hlive. pose proof Hlive as [Hnd Hall]. rewrite fmap_app in Hnd.
  apply NoDup_app in Hnd as (_&Hd&Hnd). apply Forall_app in Hall as [_ Hall]. split; [done|].
  rewrite Forall_forall in Hall |- *. intros q Hq. destruct (Hall q Hq) as (?&?&?).
  split_and!; [done..|]. rewrite (rl_rest _ _ _ Hr); [done|]. intros Hin.
  apply (Hd _ Hin). by apply list_elem_of_fmap_2.
Qed.

(** Two releases in a row. *)
Lemma release_then {A} (m : M world A) w w1 a ps qs :
  pages_live w (ps ++ qs) → released w w1 ps →
  (pages_live w1 qs → ∃ w2, m w1 = (Ret a, w2) ∧ released w1 w2 qs) →
  ∃ w2, m w1 = (Ret a, w2) ∧ released w w2 (ps ++ qs).
Proof.
  intros Hlive Hr Hm. destruct Hm as (w2&Hrun&Hr2); [by eapply released_live|].
  exists w2. split; [done|]. eapply released_app; [|done..].
  intros p. by eapply pages_live_disjoint.
Qed.

Lemma release_all_run w ps :
  pages_live w ps → ∃ w', release_all ps w = (Ret tt, w') ∧ released w w' ps.
Proof.
  revert w; induction ps as [|p ps IH]; intros w Hlive; cbn [release_all].
  { exists w. split; [done|apply released_nil]. }
  destruct (Page_release_released w p) as (w1&Hrun&Hr1); [by apply pages_live_cons in Hlive as [? _]|].
  erewrite bind_Ret by exact Hrun. apply (release_then _ w w1 tt [p] ps); [done|done|apply IH].
Qed.

(** The warmer's slots are unmapped, each page once. *)
Lemma release_slots_run w m ring :
  pages_live w (ring ≫= warm_page m) →
  ∃ ring' w', release_slots ring w = (Ret ring', w') ∧ released w w' (ring ≫= warm_page m).
Proof.
  revert w; induction ring as [|s ring IH]; intros w Hlive; cbn [release_slots].
  { exists [], w. split; [done|apply released_nil]. }
  rewrite bind_cons in Hlive |- *.
  assert (∃ s' w1, match sl_owned s, sl_address s with
    | true, Some a =>
        let! _ok := releaseMmapBuffer (Some a) false NONE in
        ret (MkSlot (sl_page_id s) None (sl_size s) (sl_sequence s) false)
    | _, _ => ret s
    end w = (Ret s', w1) ∧ released w w1 (warm_page m s)) as (s'&w1&Hrun&Hr1).
  { unfold warm_page in *. destruct (sl_owned s); [|by exists s, w; split; [|apply released_nil]].
    destruct (sl_address s) as [a|]; [|by exists s, w; split; [|apply released_nil]].
    apply pages_live_cons in Hlive as ((Ha&_&_)&_&_).
    set (q := MkPage _ _ _ _ _ a _) in *. change (a = Ptr (base_of q) 0) in Ha. destruct (unmap_run w (p_base a) false NONE) as (ok&w1&Hrun&Hf&_&_&Hm).
    eexists _, w1. split; [|by apply unmapped_released]. change (p_base a) with (base_of q) in Hrun.
    rewrite <-Ha in Hrun. by erewrite bind_Ret by exact Hrun. }
  erewrite bind_Ret by exact Hrun.
  destruct (IH w1) as (ring'&w2&Hrun2&Hr2); [by eapply released_live|].
  erewrite bind_Ret by exact Hrun2. eexists _, _. split; [reflexivity|].
  eapply released_app; [|done..]. intros p. by eapply pages_live_disjoint.
Qed.

(** The members after the warmer is gone. *)
Lemma release_warmer_run w r :
  pages_live w (warmed r) →
  ∃ w', match page_warmer_ r with
        | None => ret tt
        | Some m => let! _m := io (PageWarmer_release m) in update (set_warmer None)
        end (w, r) = (Ret tt, (w', set_warmer None r)) ∧ released w w' (warmed r).
Proof.
  unfold warmed. destruct (page_warmer_ r) as [m|] eqn:Hm; simpl; intros Hlive.
  - destruct (release_slots_run w m (wm_ring m) Hlive) as (ring&w'&Hrun&Hr).
    exists w'. split; [|done]. rewrite (bind_Ret _ _ _ (set_ring ring (stop m)) (w', r)); [done|]. apply io_run.
    unfold PageWarmer_release, releaseAllPages. change (wm_ring (stop m)) with (wm_ring m).
    by erewrite bind_Ret by exact Hrun.
  - exists w. split; [|apply released_nil]. destruct r. simpl in Hm. by subst.
Qed.

(** Everything the writer holds is released.  (A writer without a retire
    thread never has a page in its queue; if it had, it would keep it.) *)
Lemma JournalWriter_release_run w r j :
  rep w r j →
  ∃ w' r' ps, JournalWriter_release (w, r) = (Ret tt, (w', r')) ∧ released w w' ps ∧ warmed r' = [] ∧
    ((background_threads_ (wr_cfg r) = false → retire_queue_ r = []) →
     warmed r ++ held r ≡ₚ ps ∧ held r' = []).
Proof.
  intros Hrep. pose proof (mb_page _ _ _ (rep_members _ _ _ Hrep)) as (page&Hpage&_).
  pose proof (mb_live _ _ _ (rep_members _ _ _ Hrep)) as Hlive. rewrite Permutation_app_comm in Hlive.
  set (rest := if background_threads_ (wr_cfg r) then retire_queue_ r ++ retired_pages_ r
               else retired_pages_ r).
  assert (∃ qs, warmed r ++ held r ≡ₚ (warmed r ++ [page] ++ rest) ++ qs ∧
    ((background_threads_ (wr_cfg r) = false → retire_queue_ r = []) → qs = [])) as (qs&Hperm&Hqs).
  { unfold held, rest. rewrite Hpage. destruct (background_threads_ (wr_cfg r)).
    - exists []. split; [|done]. rewrite app_nil_r. apply Permutation_app_head, perm_skip.
      by rewrite Permutation_app_comm.
    - exists (retire_queue_ r). split; [|by auto]. by rewrite <-!app_assoc. }
  rewrite Hperm in Hlive. apply pages_live_app in Hlive as [Hlive _].
  destruct (release_warmer_run w r) as (w0&Hrun0&Hr0); [by apply pages_live_app in Hlive as [? _]|].
  destruct (release_then (Page_release page) w w0 tt (warmed r) [page]) as (w1&Hrun1&Hr1); [|done|..].
  { rewrite app_assoc in Hlive. by apply pages_live_app in Hlive as [? _]. }
  { intros Hl. apply Page_release_released. by apply pages_live_cons in Hl as [? _]. }
  destruct (release_then (release_all rest) w w1 tt (warmed r ++ [page]) rest) as (w2&Hrun2&Hr2);
    [by rewrite <-app_assoc|done|apply release_all_run|].
  rewrite <-app_assoc in Hr2.
  unfold JournalWriter_release. wstep. erewrite bind_Ret by exact Hrun0. change (current_page_ _) with (current_page_ r).
  rewrite Hpage. erewrite bind_Ret by (apply io_run; exact Hrun1). wstep.
  assert ((background_threads_ (wr_cfg r) = false → retire_queue_ r = []) →
    warmed r ++ held r ≡ₚ warmed r ++ [page] ++ rest) as Hall.
  { intros Hq. by rewrite Hperm, (Hqs Hq), app_nil_r. }
  clear Hperm Hqs Hlive. unfold rest in *. destruct (background_threads_ (wr_cfg r)); cbn [when].
  - do 6 wstep. erewrite bind_Ret by (apply io_run; exact Hrun2). wstep.
    eexists _, _, _. split; [reflexivity|]. split; [exact Hr2|]. split; [done|]. by intros Hq%Hall.
  - do 2 wstep. cbn [retired_pages_ set_page].
    erewrite bind_Ret by (apply io_run; exact Hrun2).
    eexists _, _, _. split; [reflexivity|]. split; [exact Hr2|]. split; [done|]. intros Hq.
    split; [by apply Hall|]. unfold held. simpl. by rewrite Hq.
Qed.
End destructor.

