(* ===== verification/Publish.v ===== *)
(** * Publish: what others see while a frame is being written

    A frame is written by a sequence of stores into the shared page
    ([write_events]); only the last but one, the release store of [length],
    makes it a frame.  First: wherever the sequence is cut -- the writer
    crashes, or a reader in another process looks in between -- the page shows
    the frames it had, or those and the complete new one.  Second: under the
    release/acquire rules, where a plain load may return any store not yet
    overwritten in the reader's view, an acquire load that finds the length
    makes every byte of the frame visible. *)

From S2P Require Import Prelude Memory Frame Base Mmap Page Warmer Writer WriterState.
From S2P Require Import WriterSpec.

(** ** Stores as events *)

Definition apply_event (w : world) (e : event) : world :=
  match e with
  | EvWrite pa off bs => fwrite w pa off bs
  | EvZero pa off n => fzero w pa off n
  end.
Definition replay (evs : list event) (w : world) : world := foldl apply_event w evs.

Lemma replay_app evs1 evs2 w : replay (evs1 ++ evs2) w = replay evs2 (replay evs1 w).
Proof. apply foldl_app. Qed.

(** [openFrame] and the payload: everything before the publication. *)
Definition open_events (pa : path) (o : Z) (f : frame) : list event :=
  [ EvZero pa o 32;
    EvWrite pa (o + 16) (le_bytes 8 (fr_gen f));
    EvWrite pa (o + 24) (le_bytes 8 0);
    EvWrite pa (o + 4) (le_bytes 2 (u16 (fr_type f)));
    EvWrite pa (o + 6) (le_bytes 2 (fr_flags f));
    EvWrite pa (o + 8) (le_bytes 8 (fr_seq f));
    EvWrite pa o (le_bytes 4 0) ] ++
  (if 0 <? Z.of_nat (length (fr_payload f)) then [EvWrite pa (o + 32) (fr_payload f)] else []).

(** The release store of [length], and the header's last-frame position. *)
Definition publish_event (pa : path) (o : Z) (f : frame) : event :=
  EvWrite pa o (le_bytes 4 (frame_length f)).
Definition write_events (pa : path) (o : Z) (f : frame) : list event :=
  open_events pa o f ++ [publish_event pa o f; EvWrite pa 16 (le_bytes 8 o)].

(** ** What a page shows *)

(** Frames [fs] are there, and the length behind them is still zero. *)
Definition shows (w : world) (pa : path) (fs : list frame) : Prop :=
  laid w pa sizeof_PageHeader fs (page_end fs) ∧ fle w pa (page_end fs) 4 = 0.

(** A store that leaves the frames before [o] alone and the length at [o] zero. *)
Definition unpublished (pa : path) (o : Z) (e : event) : Prop :=
  match e with
  | EvWrite pa' off bs => pa' = pa ∧ (o + 4 ≤ off ∨ off = o ∧ bs = le_bytes 4 0)
  | EvZero pa' off n => pa' = pa ∧ off = o ∧ 4 ≤ n
  end.

Lemma unpublished_step w pa o e :
  is_Some (w_files w !! pa) → unpublished pa o e → fle w pa o 4 = 0 →
  agree w (apply_event w e) pa 0 o ∧ fle (apply_event w e) pa o 4 = 0 ∧
  is_Some (w_files (apply_event w e) !! pa).
Proof.
  intros Hf He Hz. destruct e as [pa' off bs|pa' off n]; cbn [apply_event unpublished] in *.
  - destruct He as [-> [Hoff|[-> ->]]].
    + split_and!; [apply agree_fwrite; unfold apart; lia| |file_tac].
      by rewrite fle_fwrite_apart by (unfold apart; lia).
    + split_and!; [apply agree_fwrite; unfold apart; lia| |file_tac].
      by rewrite fle_fwrite_eq by (done || lia).
  - destruct He as (->&->&Hn). split_and!; [apply agree_fzero; unfold apart; lia| |file_tac].
    apply fle_fzero_in; lia.
Qed.

Lemma unpublished_replay evs w pa o :
  is_Some (w_files w !! pa) → Forall (unpublished pa o) evs → fle w pa o 4 = 0 →
  agree w (replay evs w) pa 0 o ∧ fle (replay evs w) pa o 4 = 0.
Proof.
  intros Hf Hall. revert w Hf; induction Hall as [|e evs He _ IH]; intros w Hf Hz.
  { split; [apply agree_refl|done]. }
  destruct (unpublished_step w pa o e Hf He Hz) as (Hag&Hz'&Hf').
  destruct (IH _ Hf' Hz') as [Hag' Hz'']. split; [by eapply agree_trans|done].
Qed.

Lemma open_events_unpublished pa o f : Forall (unpublished pa o) (open_events pa o f).
Proof.
  unfold open_events. apply Forall_app. split.
  - repeat constructor; lia.
  - case_match; repeat constructor; lia.
Qed.

Lemma shows_unpublished evs w pa fs :
  is_Some (w_files w !! pa) → Forall (unpublished pa (page_end fs)) evs → shows w pa fs →
  shows (replay evs w) pa fs.
Proof.
  intros Hf Hall [Hl Hz]. destruct (unpublished_replay evs w pa _ Hf Hall Hz) as [Hag Hz'].
  split; [|done]. eapply laid_agree; [|done]. unfold sizeof_PageHeader. eapply agree_sub; [done|lia..].
Qed.

Lemma page_state_shows w pa size fs :
  page_state w pa size fs → page_end fs + 4 ≤ size → shows w pa fs.
Proof.
  intros Hps Hfit. split; [apply Hps|]. apply fle_zero; [lia|]. intros i Hi.
  apply (ps_blank _ _ _ _ Hps). lia.
Qed.

(** The frames are behind the page header. *)
Lemma shows_header w w' pa fs :
  agree w w' pa 24 (page_end fs + 4 - 24) → shows w pa fs → shows w' pa fs.
Proof.
  intros Hag [Hl Hz]. pose proof (laid_le _ _ _ _ _ Hl) as Hle. split; unfold sizeof_PageHeader in *.
  - eapply laid_agree; [|done]. eapply agree_sub; [done|lia..].
  - rewrite <-Hz. apply fle_agree. eapply agree_sub; [done|lia..].
Qed.

(** A store inside [off, off+n) of [pa]; everything else keeps its bytes. *)
Definition within (pa : path) (off n : Z) (e : event) : Prop :=
  match e with
  | EvWrite pa' off' bs => pa' = pa ∧ off ≤ off' ∧ off' + Z.of_nat (length bs) ≤ off + n
  | EvZero pa' off' n' => pa' = pa ∧ off ≤ off' ∧ off' + n' ≤ off + n
  end.

Lemma within_replay evs w pa off n pa' off' n' :
  Forall (within pa off n) evs → apart pa off n pa' off' n' → agree w (replay evs w) pa' off' n'.
Proof.
  intros Hall Hap. revert w. induction Hall as [|e evs He _ IH]; intros w; [apply agree_refl|].
  eapply agree_trans; [|apply IH]. destruct e as [q i bs|q i m]; destruct He as (->&?&?);
    [apply agree_fwrite|apply agree_fzero];
    (destruct Hap as [?|Hap]; [by left|right; lia]).
Qed.

(** ** The stores of [writeBytes] *)

Section stores.
Context `{Env} `{!NoErrors} `{!EnvLaws} `{ILocator} `{!LocatorLaws}.

(** The three parts of [writeBytes] on a page with room. *)
Lemma openFrame_stores w r page pa size o ts ty n :
  0 ≤ n ≤ 2 ^ 32 - 96 → current_page_ r = Some page → pg_header page = Ptr (base_of page) 0 →
  mapped w (base_of page) pa size true → current_frame_address_ r = Ptr (base_of page) o →
  page_size_ (wr_cfg r) = size → 64 ≤ o →
  o + framePhysicalLength (32 + n) ≤ size - 64 →
  openFrame ts ty n FRAME_NORMAL (w, r) =
    (Ret (Ptr (base_of page) o),
     (open_world w pa o ts ty FRAME_NORMAL (current_sequence_ r),
      set_sequence (u64 (current_sequence_ r + 1)) r)).
Proof.
  intros Hn Hp Hph Hm Ha Hsz Ho Hfit.
  pose proof (framePhysicalLength_bounds (32 + n) ltac:(lia)) as [Hb _].
  unfold openFrame. change sizeof_FrameHeader with 32. cbv zeta. rewrite total_small by done.
  erewrite bind_Ret by by apply the_page_run. wstep. rewrite Ha.
  unfold page_address, addr. rewrite Hph. cbn [p_base p_off ptr_add]. unfold FRAME_ALIGNMENT.
  rewrite (proj2 (Z.ltb_ge _ _)) by (rewrite ?Hsz; lia). cbn [when]. wstep.
  eapply new_frame_stores; [done|lia..|done].
Qed.

Lemma payload_stores w r b pa size o data :
  mapped w b pa size true → 0 ≤ o → o + 32 + Z.of_nat (length data) ≤ size →
  when (0 <? Z.of_nat (length data)) (io (store_bytes (ptr_add (Ptr b o) sizeof_FrameHeader) data)) (w, r) =
    (Ret tt, (replay (if 0 <? Z.of_nat (length data) then [EvWrite pa (o + 32) data] else []) w, r)).
Proof.
  intros Hm Ho Hn. case_match; cbn [when]; [|done].
  apply io_run. eapply (store_bytes_run w (Ptr b (o + 32)) pa); [done|cbn; lia..].
Qed.

Lemma closeFrame_stores w r page pa size o n :
  0 ≤ n ≤ 2 ^ 32 - 96 → current_page_ r = Some page → pg_header page = Ptr (base_of page) 0 →
  mapped w (base_of page) pa size true → 64 ≤ o → o + 32 + n ≤ size →
  ∃ r', closeFrame (Ptr (base_of page) o) n no_hook (w, r) =
    (Ret tt, (commit_world w pa o (32 + n), r')) ∧ kept r r'.
Proof.
  intros Hn Hp Hph Hm Ho Hfit.
  unfold closeFrame. change sizeof_FrameHeader with 32. cbv zeta.
  rewrite total_small by done. erewrite bind_Ret by by apply io_run. unfold_offsets. wstep.
  erewrite bind_Ret by by apply the_page_run. unfold setLastFramePosition, page_address. rewrite Hph.
  unfold_offsets. wstep. eexists. unfold addr; cbn [p_base p_off].
  replace (base_of page + o - (base_of page + 0)) with o by lia. split; [done|by split].
Qed.

(** When the frame fits, [writeBytes] is these stores and no others. *)
Lemma writeBytes_stores w r j ts ty data :
  let f := Frame ty FRAME_NORMAL (aj_seq j) ts 0 data in
  rep w r j → writing_ r = false → 0 < ty < 2 ^ 16 →
  a_fits (page_size_ (wr_cfg r)) (frame_stride f) j = true →
  Z.of_nat (length data) ≤ page_size_ (wr_cfg r) - 160 →
  ∃ r', writeBytes ts ty data (w, r) =
    (Ret tt, (replay (write_events (cur_file (wr_cfg r) j) (page_end (aj_cur j)) f) w, r')).
Proof.
  intros f Hrep Hw Hty Hfit Hn. pose proof (rep_members _ _ _ Hrep) as Hmb.
  pose proof (members_size _ _ _ Hmb) as Hsz.
  set (n := Z.of_nat (length data)) in *. set (c := wr_cfg r) in *.
  pose proof (page_end_ge _ _ _ _ (dk_cur _ _ _ (rep_disk _ _ _ Hrep))) as Hge.
  pose proof Hfit as Hfit'%Z.leb_le. unfold FRAME_ALIGNMENT in Hfit'.
  assert (frame_stride f = framePhysicalLength (32 + n)) as Hstr by done. rewrite Hstr in Hfit'.
  pose proof (framePhysicalLength_bounds (32 + n) ltac:(lia)) as [Hb _].
  pose proof (mb_page _ _ _ Hmb) as (page&Hpage&Hmap&Haddr). fold c in Hmap.
  set (pa := cur_file c j) in *. set (o := page_end (aj_cur j)) in *.
  assert (pg_header page = Ptr (base_of page) 0) as Hph.
  { destruct (mb_live _ _ _ Hmb) as [_ Hall]. unfold held in Hall. rewrite Hpage in Hall.
    by apply Forall_inv in Hall as [? _]. }
  assert (wr_cfg (locked r) = c) as Hc by (unfold locked; by case_match).
  assert (current_frame_address_ (locked r) = Ptr (base_of page) o ∧
          current_page_ (locked r) = Some page ∧ current_sequence_ (locked r) = aj_seq j) as (Ha&Hp&Hs).
  { unfold locked. case_match; split_and!; try done; apply (rep_seq _ _ _ Hrep). }
  assert (∃ r1, (do! ensure_page in
    let! hdr := openFrame ts ty n FRAME_NORMAL in
    do! when (0 <? n) (io (store_bytes (ptr_add hdr sizeof_FrameHeader) data)) in
    closeFrame hdr n no_hook) (w, locked r) = (Ret tt, (replay (write_events pa o f) w, r1)) ∧
    kept (locked r) r1) as (r1&Hrun&Hk).
  2:{ exists (set_writing false r1). by apply with_lock_run. }
  erewrite bind_Ret by (unfold ensure_page; wstep; by rewrite Hp).
  erewrite bind_Ret by (eapply openFrame_stores with (size := page_size_ c); rewrite ?Hc; try done; lia).
  set (w1 := open_world _ _ _ _ _ _ _).
  assert (mapped w1 (base_of page) pa (page_size_ c) true) as Hm1
    by (eapply touches_mapped; [apply open_world_touches|done]).
  erewrite bind_Ret by (eapply payload_stores; [done|lia..]).
  set (w2 := replay _ w1).
  assert (mapped w2 (base_of page) pa (page_size_ c) true) as Hm2.
  { unfold w2. case_match; [|done]. eapply touches_mapped; [apply touches_fwrite|done]. }
  destruct (closeFrame_stores w2 (set_sequence (u64 (current_sequence_ (locked r) + 1)) (locked r))
    page pa (page_size_ c) o n) as (r1&Hrun&Hk); [lia|done..|lia|].
  exists r1. split; [|by destruct Hk; split].
  rewrite Hrun. do 2 f_equal. unfold write_events, open_events. rewrite !replay_app. unfold w2, w1. by rewrite Hs.
Qed.
End stores.

(** ** The frame that was written *)

Lemma open_events_length pa o f :
  length (open_events pa o f) = (7 + if decide (fr_payload f = []) then 0 else 1)%nat.
Proof. unfold open_events. rewrite length_app. by destruct (fr_payload f). Qed.

Lemma published_frame w pa o f :
  is_Some (w_files w !! pa) → 64 ≤ o → frame_wf f → fr_event f = 0 →
  frame_at (replay (open_events pa o f ++ [publish_event pa o f]) w) pa o f.
Proof.
  intros Hf Ho Hwf Hev. pose proof (frame_wf_stride _ Hwf) as (Hlen&_&_).
  destruct Hwf as (Hty&Hfl&Hsq&Hgen&_&Hpl&Hmax).
  unfold frame_length, sizeof_FrameHeader in Hlen, Hmax.
  rewrite replay_app. unfold open_events. rewrite replay_app. cbn [replay foldl apply_event].
  set (w1 := fwrite _ pa o (le_bytes 4 0)).
  assert (is_Some (w_files w1 !! pa)) as Hf1 by (unfold w1; file_tac).
  set (w2 := replay _ w1).
  assert (fbytes w2 pa (o + 32) (Z.of_nat (length (fr_payload f))) = fr_payload f ∧
          agree w1 w2 pa 0 (o + 32) ∧ is_Some (w_files w2 !! pa)) as (Hpay&Hag&Hf2).
  { unfold w2. destruct (fr_payload f) as [|b bs] eqn:Hp.
    - split_and!; [done|apply agree_refl|done].
    - change (0 <? Z.of_nat (length (b :: bs))) with true. cbn [replay foldl apply_event].
      split_and!; [by apply fbytes_fwrite_eq|apply agree_fwrite; unfold apart; lia|file_tac]. }
  clearbody w2. unfold publish_event. cbn [apply_event]. unfold frame_at. unfold_offsets.
  rewrite Z.add_0_r, fle_fwrite_eq, fbytes_fwrite_apart by (done || (unfold apart; rewrite length_le_bytes; lia)).
  rewrite !fle_fwrite_apart by (unfold apart; rewrite length_le_bytes; lia).
  rewrite !(fle_agree w1 w2) by (eapply agree_sub; [exact Hag|lia..]).
  unfold w1. mem_simpl. unfold frame_length, sizeof_FrameHeader. unfold in_u in *.
  refine (conj _ (conj _ (conj _ (conj _ (conj _ (conj _ Hpay)))))).
  - apply wrap_small. unfold in_u. lia.
  - rewrite wrap_wrap; [|lia]. apply wrap_small. unfold in_u. lia.
  - by apply wrap_small.
  - by apply wrap_small.
  - by apply swrap_wrap.
  - by rewrite Hev.
Qed.

Lemma frame_events_within pa o f :
  frame_wf f → Forall (within pa o (frame_stride f)) (open_events pa o f ++ [publish_event pa o f]).
Proof.
  intros Hwf. pose proof (frame_wf_stride _ Hwf) as ([_ Hlen]&Hstr&_).
  unfold frame_length, sizeof_FrameHeader in Hlen.
  unfold open_events, publish_event. rewrite !Forall_app. split_and!.
  - repeat constructor; rewrite ?length_le_bytes by lia; lia.
  - case_match; repeat constructor; lia.
  - repeat constructor; rewrite ?length_le_bytes by lia; lia.
Qed.

(** A prefix of the stores that ends before the release store shows nothing
    new; one that contains it shows the whole frame. *)
Lemma write_events_cut pa o f k :
  take k (write_events pa o f) =
    if decide (k ≤ length (open_events pa o f))%nat then take k (open_events pa o f)
    else (open_events pa o f ++ [publish_event pa o f]) ++
         take (k - length (open_events pa o f) - 1) [EvWrite pa 16 (le_bytes 8 o)].
Proof.
  unfold write_events. rewrite take_app. case_decide as Hk.
  - replace (k - _)%nat with 0%nat by lia. by rewrite app_nil_r.
  - rewrite take_ge by lia. rewrite <-app_assoc. f_equal.
    destruct (k - length (open_events pa o f))%nat as [|k'] eqn:E; [lia|].
    simpl. by rewrite Nat.sub_0_r.
Qed.

Lemma write_events_show w pa size fs f k :
  let o := page_end fs in
  is_Some (w_files w !! pa) → page_state w pa size fs → frame_wf f → fr_event f = 0 →
  o + frame_stride f ≤ size - 64 →
  shows (replay (take k (write_events pa o f)) w) pa
    (if decide (k ≤ length (open_events pa o f))%nat then fs else fs ++ [f]).
Proof.
  intros o Hf Hps Hwf Hev Hfit. pose proof (page_end_ge _ _ _ _ Hps) as Hge.
  pose proof (frame_wf_stride _ Hwf) as (Hlen&Hstr&_).
  assert (shows w pa fs) as Hsh by (eapply page_state_shows; [done|fold o; lia]).
  rewrite write_events_cut. case_decide as Hk.
  - apply shows_unpublished; [done|apply Forall_take, open_events_unpublished|done].
  - rewrite replay_app. apply shows_header with (replay (open_events pa o f ++ [publish_event pa o f]) w).
    { destruct (k - _ - 1)%nat; [apply agree_refl|]. cbn [take]. rewrite take_nil. cbn.
      apply agree_fwrite. unfold apart. rewrite length_le_bytes by lia. lia. }
    assert (agree w (replay (open_events pa o f ++ [publish_event pa o f]) w) pa 0 o ∧
            fle (replay (open_events pa o f ++ [publish_event pa o f]) w) pa (o + frame_stride f) 4 = 0)
      as [Hag Hz].
    { assert (Forall (within pa o (frame_stride f)) (open_events pa o f ++ [publish_event pa o f])) as Hin
        by (by apply frame_events_within).
      split; [eapply within_replay; [exact Hin|unfold apart; lia]|].
      rewrite (fle_agree w) by (eapply within_replay; [exact Hin|unfold apart; lia]).
      apply fle_zero; [lia|]. intros i Hi. apply (ps_blank _ _ _ _ Hps). fold o. lia. }
    split; rewrite page_end_snoc.
    + apply laid_snoc.
      * eapply laid_agree; [|apply Hps]. unfold sizeof_PageHeader. eapply agree_sub; [exact Hag|lia..].
      * by apply published_frame.
      * done.
    + done.
Qed.

(** ** The theorem for [writeBytes] *)

Lemma new_frame_wf `{Env} `{!NoErrors} `{!EnvLaws} `{ILocator} `{!LocatorLaws} w r j ts ty data :
  rep w r j → 0 < ty < 2 ^ 16 → in_s 64 ts → Forall (in_u 8) data →
  Z.of_nat (length data) ≤ page_size_ (wr_cfg r) - 160 →
  frame_wf (Frame ty FRAME_NORMAL (aj_seq j) ts 0 data).
Proof.
  intros Hrep Hty Hts Hdata Hn. pose proof (members_size _ _ _ (rep_members _ _ _ Hrep)) as Hsz.
  refine (conj Hty (conj _ (conj _ (conj Hts (conj _ (conj Hdata _)))))); cbn [fr_flags fr_seq fr_event].
  - unfold in_u, FRAME_NORMAL. lia.
  - apply (pa_seq _ _ _ (dk_around _ _ _ (rep_disk _ _ _ Hrep))).
  - unfold in_s. simpl. lia.
  - unfold frame_length, sizeof_FrameHeader. simpl. lia.
Qed.


(** ** Release and acquire *)

(** What a reader thread may see.  The writer's stores are in the order [evs];
    a plain load of a byte may return the value after any prefix of at least
    [view] stores, where [view] counts the stores the reader has synchronised
    with, and different bytes may come from different prefixes ([pick]). *)
Definition plain_load (evs : list event) (w : world) (pa : path) (pick : Z → nat) (i : Z) : Z :=
  fbyte (replay (take (pick i) evs) w) pa i.
Definition plain_loads (evs : list event) (w : world) (pa : path) (pick : Z → nat) (off n : Z) : list Z :=
  plain_load evs w pa pick <$> seqZ off n.

(** An acquire load of the 32-bit [length] at [o] that reads the value after
    [k] stores, and the view it leaves: if that value comes from the release
    store with index [rel], all stores up to it happened before. *)
Definition acquire_load (evs : list event) (w : world) (pa : path) (o : Z) (k : nat) : Z :=
  fle (replay (take k evs) w) pa o 4.
Definition acquire_view (rel k view : nat) : nat :=
  if decide (rel < k)%nat then Nat.max view (S rel) else view.

(** A store that does not touch [off, off+n). *)
Definition spares (pa : path) (off n : Z) (e : event) : Prop :=
  match e with
  | EvWrite pa' off' bs => apart pa' off' (Z.of_nat (length bs)) pa off n
  | EvZero pa' off' n' => apart pa' off' n' pa off n
  end.

Lemma spares_replay evs w pa off n :
  Forall (spares pa off n) evs → agree w (replay evs w) pa off n.
Proof.
  intros Hall. revert w. induction Hall as [|e evs He _ IH]; intros w; [apply agree_refl|].
  eapply agree_trans; [|apply IH].
  by destruct e; [apply agree_fwrite|apply agree_fzero].
Qed.

Section acquire.
Context (w : world) (pa : path) (fs : list frame) (f : frame) (later : list event).
Let o := page_end fs.
Let rel := length (open_events pa o f).
Let evs := write_events pa o f ++ later.
Context (Hfile : is_Some (w_files w !! pa)) (Ho : 64 ≤ o) (Hzero : fle w pa o 4 = 0).
Context (Hwf : frame_wf f) (Hev : fr_event f = 0).
Context (Hlater : Forall (spares pa o (frame_length f)) later).

Lemma before_release k : (k ≤ rel)%nat → acquire_load evs w pa o k = 0.
Proof.
  intros Hk. unfold acquire_load, evs. rewrite take_app_le.
  - rewrite write_events_cut, decide_True by done.
    by apply (unpublished_replay _ _ _ _ Hfile (Forall_take _ _ _ (open_events_unpublished pa o f)) Hzero).
  - unfold write_events. rewrite length_app. unfold rel in Hk. lia.
Qed.

Lemma after_release k :
  (rel < k)%nat →
  agree (replay (open_events pa o f ++ [publish_event pa o f]) w) (replay (take k evs) w)
    pa o (frame_length f).
Proof.
  intros Hk. unfold evs. rewrite take_app, write_events_cut, decide_False by (unfold rel in Hk; lia).
  rewrite <-!app_assoc, (app_assoc (open_events _ _ _)), (replay_app (_ ++ [_])).
  apply spares_replay, Forall_app. split; [|by apply Forall_take].
  apply Forall_take. constructor; [|constructor]. unfold spares, apart. rewrite length_le_bytes by lia. lia.
Qed.

Lemma published_loads pick off n :
  (∀ i, (rel < pick i)%nat) → o ≤ off → off + n ≤ o + frame_length f →
  plain_loads evs w pa pick off n =
    fbytes (replay (open_events pa o f ++ [publish_event pa o f]) w) pa off n.
Proof.
  intros Hp Hoff Hn. with_strategy transparent [fbytes] (unfold plain_loads, fbytes, plain_load). apply list_fmap_ext.
  intros k i Hi%list_elem_of_lookup_2%elem_of_seqZ. apply (after_release _ (Hp i)). lia.
Qed.

Lemma acquire_frame k view pick :
  acquire_load evs w pa o k ≠ 0 → (∀ i, (acquire_view rel k view ≤ pick i)%nat) →
  acquire_load evs w pa o k = frame_length f ∧
  le_val (plain_loads evs w pa pick (o + off_msg_type) 2) = fr_type f ∧
  le_val (plain_loads evs w pa pick (o + off_flags) 2) = fr_flags f ∧
  le_val (plain_loads evs w pa pick (o + off_sequence) 8) = fr_seq f ∧
  s64 (le_val (plain_loads evs w pa pick (o + off_gen_time) 8)) = fr_gen f ∧
  s64 (le_val (plain_loads evs w pa pick (o + off_event_time) 8)) = fr_event f ∧
  plain_loads evs w pa pick (o + sizeof_FrameHeader) (Z.of_nat (length (fr_payload f))) = fr_payload f.
Proof.
  intros Hnz Hpick. destruct (decide (rel < k)%nat) as [Hk|Hk].
  2:{ destruct Hnz. apply before_release. lia. }
  unfold acquire_view in Hpick. rewrite decide_True in Hpick by done.
  assert (∀ i, (rel < pick i)%nat) as Hp by (intros i; specialize (Hpick i); lia).
  pose proof (published_frame w pa o f Hfile Ho Hwf Hev) as (Hl&Hrest).
  pose proof (frame_wf_stride _ Hwf) as ([Hlen _]&_&_).
  split.
  - rewrite <-Hl. unfold acquire_load, off_length. rewrite Z.add_0_r.
    apply fle_agree. eapply agree_sub; [by apply after_release|lia..].
  - unfold_offsets. with_strategy transparent [fle] (unfold fle in Hrest).
    rewrite !published_loads; try done; unfold frame_length, sizeof_FrameHeader in *; lia.
Qed.
End acquire.

