(* ===== verification/Journal.v ===== *)
(** * Journal: a reader's cursor over one journal

    [src/include/revoq/Journal.h].  The members are the record [journal]; the
    cursor is the current page and [jn_frame], the address the shared [Frame]
    object points at (null before the first page is loaded).  The retire
    thread is [retire_step]; one turn of the reader's warmer thread, run
    while nothing else moves, is [warmer_turn]. *)

From S2P Require Import Prelude Memory Frame Base Mmap Page.

Record JournalOptions := MkJournalOptions {
  jo_is_writing : bool;
  jo_prefault : bool;
  jo_background_threads : bool;
  jo_retained_page_limit : Z
}.

Record journal_config := MkJConfig {
  jc_location : Location;
  jc_dest_id : Z;
  jc_is_writing : bool;
  jc_prefault : bool;
  jc_background : bool;
  jc_max_retained : Z;
  jc_page_size : Z
}.

Record journal := MkJournal {
  jn_cfg : journal_config;
  jn_page : option Page;              (* current_page_ *)
  jn_frame : ptr;                     (* frame_'s header_ *)
  jn_page_frame_nb : Z;
  jn_retired : list Page;
  jn_queue : list Page;
  jn_running : bool;                  (* retire_running_ *)
  jn_warmer_next_page : Z;
  jn_warmer_pending : bool;
  jn_warmer_addr : option ptr;
  jn_warmer_ready_id : Z
}.

Definition nullptr : ptr := Ptr 0 0.

(** ** Member updates *)

Definition jset_page (p : option Page) (j : journal) : journal :=
  MkJournal (jn_cfg j) p (jn_frame j) (jn_page_frame_nb j) (jn_retired j) (jn_queue j)
    (jn_running j) (jn_warmer_next_page j) (jn_warmer_pending j) (jn_warmer_addr j)
    (jn_warmer_ready_id j).
Definition jset_frame (h : ptr) (j : journal) : journal :=
  MkJournal (jn_cfg j) (jn_page j) h (jn_page_frame_nb j) (jn_retired j) (jn_queue j)
    (jn_running j) (jn_warmer_next_page j) (jn_warmer_pending j) (jn_warmer_addr j)
    (jn_warmer_ready_id j).
Definition jset_frame_nb (n : Z) (j : journal) : journal :=
  MkJournal (jn_cfg j) (jn_page j) (jn_frame j) n (jn_retired j) (jn_queue j)
    (jn_running j) (jn_warmer_next_page j) (jn_warmer_pending j) (jn_warmer_addr j)
    (jn_warmer_ready_id j).
Definition jset_retired (ps : list Page) (j : journal) : journal :=
  MkJournal (jn_cfg j) (jn_page j) (jn_frame j) (jn_page_frame_nb j) ps (jn_queue j)
    (jn_running j) (jn_warmer_next_page j) (jn_warmer_pending j) (jn_warmer_addr j)
    (jn_warmer_ready_id j).
Definition jset_queue (ps : list Page) (j : journal) : journal :=
  MkJournal (jn_cfg j) (jn_page j) (jn_frame j) (jn_page_frame_nb j) (jn_retired j) ps
    (jn_running j) (jn_warmer_next_page j) (jn_warmer_pending j) (jn_warmer_addr j)
    (jn_warmer_ready_id j).
Definition jset_running (b : bool) (j : journal) : journal :=
  MkJournal (jn_cfg j) (jn_page j) (jn_frame j) (jn_page_frame_nb j) (jn_retired j) (jn_queue j)
    b (jn_warmer_next_page j) (jn_warmer_pending j) (jn_warmer_addr j) (jn_warmer_ready_id j).
Definition jset_request (page_id : Z) (pending : bool) (j : journal) : journal :=
  MkJournal (jn_cfg j) (jn_page j) (jn_frame j) (jn_page_frame_nb j) (jn_retired j) (jn_queue j)
    (jn_running j) page_id pending (jn_warmer_addr j) (jn_warmer_ready_id j).
Definition jset_warmed (a : option ptr) (ready_id : Z) (j : journal) : journal :=
  MkJournal (jn_cfg j) (jn_page j) (jn_frame j) (jn_page_frame_nb j) (jn_retired j) (jn_queue j)
    (jn_running j) (jn_warmer_next_page j) (jn_warmer_pending j) a ready_id.

Abbreviation J := (M (world * journal)).
Definition jthis : J journal := gets snd.
Definition jupdate (f : journal → journal) : J unit := modify (λ s, (s.1, f s.2)).
Definition jio {A} (m : M world A) : J A := lift_fst m.

(** [assert(current_page_)], and the uses of [current_page_->]. *)
Definition jpage : J Page := λ s,
  match jn_page s.2 with
  | Some p => (Ret p, s)
  | None => (Fault AssertionFailed, s)
  end.

Definition Journal_ctor (location : Location) (dest_id : Z) (o : JournalOptions) : journal :=
  MkJournal
    (MkJConfig location dest_id (jo_is_writing o) (jo_prefault o) (jo_background_threads o)
       (jo_retained_page_limit o) (findPageSize location dest_id))
    None nullptr 0 [] [] (jo_background_threads o) (-1) false None (-1).

Section Journal.
Context `{Env} `{ILocator}.

Definition unmap_warmed (a : ptr) : M world unit :=
  let! _ok := releaseMmapBuffer (Some a) false NONE in ret tt.

(** The fast path of [loadPage]: the mapping the warmer left, if it is this
    page's and its header is valid. *)
Definition take_warmed (page_id : Z) : J (option Page) :=
  let! j := jthis in
  let c := jn_cfg j in
  if negb (jc_prefault c) && jc_background c then
    match jn_warmer_addr j with
    | Some a =>
        if jn_warmer_ready_id j =? page_id then
          try_catch
            (let! p := jio (loadFromAddress (jc_location c) (jc_dest_id c) page_id (Some a) false) in
             do! jupdate (jset_warmed None (-1)) in
             ret (Some p))
            (λ _,
             do! jio (unmap_warmed a) in
             do! jupdate (jset_warmed None (-1)) in
             ret None)
        else ret None
    | None => ret None
    end
  else ret None.

Fixpoint jretire_overflow (n : nat) : J unit :=
  match n with
  | O => ret tt
  | S n =>
      let! j := jthis in
      if jc_max_retained (jn_cfg j) <? Z.of_nat (length (jn_retired j)) then
        match jn_retired j with
        | [] => ret tt
        | retired_page :: rest =>
            do! jupdate (λ j, jset_queue (jn_queue j ++ [retired_page]) (jset_retired rest j)) in
            jretire_overflow n
        end
      else ret tt
  end.

(** What becomes of the page the cursor leaves. *)
Definition leave_page (old_page : option Page) : J unit :=
  let! j := jthis in
  match old_page with
  | None => ret tt
  | Some old =>
      if jc_background (jn_cfg j) then
        do! jupdate (λ j, jset_retired (jn_retired j ++ [old]) j) in
        let! j := jthis in
        jretire_overflow (length (jn_retired j))
      else jio (Page_release old)
  end.

Definition loadPage (page_id : Z) : J unit :=
  let! j := jthis in
  let c := jn_cfg j in
  if bool_decide (pg_page_id <$> jn_page j = Some page_id) then ret tt
  else
    let! warmed := take_warmed page_id in
    let! new_page :=
      match warmed with
      | Some p => ret p
      | None => jio (Page_load (jc_location c) (jc_dest_id c) page_id (jc_is_writing c) (jc_prefault c))
      end in
    let! j := jthis in
    let old_page := jn_page j in
    do! jupdate (jset_page (Some new_page)) in
    let! a := jio (firstFrameAddress new_page) in
    do! jupdate (λ j, jset_frame_nb 0 (jset_frame a j)) in
    do! leave_page old_page in
    when (negb (jc_prefault c) && jc_background c) (jupdate (jset_request (page_id + 1) true)).

Definition loadNextPage : J unit :=
  let! p := jpage in loadPage (s32 (pg_page_id p + 1)).

(** [next(frame_length, msg_type)] *)
Definition next_known (frame_length msg_type : Z) : J unit :=
  let! _p := jpage in
  if msg_type =? MsgType.PageEnd then loadNextPage
  else jupdate (λ j, jset_frame_nb (jn_page_frame_nb j + 1)
                       (jset_frame (moveToNext_len (jn_frame j) frame_length) j)).

(** [next()] *)
Definition next : J unit :=
  let! _p := jpage in
  let! j := jthis in
  let! frame_length := jio (getFrameLength (jn_frame j)) in
  let! msg_type := jio (getMsgType (jn_frame j)) in
  next_known frame_length msg_type.

Definition current_hasData : J bool :=
  let! j := jthis in jio (hasData_now (jn_frame j)).

(** [while (current_page_->isFull() && current_page_->endTime() < timestamp)] *)
Fixpoint skip_pages (fuel : nat) (timestamp : Z) : J unit :=
  match fuel with
  | O => crash OutOfFuel
  | S fuel =>
      let! p := jpage in
      let! full := jio (isFull p) in
      if full then
        let! t := jio (endTime p) in
        if t <? timestamp then do! loadNextPage in skip_pages fuel timestamp else ret tt
      else ret tt
  end.

(** [while (frame_->hasData() && frame_->getGenTime() < timestamp)] *)
Fixpoint skip_frames (fuel : nat) (timestamp : Z) : J unit :=
  match fuel with
  | O => crash OutOfFuel
  | S fuel =>
      let! data := current_hasData in
      if data then
        let! j := jthis in
        let! t := jio (getGenTime (jn_frame j)) in
        if t <? timestamp then do! next in skip_frames fuel timestamp else ret tt
      else ret tt
  end.

(** [fuel] bounds each loop; a live writer could keep either running. *)
Definition seekToTime (fuel : nat) (timestamp : Z) : J unit :=
  let! j := jthis in
  let c := jn_cfg j in
  let! page_id := jio (findPageId (jc_location c) (jc_dest_id c) timestamp) in
  do! loadPage page_id in
  do! skip_pages fuel timestamp in
  skip_frames fuel timestamp.

(** One page of the retire queue destroyed. *)
Definition jretire_step : J unit :=
  let! j := jthis in
  match jn_queue j with
  | [] => ret tt
  | page :: rest =>
      do! jupdate (jset_queue rest) in
      jio (Page_release page)
  end.

Definition releaseWarmedPage : J unit :=
  let! j := jthis in
  match jn_warmer_addr j with
  | None => ret tt
  | Some a => do! jio (unmap_warmed a) in jupdate (jset_warmed None (-1))
  end.

(** The header the warmer waits for. *)
Definition warmed_header_ok (a : ptr) : M world bool :=
  let! version := load 4 (ptr_add a off_version) in
  if version =? JOURNAL_PAGE_VERSION then
    let! len := load 4 (ptr_add a off_page_header_length) in
    ret (len =? sizeof_PageHeader)
  else ret false.

(** One turn of [readerWarmerLoop] in which no new request arrives and the
    file does not change: every poll of a loop sees the same state. *)
Definition warmer_turn : J unit :=
  let! j := jthis in
  if negb (jn_running j) || negb (jn_warmer_pending j) then ret tt
  else
    let c := jn_cfg j in
    let page_to_warm := jn_warmer_next_page j in
    do! jupdate (jset_request page_to_warm false) in
    if page_to_warm <? 0 then ret tt
    else
      let! pa := jio (getPagePath (jc_location c) (jc_dest_id c) (s32 page_to_warm)) in
      let! st := jio (stat pa) in
      if negb (bool_decide (st = Some (jc_page_size c))) then ret tt
      else
        try_catch
          (let! a := jio (loadExistingReadOnlyMmapBuffer pa (jc_page_size c) (ROOptions false false)) in
           let! ok := jio (warmed_header_ok a) in
           if negb ok then jio (unmap_warmed a)
           else
             try_catch
               (do! jio (prepareReadOnlyMmapBuffer pa (Some a) (jc_page_size c) (ROOptions true true)) in
                do! releaseWarmedPage in
                jupdate (jset_warmed (Some a) page_to_warm))
               (λ _, jio (unmap_warmed a)))
          (λ _, ret tt).

Fixpoint jrelease_all (pages : list Page) : M world unit :=
  match pages with
  | [] => ret tt
  | page :: pages => do! Page_release page in jrelease_all pages
  end.

(** [~Journal()]: everything goes through the queue, which the retire
    thread drains before it is joined (or the destructor of the deque, when
    there is no such thread). *)
Definition Journal_release : J unit :=
  let! j := jthis in
  do! jupdate (jset_queue (jn_queue j ++ option_list (jn_page j) ++ jn_retired j)) in
  do! jupdate (λ j, jset_running false (jset_retired [] (jset_page None j))) in
  let! j := jthis in
  do! jio (jrelease_all (jn_queue j)) in
  do! jupdate (jset_queue []) in
  releaseWarmedPage.
End Journal.
