(* ===== verification/Reader.v ===== *)
(** * Reader: several journals read as one

    [src/include/revoq/JournalReader.h].  The reader owns its journals
    ([rd_journals]); the cached [single_journal_] and [single_frame_] pointers
    are set exactly when there is one journal, so they are the boolean
    [rd_single].  [std::priority_queue] is the interface [PriorityQueue]: the
    standard promises a smallest element on top, not which one of several.
    A dispatcher is a function of the frame view; what it computes is the
    result of [nextStatic]. *)

From S2P Require Import Prelude Memory Frame Base Mmap Page Journal.

(** ** [std::priority_queue] of (time, journal) pairs, smallest time on top *)

Abbreviation entry := (Z * nat)%type.

Class PriorityQueue := pq_top : list entry → option entry.

Class PriorityQueueLaws `{PriorityQueue} := {
  pq_top_None l : pq_top l = None ↔ l = [];
  pq_top_Some l e : pq_top l = Some e → e ∈ l ∧ ∀ e', e' ∈ l → e.1 ≤ e'.1
}.

(** [pop] removes the element [top] shows. *)
Fixpoint remove_one (e : entry) (l : list entry) : list entry :=
  match l with
  | [] => []
  | x :: l => if decide (x = e) then l else x :: remove_one e l
  end.
Definition pq_pop `{PriorityQueue} (l : list entry) : list entry :=
  match pq_top l with None => l | Some e => remove_one e l end.

(** The queue that takes the leftmost of the smallest. *)
Fixpoint leftmost_min (l : list entry) : option entry :=
  match l with
  | [] => None
  | e :: l =>
      match leftmost_min l with
      | Some e' => if e'.1 <? e.1 then Some e' else Some e
      | None => Some e
      end
  end.
#[export] Instance leftmost_queue : PriorityQueue := leftmost_min.

Lemma leftmost_min_None l : leftmost_min l = None ↔ l = [].
Proof. destruct l; simpl; [done|]. by repeat case_match. Qed.

#[export] Instance leftmost_queue_laws : PriorityQueueLaws.
Proof.
  split; [apply leftmost_min_None|].
  unfold pq_top, leftmost_queue. induction l as [|x l IH]; simpl; [done|]. intros e He.
  destruct (leftmost_min l) as [y|] eqn:Hy.
  - destruct (IH y eq_refl) as [Hin Hmin]. destruct (Z.ltb_spec y.1 x.1); simplify_eq.
    + split; [by right|]. intros e' [->|He']%elem_of_cons; [lia|by apply Hmin].
    + split; [by left|]. intros e' [->|He']%elem_of_cons; [lia|]. specialize (Hmin _ He'). lia.
  - apply leftmost_min_None in Hy as ->. simplify_eq. split; [by left|].
    intros e' [->|He']%elem_of_cons; [lia|by apply elem_of_nil in He'].
Qed.

(** ** The reader *)

Record JournalReaderOptions := MkReaderOptions {
  ro_prefault : bool;
  ro_background_threads : bool;
  ro_retained_page_limit : Z
}.

Record reader := MkReader {
  rd_options : JournalReaderOptions;
  rd_current : option nat;            (* current_journal_idx_, None for -1 *)
  rd_needs_rebuild : bool;
  rd_use_heap : bool;
  rd_journals : list journal;
  rd_single : bool;
  rd_keys : gset Z;
  rd_heap : list entry
}.

Definition rset_current (i : option nat) (r : reader) : reader :=
  MkReader (rd_options r) i (rd_needs_rebuild r) (rd_use_heap r) (rd_journals r) (rd_single r)
    (rd_keys r) (rd_heap r).
Definition rset_rebuild (b : bool) (r : reader) : reader :=
  MkReader (rd_options r) (rd_current r) b (rd_use_heap r) (rd_journals r) (rd_single r)
    (rd_keys r) (rd_heap r).
Definition rset_use_heap (b : bool) (r : reader) : reader :=
  MkReader (rd_options r) (rd_current r) (rd_needs_rebuild r) b (rd_journals r) (rd_single r)
    (rd_keys r) (rd_heap r).
Definition rset_journals (js : list journal) (r : reader) : reader :=
  MkReader (rd_options r) (rd_current r) (rd_needs_rebuild r) (rd_use_heap r) js (rd_single r)
    (rd_keys r) (rd_heap r).
Definition rset_single (b : bool) (r : reader) : reader :=
  MkReader (rd_options r) (rd_current r) (rd_needs_rebuild r) (rd_use_heap r) (rd_journals r) b
    (rd_keys r) (rd_heap r).
Definition rset_keys (ks : gset Z) (r : reader) : reader :=
  MkReader (rd_options r) (rd_current r) (rd_needs_rebuild r) (rd_use_heap r) (rd_journals r)
    (rd_single r) ks (rd_heap r).
Definition rset_heap (h : list entry) (r : reader) : reader :=
  MkReader (rd_options r) (rd_current r) (rd_needs_rebuild r) (rd_use_heap r) (rd_journals r)
    (rd_single r) (rd_keys r) h.

Abbreviation R := (M (world * reader)).
Definition rthis : R reader := gets snd.
Definition rupdate (f : reader → reader) : R unit := modify (λ s, (s.1, f s.2)).
Definition rio {A} (m : M world A) : R A := lift_fst m.

(** An operation of journal [i]. *)
Definition on_journal {A} (i : nat) (m : J A) : R A := λ s,
  match rd_journals s.2 !! i with
  | None => (Fault UndefinedBehaviour, s)
  | Some j =>
      let '(x, (w, j')) := m (s.1, j) in (x, (w, rset_journals (<[i := j']> (rd_journals s.2)) s.2))
  end.

(** [FrameView]: the frame's address and the length and type read once. *)
Record FrameView := MkView { fv_frame : ptr; fv_length : Z; fv_msg_type : Z }.

Definition makeKey (location_uid dest_id : Z) : Z :=
  Z.lor (u64 (Z.shiftl location_uid 32)) dest_id.

Definition JournalReader_ctor (o : JournalReaderOptions) : reader :=
  MkReader o None true true [] false ∅ [].

(** [refreshSingleJournal] *)
Definition refreshSingleJournal (r : reader) : reader :=
  let r := rset_single (bool_decide (length (rd_journals r) = 1%nat)) r in
  if rd_single r then rset_current (Some 0%nat) r else r.

(** The current journal's index, if it is one of the joined ones. *)
Definition valid_current (r : reader) : option nat :=
  match rd_current r with
  | Some i => if decide (i < length (rd_journals r))%nat then Some i else None
  | None => None
  end.

(** [currentFrameRaw()]: the frame of the current journal. *)
Definition currentFrameRaw (r : reader) : option ptr :=
  i ← valid_current r; jn_frame <$> rd_journals r !! i.

Definition getJournalCount (r : reader) : nat := length (rd_journals r).
Definition isJoined (r : reader) (location_uid dest_id : Z) : bool :=
  bool_decide (makeKey location_uid dest_id ∈ rd_keys r).
Definition getCurrentJournalPageId (r : reader) : Z :=
  match valid_current r with
  | Some i =>
      match rd_journals r !! i ≫= jn_page with Some p => pg_page_id p | None => -1 end
  | None => -1
  end.
Definition getCurrentJournalFrameOffset (r : reader) : Z :=
  match valid_current r with
  | Some i =>
      match rd_journals r !! i with
      | Some j =>
          match jn_page j with
          | Some p => addr (jn_frame j) - addr (page_address p)
          | None => 0
          end
      | None => 0
      end
  | None => 0
  end.

Section Reader.
Context `{Env} `{ILocator} `{PriorityQueue}.

Definition getCurrentJournalPageSize (r : reader) : M world Z :=
  match valid_current r with
  | Some i =>
      match rd_journals r !! i ≫= jn_page with Some p => getPageSize p | None => ret 0 end
  | None => ret 0
  end.

(** ** Joining and leaving *)

(** [seek_fuel] bounds the loops of the initial seek. *)
Definition join (seek_fuel : nat) (location : Location) (dest_id from_time : Z) : R unit :=
  let! r := rthis in
  let key := makeKey (uid location) dest_id in
  if bool_decide (key ∈ rd_keys r) then ret tt
  else
    let o := rd_options r in
    let j := Journal_ctor location dest_id
               (MkJournalOptions false (ro_prefault o) (ro_background_threads o)
                  (ro_retained_page_limit o)) in
    let! j :=
      (λ s, match seekToTime seek_fuel from_time (s.1, j) with
            | (Ret tt, (w, j)) => (Ret j, (w, s.2))
            | (Throw e, (w, j)) =>                     (* ~Journal() *)
                let '(x, (w, _)) := Journal_release (w, j) in
                (match x with Fault f => Fault f | _ => Throw e end, (w, s.2))
            | (Fault f, (w, _)) => (Fault f, (w, s.2))
            end) in
    rupdate (λ r, rset_rebuild true (refreshSingleJournal
               (rset_keys ({[key]} ∪ rd_keys r) (rset_journals (rd_journals r ++ [j]) r)))).

Fixpoint release_journals (js : list journal) : M world unit :=
  match js with
  | [] => ret tt
  | j :: js =>
      do! (λ w, let '(x, (w, _)) := Journal_release (w, j) in (x, w)) in
      release_journals js
  end.

Definition has_uid (location_uid : Z) (j : journal) : bool :=
  uid (jc_location (jn_cfg j)) =? location_uid.
Definition journal_key (j : journal) : Z :=
  makeKey (uid (jc_location (jn_cfg j))) (jc_dest_id (jn_cfg j)).

Definition disjoin (location_uid : Z) : R unit :=
  let! r := rthis in
  let keep := filter (λ j, has_uid location_uid j = false) (rd_journals r) in
  let gone := filter (λ j, has_uid location_uid j = true) (rd_journals r) in
  do! rio (release_journals gone) in
  if bool_decide (length keep = length (rd_journals r)) then ret tt
  else
    rupdate (λ r, rset_rebuild true (refreshSingleJournal (rset_current None
               (rset_keys (list_to_set (journal_key <$> keep)) (rset_journals keep r))))).

Definition JournalReader_release : R unit :=
  let! r := rthis in
  do! rio (release_journals (rd_journals r)) in
  rupdate (rset_journals []).

(** ** Choosing the current journal *)

(** Whether frame [h] is committed, and its time if it is. *)
Definition frame_key (h : ptr) : M world (option Z) :=
  let! data := hasData_now h in
  if data then let! t := getGenTime h in ret (Some t) else ret None.

Fixpoint scan_journals (i : nat) (js : list journal) (min_time : Z) (min_index : option nat)
    : M world (option nat) :=
  match js with
  | [] => ret min_index
  | j :: js =>
      let! k := frame_key (jn_frame j) in
      match k with
      | Some gen_time =>
          if gen_time <? min_time then scan_journals (S i) js gen_time (Some i)
          else scan_journals (S i) js min_time min_index
      | None => scan_journals (S i) js min_time min_index
      end
  end.

Definition findMinimumLinear : R unit :=
  let! r := rthis in
  let! i := rio (scan_journals 0 (rd_journals r) (2 ^ 63 - 1) None) in
  rupdate (rset_current i).

(** The (time, index) pairs of the journals that have a frame. *)
Fixpoint heap_entries (i : nat) (js : list journal) : M world (list entry) :=
  match js with
  | [] => ret []
  | j :: js =>
      let! k := frame_key (jn_frame j) in
      let! es := heap_entries (S i) js in
      ret (match k with Some gen_time => (gen_time, i) :: es | None => es end)
  end.

Definition big (r : reader) : bool :=
  rd_use_heap r && bool_decide (3 < length (rd_journals r))%nat.

Definition rebuildHeap : R unit :=
  let! r := rthis in
  match rd_journals r with
  | [] => rupdate (λ r, rset_rebuild false (rset_current None r))
  | _ =>
      do! (if big r then
             let! temp := rio (heap_entries 0 (rd_journals r)) in
             match pq_top temp with
             | None => rupdate (rset_current None)
             | Some e => rupdate (λ r, rset_heap temp (rset_current (Some e.2) r))
             end
           else findMinimumLinear) in
      rupdate (rset_rebuild false)
  end.

Definition updateHeap : R unit :=
  let! r := rthis in
  match rd_heap r with
  | [] => rupdate (rset_rebuild true)
  | _ =>
      do! rupdate (λ r, rset_heap (pq_pop (rd_heap r)) r) in
      match rd_current r with
      | None => crash UndefinedBehaviour
      | Some i =>
          let! k := on_journal i (let! j := jthis in jio (frame_key (jn_frame j))) in
          do! (match k with
               | Some gen_time => rupdate (λ r, rset_heap (rd_heap r ++ [(gen_time, i)]) r)
               | None => ret tt
               end) in
          let! r := rthis in
          match pq_top (rd_heap r) with
          | None => rupdate (λ r, rset_rebuild true (rset_current None r))
          | Some e => rupdate (rset_current (Some e.2))
          end
      end
  end.

(** ** Reading *)

Definition view_of (h : ptr) : M world (option FrameView) :=
  let! frame_length := getFrameLength h in
  let! msg_type := getMsgType h in
  ret (if hasData frame_length msg_type then Some (MkView h frame_length msg_type) else None).

Definition isDataAvailable : R bool :=
  let! r := rthis in
  if rd_single r then
    match rd_journals r with
    | j :: _ => rio (hasData_now (jn_frame j))
    | [] => crash UndefinedBehaviour
    end
  else
    do! (if rd_needs_rebuild r then rebuildHeap else ret tt) in
    let! r := rthis in
    match currentFrameRaw r with
    | None =>
        do! (match rd_journals r with [] => ret tt | _ => rupdate (rset_rebuild true) end) in
        ret false
    | Some h => rio (hasData_now h)
    end.

Definition tryCurrentSingleFrame : R (option FrameView) :=
  let! r := rthis in
  match rd_journals r with
  | j :: _ => rio (view_of (jn_frame j))
  | [] => crash UndefinedBehaviour
  end.

Definition tryCurrentFrame : R (option FrameView) :=
  let! r := rthis in
  if rd_single r then tryCurrentSingleFrame
  else
    let! data := isDataAvailable in
    if data then
      let! r := rthis in
      match currentFrameRaw r with
      | Some h => rio (view_of h)
      | None => crash Sigsegv
      end
    else ret None.

Definition reader_next : R unit :=
  let! r := rthis in
  match valid_current r with
  | None => ret tt
  | Some i =>
      if rd_single r then on_journal 0 next
      else
        do! on_journal i next in
        if big r then updateHeap else rupdate (rset_rebuild true)
  end.

Definition advance (current : FrameView) : R unit :=
  let! r := rthis in
  if rd_single r then on_journal 0 (next_known (fv_length current) (fv_msg_type current))
  else reader_next.

Fixpoint seek_all (seek_fuel n i : nat) (timestamp : Z) : R unit :=
  match n with
  | O => ret tt
  | S n => do! on_journal i (seekToTime seek_fuel timestamp) in seek_all seek_fuel n (S i) timestamp
  end.
Definition reader_seekToTime (seek_fuel : nat) (timestamp : Z) : R unit :=
  let! r := rthis in
  do! seek_all seek_fuel (length (rd_journals r)) 0 timestamp in
  rupdate (rset_rebuild true).

Definition setUseHeap (use_heap : bool) : R unit :=
  rupdate (λ r, rset_rebuild true (rset_use_heap use_heap r)).

(** [nextStatic]: [None] when there was no frame, else what the dispatcher
    made of it. *)
Definition nextStatic {A} (dispatcher : FrameView → M world A) : R (option A) :=
  let! current := tryCurrentFrame in
  match current with
  | None => ret None
  | Some v =>
      let! a := rio (dispatcher v) in
      do! advance v in
      ret (Some a)
  end.
End Reader.
