(* ===== verification/JournalSpec.v ===== *)
(** * JournalSpec: reading back what the writer laid down

    [cursor] says that a reader's journal stands at a given frame of the
    abstract journal the files hold.  The theorems: there is data exactly when
    there is a next frame, the frame it shows is that frame, and advancing
    moves to the one behind it -- over a [PageEnd] to the next page. *)

From S2P Require Import Prelude Memory Frame Base Mmap Page Warmer Writer WriterState.
From S2P Require Import WarmSpec WriterSpec Journal Reader.

(** ** Executing journal code *)

Lemma jio_run {A} (m : M world A) w j x w' : m w = (x, w') → jio m (w, j) = (x, (w', j)).
Proof. intros Hm. unfold jio. by eapply lift_fst_run. Qed.
Lemma jupdate_run f w j : jupdate f (w, j) = (Ret tt, (w, f j)).
Proof. done. Qed.
Lemma jthis_run w j : jthis (w, j) = (Ret j, (w, j)).
Proof. done. Qed.
Lemma jpage_run w j p : jn_page j = Some p → jpage (w, j) = (Ret p, (w, j)).
Proof. intros Hp. unfold jpage. simpl. by rewrite Hp. Qed.

Ltac jstep :=
  first
    [ rewrite bind_ret_l
    | rewrite bind_assoc
    | rewrite (bind_Ret _ _ _ _ _ (jthis_run _ _))
    | rewrite (bind_Ret _ _ _ _ _ (jupdate_run _ _ _)) ].

(** ** Frames of a run by position *)

Definition frame_off (fs : list frame) (k : nat) : Z := page_end (take k fs).

Lemma laid_lookup w pa o fs e k f :
  laid w pa o fs e → fs !! k = Some f →
  frame_at w pa (o + frames_span (take k fs)) f ∧ frame_wf f.
Proof.
  revert o k; induction fs as [|g fs IH]; intros o k; [done|]. intros (Hg&Hwf&Hl) Hk.
  destruct k as [|k]; simpl in *.
  - simplify_eq. by rewrite Z.add_0_r.
  - rewrite Z.add_assoc. by apply IH.
Qed.

Lemma frame_off_succ fs k f :
  fs !! k = Some f → frame_off fs (S k) = frame_off fs k + frame_stride f.
Proof. intros Hk. unfold frame_off. by rewrite (take_S_r _ _ f), page_end_snoc. Qed.

Lemma frames_span_take fs k :
  Forall frame_wf fs → 0 ≤ frames_span (take k fs) ≤ frames_span fs.
Proof.
  intros Hwf. rewrite <-(take_drop k fs) in Hwf at 1. apply Forall_app in Hwf as [H1 H2].
  rewrite <-(take_drop k fs) at 3. rewrite frames_span_app.
  pose proof (frames_span_nonneg _ H1). pose proof (frames_span_nonneg _ H2). lia.
Qed.

(** A page as a reader sees it: its frames, and no length behind them yet --
    a header under construction there, and a payload, do not matter. *)
Record page_shown (w : world) (pa : path) (size : Z) (fs : list frame) : Prop := {
  pn_header : header_ok w pa size (last_pos fs);
  pn_laid : laid w pa sizeof_PageHeader fs (page_end fs);
  pn_next : page_end fs + 4 ≤ size → fle w pa (page_end fs) 4 = 0;
  pn_fits : page_end fs ≤ size
}.

Lemma page_state_shown w pa size fs : page_state w pa size fs → page_shown w pa size fs.
Proof.
  intros [Hh Hl Hb Hf]. split; [done..| |done]. intros ?. apply fle_zero; [lia|].
  intros i Hi. apply Hb. lia.
Qed.

Lemma shown_end_ge w pa size fs : page_shown w pa size fs → 64 ≤ page_end fs.
Proof.
  intros [_ Hl _ _]. apply laid_wf, frames_span_nonneg in Hl.
  unfold page_end, sizeof_PageHeader. lia.
Qed.

Lemma page_shown_agree w w' pa size fs :
  64 ≤ size → agree w w' pa 0 size → page_shown w pa size fs → page_shown w' pa size fs.
Proof.
  intros Hsz Hag Hps. pose proof (shown_end_ge _ _ _ _ Hps). destruct Hps as [Hh Hl Hb Hf]. split.
  - eapply header_ok_agree; [|done]. eapply agree_sub; [done|lia..].
  - eapply laid_agree; [|done]. unfold sizeof_PageHeader. eapply agree_sub; [done|lia..].
  - intros Hroom. rewrite <-Hb by done. apply fle_agree. eapply agree_sub; [done|lia..].
  - done.
Qed.

Lemma page_frame w pa size fs k f :
  page_shown w pa size fs → fs !! k = Some f →
  frame_at w pa (frame_off fs k) f ∧ frame_wf f ∧ 64 ≤ frame_off fs k ∧
  frame_off fs k + frame_stride f ≤ size.
Proof.
  intros [_ Hl _ Hfit] Hk. pose proof (laid_wf _ _ _ _ _ Hl) as Hwfs.
  destruct (laid_lookup _ _ _ _ _ _ _ Hl Hk) as [Hat Hwf]. split_and!; [done|done| |].
  - unfold frame_off, page_end, sizeof_PageHeader. pose proof (frames_span_take fs k Hwfs). lia.
  - rewrite <-(frame_off_succ _ _ _ Hk). unfold frame_off, page_end in *.
    pose proof (frames_span_take fs (S k) Hwfs). lia.
Qed.

(** ** The pages of a journal *)

Definition aj_pages (j : ajournal) : list (list frame) := aj_closed j ++ [aj_cur j].

(** [PageEnd] ends every closed page and is nowhere else. *)
Record aj_wf (j : ajournal) : Prop := {
  wf_closed p fs : aj_closed j !! p = Some fs →
    ∃ ds f, fs = ds ++ [f] ∧ is_PageEnd f = true ∧ Forall (λ f, is_PageEnd f = false) ds;
  wf_cur : Forall (λ f, is_PageEnd f = false) (aj_cur j)
}.

Lemma a_append_wf ts ty flags payload j :
  ty ≠ MsgType.PageEnd → aj_wf j → aj_wf (a_append ts ty flags payload j).
Proof.
  intros Hty [Hc Hcur]. split; [done|]. simpl. apply Forall_app. split; [done|].
  constructor; [|done]. by apply Z.eqb_neq.
Qed.

Lemma a_rotate_wf now j : aj_wf j → aj_wf (a_rotate now j).
Proof.
  intros [Hc Hcur]. split; [|by constructor]. simpl. intros p fs Hp.
  apply lookup_app_Some in Hp as [Hp|[_ Hp]]; [by eapply Hc|].
  apply list_lookup_singleton_Some in Hp as [_ <-]. by eexists _, _.
Qed.

Lemma a_write_wf size now ts ty flags payload j :
  ty ≠ MsgType.PageEnd → aj_wf j → aj_wf (a_write size now ts ty flags payload j).
Proof.
  intros Hty Hwf. unfold a_write. apply a_append_wf; [done|]. case_match; [done|by apply a_rotate_wf].
Qed.

Section readable.
Context `{Env} `{!NoErrors} `{!EnvLaws} `{ILocator} `{!LocatorLaws}.

(** Everything a reader relies on: the files show [j]. *)
Record readable (w : world) (c : writer_config) (j : ajournal) : Prop := {
  rb_range : 0 ≤ aj_first j ∧ aj_page j < 2 ^ 31;
  rb_pages p fs : aj_pages j !! p = Some fs →
    page_shown w (page_file c (aj_first j + Z.of_nat p)) (page_size_ c) fs ∧
    page_size_ c ≤ file_size w (page_file c (aj_first j + Z.of_nat p));
  rb_border : page_end (aj_cur j) ≤ page_size_ c - FRAME_ALIGNMENT;
  rb_names : only_pages w (layoutDir (location_ c) JOURNAL);
  rb_low id : 0 ≤ id < aj_first j → w_files w !! page_file c id = None;
  rb_wf : aj_wf j;
  rb_cfg : page_size_ c = findPageSize (location_ c) (dest_id_ c)
}.

(** The pages around the current one, and what is known of that one. *)
Lemma around_readable w c j :
  pages_around w c j → page_shown w (cur_file c j) (page_size_ c) (aj_cur j) →
  page_size_ c ≤ file_size w (cur_file c j) →
  page_end (aj_cur j) ≤ page_size_ c - FRAME_ALIGNMENT → aj_wf j →
  page_size_ c = findPageSize (location_ c) (dest_id_ c) → readable w c j.
Proof.
  intros [Hr Hc Hl _ _ Hn Hlow] Hcur Hsz Hb Hwf Hcfg. split; try done.
  intros p fs [Hp|[Hp1 Hp2]]%lookup_app_Some.
  - pose proof (lookup_lt_Some _ _ _ Hp). split; [by apply page_state_shown, Hc|by apply Hl].
  - apply list_lookup_singleton_Some in Hp2 as [Hp2 <-].
    replace (aj_first j + Z.of_nat p) with (aj_page j) by (unfold aj_page; lia). done.
Qed.

(** A writer at the end of [j] makes it readable. *)
Lemma rep_readable w r j : rep w r j → aj_wf j → readable w (wr_cfg r) j.
Proof.
  intros [Hmb [Har Hcur Hb] _] Hwf. destruct (mb_page _ _ _ Hmb) as (page&_&(_&?&_)&_).
  eapply around_readable; try done; [by apply page_state_shown|apply Hmb].
Qed.

(** So does one that has a frame open. *)
Lemma rep_open_readable w r j ts ty flags n :
  rep_open w r j ts ty flags n → aj_wf j → readable w (wr_cfg r) j.
Proof.
  intros [Hmb Hdo _] Hwf. destruct (mb_page _ _ _ Hmb) as (page&_&(_&?&_)&_).
  pose proof (do_size _ _ _ _ _ _ _ Hdo). pose proof (do_fits _ _ _ _ _ _ _ Hdo) as Hfit.
  unfold FRAME_ALIGNMENT, sizeof_FrameHeader in *.
  pose proof (framePhysicalLength_bounds (32 + n) ltac:(lia)) as [? _].
  apply around_readable; [apply Hdo| |done|unfold FRAME_ALIGNMENT; lia|done|apply Hmb].
  split; [by eapply do_header|by eapply do_laid| |lia].
  intros _. rewrite <-(do_length _ _ _ _ _ _ _ Hdo). unfold off_length. by rewrite Z.add_0_r.
Qed.

Lemma readable_page w c j p fs :
  readable w c j → aj_pages j !! p = Some fs →
  page_shown w (page_file c (aj_first j + Z.of_nat p)) (page_size_ c) fs ∧
  page_size_ c ≤ file_size w (page_file c (aj_first j + Z.of_nat p)) ∧
  page_end fs ≤ page_size_ c ∧ 0 ≤ aj_first j + Z.of_nat p < 2 ^ 31.
Proof.
  intros Hrb Hp. destruct (rb_pages _ _ _ Hrb _ _ Hp) as [Hps Hsz].
  pose proof (rb_range _ _ _ Hrb) as Hr. unfold aj_page in Hr.
  apply lookup_lt_Some in Hp. unfold aj_pages in Hp. rewrite length_app in Hp. simpl in Hp.
  split_and!; [done|done|apply Hps|lia|lia].
Qed.
End readable.

(** ** The cursor *)

Definition jheld (jn : journal) : list Page :=
  option_list (jn_page jn) ++ jn_retired jn ++ jn_queue jn.

(** The page its warmer thread has mapped, and all pages together. *)
Definition jwarmed (jn : journal) : list Page :=
  (λ a, MkPage (jc_location (jn_cfg jn)) (jc_dest_id (jn_cfg jn)) (jn_warmer_ready_id jn) false
          (jc_page_size (jn_cfg jn)) a true) <$> option_list (jn_warmer_addr jn).
Definition jall (jn : journal) : list Page := jheld jn ++ jwarmed jn.

Lemma jall_bases jn : base_of <$> jall jn = (base_of <$> jheld jn) ++ (p_base <$> option_list (jn_warmer_addr jn)).
Proof. unfold jall, jwarmed. rewrite fmap_app. by destruct (jn_warmer_addr jn). Qed.

(** The members that say where the cursor is. *)
Record same_cursor (jn jn' : journal) : Prop := {
  sc_cfg : jn_cfg jn' = jn_cfg jn;
  sc_page : jn_page jn' = jn_page jn;
  sc_frame : jn_frame jn' = jn_frame jn;
  sc_warmed : jn_warmer_addr jn' = jn_warmer_addr jn;
  sc_ready : jn_warmer_ready_id jn' = jn_warmer_ready_id jn
}.

Lemma same_cursor_warmed jn jn' : same_cursor jn jn' → jwarmed jn' = jwarmed jn.
Proof. intros [Hc _ _ Ha Hr]. unfold jwarmed. by rewrite Hc, Ha, Hr. Qed.

Lemma same_cursor_refl jn : same_cursor jn jn.
Proof. by split. Qed.
Lemma same_cursor_trans j1 j2 j3 : same_cursor j1 j2 → same_cursor j2 j3 → same_cursor j1 j3.
Proof. intros [] []. split; congruence. Qed.

(** What reading does to the world: no byte changes, files only grow, and
    only the cursor's own pages [own] may be unmapped. *)
Record quiet (w w' : world) (own : list Page) : Prop := {
  qt_bytes pa i : fbyte w' pa i = fbyte w pa i;
  qt_size pa : file_size w pa ≤ file_size w' pa;
  qt_file pa : is_Some (w_files w' !! pa) ↔ is_Some (w_files w !! pa);
  qt_maps b m : w_maps w !! b = Some m → b ∉ base_of <$> own → w_maps w' !! b = Some m
}.

Lemma quiet_refl w own : quiet w w own.
Proof. by split. Qed.

Lemma quiet_trans w1 w2 w3 own : quiet w1 w2 own → quiet w2 w3 own → quiet w1 w3 own.
Proof.
  intros [] []. split; intros; try congruence.
  - etrans; [apply qt_size0|apply qt_size1].
  - by rewrite qt_file1.
  - by apply qt_maps1; [apply qt_maps0|].
Qed.

Lemma quiet_sub w w' own own' : quiet w w' own → own ⊆ own' → quiet w w' own'.
Proof.
  intros [] Hs. split; [done..|]. intros b m Hb Hn. apply qt_maps0; [done|].
  intros (p&->&Hp)%list_elem_of_fmap. apply Hn. apply list_elem_of_fmap_2. by apply Hs.
Qed.

Lemma opened_quiet w w' pa size master b own :
  opened w w' pa size master b → is_Some (w_files w !! pa) →
  (∀ pa' i, fbyte w' pa' i = fbyte w pa' i) → quiet w w' own.
Proof.
  intros Hop Hf Hb. pose proof (op_touches _ _ _ _ _ _ Hop) as Ht.
  split; [done|apply (tc_size _ _ _ Ht)| |intros; by eapply tc_maps].
  intros pa'. rewrite (op_file _ _ _ _ _ _ Hop). split; [|auto]. by intros [->|?].
Qed.

Section cursor.
Context `{Env} `{!NoErrors} `{!EnvLaws} `{ILocator} `{!LocatorLaws}.

Lemma readable_quiet w w' c j own :
  64 ≤ page_size_ c → quiet w w' own → readable w c j → readable w' c j.
Proof.
  intros Hsz [Hb Hgrow Hfile _] [Hr Hp Hbd Hn Hlow Hwf Hc]. split; try done.
  - intros p fs [Hps Hl]%Hp. split; [|by etrans].
    eapply page_shown_agree; [done| |done]. intros i _. apply Hb.
  - intros n Hf%Hfile. by apply Hn.
  - intros id Hid. rewrite eq_None_not_Some, Hfile, <-eq_None_not_Some. by apply Hlow.
Qed.

Lemma Page_release_quiet w p ps :
  pages_live w (p :: ps) →
  ∃ w', Page_release p w = (Ret tt, w') ∧ unmapped w w' ps ∧ quiet w w' [p].
Proof.
  intros Hlive. pose proof Hlive as ((Hp&Ho&_)&_&_)%pages_live_cons.
  destruct (Page_release_unmapped w p ps Hlive) as (w'&Hrun&Hun&_).
  destruct (Page_release_run w p (base_of p)) as (w''&Hrun'&Hf&_&_&Hm); [done..|].
  rewrite Hrun in Hrun'. injection Hrun' as <-. exists w'. split_and!; [done..|]. split.
  - intros. by apply fbyte_files.
  - intros. by rewrite (file_size_files w w').
  - intros. by rewrite Hf.
  - intros b m Hb Hn. rewrite Hm, lookup_delete_ne; [done|]. intros <-. apply Hn.
    simpl. by left.
Qed.

Lemma jretire_overflow_run n w jn :
  ∃ jn', jretire_overflow n (w, jn) = (Ret tt, (w, jn')) ∧ same_cursor jn jn' ∧
    jn_retired jn' ++ jn_queue jn' ≡ₚ jn_retired jn ++ jn_queue jn.
Proof.
  revert jn; induction n as [|n IH]; intros jn; cbn [jretire_overflow].
  { by exists jn. }
  jstep. case_match; [|by exists jn]. destruct (jn_retired jn) as [|p rest] eqn:Hr.
  { exists jn. by rewrite Hr. }
  jstep. edestruct IH as (jn'&Hrun&Hsc&Hperm). exists jn'. split; [exact Hrun|]. split.
  - eapply same_cursor_trans; [|exact Hsc]. by split.
  - rewrite Hperm. simpl. rewrite !app_assoc. by rewrite <-Permutation_cons_append.
Qed.

Lemma leave_page_run w jn old extra :
  pages_live w (old :: jn_retired jn ++ jn_queue jn ++ extra) →
  ∃ w' jn', leave_page (Some old) (w, jn) = (Ret tt, (w', jn')) ∧ same_cursor jn jn' ∧
    unmapped w w' extra ∧ quiet w w' [old] ∧
    pages_live w' (jn_retired jn' ++ jn_queue jn' ++ extra) ∧
    jn_retired jn' ++ jn_queue jn' ⊆ old :: jn_retired jn ++ jn_queue jn.
Proof.
  intros Hlive. unfold leave_page. jstep. destruct (jc_background (jn_cfg jn)).
  - do 2 jstep. set (jn1 := jset_retired _ jn).
    destruct (jretire_overflow_run (length (jn_retired jn1)) w jn1) as (jn'&Hrun&Hsc&Hperm).
    exists w, jn'.
    assert (jn_retired jn' ++ jn_queue jn' ≡ₚ old :: jn_retired jn ++ jn_queue jn) as Hp.
    { rewrite Hperm. unfold jn1; simpl. rewrite <-app_assoc. simpl. by rewrite <-Permutation_middle. }
    split; [done|]. split; [|split_and!].
    + eapply same_cursor_trans; [|exact Hsc]. by split.
    + apply unmapped_refl.
    + apply quiet_refl.
    + eapply pages_live_perm; [|exact Hlive]. rewrite (app_assoc (jn_retired jn')), Hp.
      simpl. by rewrite <-app_assoc.
    + intros x. by rewrite Hp.
  - destruct (Page_release_quiet w old _ Hlive) as (w'&Hrun&Hun&Hq).
    exists w', jn. split; [by apply jio_run|]. split_and!; [apply same_cursor_refl| |done| |].
    + eapply unmapped_sub; [done|set_solver].
    + eapply unmapped_live; [done|]. by apply pages_live_cons in Hlive as (_&_&?).
    + set_solver.
Qed.

Lemma leave_opt_run w jn old extra :
  pages_live w (option_list old ++ jn_retired jn ++ jn_queue jn ++ extra) →
  ∃ w' jn', leave_page old (w, jn) = (Ret tt, (w', jn')) ∧ same_cursor jn jn' ∧
    unmapped w w' extra ∧ quiet w w' (option_list old) ∧
    pages_live w' (jn_retired jn' ++ jn_queue jn' ++ extra) ∧
    jn_retired jn' ++ jn_queue jn' ⊆ option_list old ++ jn_retired jn ++ jn_queue jn.
Proof.
  destruct old as [old|]; [apply leave_page_run|]. intros Hlive. exists w, jn.
  split_and!; [done|done|apply unmapped_refl|apply quiet_refl|done|done].
Qed.

(** What the warmer thread has mapped is a page file, as long as a page. *)
Definition warm_seen (w : world) (jn : journal) (c : writer_config) : Prop :=
  ∀ a, jn_warmer_addr jn = Some a →
    w_maps w !! p_base a =
      Some (Mapping (page_file c (s32 (jn_warmer_ready_id jn))) (jc_page_size (jn_cfg jn)) false).

Lemma warm_seen_carry w w' jn jn' c :
  (∀ p, p ∈ jwarmed jn → w_maps w' !! base_of p = w_maps w !! base_of p) → same_cursor jn jn' →
  warm_seen w jn c → warm_seen w' jn' c.
Proof.
  intros Hm [Hc _ _ Ha Hr] Hs a Ha'. rewrite Ha in Ha'. rewrite Hc, Hr, <-(Hs a Ha').
  refine (Hm (MkPage _ _ _ _ _ a _) _). unfold jwarmed. rewrite Ha'. by left.
Qed.

(** The journal stands at frame [k] of page [p] of [j]. *)
Record cursor (w : world) (jn : journal) (c : writer_config) (j : ajournal) (p k : nat) : Prop := {
  cu_loc : jc_location (jn_cfg jn) = location_ c;
  cu_dest : jc_dest_id (jn_cfg jn) = dest_id_ c;
  cu_ro : jc_is_writing (jn_cfg jn) = false;
  cu_size : jc_page_size (jn_cfg jn) = findPageSize (location_ c) (dest_id_ c);
  cu_warmed : warm_seen w jn c;
  cu_live : pages_live w (jall jn);
  cu_page : ∃ page wr fs, jn_page jn = Some page ∧
    pg_page_id page = aj_first j + Z.of_nat p ∧ aj_pages j !! p = Some fs ∧ (k ≤ length fs)%nat ∧
    mapped w (base_of page) (page_file c (aj_first j + Z.of_nat p)) (page_size_ c) wr ∧
    jn_frame jn = Ptr (base_of page) (frame_off fs k)
}.

(** A cursor that has a page or none, ready to load one. *)
Record loadable (w : world) (jn : journal) (c : writer_config) : Prop := {
  ld_loc : jc_location (jn_cfg jn) = location_ c;
  ld_dest : jc_dest_id (jn_cfg jn) = dest_id_ c;
  ld_ro : jc_is_writing (jn_cfg jn) = false;
  ld_size : jc_page_size (jn_cfg jn) = findPageSize (location_ c) (dest_id_ c);
  ld_warmed : warm_seen w jn c;
  ld_live : pages_live w (jall jn)
}.

Lemma cursor_loadable w jn c j p k : cursor w jn c j p k → loadable w jn c.
Proof. by intros []. Qed.

(** The new page: the warmer's if it has it, otherwise mapped now. *)
Record obtained (w w1 : world) (jn jn1 : journal) (c : writer_config) (id : Z) (new : Page) (wr : bool) : Prop := {
  ob_header : pg_header new = Ptr (base_of new) 0;
  ob_id : pg_page_id new = id;
  ob_mapped : mapped w1 (base_of new) (page_file c id) (page_size_ c) wr;
  ob_live : pages_live w1 (new :: jall jn1);
  ob_warmed : warm_seen w1 jn1 c;
  ob_quiet : quiet w w1 [];
  ob_cfg : jn_cfg jn1 = jn_cfg jn;
  ob_held : jheld jn1 = jheld jn;
  ob_page : jn_page jn1 = jn_page jn
}.

Lemma take_warmed_run w jn c j q fs :
  let id := aj_first j + Z.of_nat q in
  loadable w jn c → readable w c j → aj_pages j !! q = Some fs →
  take_warmed id (w, jn) = (Ret None, (w, jn)) ∨
  ∃ new, take_warmed id (w, jn) = (Ret (Some new), (w, jset_warmed None (-1) jn)) ∧
    obtained w w jn (jset_warmed None (-1) jn) c id new false.
Proof.
  intros id [Hloc Hdst Hro Hsz Hwarm Hlive] Hrb Hq. unfold take_warmed. jstep.
  destruct (_ && _); [|by left]. destruct (jn_warmer_addr jn) as [a|] eqn:Ha; [|by left].
  destruct (Z.eqb_spec (jn_warmer_ready_id jn) id) as [Hid|]; [|by left]. right.
  pose proof (readable_page _ _ _ _ _ Hrb Hq) as (Hps&Hlong&Hfit&Hrange). fold id in Hps, Hlong, Hrange.
  pose proof (rb_cfg _ _ _ Hrb) as Hsize. pose proof (findPageSize_bounds (location_ c) (dest_id_ c)) as [Hbs _].
  pose proof (Hwarm a Ha) as Hm. rewrite Hid, Hsz, <-Hsize in Hm.
  rewrite swrap_small in Hm; [|lia|unfold in_s; lia].
  set (new := MkPage (jc_location (jn_cfg jn)) (jc_dest_id (jn_cfg jn)) id false (page_size_ c) a true).
  assert (pages_live w (new :: jheld jn)) as Hlive1.
  { unfold jall, jwarmed in Hlive. rewrite Ha in Hlive. cbn in Hlive.
    rewrite <-Permutation_cons_append in Hlive. apply pages_live_cons in Hlive. by apply pages_live_cons. }
  pose proof Hlive1 as ((Hp&_&_)&_&_)%pages_live_cons. change (a = Ptr (p_base a) 0) in Hp.
  assert (mapped w (p_base a) (page_file c id) (page_size_ c) false) as Hmap by (split_and!; [done|done|lia]).
  exists new. split.
  - erewrite try_catch_Ret; [done|]. rewrite Hp.
    erewrite bind_Ret by (apply jio_run; eapply loadFromAddress_run; [exact Hmap|lia|apply Hps]).
    jstep. unfold new. by rewrite Hp.
  - split; try done. unfold jall, jwarmed. simpl. by rewrite app_nil_r.
Qed.

Lemma obtain_page w jn c j q fs :
  let id := aj_first j + Z.of_nat q in
  let cf := jn_cfg jn in
  loadable w jn c → readable w c j → aj_pages j !! q = Some fs →
  ∃ w1 jn1 new wr,
    (∀ B (K : Page → J B),
      bind (take_warmed id) (λ warmed,
        bind (match warmed with
              | Some p => ret p
              | None => jio (Page_load (jc_location cf) (jc_dest_id cf) id (jc_is_writing cf) (jc_prefault cf))
              end) K) (w, jn) = K new (w1, jn1)) ∧
    obtained w w1 jn jn1 c id new wr.
Proof.
  intros id cf Hld Hrb Hq. destruct (take_warmed_run w jn c j q fs Hld Hrb Hq) as [Hrun|(new&Hrun&Hob)].
  2:{ exists w, (jset_warmed None (-1) jn), new, false. split; [|done]. intros B K.
      erewrite bind_Ret by exact Hrun. reflexivity. }
  pose proof (readable_page _ _ _ _ _ Hrb Hq) as (Hps&Hlong&Hfit&Hid). fold id in Hps, Hlong.
  destruct Hld as [Hloc Hdst Hro Hsz Hwarm Hlive]. pose proof (rb_cfg _ _ _ Hrb) as Hsize.
  pose proof (findPageSize_bounds (location_ c) (dest_id_ c)) as [Hbs _]. unfold cf. rewrite Hloc, Hdst, Hro.
  destruct (Page_load_existing w (location_ c) (dest_id_ c) id false (jc_prefault (jn_cfg jn)) (last_pos fs))
    as (w1&b&Hload&Hop&Hb); [rewrite <-Hsize; apply Hps|by rewrite <-Hsize|].
  change (page_path (location_ c) (dest_id_ c) id) with (page_file c id) in Hop.
  rewrite <-Hsize in *. set (new := MkPage _ _ _ _ _ _ _) in Hload.
  exists w1, jn, new, (false || jc_prefault (jn_cfg jn)). split.
  { intros B K. erewrite bind_Ret by exact Hrun. by erewrite bind_Ret by (apply jio_run; exact Hload). }
  pose proof (op_touches _ _ _ _ _ _ Hop) as Ht. split; try done.
  - apply (op_mapped _ _ _ _ _ _ Hop).
  - by eapply opened_pages_live.
  - intros a Ha. eapply tc_maps; [exact Ht|]. by apply Hwarm.
  - eapply opened_quiet; [exact Hop|apply file_size_pos; lia|done].
Qed.

(** Loading a page of the journal puts the cursor on its first frame. *)
Lemma loadPage_run w jn c j q fs :
  loadable w jn c → readable w c j → aj_pages j !! q = Some fs →
  pg_page_id <$> jn_page jn ≠ Some (aj_first j + Z.of_nat q) →
  ∃ w' jn', loadPage (aj_first j + Z.of_nat q) (w, jn) = (Ret tt, (w', jn')) ∧
    cursor w' jn' c j q 0 ∧ quiet w w' (jheld jn) ∧ jn_cfg jn' = jn_cfg jn.
Proof.
  intros Hld Hrb Hq Hne. pose proof Hld as [Hloc Hdst Hro Hsz _ _].
  pose proof (readable_page _ _ _ _ _ Hrb Hq) as (Hps&Hlong&Hfit&Hid).
  pose proof (rb_cfg _ _ _ Hrb) as Hsize. set (id := aj_first j + Z.of_nat q) in *.
  pose proof (findPageSize_bounds (location_ c) (dest_id_ c)) as [Hbs _]. rewrite <-Hsize in Hbs.
  unfold loadPage. jstep. rewrite bool_decide_false by done.
  destruct (obtain_page w jn c j q fs Hld Hrb Hq) as (w1&jn0&new&wr&Hrun&Hob).
  fold id in Hrun, Hob. cbv zeta in Hrun |- *. rewrite Hrun. clear Hrun.
  destruct Hob as [Hh Hpid Hmap1 Hlive1 Hws1 Hq1 Hcf0 Hheld0 Hpg0]. do 2 jstep. rewrite Hpg0.
  assert (header_ok w1 (page_file c id) (page_size_ c) (last_pos fs)) as Hh1.
  { eapply header_ok_agree; [|apply Hps]. intros i _. apply (qt_bytes _ _ _ Hq1). }
  erewrite bind_Ret by (apply jio_run; eapply firstFrameAddress_run; [done|exact Hmap1|lia|exact Hh1]).
  jstep. set (jn1 := jset_frame_nb 0 _).
  destruct (leave_opt_run w1 jn1 (jn_page jn) (new :: jwarmed jn0)) as (w2&jn2&Hleave&Hsc&Hun&Hq2&Hlive2&Hsub).
  { eapply pages_live_perm; [|exact Hlive1]. unfold jall, jheld. rewrite Hpg0. unfold jn1. simpl.
    rewrite <-!app_assoc. by rewrite !Permutation_middle. }
  erewrite bind_Ret by exact Hleave.
  assert (∀ jn3, same_cursor jn2 jn3 → jn_retired jn3 = jn_retired jn2 → jn_queue jn3 = jn_queue jn2 →
    cursor w2 jn3 c j q 0 ∧ quiet w w2 (jheld jn) ∧ jn_cfg jn3 = jn_cfg jn) as Hdone.
  { intros jn3 Hsc3 Hr3 Hq3. pose proof (same_cursor_trans _ _ _ Hsc Hsc3) as Hsc13.
    pose proof (same_cursor_warmed _ _ Hsc13) as Hjw. change (jwarmed jn1) with (jwarmed jn0) in Hjw.
    assert (warm_seen w2 jn3 c) as Hws.
    { apply (warm_seen_carry w1 w2 jn1 jn3); [|done|exact Hws1]. intros p Hp. apply (un_maps _ _ _ Hun). by right. }
    destruct Hsc13 as [Hc Hpg Hfr _ _]. change (jn_cfg jn1) with (jn_cfg jn0) in Hc.
    split_and!; [split|..]; rewrite ?Hc, ?Hcf0; try done.
    - unfold jall, jheld. rewrite Hpg, Hr3, Hq3, Hjw. simpl. eapply pages_live_perm; [|exact Hlive2].
      rewrite <-!app_assoc. by rewrite !Permutation_middle.
    - exists new, wr, fs. rewrite Hpg, Hfr.
      split_and!; try done; [lia|]. eapply unmapped_mapped; [done|by left|done].
    - eapply quiet_trans; [eapply quiet_sub; [exact Hq1|set_solver]|]. eapply quiet_sub; [done|].
      unfold jheld. set_solver. }
  rewrite <-Hcf0. destruct (negb _ && _); cbn [when].
  - eexists _, _. split; [done|]. rewrite Hcf0. apply Hdone; [by split|done..].
  - eexists _, _. split; [done|]. rewrite Hcf0. by apply Hdone.
Qed.
End cursor.
