(* ===== verification/Isolation.v ===== *)
(** * Isolation: nobody unmaps what is not theirs

    Writer and reader map, retire and unmap pages all the time, on error paths
    too.  This file follows one mapping that is not theirs through every
    operation: it is never unmapped or replaced, and no page they hold later
    lies at its address.  The proofs are by a small program logic: [triple I m
    Q] says that [m] preserves [I] on every path out -- return, throw or fault
    -- and that what it returns satisfies [Q]. *)

From S2P Require Import Prelude Memory Frame Base Mmap Page Warmer Writer WriterState.
From S2P Require Import Journal Reader JournalSpec.

(** ** The logic *)

Definition triple {S A} (I : S → Prop) (m : M S A) (Q : A → Prop) : Prop :=
  ∀ s x s', I s → m s = (x, s') → I s' ∧ ∀ a, x = Ret a → Q a.

Section rules.
Context {S : Type} (I : S → Prop).

Lemma triple_bind {A B} (m : M S A) (k : A → M S B) Q R :
  triple I m Q → (∀ a, Q a → triple I (k a) R) → triple I (bind m k) R.
Proof.
  intros Hm Hk s x s' Hi. unfold bind. destruct (m s) as [y s1] eqn:E.
  destruct (Hm _ _ _ Hi E) as [Hi1 HQ]. destruct y as [a|e|f].
  - intros Hrun. by eapply Hk; [apply HQ|exact Hi1|].
  - intros [= <- <-]. by split.
  - intros [= <- <-]. by split.
Qed.
Lemma triple_conseq {A} (m : M S A) (Q R : A → Prop) :
  triple I m Q → (∀ a, Q a → R a) → triple I m R.
Proof. intros Hm HQ s x s' Hi Hrun. destruct (Hm _ _ _ Hi Hrun). split; [done|]. auto. Qed.
Lemma triple_any {A} (m : M S A) Q : triple I m Q → triple I m (λ _, True).
Proof. intros Hm. by eapply triple_conseq. Qed.
Lemma triple_val {A} (a : A) (Q : A → Prop) : Q a → triple I (ret a) Q.
Proof. intros HQ s x s' Hi [= <- <-]. split; [done|]. by intros b [= <-]. Qed.
Lemma triple_ret {A} (a : A) : triple I (ret a) (λ _, True).
Proof. by apply triple_val. Qed.
Lemma triple_throw {A} e (Q : A → Prop) : triple I (throw e) Q.
Proof. intros s x s' Hi [= <- <-]. by split. Qed.
Lemma triple_crash {A} f (Q : A → Prop) : triple I (crash f) Q.
Proof. intros s x s' Hi [= <- <-]. by split. Qed.
Lemma triple_gets {A} (f : S → A) (Q : A → Prop) : (∀ s, I s → Q (f s)) → triple I (gets f) Q.
Proof. intros HQ s x s' Hi [= <- <-]. split; [done|]. intros a [= <-]. auto. Qed.
Lemma triple_modify f : (∀ s, I s → I (f s)) → triple I (modify f) (λ _, True).
Proof. intros Hf s x s' Hi [= <- <-]. auto. Qed.
Lemma triple_catch {A} (m : M S A) h Q :
  triple I m Q → (∀ e, triple I (h e) Q) → triple I (try_catch m h) Q.
Proof.
  intros Hm Hh s x s' Hi. unfold try_catch. destruct (m s) as [y s1] eqn:E.
  destruct (Hm _ _ _ Hi E) as [Hi1 HQ]. destruct y as [a|e|f].
  - intros [= <- <-]. auto.
  - intros Hrun. by eapply Hh.
  - intros [= <- <-]. by split.
Qed.
Lemma triple_when b (m : M S unit) : triple I m (λ _, True) → triple I (when b m) (λ _, True).
Proof. destruct b; [done|]. intros _. apply triple_ret. Qed.
Lemma triple_throw_if b e : triple I (throw_if b e) (λ _, True).
Proof. destruct b; [apply triple_throw|apply triple_ret]. Qed.
End rules.

(** Steps through a computation; what [eauto] cannot show of a part is left. *)
Create HintDb isolation discriminated.
#[export] Hint Resolve triple_ret triple_throw triple_crash triple_when triple_throw_if : isolation.

Ltac tstep :=
  first
    [ progress (eauto 2 with isolation)
    | eapply triple_bind; [solve [eauto 3 with isolation]|cbn beta; intros]
    | eapply triple_bind; [eapply triple_any; solve [eauto 3 with isolation]|cbn beta; intros]
    | eapply triple_any; solve [eauto 3 with isolation]
    | apply triple_when
    | apply triple_catch; [|intros]
    | progress cbv zeta
    | case_match ].
Ltac triple_tac := repeat tstep.

(** ** World operations *)

Section world.
Context `{Env} `{!EnvLaws} (b : Z) (mp : mapping).

Definition there (w : world) : Prop := w_maps w !! b = Some mp.
Abbreviation safe := (triple there).

Lemma load_bytes_safe p n : safe (load_bytes p n) (λ _, True).
Proof. intros w x w' Hw. unfold load_bytes. by case_match; intros [= <- <-]. Qed.
Lemma load_safe n p : safe (load n p) (λ _, True).
Proof. eapply triple_bind; [apply load_bytes_safe|intros; apply triple_ret]. Qed.
Lemma store_bytes_safe p bs : safe (store_bytes p bs) (λ _, True).
Proof. intros w x w' Hw. unfold store_bytes. by case_match; intros [= <- <-]. Qed.
Lemma store_safe n p v : safe (store n p v) (λ _, True).
Proof. apply store_bytes_safe. Qed.
Lemma memset0_safe p n : safe (memset0 p n) (λ _, True).
Proof. intros w x w' Hw. unfold memset0. by case_match; intros [= <- <-]. Qed.
Lemma clock_safe : safe read_clock (λ _, True).
Proof. by intros w x w' Hw [= <- <-]. Qed.
Lemma errno_safe : safe syscall_errno (λ _, True).
Proof. by intros w x w' Hw [= <- <-]. Qed.
Lemma files_safe f : safe (modify (set_files f)) (λ _, True).
Proof. by apply triple_modify. Qed.
Lemma gets_safe {A} (f : world → A) : safe (gets f) (λ _, True).
Proof. by apply triple_gets. Qed.
#[local] Hint Resolve load_bytes_safe load_safe store_bytes_safe store_safe memset0_safe clock_safe
  errno_safe files_safe gets_safe : isolation.

Lemma or_throw_safe c : safe (syscall_or_throw c) (λ _, True).
Proof. unfold syscall_or_throw. triple_tac. Qed.
Lemma ignored_safe : safe syscall_ignored (λ _, True).
Proof. unfold syscall_ignored. triple_tac. Qed.
#[local] Hint Resolve or_throw_safe ignored_safe : isolation.

Lemma open_safe pa : safe (open_creat pa) (λ _, True).
Proof. unfold open_creat. triple_tac. Qed.
Lemma allocate_safe pa size : safe (allocate pa size) (λ _, True).
Proof. unfold allocate, grow, truncate. triple_tac. Qed.

(** A new mapping is somewhere else. *)
Lemma mmap_safe pa size wr : safe (mmap_shared pa size wr) (λ p, p_base p ≠ b).
Proof.
  intros w x w' Hw. unfold mmap_shared.
  destruct (env_errno _); intros [= <- <-]; [by split|].
  assert (env_base (w_calls w) (w_maps w) ≠ b) as Hne.
  { intros Heq. pose proof (env_base_fresh (w_calls w) (w_maps w)) as Hf.
    rewrite Heq, Hw in Hf. done. }
  split; [|by intros a [= <-]]. unfold there. simpl. by rewrite lookup_insert_ne.
Qed.
Lemma munmap_safe p : p_base p ≠ b → safe (munmap p) (λ _, True).
Proof.
  intros Hne. unfold munmap. eapply triple_bind; [apply errno_safe|intros [e|] _]; triple_tac.
  eapply triple_bind; [apply triple_modify|intros; apply triple_ret].
  intros w Hw. unfold there. simpl. by rewrite lookup_delete_ne.
Qed.
#[local] Hint Resolve open_safe allocate_safe mmap_safe munmap_safe : isolation.

Lemma touch_safe n p : safe (touch_pages n p) (λ _, True).
Proof. revert p; induction n as [|n IH]; intros p; cbn [touch_pages]; triple_tac. Qed.
#[local] Hint Resolve touch_safe : isolation.

Lemma prefault_safe p size fresh : p_base p ≠ b → safe (prefault_buffer p size fresh) (λ _, True).
Proof. intros Hne. unfold prefault_buffer. triple_tac. Qed.
#[local] Hint Resolve prefault_safe : isolation.

Lemma loadMmapBuffer_safe pa size wr pf : safe (loadMmapBuffer pa size wr pf) (λ p, p_base p ≠ b).
Proof. unfold loadMmapBuffer, stat. triple_tac. by apply triple_val. Qed.

Lemma releaseMmapBuffer_safe a pf mode :
  (∀ p, a = Some p → p_base p ≠ b) → safe (releaseMmapBuffer a pf mode) (λ _, True).
Proof.
  intros Ha. unfold releaseMmapBuffer. destruct a as [p|]; [|apply triple_ret].
  specialize (Ha p eq_refl). triple_tac.
Qed.
End world.
#[export] Hint Resolve load_bytes_safe load_safe store_bytes_safe store_safe memset0_safe clock_safe
  errno_safe files_safe gets_safe or_throw_safe ignored_safe open_safe allocate_safe mmap_safe
  munmap_safe touch_safe prefault_safe loadMmapBuffer_safe : isolation.

(** ** Pages *)

Section page.
Context `{Env} `{!EnvLaws} `{ILocator} `{!LocatorLaws} (b : Z) (mp : mapping).
Abbreviation safe := (triple (there b mp)).

Lemma getPagePath_safe loc dst id : safe (getPagePath loc dst id) (λ _, True).
Proof.
  intros w x w' Hw. unfold getPagePath. erewrite bind_Ret by apply makeLayoutDir_run.
  by intros [= <- <-].
Qed.
Lemma init_header_safe p n : safe (init_header p n) (λ _, True).
Proof. unfold init_header. triple_tac. Qed.
Lemma validate_header_safe p n : safe (validate_header p n) (λ _, True).
Proof. unfold validate_header. triple_tac. Qed.
#[local] Hint Resolve getPagePath_safe init_header_safe validate_header_safe : isolation.

Lemma Page_load_safe loc dst id wr pf : safe (Page_load loc dst id wr pf) (λ p, base_of p ≠ b).
Proof.
  unfold Page_load. cbv zeta. eapply triple_bind; [apply getPagePath_safe|cbn beta; intros pa _].
  eapply triple_bind.
  { apply triple_catch with (Q := λ p, p_base p ≠ b); [apply loadMmapBuffer_safe|intros; apply triple_throw]. }
  cbn beta. intros a Ha. triple_tac. by apply triple_val.
Qed.
Lemma loadFromAddress_safe loc dst id a pf :
  (∀ p, a = Some p → p_base p ≠ b) → safe (loadFromAddress loc dst id a pf) (λ p, base_of p ≠ b).
Proof.
  intros Ha. unfold loadFromAddress. destruct a as [h|]; [|apply triple_throw].
  specialize (Ha h eq_refl). triple_tac. by apply triple_val.
Qed.
Lemma Page_release_safe p : base_of p ≠ b → safe (Page_release p) (λ _, True).
Proof.
  intros Hp. unfold Page_release. apply triple_when. cbv zeta.
  eapply triple_bind; [apply releaseMmapBuffer_safe|intros; apply triple_ret].
  by intros q [= <-].
Qed.
Lemma firstFrameAddress_safe p : safe (firstFrameAddress p) (λ _, True).
Proof. unfold firstFrameAddress. triple_tac. Qed.
Lemma setLastFramePosition_safe p n : safe (setLastFramePosition p n) (λ _, True).
Proof. unfold setLastFramePosition. triple_tac. Qed.
Lemma frame_fields_safe h v :
  safe (setGenTime h v) (λ _, True) ∧ safe (setEventTime h v) (λ _, True) ∧
  safe (setMsgType h v) (λ _, True) ∧ safe (setFlags h v) (λ _, True) ∧
  safe (setSequence h v) (λ _, True).
Proof. split_and!; apply store_safe. Qed.
End page.
#[export] Hint Resolve getPagePath_safe init_header_safe validate_header_safe Page_load_safe
  loadFromAddress_safe Page_release_safe firstFrameAddress_safe setLastFramePosition_safe : isolation.
#[export] Hint Extern 1 (triple (there _ _) (setGenTime _ _) _) => apply store_safe : isolation.
#[export] Hint Extern 1 (triple (there _ _) (setEventTime _ _) _) => apply store_safe : isolation.
#[export] Hint Extern 1 (triple (there _ _) (setMsgType _ _) _) => apply store_safe : isolation.
#[export] Hint Extern 1 (triple (there _ _) (setFlags _ _) _) => apply store_safe : isolation.
#[export] Hint Extern 1 (triple (there _ _) (setSequence _ _) _) => apply store_safe : isolation.

(** ** An owner beside the world *)

Section owner.
Context {S : Type} (bases : S → list Z) (b : Z) (mp : mapping).

(** The mapping is there and is none of the owner's. *)
Definition foreign (s : world * S) : Prop := there b mp s.1 ∧ b ∉ bases s.2.

Lemma triple_lift {A} (m : M world A) Q :
  triple (there b mp) m Q → triple foreign (lift_fst m) Q.
Proof.
  intros Hm [w r] x s' [Hw Hr]. unfold lift_fst. simpl. destruct (m w) as [y w'] eqn:E.
  intros [= <- <-]. destruct (Hm _ _ _ Hw E) as [Hw' HQ]. by split.
Qed.
Lemma triple_owner : triple foreign (gets snd) (λ r, b ∉ bases r).
Proof. apply triple_gets. by intros s [_ ?]. Qed.
Lemma triple_own f :
  (∀ r, b ∉ bases r → b ∉ bases (f r)) → triple foreign (modify (λ s, (s.1, f s.2))) (λ _, True).
Proof. intros Hf. apply triple_modify. intros s [??]. split; simpl; auto. Qed.
End owner.

(** ** Owners of mappings *)

(** No two owners have a mapping in common. *)
Definition apart_owners (Bs : list (list Z)) : Prop :=
  ∀ i k B B' b, i ≠ k → Bs !! i = Some B → Bs !! k = Some B' → b ∈ B → b ∉ B'.

Lemma apart_insert Bs i B' :
  apart_owners Bs →
  (∀ k B b, k ≠ i → Bs !! k = Some B → b ∈ B → b ∉ B') → apart_owners (<[i := B']> Bs).
Proof.
  intros Hap Hnew k l B C b Hne Hk Hl Hb.
  apply list_lookup_insert_Some in Hk as [(<-&<-&_)|[Hki Hk]];
    apply list_lookup_insert_Some in Hl as [(<-&<-&_)|[Hli Hl]].
  - done.
  - intros Hc. by eapply (Hnew l).
  - by eapply (Hnew k).
  - by eapply (Hap k l).
Qed.

Lemma apart_snoc Bs B' :
  apart_owners Bs → (∀ B b, B ∈ Bs → b ∈ B → b ∉ B') → apart_owners (Bs ++ [B']).
Proof.
  intros Hap Hnew k l B C b Hne Hk Hl Hb.
  apply lookup_app_Some in Hk as [Hk|[Hk1 Hk]]; apply lookup_app_Some in Hl as [Hl|[Hl1 Hl]].
  - by eapply (Hap k l).
  - apply list_lookup_singleton_Some in Hl as [_ <-]. eapply Hnew; [|done]. by eapply list_elem_of_lookup_2.
  - apply list_lookup_singleton_Some in Hk as [_ <-]. intros Hc.
    eapply Hnew; [|exact Hc|exact Hb]. by eapply list_elem_of_lookup_2.
  - apply list_lookup_singleton_Some in Hk as [? _], Hl as [? _]. lia.
Qed.

(** What an operation that spares foreign mappings does to the others'. *)
Definition spared (B : list Z) (w w' : world) (mine : list Z) : Prop :=
  ∀ b, b ∈ B → w_maps w' !! b = w_maps w !! b ∧ b ∉ mine.

Lemma triple_spared {S A} (bases : S → list Z) (m : M (world * S) A) w r x w' r' B :
  (∀ b mp, triple (foreign bases b mp) m (λ _, True)) → m (w, r) = (x, (w', r')) →
  (∀ b, b ∈ B → is_Some (w_maps w !! b) ∧ b ∉ bases r) → spared B w w' (bases r').
Proof.
  intros Hm Hrun HB b Hb. destruct (HB b Hb) as [[mp Hmp] Hn].
  destruct (Hm b mp (w, r) x (w', r') (conj Hmp Hn) Hrun) as [[Hmp' Hn'] _]. split; [|done].
  unfold there in Hmp'. simpl in Hmp'. by rewrite Hmp'.
Qed.

(** ** The writer *)

(** Where the writer's pages are: those it holds, and those of its warmer. *)
Definition warm_bases (m : warmer) : list Z := p_base <$> omap sl_address (wm_ring m).
Definition writer_bases (r : writer) : list Z :=
  (base_of <$> held r) ++ from_option warm_bases [] (page_warmer_ r).

Lemma warm_bases_put i s m :
  warm_bases (put_slot i s m) ⊆ from_option (λ a, [p_base a]) [] (sl_address s) ++ warm_bases m.
Proof.
  unfold put_slot, warm_bases. intros x (a&->&(t&Ht&Ha)%list_elem_of_omap)%list_elem_of_fmap.
  apply list_elem_of_lookup in Ht as [k Hk]. unfold set_ring in Hk; cbn [wm_ring] in Hk.
  apply list_lookup_insert_Some in Hk as [(<-&->&_)|[_ Hk]].
  - rewrite Ha. simpl. by left.
  - apply elem_of_app. right. apply list_elem_of_fmap_2, list_elem_of_omap.
    exists t. split; [by eapply list_elem_of_lookup_2|done].
Qed.

Lemma slot_at_bases i m a : sl_address (slot_at m i) = Some a → p_base a ∈ warm_bases m.
Proof.
  unfold slot_at, warm_bases. intros Ha. destruct (wm_ring m !! Z.to_nat i) as [s|] eqn:Hs; [|done].
  simpl in Ha. apply list_elem_of_fmap_2, list_elem_of_omap. exists s.
  split; [by eapply list_elem_of_lookup_2|done].
Qed.

Lemma getWarmedPage_bases page_id m res m' :
  getWarmedPage page_id m = (res, m') →
  (∀ a n, res = Some (a, n) → p_base a ∈ warm_bases m) ∧ warm_bases m' ⊆ warm_bases m.
Proof.
  unfold getWarmedPage. generalize (Z.to_nat RingSize) as n, 0 as i, (wm_read_index m) as s.
  induction n as [|n IH]; intros i s; cbn [getWarmedPage_from].
  { by intros [= <- <-]. }
  cbv zeta. destruct (_ =? _); [|apply IH]. intros [= <- <-].
  set (slot := slot_at m _). destruct (sl_address slot) as [p|] eqn:Ha; simpl.
  - split; [intros a k [= <- _]; by eapply slot_at_bases|].
    etrans; [apply (warm_bases_put _ _ m)|]. simpl. rewrite ?Ha. simpl.
    pose proof (slot_at_bases _ _ _ Ha). set_solver.
  - split; [done|]. etrans; [apply (warm_bases_put _ _ m)|]. simpl. rewrite ?Ha. set_solver.
Qed.

Section writer.
Context `{Env} `{!EnvLaws} `{ILocator} `{!LocatorLaws} (b : Z) (mp : mapping).
Abbreviation spares := (triple (foreign writer_bases b mp)).

Lemma io_spares {A} (m : M world A) Q : triple (there b mp) m Q → spares (io m) Q.
Proof. apply triple_lift. Qed.
Lemma this_spares : spares this (λ r, b ∉ writer_bases r).
Proof. apply triple_owner. Qed.
Lemma update_spares f :
  (∀ r, b ∉ writer_bases r → b ∉ writer_bases (f r)) → spares (update f) (λ _, True).
Proof. apply triple_own. Qed.
(** Updates that leave the pages where they are. *)
Lemma update_same f : (∀ r, writer_bases (f r) = writer_bases r) → spares (update f) (λ _, True).
Proof. intros Hf. apply update_spares. intros r. by rewrite Hf. Qed.
Lemma the_page_spares : spares the_page (λ p, base_of p ≠ b).
Proof.
  intros [w r] x s' [Hw Hr] Hrun. unfold the_page in Hrun. simpl in *.
  destruct (current_page_ r) as [p|] eqn:Hp; injection Hrun as <- <-; (split; [done|]); [|done].
  intros q [= <-] Heq. rewrite <-Heq in Hr. apply Hr. unfold writer_bases, held. rewrite Hp. by left.
Qed.
#[local] Hint Resolve io_spares this_spares the_page_spares : isolation.
#[local] Hint Extern 2 (triple (foreign writer_bases _ _) (update _) _) =>
  apply update_same; intros; reflexivity : isolation.

Lemma bases_held r p : b ∉ writer_bases r → p ∈ held r → base_of p ≠ b.
Proof.
  intros Hr Hp Heq. rewrite <-Heq in Hr. apply Hr. apply elem_of_app. left. by apply list_elem_of_fmap_2.
Qed.

Lemma nextSeq_spares : spares nextSeq (λ _, True).
Proof. unfold nextSeq. triple_tac. Qed.
#[local] Hint Resolve nextSeq_spares : isolation.

Lemma set_retired_spares f :
  (∀ r, held (f r) ⊆ held r) → (∀ r, page_warmer_ (f r) = page_warmer_ r) →
  spares (update f) (λ _, True).
Proof.
  intros Hsub Hwm. apply update_spares. intros r Hr Hin. apply Hr. unfold writer_bases in *.
  rewrite Hwm in Hin. apply elem_of_app in Hin as [(p&Heq&Hp)%list_elem_of_fmap|Hin]; apply elem_of_app.
  - left. rewrite Heq. apply list_elem_of_fmap_2. by apply Hsub.
  - by right.
Qed.

Lemma retire_overflow_spares n : spares (retire_overflow n) (λ _, True).
Proof.
  induction n as [|n IH]; cbn [retire_overflow]; [apply triple_ret|].
  eapply triple_bind; [apply this_spares|cbn beta; intros r Hr].
  case_match; [|apply triple_ret]. destruct (retired_pages_ r) as [|old rest] eqn:Hret; [apply triple_ret|].
  assert (base_of old ≠ b) as Hold.
  { eapply bases_held; [done|]. unfold held. rewrite Hret. set_solver. }
  assert (b ∉ base_of <$> rest) as Hrest.
  { intros (q&Heq&Hq)%list_elem_of_fmap. apply (bases_held r q); [done| |done].
    unfold held. rewrite Hret. set_solver. }
  eapply triple_bind.
  { apply update_spares. intros r' Hr'. unfold writer_bases, held in *. simpl in *.
    rewrite !fmap_app in *. set_solver. }
  cbn beta. intros _ _. eapply triple_bind; [|intros; exact IH].
  case_match; [|apply io_spares, Page_release_safe; done].
  apply update_spares. intros r' Hr'. unfold writer_bases, held in *. simpl in *.
  rewrite !fmap_app in *. simpl. set_solver.
Qed.
#[local] Hint Resolve retire_overflow_spares : isolation.

Lemma next_page_spares id : spares (next_page id) (λ p, base_of p ≠ b).
Proof.
  unfold next_page. eapply triple_bind; [apply this_spares|cbn beta zeta; intros r Hr].
  destruct (page_warmer_ r) as [m|] eqn:Hm; [|apply io_spares, Page_load_safe].
  destruct (getWarmedPage id m) as [warmed m'] eqn:Hg.
  destruct (getWarmedPage_bases _ _ _ _ Hg) as [Ha Hsub].
  assert (b ∉ warm_bases m) as Hb.
  { intros Hin. apply Hr. unfold writer_bases. rewrite Hm. apply elem_of_app. by right. }
  eapply triple_bind.
  { apply update_spares. intros r' Hr' Hin. unfold writer_bases in *. simpl in Hin.
    apply elem_of_app in Hin as [Hin|Hin]; [apply Hr'; apply elem_of_app; by left|].
    by apply Hb, Hsub. }
  cbn beta. intros _ _. eapply triple_bind with (Q := λ p, base_of p ≠ b).
  { destruct warmed as [[a n]|]; apply io_spares; [|apply Page_load_safe].
    apply loadFromAddress_safe. intros p [= <-] Heq. apply Hb. rewrite <-Heq. by eapply Ha. }
  cbn beta. intros p Hp. eapply triple_bind; [|intros; by apply triple_val].
  apply update_same. intros r'. unfold writer_bases. by destruct (page_warmer_ r') eqn:E; simpl; rewrite ?E.
Qed.
#[local] Hint Resolve next_page_spares set_retired_spares : isolation.

Lemma write_PageEnd_spares p : spares (write_PageEnd p) (λ _, True).
Proof. unfold write_PageEnd. triple_tac. Qed.
#[local] Hint Resolve write_PageEnd_spares : isolation.

(** Pages the writer takes over are not at [b]. *)
Lemma install_spares f p :
  base_of p ≠ b → (∀ r, held (f r) ⊆ p :: held r) → (∀ r, page_warmer_ (f r) = page_warmer_ r) →
  spares (update f) (λ _, True).
Proof.
  intros Hp Hsub Hwm. apply update_spares. intros r Hr Hin. unfold writer_bases in *.
  rewrite Hwm in Hin. apply elem_of_app in Hin as [(q&Heq&Hq)%list_elem_of_fmap|Hin].
  - apply Hsub, elem_of_cons in Hq as [->|Hq]; [done|].
    apply Hr, elem_of_app. left. rewrite Heq. by apply list_elem_of_fmap_2.
  - apply Hr, elem_of_app. by right.
Qed.

Lemma finish_page_spares p : base_of p ≠ b → spares (finish_page p) (λ _, True).
Proof.
  intros Hp. unfold finish_page.
  eapply triple_bind; [apply this_spares|cbn beta zeta; intros r _].
  eapply triple_bind; [by case_match; eauto with isolation|cbn beta; intros _ _].
  eapply triple_bind; [apply triple_catch; eauto with isolation|cbn beta; intros _ _].
  eapply triple_bind; [apply (install_spares _ p); [done| |done]|cbn beta; intros; triple_tac].
  intros r'. unfold held. simpl. set_solver.
Qed.
#[local] Hint Resolve finish_page_spares : isolation.

Lemma rotatePage_spares : spares rotatePage (λ _, True).
Proof.
  unfold rotatePage. eapply triple_bind; [apply this_spares|cbn beta zeta; intros r Hr].
  eapply triple_bind; [eauto with isolation|cbn beta; intros _ _].
  eapply triple_bind; [apply next_page_spares|cbn beta; intros next Hnext].
  eapply triple_bind with (Q := λ _, True).
  { destruct (current_page_ r) as [p|] eqn:Hp; [|apply triple_ret].
    apply finish_page_spares, (bases_held r); [done|]. unfold held. rewrite Hp. by left. }
  cbn beta. intros _ _. eapply triple_bind; [apply (install_spares _ next); [done| |done]|].
  { intros r'. unfold held. simpl. set_solver. }
  cbn beta. intros _ _. triple_tac.
Qed.
#[local] Hint Resolve rotatePage_spares : isolation.

Lemma openFrame_spares ts ty n flags : spares (openFrame ts ty n flags) (λ _, True).
Proof. unfold openFrame, new_frame. triple_tac. Qed.
Lemma closeFrame_spares h n hook :
  (∀ h, triple (there b mp) (hook h) (λ _, True)) → spares (closeFrame h n hook) (λ _, True).
Proof. intros Hh. unfold closeFrame. triple_tac. Qed.
Lemma close_no_hook_spares h n : spares (closeFrame h n no_hook) (λ _, True).
Proof. apply closeFrame_spares. intros. apply triple_ret. Qed.
Lemma ensure_page_spares : spares ensure_page (λ _, True).
Proof. unfold ensure_page. triple_tac. Qed.
#[local] Hint Resolve openFrame_spares closeFrame_spares close_no_hook_spares ensure_page_spares : isolation.

Lemma acquire_spares : spares acquire_lock (λ _, True).
Proof. intros [w r] x s' Hs. unfold acquire_lock. by case_match; intros [= <- <-]. Qed.
Lemma release_spares : spares release_lock (λ _, True).
Proof. unfold release_lock. triple_tac. Qed.
#[local] Hint Resolve acquire_spares release_spares : isolation.

Lemma with_lock_spares {A} (m : W A) : spares m (λ _, True) → spares (with_lock m) (λ _, True).
Proof.
  intros Hm. unfold with_lock. eapply triple_bind; [apply this_spares|cbn beta; intros r _].
  case_match; [|done]. eapply triple_bind; [apply acquire_spares|cbn beta; intros _ _].
  eapply triple_bind; [apply triple_catch; [exact Hm|]|].
  - intros e. eapply triple_bind; [apply release_spares|intros; apply triple_throw].
  - cbn beta. intros a _. eapply triple_bind; [apply release_spares|intros; apply triple_ret].
Qed.

Lemma unlock_spares b' : spares (when b' release_lock) (λ _, True).
Proof. apply triple_when, release_spares. Qed.
#[local] Hint Resolve unlock_spares : isolation.

Lemma openData_spares n ts ty flags : spares (openData n ts ty flags) (λ _, True).
Proof.
  unfold openData. eapply triple_bind; [apply this_spares|cbn beta; intros r _].
  eapply triple_bind; [apply triple_when, acquire_spares|cbn beta; intros _ _].
  triple_tac.
Qed.
Lemma closeData_spares n : spares (closeData n no_hook) (λ _, True).
Proof.
  unfold closeData. eapply triple_bind; [apply this_spares|cbn beta zeta; intros r _].
  destruct (open_frame_header_ r) as [h|].
  - eapply triple_bind; [apply triple_catch; [triple_tac|]|cbn beta; intros; apply unlock_spares].
    intros e. eapply triple_bind; [apply unlock_spares|intros; apply triple_throw].
  - eapply triple_bind; [apply unlock_spares|intros; apply triple_throw].
Qed.

Lemma retire_step_spares : spares retire_step (λ _, True).
Proof.
  unfold retire_step. eapply triple_bind; [apply this_spares|cbn beta; intros r Hr].
  destruct (retire_queue_ r) as [|p rest] eqn:Hq; [apply triple_ret|].
  assert (∀ q, q ∈ p :: rest → base_of q ≠ b) as Hne.
  { intros q Hin. apply (bases_held r); [done|]. unfold held. rewrite Hq. set_solver. }
  eapply triple_bind; [|intros; apply io_spares, Page_release_safe, Hne; by left].
  apply update_spares. intros r' Hr' Hin. unfold writer_bases, held in *. simpl in Hin.
  rewrite !fmap_app, !elem_of_app in *. destruct Hin as [[Hin|[Hin|Hin]]|Hin]; try tauto.
  apply list_elem_of_fmap in Hin as (q&Heq&Hin). apply (Hne q); [by right|done].
Qed.

(** What an application, and the writer's own retire thread, can do. *)
Inductive writer_call : W unit → Prop :=
  | call_writeBytes ts ty data : writer_call (writeBytes ts ty data)
  | call_mark ts ty : writer_call (mark ts ty)
  | call_openData n ts ty flags : writer_call (do! openData n ts ty flags in ret tt)
  | call_store p bs : writer_call (io (store_bytes p bs))
  | call_closeData n : writer_call (closeData n no_hook)
  | call_retire : writer_call retire_step.

Lemma writer_call_spares m : writer_call m → spares m (λ _, True).
Proof.
  intros [ts ty data|ts ty|n ts ty flags|p bs|n|].
  - apply with_lock_spares. triple_tac.
  - apply with_lock_spares. triple_tac.
  - eapply triple_bind; [apply openData_spares|intros; apply triple_ret].
  - triple_tac.
  - apply closeData_spares.
  - apply retire_step_spares.
Qed.
End writer.

