(* ===== verification/ReadAhead.v ===== *)
(** * ReadAhead: the reader's warmer thread

    [readerWarmerLoop] of Journal.h: when a reader has come to a page, its
    thread maps the next page's file ahead and leaves the mapping for
    [loadPage] to take.  The theorem: a turn of the thread -- whatever the
    file is at that moment: missing, short, without a header yet, ready --
    returns, changes no byte, gives back every mapping it does not leave, and
    leaves the cursor where it is. *)

From S2P Require Import Prelude Memory Frame Base Mmap Page Warmer Writer WriterState.
From S2P Require Import WarmSpec WriterSpec Journal Reader JournalSpec.

Section readahead.
Context `{Env} `{!NoErrors} `{!EnvLaws} `{ILocator} `{!LocatorLaws}.

(** ** Mapping a file that is there *)

(** Only a mapping was added. *)
Record mapped_ro (w w' : world) (pa : path) (size b : Z) : Prop := {
  ro_files : w_files w' = w_files w;
  ro_maps : w_maps w' = <[b := Mapping pa size false]> (w_maps w);
  ro_fresh : w_maps w !! b = None
}.

Lemma prepare_run w pa a size o :
  ∃ w', prepareReadOnlyMmapBuffer pa (Some a) size o w = (Ret tt, w') ∧
    w_files w' = w_files w ∧ w_maps w' = w_maps w.
Proof.
  unfold prepareReadOnlyMmapBuffer. destruct o as [[] []]; cbn [when populate_read advise_hugepage];
    rewrite ?bind_ret_l; repeat erewrite bind_Ret by apply syscall_ignored_run;
    rewrite ?syscall_or_throw_run; by eexists.
Qed.

Lemma loadExisting_run w pa f :
  w_files w !! pa = Some f →
  ∃ w' b, loadExistingReadOnlyMmapBuffer pa (f_size f) (ROOptions false false) w = (Ret (Ptr b 0), w') ∧
    mapped_ro w w' pa (f_size f) b.
Proof.
  intros Hf. unfold loadExistingReadOnlyMmapBuffer, stat, gets.
  rewrite (bind_Ret _ _ w (Some (f_size f)) w) by (cbn; by rewrite Hf).
  erewrite bind_Ret by apply syscall_or_throw_run. erewrite bind_Ret by apply syscall_or_throw_run.
  rewrite Z.eqb_refl. cbn [negb throw_if]. erewrite bind_Ret by done.
  set (w2 := count_call (count_call w)).
  erewrite bind_Ret by apply mmap_shared_run. set (b := env_base _ _). set (w3 := set_maps _ _).
  destruct (prepare_run w3 pa (Ptr b 0) (f_size f) (ROOptions false false)) as (w4&Hrun&Hf4&Hm4).
  erewrite bind_Ret by (apply try_catch_Ret; exact Hrun). exists w4, b. split; [done|].
  split; [by rewrite Hf4|by rewrite Hm4|]. apply (env_base_fresh (w_calls w2) (w_maps w2)).
Qed.

(** ** Giving a mapping back *)

Lemma unmap_warmed_run w p ps :
  pages_live w (p :: ps) →
  ∃ w', unmap_warmed (pg_header p) w = (Ret tt, w') ∧ unmapped w w' ps ∧ quiet w w' [p] ∧
    w_files w' = w_files w ∧ w_maps w' = delete (base_of p) (w_maps w).
Proof.
  intros (_&Hnin&_)%pages_live_cons. unfold unmap_warmed.
  change (releaseMmapBuffer (Some (pg_header p)) false NONE) with (munmap (pg_header p)). erewrite bind_Ret by apply munmap_run. change (p_base (pg_header p)) with (base_of p).
  set (w' := set_maps _ _). exists w'. split_and!; [done| | |done|done].
  - split; [done..|]. intros q Hq. unfold w'. simpl. rewrite lookup_delete_ne; [done|].
    intros Heq. apply Hnin. rewrite Heq. by apply list_elem_of_fmap_2.
  - split; try done. intros b m Hb Hn. unfold w'. simpl. rewrite lookup_delete_ne; [done|].
    intros <-. apply Hn. by left.
Qed.

(** The journal with nothing warmed. *)
Definition unwarmed (jn : journal) : journal :=
  match jn_warmer_addr jn with None => jn | Some _ => jset_warmed None (-1) jn end.

Lemma releaseWarmedPage_run w jn ps :
  pages_live w (ps ++ jwarmed jn) →
  ∃ w', releaseWarmedPage (w, jn) = (Ret tt, (w', unwarmed jn)) ∧ unmapped w w' ps ∧ quiet w w' (jwarmed jn).
Proof.
  intros Hlive. unfold releaseWarmedPage, unwarmed. jstep. unfold jwarmed in *.
  destruct (jn_warmer_addr jn) as [a|].
  - cbn in Hlive |- *. rewrite <-Permutation_cons_append in Hlive.
    destruct (unmap_warmed_run w _ _ Hlive) as (w'&Hrun&Hun&Hq&_). cbn in Hrun.
    exists w'. by erewrite bind_Ret by (apply jio_run; exact Hrun).
  - exists w. split_and!; [done|apply unmapped_refl|apply quiet_refl].
Qed.

(** ** What the thread can see *)

Lemma warmed_header_ok_run w b pa n :
  mapped w b pa n false → 64 ≤ n → ∃ ok, warmed_header_ok (Ptr b 0) w = (Ret ok, w).
Proof.
  intros Hm Hn. unfold warmed_header_ok. unfold_offsets. mstep.
  case_match; [|by eexists]. mstep. by eexists.
Qed.

(** A new page of the reader beside those it has. *)
Lemma mapped_ro_live w w' pa size b new ps :
  pages_live w ps → mapped_ro w w' pa size b → pg_header new = Ptr b 0 → pg_owned new = true →
  pages_live w' (new :: ps).
Proof.
  intros Hlive [_ Hm Hfr] Hh Ho. assert (base_of new = b) as Hb by (unfold base_of; by rewrite Hh).
  apply pages_live_cons. split_and!.
  - split_and!; [by rewrite Hb|done|]. rewrite Hm, Hb, lookup_insert_eq. by eexists.
  - destruct Hlive as [_ Hall]. intros (q&Heq&Hq)%list_elem_of_fmap.
    eapply (proj1 (Forall_forall _ _)) in Hall as (_&_&[m Hm']); [|done].
    rewrite <-Heq, Hb in Hm'. congruence.
  - destruct Hlive as [Hnd Hall]. split; [done|]. eapply Forall_impl; [exact Hall|].
    intros q (?&?&[m Hq]). split_and!; [done..|]. rewrite Hm, lookup_insert_ne by congruence. by exists m.
Qed.

Lemma mapped_ro_quiet w w' pa size b : mapped_ro w w' pa size b → quiet w w' [].
Proof.
  intros [Hf Hm Hfr]. split; intros.
  - by apply fbyte_files.
  - by rewrite (file_size_files w w').
  - by rewrite Hf.
  - rewrite Hm, lookup_insert_ne by congruence. done.
Qed.

(** ** One turn *)

(** The cursor does not see what the thread does to its own mapping. *)
Lemma cursor_turn w w' jn jn' c j p k :
  cursor w jn c j p k → jn_cfg jn' = jn_cfg jn → jheld jn' = jheld jn → jn_page jn' = jn_page jn →
  jn_frame jn' = jn_frame jn → quiet w w' (jwarmed jn) → pages_live w' (jall jn') → warm_seen w' jn' c →
  cursor w' jn' c j p k.
Proof.
  intros [Hloc Hdst Hro Hsz Hws Hlive (pg&wr&fs&Hpg&Hid&Hp&Hk&(Hm&Hlong&Hpos)&Hf)] Hc Hh Hpe Hfe Hq Hlive' Hws'.
  split; rewrite ?Hc; try done. exists pg, wr, fs. rewrite Hpe, Hfe. split_and!; try done.
  split; [|split; [|done]].
  - apply (qt_maps _ _ _ Hq); [done|]. eapply pages_live_disjoint; [exact Hlive|]. unfold jheld. rewrite Hpg. by left.
  - etrans; [exact Hlong|apply (qt_size _ _ _ Hq)].
Qed.

(** Nothing came of it. *)
Lemma cursor_idle w w' jn id c j p k :
  cursor w jn c j p k → quiet w w' [] →
  cursor w' (jset_request id false jn) c j p k ∧ quiet w w' (jwarmed jn).
Proof.
  intros Hcu Hq. assert (quiet w w' (jwarmed jn)) as Hq' by (eapply quiet_sub; [done|set_solver]).
  split; [|done]. apply (cursor_turn w w' jn); try done.
  - eapply pages_live_carry; [|apply Hcu]. intros q Hin.
    destruct (proj1 (Forall_forall _ _) (proj2 (cu_live _ _ _ _ _ _ Hcu)) q Hin) as (_&_&[m Hm]).
    rewrite Hm. apply (qt_maps _ _ _ Hq); [done|set_solver].
  - intros a Ha. apply (qt_maps _ _ _ Hq); [|set_solver]. by apply (cu_warmed _ _ _ _ _ _ Hcu).
Qed.

Lemma mapped_ro_mapped w w' pa f b :
  w_files w !! pa = Some f → mapped_ro w w' pa (f_size f) b → 0 ≤ f_size f →
  mapped w' b pa (f_size f) false.
Proof.
  intros Hf [Hfs Hm _] Hpos. split_and!; [|unfold file_size; by rewrite Hfs, Hf|done].
  by rewrite Hm, lookup_insert_eq.
Qed.

Lemma quiet_same w w' own : w_files w' = w_files w → w_maps w' = w_maps w → quiet w w' own.
Proof.
  intros Hf Hm. split; intros; [by apply fbyte_files|by rewrite (file_size_files w w')|by rewrite Hf|by rewrite Hm].
Qed.

(** A mapping made and given back on the way does not show. *)
Lemma quiet_fresh w w1 w2 p own :
  quiet w w1 [] → quiet w1 w2 (p :: own) → w_maps w !! base_of p = None → quiet w w2 own.
Proof.
  intros Hq1 Hq2 Hfr. pose proof (quiet_trans w w1 w2 (p :: own) ltac:(eapply quiet_sub; [done|set_solver]) Hq2) as Hq.
  destruct Hq as [Hb Hs Hf Hm]. split; [done..|]. intros b m Hbm Hn. apply Hm; [done|].
  rewrite fmap_cons. intros [->|?]%elem_of_cons; [congruence|done].
Qed.

(** The part behind the mapping: the file has a header or not yet. *)
Lemma keep_or_drop_run w jn c j p k id new :
  let size := jc_page_size (jn_cfg jn) in
  let a := pg_header new in
  cursor w jn c j p k → mapped w (base_of new) (page_file c (s32 id)) size false →
  new = MkPage (jc_location (jn_cfg jn)) (jc_dest_id (jn_cfg jn)) id false size (Ptr (base_of new) 0) true →
  pages_live w (new :: jall jn) →
  ∃ w' jn',
    (let! ok := jio (warmed_header_ok a) in
     if negb ok then jio (unmap_warmed a)
     else
       try_catch
         (do! jio (prepareReadOnlyMmapBuffer (page_file c (s32 id)) (Some a) size (ROOptions true true)) in
          do! releaseWarmedPage in
          jupdate (jset_warmed (Some a) id))
         (λ _, jio (unmap_warmed a))) (w, jn) = (Ret tt, (w', jn')) ∧
    cursor w' jn' c j p k ∧ quiet w w' (new :: jwarmed jn).
Proof.
  intros size a Hcu Hmap Hnew Hlive. pose proof Hcu as [_ _ _ Hsz Hws Hliv _].
  pose proof (findPageSize_bounds (location_ c) (dest_id_ c)) as [Hbs _]. rewrite <-Hsz in Hbs. fold size in Hbs.
  assert (a = Ptr (base_of new) 0) as Ha by (unfold a; by rewrite Hnew at 1).
  destruct (warmed_header_ok_run w _ _ _ Hmap ltac:(lia)) as [ok Hok]. rewrite <-Ha in Hok.
  erewrite bind_Ret by (apply jio_run; exact Hok). destruct ok; cbn [negb].
  - destruct (prepare_run w (page_file c (s32 id)) a size (ROOptions true true)) as (w1&Hprep&Hf1&Hm1).
    assert (pages_live w1 ((new :: jheld jn) ++ jwarmed jn)) as Hlive1.
    { eapply pages_live_carry; [|exact Hlive]. intros q _. by rewrite Hm1. }
    destruct (releaseWarmedPage_run w1 jn (new :: jheld jn) Hlive1) as (w2&Hrel&Hun&Hq).
    exists w2, (jset_warmed (Some a) id jn). split; [|split].
    + erewrite try_catch_Ret; [done|]. erewrite bind_Ret by (apply jio_run; exact Hprep).
      erewrite bind_Ret by exact Hrel. rewrite jupdate_run. unfold unwarmed. by destruct (jn_warmer_addr jn).
    + assert (quiet w w2 (jwarmed jn)) as Hq2.
      { eapply quiet_trans; [|exact Hq]. by apply quiet_same. }
      apply (cursor_turn w w2 jn); try done.
      * eapply pages_live_perm; [|eapply unmapped_live; [exact Hun|]].
        { unfold jall, jwarmed. simpl. rewrite Ha. unfold size in Hnew. rewrite <-Hnew.
          change (jheld (jset_warmed _ _ jn)) with (jheld jn). by rewrite Permutation_cons_append. }
        by apply pages_live_app in Hlive1 as [? _].
      * intros a' [= <-]. cbn [jset_warmed jn_warmer_ready_id jn_cfg]. change (p_base a) with (base_of new).
        rewrite (un_maps _ _ _ Hun new ltac:(by left)), Hm1. apply Hmap.
    + eapply quiet_trans; [by apply quiet_same|]. eapply quiet_sub; [exact Hq|set_solver].
  - destruct (unmap_warmed_run w new (jall jn) Hlive) as (w1&Hrun&Hun&Hq&_).
    exists w1, jn. split; [by apply jio_run|]. split; [|eapply quiet_sub; [exact Hq|set_solver]].
    destruct Hcu as [Hloc Hdst Hro _ _ _ (pg&wr&fs&Hpg&Hid&Hp&Hk&Hm&Hf)]. split; try done.
    + apply (warm_seen_carry w w1 jn jn); [|apply same_cursor_refl|done]. intros q Hin.
      apply (un_maps _ _ _ Hun), elem_of_app. by right.
    + eapply unmapped_live; [done|]. by apply pages_live_cons in Hlive as (_&_&?).
    + exists pg, wr, fs. split_and!; try done. eapply unmapped_mapped; [done| |done].
      unfold jall, jheld. rewrite Hpg. by left.
Qed.

(** A turn of the reader's warmer thread. *)
Lemma warmer_turn_run w jn c j p k :
  cursor w jn c j p k →
  ∃ w' jn', warmer_turn (w, jn) = (Ret tt, (w', jn')) ∧ cursor w' jn' c j p k ∧ quiet w w' (jwarmed jn).
Proof.
  intros Hcu. pose proof Hcu as [Hloc Hdst _ Hsz _ _ _]. unfold warmer_turn. jstep.
  pose proof (findPageSize_bounds (location_ c) (dest_id_ c)) as [Hbs _]. rewrite <-Hsz in Hbs.
  destruct (_ || _); [exists w, jn; split_and!; [done|done|apply quiet_refl]|]. cbv zeta.
  set (id := jn_warmer_next_page jn). jstep. set (jn0 := jset_request id false jn).
  destruct (id <? 0); [exists w, jn0; split; [done|]; apply cursor_idle; [done|apply quiet_refl]|].
  rewrite Hloc, Hdst. erewrite bind_Ret by (apply jio_run, getPagePath_run).
  change (page_path (location_ c) (dest_id_ c) (s32 id)) with (page_file c (s32 id)).
  set (pa := page_file c (s32 id)). set (w1 := set_dirs _ w).
  assert (quiet w w1 []) as Hq1 by by apply quiet_same.
  destruct (cursor_idle w w1 jn id c j p k Hcu Hq1) as [Hcu1 Hqw1]. fold jn0 in Hcu1.
  rewrite (bind_Ret (jio (stat pa)) _ (w1, jn0) (f_size <$> w_files w1 !! pa) (w1, jn0)) by done.
  case_bool_decide as Hst; cbn [negb]; [|by exists w1, jn0].
  destruct (w_files w1 !! pa) as [f|] eqn:Hf; [|done]. injection Hst as Hfs.
  destruct (loadExisting_run w1 pa f Hf) as (w2&b&Hload&Hro). rewrite Hfs in Hload, Hro.
  set (new := MkPage (jc_location (jn_cfg jn)) (jc_dest_id (jn_cfg jn)) id false (jc_page_size (jn_cfg jn)) (Ptr b 0) true).
  pose proof (mapped_ro_quiet _ _ _ _ _ Hro) as Hq2.
  destruct (cursor_idle w w2 jn id c j p k Hcu ltac:(by eapply quiet_trans)) as [Hcu2 _]. fold jn0 in Hcu2.
  pose proof (mapped_ro_live _ _ _ _ _ new _ (cu_live _ _ _ _ _ _ Hcu1) Hro eq_refl eq_refl) as Hlive2.
  assert (mapped w2 (base_of new) pa (jc_page_size (jn_cfg jn0)) false) as Hmap.
  { change (jn_cfg jn0) with (jn_cfg jn). rewrite <-Hfs.
    eapply mapped_ro_mapped; [done|by rewrite Hfs|]. rewrite Hfs. lia. }
  destruct (keep_or_drop_run w2 jn0 c j p k id new Hcu2 Hmap eq_refl Hlive2) as (w3&jn3&Hrun&Hcu3&Hq3).
  exists w3, jn3. split; [|split; [done|]].
  - erewrite try_catch_Ret; [done|]. erewrite bind_Ret by (apply jio_run; exact Hload). exact Hrun.
  - eapply quiet_fresh; [by eapply quiet_trans|exact Hq3|]. apply (ro_fresh _ _ _ _ _ Hro).
Qed.
End readahead.
