(* ===== verification/ReaderIsolation.v ===== *)
(** * ReaderIsolation: readers unmap only what is theirs

    The counterpart of [Isolation] for the read side: every operation of a
    reader -- over any number of journals, with their retire queues and warmed
    pages -- spares a mapping that is none of the reader's. *)

From S2P Require Import Prelude Memory Frame Base Mmap Page Warmer Writer WriterState.
From S2P Require Import Journal Reader JournalSpec Isolation.

(** ** World operations the readers use *)

Section world.
Context `{Env} `{!EnvLaws} `{ILocator} `{!LocatorLaws} (b : Z) (mp : mapping).
Abbreviation safe := (triple (there b mp)).

Lemma listPageId_safe loc dst : safe (listPageId loc dst) (λ _, True).
Proof.
  intros w x w' Hw Hrun. apply listPageId_maps in Hrun. split; [|done].
  unfold there in *. by rewrite Hrun.
Qed.
Lemma load2_safe {A} (h : ptr) n k (f : Z → M world A) :
  (∀ v, safe (f v) (λ _, True)) → safe (let! v := load n (ptr_add h k) in f v) (λ _, True).
Proof. intros Hf. eapply triple_bind; [apply load_safe|auto]. Qed.
Lemma getGenTime_safe h : safe (getGenTime h) (λ _, True).
Proof. apply load2_safe. intros. apply triple_ret. Qed.
Lemma getFrameLength_safe h : safe (getFrameLength h) (λ _, True).
Proof. apply load_safe. Qed.
Lemma getMsgType_safe h : safe (getMsgType h) (λ _, True).
Proof. apply load_safe. Qed.
#[local] Hint Resolve listPageId_safe getGenTime_safe getFrameLength_safe getMsgType_safe : isolation.

Lemma hasData_safe h : safe (hasData_now h) (λ _, True).
Proof. unfold hasData_now, hasData_len. triple_tac. Qed.
Lemma frame_time_safe h : safe (frame_time h) (λ _, True).
Proof. unfold frame_time. triple_tac. Qed.
Lemma lastFrameAddress_safe p : safe (lastFrameAddress p) (λ _, True).
Proof. unfold lastFrameAddress. triple_tac. Qed.
#[local] Hint Resolve hasData_safe frame_time_safe lastFrameAddress_safe : isolation.
Lemma beginTime_safe p : safe (beginTime p) (λ _, True).
Proof. unfold beginTime. triple_tac. Qed.
Lemma endTime_safe p : safe (endTime p) (λ _, True).
Proof. unfold endTime. triple_tac. Qed.
Lemma addressBorder_safe p : safe (addressBorder p) (λ _, True).
Proof. unfold addressBorder, getPageSize. triple_tac. Qed.
#[local] Hint Resolve addressBorder_safe : isolation.
Lemma isFull_safe p : safe (isFull p) (λ _, True).
Proof. unfold isFull. triple_tac. Qed.
Lemma view_of_safe h : safe (view_of h) (λ _, True).
Proof. unfold view_of. triple_tac. Qed.
Lemma frame_key_safe h : safe (frame_key h) (λ _, True).
Proof. unfold frame_key. triple_tac. Qed.
Lemma stat_safe pa : safe (stat pa) (λ _, True).
Proof. apply gets_safe. Qed.
#[local] Hint Resolve beginTime_safe : isolation.

Lemma findPageId_loop_safe fuel loc dst t ids l r best :
  safe (findPageId_loop fuel loc dst t ids l r best) (λ _, True).
Proof.
  revert l r best; induction fuel as [|fuel IH]; intros l r best; cbn [findPageId_loop]; [apply triple_crash|].
  case_match; [|apply triple_ret]. cbv zeta.
  eapply triple_bind; [apply Page_load_safe|cbn beta; intros p Hp].
  eapply triple_bind; [apply beginTime_safe|cbn beta; intros t' _].
  eapply triple_bind; [by apply Page_release_safe|cbn beta; intros _ _].
  repeat case_match; apply IH.
Qed.
Lemma findPageId_safe loc dst t : safe (findPageId loc dst t) (λ _, True).
Proof.
  unfold findPageId. eapply triple_bind; [apply listPageId_safe|cbn beta; intros ids _].
  destruct ids; [apply triple_ret|]. case_match; [apply triple_ret|apply findPageId_loop_safe].
Qed.

Lemma prepare_safe pa a n o : safe (prepareReadOnlyMmapBuffer pa a n o) (λ _, True).
Proof. unfold prepareReadOnlyMmapBuffer. triple_tac. Qed.
Lemma loadExisting_safe pa n o : safe (loadExistingReadOnlyMmapBuffer pa n o) (λ p, p_base p ≠ b).
Proof.
  unfold loadExistingReadOnlyMmapBuffer.
  eapply triple_bind; [apply stat_safe|cbn beta; intros [n'|] _].
  2:{ eapply triple_bind; [apply errno_safe|intros; apply triple_throw]. }
  do 3 (eapply triple_bind; [eauto with isolation|cbn beta; intros _ _]).
  eapply triple_bind; [apply mmap_safe|cbn beta; intros p Hp].
  eapply triple_bind; [|intros; by apply triple_val].
  apply triple_catch with (Q := λ _, True); [apply prepare_safe|]. intros e.
  eapply triple_bind; [by apply munmap_safe|intros; apply triple_throw].
Qed.
Lemma unmap_warmed_safe a : p_base a ≠ b → safe (unmap_warmed a) (λ _, True).
Proof.
  intros Ha. eapply triple_bind; [|intros; apply triple_ret].
  apply releaseMmapBuffer_safe. by intros p [= <-].
Qed.
Lemma warmed_header_safe a : safe (warmed_header_ok a) (λ _, True).
Proof. unfold warmed_header_ok. triple_tac. Qed.
End world.
#[export] Hint Resolve listPageId_safe getGenTime_safe getFrameLength_safe getMsgType_safe hasData_safe
  endTime_safe isFull_safe view_of_safe frame_key_safe stat_safe findPageId_safe prepare_safe
  loadExisting_safe unmap_warmed_safe warmed_header_safe : isolation.

(** ** One journal *)

Definition jbases (jn : journal) : list Z :=
  (base_of <$> jheld jn) ++ (p_base <$> option_list (jn_warmer_addr jn)).

Section journal.
Context `{Env} `{!EnvLaws} `{ILocator} `{!LocatorLaws} (b : Z) (mp : mapping).
Abbreviation spares := (triple (foreign jbases b mp)).

Lemma jio_spares {A} (m : M world A) Q : triple (there b mp) m Q → spares (jio m) Q.
Proof. apply triple_lift. Qed.
Lemma jthis_spares : spares jthis (λ r, b ∉ jbases r).
Proof. apply triple_owner. Qed.
Lemma jupdate_spares f :
  (∀ r, b ∉ jbases r → b ∉ jbases (f r)) → spares (jupdate f) (λ _, True).
Proof. apply triple_own. Qed.
Lemma jupdate_same f : (∀ r, jbases (f r) = jbases r) → spares (jupdate f) (λ _, True).
Proof. intros Hf. apply jupdate_spares. intros r. by rewrite Hf. Qed.
(** Pages may move, and pages known to be elsewhere come in. *)
Lemma jupdate_held ps f :
  (∀ p, p ∈ ps → base_of p ≠ b) → (∀ r, jheld (f r) ⊆ ps ++ jheld r) →
  (∀ r, jn_warmer_addr (f r) = jn_warmer_addr r) → spares (jupdate f) (λ _, True).
Proof.
  intros Hps Hsub Hw. apply jupdate_spares. intros r Hr Hin. unfold jbases in *. rewrite Hw in Hin.
  apply elem_of_app in Hin as [(q&Heq&Hq)%list_elem_of_fmap|Hin].
  - apply Hsub, elem_of_app in Hq as [Hq|Hq]; [by apply (Hps q)|].
    apply Hr, elem_of_app. left. rewrite Heq. by apply list_elem_of_fmap_2.
  - apply Hr, elem_of_app. by right.
Qed.
Lemma jbases_held r p : b ∉ jbases r → p ∈ jheld r → base_of p ≠ b.
Proof.
  intros Hr Hp Heq. rewrite <-Heq in Hr. apply Hr, elem_of_app. left. by apply list_elem_of_fmap_2.
Qed.
Lemma jbases_warmed r a : b ∉ jbases r → jn_warmer_addr r = Some a → p_base a ≠ b.
Proof.
  intros Hr Ha Heq. rewrite <-Heq in Hr. apply Hr, elem_of_app. right. rewrite Ha. by left.
Qed.
Lemma jpage_spares : spares jpage (λ _, True).
Proof. intros [w r] x s' Hs Hrun. unfold jpage in Hrun. case_match; by injection Hrun as <- <-. Qed.
#[local] Hint Resolve jio_spares jthis_spares jpage_spares : isolation.
#[local] Hint Extern 2 (triple (foreign jbases _ _) (jupdate _) _) =>
  apply jupdate_same; intros; reflexivity : isolation.
#[local] Hint Extern 2 (triple (foreign jbases _ _) (jio _) _) =>
  apply jio_spares; solve [eauto 2 with isolation] : isolation.

Lemma forget_warmed_spares : spares (jupdate (jset_warmed None (-1))) (λ _, True).
Proof. apply jupdate_spares. intros r Hr. unfold jbases in *. simpl. set_solver. Qed.
#[local] Hint Resolve forget_warmed_spares : isolation.

Lemma take_warmed_spares id :
  spares (take_warmed id) (λ p, ∀ q, p = Some q → base_of q ≠ b).
Proof.
  unfold take_warmed. eapply triple_bind; [apply jthis_spares|cbn beta zeta; intros r Hr].
  case_match; [|by apply triple_val]. destruct (jn_warmer_addr r) as [a|] eqn:Ha; [|by apply triple_val].
  pose proof (jbases_warmed r a Hr Ha) as Hne. case_match; [|by apply triple_val].
  apply triple_catch.
  - eapply triple_bind; [apply jio_spares, loadFromAddress_safe; by intros q [= <-]|cbn beta; intros p Hp].
    eapply triple_bind; [apply forget_warmed_spares|intros _ _]. apply triple_val. by intros q [= <-].
  - intros _. eapply triple_bind; [by apply jio_spares, unmap_warmed_safe|intros _ _].
    eapply triple_bind; [apply forget_warmed_spares|intros _ _]. by apply triple_val.
Qed.

Lemma jretire_overflow_spares n : spares (jretire_overflow n) (λ _, True).
Proof.
  induction n as [|n IH]; cbn [jretire_overflow]; [apply triple_ret|].
  eapply triple_bind; [apply jthis_spares|cbn beta; intros r Hr].
  case_match; [|apply triple_ret]. destruct (jn_retired r) as [|old rest] eqn:Hret; [apply triple_ret|].
  eapply triple_bind; [|intros; exact IH].
  apply (jupdate_held (old :: rest)); [|intros r'|done].
  - intros p Hp. apply (jbases_held r); [done|]. unfold jheld. rewrite Hret. set_solver.
  - unfold jheld. simpl. set_solver.
Qed.

Lemma leave_page_spares old :
  (∀ p, old = Some p → base_of p ≠ b) → spares (leave_page old) (λ _, True).
Proof.
  intros Hold. unfold leave_page. eapply triple_bind; [apply jthis_spares|cbn beta; intros r _].
  destruct old as [p|]; [|apply triple_ret]. specialize (Hold p eq_refl).
  case_match; [|by apply jio_spares, Page_release_safe].
  eapply triple_bind; [apply (jupdate_held [p])|].
  - by intros q ->%list_elem_of_singleton.
  - intros r'. unfold jheld. simpl. set_solver.
  - done.
  - cbn beta. intros _ _. eapply triple_bind; [apply jthis_spares|intros; apply jretire_overflow_spares].
Qed.

Lemma loadPage_spares id : spares (loadPage id) (λ _, True).
Proof.
  unfold loadPage. eapply triple_bind; [apply jthis_spares|cbn beta zeta; intros r _].
  case_match; [apply triple_ret|].
  eapply triple_bind; [apply take_warmed_spares|cbn beta; intros warmed Hw].
  eapply triple_bind with (Q := λ p, base_of p ≠ b).
  { destruct warmed as [q|]; [apply triple_val; auto|apply jio_spares, Page_load_safe]. }
  cbn beta. intros new Hnew. eapply triple_bind; [apply jthis_spares|cbn beta zeta; intros r' Hr'].
  eapply triple_bind; [apply (jupdate_held [new]); [|intros r''|done]|cbn beta; intros _ _].
  { by intros q ->%list_elem_of_singleton. }
  { unfold jheld. simpl. set_solver. }
  eapply triple_bind; [apply jio_spares, firstFrameAddress_safe|cbn beta; intros a _].
  eapply triple_bind; [eauto with isolation|cbn beta; intros _ _].
  eapply triple_bind; [apply leave_page_spares|cbn beta; intros _ _].
  { intros p Hp. apply (jbases_held r'); [done|]. unfold jheld. rewrite Hp. by left. }
  apply triple_when. eauto with isolation.
Qed.
#[local] Hint Resolve loadPage_spares : isolation.

Lemma loadNextPage_spares : spares loadNextPage (λ _, True).
Proof. unfold loadNextPage. triple_tac. Qed.
#[local] Hint Resolve loadNextPage_spares : isolation.
Lemma next_known_spares n ty : spares (next_known n ty) (λ _, True).
Proof. unfold next_known. triple_tac. Qed.
#[local] Hint Resolve next_known_spares : isolation.
Lemma next_spares : spares next (λ _, True).
Proof. unfold next. triple_tac. Qed.
Lemma hasData_spares : spares current_hasData (λ _, True).
Proof. unfold current_hasData. triple_tac. Qed.
#[local] Hint Resolve next_spares hasData_spares : isolation.

Lemma skip_pages_spares fuel t : spares (skip_pages fuel t) (λ _, True).
Proof. induction fuel as [|fuel IH]; cbn [skip_pages]; [apply triple_crash|]. triple_tac. Qed.
Lemma skip_frames_spares fuel t : spares (skip_frames fuel t) (λ _, True).
Proof. induction fuel as [|fuel IH]; cbn [skip_frames]; [apply triple_crash|]. triple_tac. Qed.
#[local] Hint Resolve skip_pages_spares skip_frames_spares : isolation.
Lemma seekToTime_spares fuel t : spares (Journal.seekToTime fuel t) (λ _, True).
Proof. unfold Journal.seekToTime. triple_tac. Qed.

Lemma jretire_step_spares : spares jretire_step (λ _, True).
Proof.
  unfold jretire_step. eapply triple_bind; [apply jthis_spares|cbn beta; intros r Hr].
  destruct (jn_queue r) as [|p rest] eqn:Hq; [apply triple_ret|].
  assert (∀ q, q ∈ p :: rest → base_of q ≠ b) as Hne.
  { intros q Hin. apply (jbases_held r); [done|]. unfold jheld. rewrite Hq. set_solver. }
  eapply triple_bind; [|intros; apply jio_spares, Page_release_safe, Hne; by left].
  apply (jupdate_held (p :: rest)); [done| |done]. intros r'. unfold jheld. simpl. set_solver.
Qed.

Lemma releaseWarmedPage_spares : spares releaseWarmedPage (λ _, True).
Proof.
  unfold releaseWarmedPage. eapply triple_bind; [apply jthis_spares|cbn beta; intros r Hr].
  destruct (jn_warmer_addr r) as [a|] eqn:Ha; [|apply triple_ret].
  eapply triple_bind; [apply jio_spares, unmap_warmed_safe; by eapply jbases_warmed|intros; apply forget_warmed_spares].
Qed.

Lemma warmer_turn_spares : spares warmer_turn (λ _, True).
Proof.
  unfold warmer_turn. eapply triple_bind; [apply jthis_spares|cbn beta zeta; intros r _].
  case_match; [apply triple_ret|].
  eapply triple_bind; [eauto with isolation|cbn beta; intros _ _]. case_match; [apply triple_ret|].
  eapply triple_bind; [apply jio_spares, getPagePath_safe|cbn beta; intros pa _].
  eapply triple_bind; [apply jio_spares, stat_safe|cbn beta; intros st _]. case_match; [apply triple_ret|].
  apply triple_catch; [|intros; apply triple_ret].
  eapply triple_bind; [apply jio_spares, loadExisting_safe|cbn beta; intros a Ha].
  eapply triple_bind; [apply jio_spares, warmed_header_safe|cbn beta; intros ok _].
  case_match; [by apply jio_spares, unmap_warmed_safe|].
  apply triple_catch; [|intros; by apply jio_spares, unmap_warmed_safe].
  eapply triple_bind; [apply jio_spares, prepare_safe|cbn beta; intros _ _].
  eapply triple_bind; [apply releaseWarmedPage_spares|cbn beta; intros _ _].
  apply jupdate_spares. intros r' Hr'. unfold jbases in *. simpl. set_solver.
Qed.

Lemma jrelease_all_safe ps :
  (∀ p, p ∈ ps → base_of p ≠ b) → triple (there b mp) (jrelease_all ps) (λ _, True).
Proof.
  induction ps as [|p ps IH]; intros Hps; cbn [jrelease_all]; [apply triple_ret|].
  eapply triple_bind; [apply Page_release_safe, Hps; by left|intros; apply IH; set_solver].
Qed.

Lemma Journal_release_spares : spares Journal_release (λ _, True).
Proof.
  unfold Journal_release. eapply triple_bind; [apply jthis_spares|cbn beta; intros r Hr].
  eapply triple_bind.
  { apply (jupdate_held (jheld r)); [intros; by eapply jbases_held| |done].
    intros r'. unfold jheld. simpl. set_solver. }
  cbn beta. intros _ _. eapply triple_bind.
  { apply (jupdate_held []); [by intros ? ?%elem_of_nil| |done]. intros r'. unfold jheld. simpl. set_solver. }
  cbn beta. intros _ _. eapply triple_bind; [apply jthis_spares|cbn beta; intros r' Hr'].
  eapply triple_bind.
  { apply jio_spares, jrelease_all_safe. intros p Hp. apply (jbases_held r'); [done|]. unfold jheld. set_solver. }
  cbn beta. intros _ _. eapply triple_bind; [|intros; apply releaseWarmedPage_spares].
  apply (jupdate_held []); [by intros ? ?%elem_of_nil| |done]. intros r''. unfold jheld. simpl. set_solver.
Qed.
End journal.
#[export] Hint Resolve next_known_spares next_spares seekToTime_spares jretire_step_spares
  warmer_turn_spares Journal_release_spares : isolation.

(** ** The reader *)

Definition reader_bases (rd : reader) : list Z := rd_journals rd ≫= jbases.

Section reader.
Context `{Env} `{!EnvLaws} `{ILocator} `{!LocatorLaws} `{PriorityQueue} (b : Z) (mp : mapping).
Abbreviation spares := (triple (foreign reader_bases b mp)).

Lemma rio_spares {A} (m : M world A) Q : triple (there b mp) m Q → spares (rio m) Q.
Proof. apply triple_lift. Qed.
Lemma rthis_spares : spares rthis (λ r, b ∉ reader_bases r).
Proof. apply triple_owner. Qed.
Lemma rupdate_spares f :
  (∀ r, b ∉ reader_bases r → b ∉ reader_bases (f r)) → spares (rupdate f) (λ _, True).
Proof. apply triple_own. Qed.
Lemma rupdate_same f : (∀ r, rd_journals (f r) = rd_journals r) → spares (rupdate f) (λ _, True).
Proof. intros Hf. apply rupdate_spares. intros r. unfold reader_bases. by rewrite Hf. Qed.

Lemma reader_bases_elem rd : b ∉ reader_bases rd ↔ ∀ jn, jn ∈ rd_journals rd → b ∉ jbases jn.
Proof.
  unfold reader_bases. rewrite list_elem_of_bind. split.
  - intros Hn jn Hin Hb. apply Hn. by exists jn.
  - intros Hn (jn&Hb&Hin). by eapply Hn.
Qed.

Lemma on_journal_spares {A} i (m : J A) Q :
  triple (foreign jbases b mp) m Q → spares (on_journal i m) Q.
Proof.
  intros Hm [w r] x s' [Hw Hr] Hrun. unfold on_journal in Hrun. simpl in *.
  destruct (rd_journals r !! i) as [jn|] eqn:Hi; [|by injection Hrun as <- <-].
  destruct (m (w, jn)) as [y [w' jn']] eqn:E. injection Hrun as <- <-.
  rewrite reader_bases_elem in Hr.
  destruct (Hm (w, jn) y (w', jn')) as [[Hw' Hjn'] HQ]; [split; [done|]|done|].
  { apply Hr. by eapply list_elem_of_lookup_2. }
  split; [|done]. split; [done|]. apply reader_bases_elem. simpl. intros jn2 Hin.
  apply list_elem_of_lookup in Hin as [k Hk].
  apply list_lookup_insert_Some in Hk as [(_&<-&_)|[_ Hk]]; [done|].
  apply Hr. by eapply list_elem_of_lookup_2.
Qed.
#[local] Hint Resolve rio_spares rthis_spares on_journal_spares : isolation.
#[local] Hint Extern 2 (triple (foreign reader_bases _ _) (rupdate _) _) =>
  apply rupdate_same; intros; reflexivity : isolation.
#[local] Hint Extern 2 (triple (foreign reader_bases _ _) (rio _) _) =>
  apply rio_spares; solve [eauto 2 with isolation] : isolation.

(** A journal on its own, as in [join] and in the destructors. *)
Lemma journal_alone {A} (m : J A) w jn x w' jn' :
  triple (foreign jbases b mp) m (λ _, True) → there b mp w → b ∉ jbases jn →
  m (w, jn) = (x, (w', jn')) → there b mp w' ∧ b ∉ jbases jn'.
Proof. intros Hm Hw Hj Hrun. by destruct (Hm (w, jn) x (w', jn') (conj Hw Hj) Hrun) as [[??] _]. Qed.

Lemma release_journals_safe js :
  (∀ jn, jn ∈ js → b ∉ jbases jn) → triple (there b mp) (release_journals js) (λ _, True).
Proof.
  induction js as [|jn js IH]; intros Hjs; cbn [release_journals]; [apply triple_ret|].
  eapply triple_bind with (Q := λ _, True); [|intros; apply IH; set_solver].
  intros w x w' Hw Hrun. destruct (Journal_release (w, jn)) as [y [w1 jn1]] eqn:E.
  injection Hrun as <- <-. split; [|done].
  eapply (journal_alone Journal_release w jn); [apply Journal_release_spares|done|apply Hjs; by left|exact E].
Qed.

Lemma join_spares fuel loc dst t : spares (join fuel loc dst t) (λ _, True).
Proof.
  unfold join. eapply triple_bind; [apply rthis_spares|cbn beta zeta; intros r _].
  case_match; [apply triple_ret|]. set (jn := Journal_ctor _ _ _).
  assert (b ∉ jbases jn) as Hnil by apply not_elem_of_nil.
  eapply triple_bind with (Q := λ jn, b ∉ jbases jn).
  - intros [w r'] x s' [Hw Hr] Hrun. cbn [fst snd] in *.
    destruct (Journal.seekToTime fuel t (w, jn)) as [y [w1 jn1]] eqn:E.
    destruct (journal_alone _ _ _ _ _ _ (seekToTime_spares b mp fuel t) Hw Hnil E) as [Hw1 Hj1].
    destruct y as [[]|e|f]; [|destruct (Journal_release (w1, jn1)) as [y [w2 jn2]] eqn:E2|];
      injection Hrun as <- <-; (split; [split; [|exact Hr]|]); try done.
    + by intros a [= <-].
    + eapply (journal_alone Journal_release w1 jn1); [apply Journal_release_spares|done..|exact E2].
    + by destruct y.
  - cbn beta. intros jn' Hjn'. apply rupdate_spares. intros r'.
    rewrite !reader_bases_elem. unfold refreshSingleJournal.
    intros Hr' j' Hin. assert (j' ∈ rd_journals r' ++ [jn']) as Hin' by (by case_match; simpl in Hin).
    apply elem_of_app in Hin' as [?| ->%list_elem_of_singleton]; auto.
Qed.

Lemma disjoin_spares u : spares (disjoin u) (λ _, True).
Proof.
  unfold disjoin. eapply triple_bind; [apply rthis_spares|cbn beta zeta; intros r Hr].
  rewrite reader_bases_elem in Hr. eapply triple_bind.
  { apply rio_spares, release_journals_safe. intros jn Hin. apply Hr.
    by apply list_elem_of_filter in Hin as [_ ?]. }
  cbn beta. intros _ _. case_match; [apply triple_ret|]. apply rupdate_spares. intros r' _.
  rewrite reader_bases_elem. intros jn Hin. apply Hr.
  assert (jn ∈ filter (λ j, has_uid u j = false) (rd_journals r)) as Hin'.
  { unfold refreshSingleJournal in Hin. by case_match; simpl in Hin. }
  by apply list_elem_of_filter in Hin' as [_ ?].
Qed.

Lemma JournalReader_release_spares : spares JournalReader_release (λ _, True).
Proof.
  unfold JournalReader_release. eapply triple_bind; [apply rthis_spares|cbn beta; intros r Hr].
  rewrite reader_bases_elem in Hr. eapply triple_bind; [by apply rio_spares, release_journals_safe|].
  cbn beta. intros _ _. apply rupdate_spares. intros r' _. apply not_elem_of_nil.
Qed.

Lemma scan_journals_safe i js m mi : triple (there b mp) (scan_journals i js m mi) (λ _, True).
Proof. revert i m mi; induction js as [|jn js IH]; intros i m mi; cbn [scan_journals]; triple_tac. Qed.
Lemma heap_entries_safe i js : triple (there b mp) (heap_entries i js) (λ _, True).
Proof. revert i; induction js as [|jn js IH]; intros i; cbn [heap_entries]; triple_tac. Qed.
#[local] Hint Resolve scan_journals_safe heap_entries_safe : isolation.

Lemma findMinimumLinear_spares : spares findMinimumLinear (λ _, True).
Proof. unfold findMinimumLinear. triple_tac. Qed.
#[local] Hint Resolve findMinimumLinear_spares : isolation.
Lemma rebuild_pick_spares r :
  spares (let! temp := rio (heap_entries 0 (rd_journals r)) in
          match pq_top temp with
          | None => rupdate (rset_current None)
          | Some e => rupdate (λ r, rset_heap temp (rset_current (Some e.2) r))
          end) (λ _, True).
Proof. triple_tac. Qed.
#[local] Hint Resolve rebuild_pick_spares : isolation.
Lemma rebuildHeap_spares : spares rebuildHeap (λ _, True).
Proof.
  unfold rebuildHeap. eapply triple_bind; [apply rthis_spares|cbn beta; intros r _].
  destruct (rd_journals r) as [|jn js] eqn:Hj; [by apply rupdate_same|]. rewrite <-Hj.
  eapply triple_bind with (Q := λ _, True); [|intros; by apply rupdate_same].
  case_match; [apply rebuild_pick_spares|apply findMinimumLinear_spares].
Qed.
Lemma updateHeap_spares : spares updateHeap (λ _, True).
Proof.
  unfold updateHeap. eapply triple_bind; [apply rthis_spares|cbn beta; intros r _].
  case_match; [eauto with isolation|]. eapply triple_bind; [eauto with isolation|cbn beta; intros _ _].
  case_match; [|apply triple_crash]. eapply triple_bind.
  { apply on_journal_spares with (Q := λ _, True).
    eapply triple_bind; [apply jthis_spares|intros; apply jio_spares, frame_key_safe]. }
  cbn beta. intros k _. eapply triple_bind with (Q := λ _, True); [case_match; eauto with isolation|].
  cbn beta. intros _ _. eapply triple_bind; [apply rthis_spares|intros; case_match; eauto with isolation].
Qed.
#[local] Hint Resolve rebuildHeap_spares updateHeap_spares : isolation.

Lemma isDataAvailable_spares : spares isDataAvailable (λ _, True).
Proof.
  unfold isDataAvailable. eapply triple_bind; [apply rthis_spares|cbn beta; intros r _].
  case_match; [case_match; eauto with isolation|].
  eapply triple_bind with (Q := λ _, True); [case_match; eauto with isolation|cbn beta; intros _ _].
  eapply triple_bind; [apply rthis_spares|cbn beta; intros r' _]. case_match; [eauto with isolation|].
  eapply triple_bind with (Q := λ _, True); [case_match; eauto with isolation|intros; apply triple_ret].
Qed.
#[local] Hint Resolve isDataAvailable_spares : isolation.
Lemma tryCurrentFrame_spares : spares tryCurrentFrame (λ _, True).
Proof. unfold tryCurrentFrame, tryCurrentSingleFrame. triple_tac. Qed.
Lemma reader_next_spares : spares reader_next (λ _, True).
Proof. unfold reader_next. triple_tac. Qed.
#[local] Hint Resolve tryCurrentFrame_spares reader_next_spares : isolation.
Lemma advance_spares v : spares (advance v) (λ _, True).
Proof. unfold advance. triple_tac. Qed.
Lemma seek_all_spares fuel n i t : spares (seek_all fuel n i t) (λ _, True).
Proof. revert i; induction n as [|n IH]; intros i; cbn [seek_all]; triple_tac. Qed.
#[local] Hint Resolve advance_spares seek_all_spares : isolation.
Lemma reader_seekToTime_spares fuel t : spares (reader_seekToTime fuel t) (λ _, True).
Proof. unfold reader_seekToTime. triple_tac. Qed.
Lemma nextStatic_spares {A} (d : FrameView → M world A) :
  (∀ v, triple (there b mp) (d v) (λ _, True)) → spares (nextStatic d) (λ _, True).
Proof. intros Hd. unfold nextStatic. triple_tac. Qed.

(** What an application, and the reader's own threads, can do. *)
Inductive reader_call : R unit → Prop :=
  | call_join fuel loc dst t : reader_call (join fuel loc dst t)
  | call_disjoin u : reader_call (disjoin u)
  | call_available : reader_call (let! _b := isDataAvailable in ret tt)
  | call_current : reader_call (let! _v := tryCurrentFrame in ret tt)
  | call_next : reader_call reader_next
  | call_advance v : reader_call (advance v)
  | call_nextStatic A (d : FrameView → M world A) :
      (∀ v b mp, triple (there b mp) (d v) (λ _, True)) →
      reader_call (let! _x := nextStatic d in ret tt)
  | call_seek fuel t : reader_call (reader_seekToTime fuel t)
  | call_use_heap u : reader_call (setUseHeap u)
  | call_reap i : reader_call (on_journal i jretire_step)
  | call_warm i : reader_call (on_journal i warmer_turn)
  | call_release : reader_call JournalReader_release.

Lemma reader_call_spares m : reader_call m → spares m (λ _, True).
Proof.
  intros [fuel loc dst t|u| | | |v|A d Hd|fuel t|u|i|i|].
  - apply join_spares.
  - apply disjoin_spares.
  - eapply triple_bind; [apply isDataAvailable_spares|intros; apply triple_ret].
  - eapply triple_bind; [apply tryCurrentFrame_spares|intros; apply triple_ret].
  - apply reader_next_spares.
  - apply advance_spares.
  - eapply triple_bind; [by apply nextStatic_spares|intros; apply triple_ret].
  - apply reader_seekToTime_spares.
  - unfold setUseHeap. eauto with isolation.
  - apply on_journal_spares, jretire_step_spares.
  - apply on_journal_spares, warmer_turn_spares.
  - apply JournalReader_release_spares.
Qed.
End reader.

