(* ===== verification/ReaderSpec.v ===== *)
(** * ReaderSpec: what a reader delivers

    [drain] is an application that calls [nextStatic] until there is nothing,
    recording every field and the payload of each frame.  The theorems: from
    any position it gets exactly the frames of the journal from there on, in
    order, across pages; and it changes nothing the writer can see. *)

From S2P Require Import Prelude Memory Frame Base Mmap Page Warmer Writer WriterState.
From S2P Require Import WriterSpec Journal Reader JournalSpec.

(** ** What is left to read *)

(** The frames from frame [k] of page [p] on. *)
Definition rest (j : ajournal) (p k : nat) : list frame :=
  drop k (default [] (aj_pages j !! p)) ++ concat (drop (S p) (aj_pages j)).

Lemma rest_start j : rest j 0 0 = aj_frames j.
Proof.
  unfold rest, aj_frames, aj_pages. rewrite drop_0.
  destruct (aj_closed j) as [|fs pages]; cbn [lookup list_lookup default app drop concat].
  - by rewrite app_nil_r.
  - rewrite ?drop_0, concat_app. simpl. by rewrite app_nil_r, app_assoc.
Qed.

Definition next_pos (p k : nat) (f : frame) : nat * nat :=
  if is_PageEnd f then (S p, 0%nat) else (p, S k).

(** The frames behind frame [k] of page [p]. *)
Lemma rest_step j p k fs f :
  aj_wf j → aj_pages j !! p = Some fs → fs !! k = Some f →
  rest j p k = f :: rest j (next_pos p k f).1 (next_pos p k f).2 ∧
  (is_PageEnd f = true → ∃ fs', aj_pages j !! S p = Some fs').
Proof.
  intros Hwf Hp Hk. unfold rest. rewrite Hp. cbn [default from_option id].
  rewrite (drop_S fs f k) by done. unfold next_pos. destruct (is_PageEnd f) eqn:Hend; cbn [fst snd].
  2:{ rewrite Hp. split; [done|done]. }
  unfold aj_pages in Hp. apply lookup_app_Some in Hp as [Hp|[Hlen Hp]].
  - destruct (wf_closed _ Hwf _ _ Hp) as (ds&g&->&Hg&Hds).
    apply lookup_app_Some in Hk as [Hk|[Hk1 Hk2]].
    { eapply (proj1 (Forall_lookup _ _)) in Hds; [|done]. simpl in Hds. congruence. }
    apply list_lookup_singleton_Some in Hk2 as [Hk2 ->].
    rewrite drop_ge by (rewrite length_app; simpl; lia).
    pose proof (lookup_lt_Some _ _ _ Hp). unfold aj_pages.
    destruct ((aj_closed j ++ [aj_cur j]) !! S p) as [fs'|] eqn:Hp'.
    + split; [|by eauto]. cbn [default from_option id]. rewrite drop_0. by rewrite (drop_S _ fs' (S p)).
    + apply lookup_ge_None in Hp'. rewrite length_app in Hp'. simpl in Hp'. lia.
  - apply list_lookup_singleton_Some in Hp as [_ <-].
    pose proof (wf_cur _ Hwf) as Hcur. eapply (proj1 (Forall_lookup _ _)) in Hcur; [|done].
    simpl in Hcur. congruence.
Qed.

Lemma rest_end j p k fs :
  aj_wf j → aj_pages j !! p = Some fs → k = length fs →
  (∀ fs', aj_pages j !! S p ≠ Some fs') → rest j p k = [].
Proof.
  intros Hwf Hp -> Hno. unfold rest. rewrite Hp. cbn [default from_option id]. rewrite drop_ge by done.
  destruct (aj_pages j !! S p) as [fs'|] eqn:E; [by destruct (Hno fs')|].
  by rewrite drop_ge by by apply lookup_ge_None.
Qed.

(** ** The frame under the cursor *)

(** A dispatcher that records all a frame shows. *)
Definition read_frame (v : FrameView) : M world frame :=
  let h := fv_frame v in
  let! flags := getFlags h in
  let! seq := getSequence h in
  let! gen := getGenTime h in
  let! event := getEventTime h in
  let! payload := load_bytes (dataAddress h) (getDataLength_of (fv_length v)) in
  ret (Frame (fv_msg_type v) flags seq gen event payload).

Section drain.
Context `{Env} `{!NoErrors} `{!EnvLaws} `{ILocator} `{!LocatorLaws} `{PriorityQueue}.

Lemma cursor_in_page w jn c j p k fs f :
  readable w c j → cursor w jn c j p k → aj_pages j !! p = Some fs → fs !! k = Some f →
  ∃ b wr, jn_frame jn = Ptr b (frame_off fs k) ∧
    mapped w b (page_file c (aj_first j + Z.of_nat p)) (page_size_ c) wr ∧
    frame_at w (page_file c (aj_first j + Z.of_nat p)) (frame_off fs k) f ∧ frame_wf f ∧
    64 ≤ frame_off fs k ∧ frame_off fs k + frame_stride f ≤ page_size_ c.
Proof.
  intros Hrb Hcu Hp Hk. destruct (cu_page _ _ _ _ _ _ Hcu) as (pg&wr&fs'&_&_&Hp'&_&Hm&Hf).
  assert (fs' = fs) as -> by congruence.
  destruct (readable_page _ _ _ _ _ Hrb Hp) as (Hps&_).
  destruct (page_frame _ _ _ _ _ _ Hps Hk) as (?&?&?&?). by exists (base_of pg), wr.
Qed.

Lemma view_of_run w jn c j p k fs f :
  readable w c j → cursor w jn c j p k → aj_pages j !! p = Some fs → fs !! k = Some f →
  view_of (jn_frame jn) w = (Ret (Some (MkView (jn_frame jn) (frame_length f) (fr_type f))), w).
Proof.
  intros Hrb Hcu Hp Hk.
  destruct (cursor_in_page _ _ _ _ _ _ _ _ Hrb Hcu Hp Hk) as (b&wr&->&Hm&Hat&Hwf&Hlo&Hhi).
  pose proof (frame_wf_stride _ Hwf) as (Hl&Hs&_). destruct Hat as (Hlen&Hty&_). unfold_offsets.
  unfold view_of, getFrameLength, getMsgType. unfold_offsets. rewrite ?Z.add_0_r in *.
  mstep. mstep. rewrite Hlen, Hty. unfold hasData.
  rewrite (proj2 (Z.ltb_lt _ _)) by lia. destruct Hwf as [Hty' _].
  by rewrite (proj2 (Z.ltb_lt _ _)) by lia.
Qed.

Lemma read_frame_run w jn c j p k fs f :
  readable w c j → cursor w jn c j p k → aj_pages j !! p = Some fs → fs !! k = Some f →
  read_frame (MkView (jn_frame jn) (frame_length f) (fr_type f)) w = (Ret f, w).
Proof.
  intros Hrb Hcu Hp Hk.
  destruct (cursor_in_page _ _ _ _ _ _ _ _ Hrb Hcu Hp Hk) as (b&wr&->&Hm&Hat&Hwf&Hlo&Hhi).
  pose proof (frame_wf_stride _ Hwf) as (Hl&Hs&_). destruct Hat as (_&_&Hfl&Hsq&Hg&He&Hpl).
  unfold frame_length, sizeof_FrameHeader in Hl. unfold_offsets.
  unfold read_frame, getFlags, getSequence, getGenTime, getEventTime, dataAddress,
    getDataLength_of, frame_length, sizeof_FrameHeader. cbn [fv_frame fv_length fv_msg_type].
  rewrite (proj2 (Z.ltb_ge _ _)) by lia.
  replace (32 + Z.of_nat (length (fr_payload f)) - 32) with (Z.of_nat (length (fr_payload f))) by lia.
  unfold_offsets. unfold sizeof_FrameHeader. repeat mstep. rewrite Hfl, Hsq, Hg, He, Hpl. by destruct f.
Qed.

(** At the last frame's end there is nothing to see. *)
Lemma view_of_end w jn c j p fs :
  readable w c j → cursor w jn c j p (length fs) → aj_pages j !! p = Some fs →
  page_end fs + 64 ≤ page_size_ c →
  view_of (jn_frame jn) w = (Ret None, w).
Proof.
  intros Hrb Hcu Hp Hroom. destruct (cu_page _ _ _ _ _ _ Hcu) as (pg&wr&fs'&_&_&Hp'&_&Hm&Hf).
  assert (fs' = fs) as -> by congruence.
  destruct (readable_page _ _ _ _ _ Hrb Hp) as (Hps&_&_&_).
  pose proof (shown_end_ge _ _ _ _ Hps) as Hge.
  assert (frame_off fs (length fs) = page_end fs) as Hoff by (unfold frame_off; by rewrite firstn_all).
  rewrite Hoff in Hf. rewrite Hf. unfold view_of, getFrameLength, getMsgType. unfold_offsets.
  mstep. mstep. rewrite (pn_next _ _ _ _ Hps) by lia. done.
Qed.

(** From anywhere on a page to the start of the next one. *)
Lemma loadNextPage_run w jn c j p k fs' :
  readable w c j → cursor w jn c j p k → aj_pages j !! S p = Some fs' →
  ∃ w' jn', loadNextPage (w, jn) = (Ret tt, (w', jn')) ∧
    cursor w' jn' c j (S p) 0 ∧ quiet w w' (jheld jn) ∧ jn_cfg jn' = jn_cfg jn.
Proof.
  intros Hrb Hcu Hfs'. destruct (cu_page _ _ _ _ _ _ Hcu) as (pg&_&_&Hpg&Hid&_).
  destruct (readable_page _ _ _ _ _ Hrb Hfs') as (_&_&_&Hid').
  unfold loadNextPage. erewrite bind_Ret by by apply jpage_run. rewrite Hid.
  replace (aj_first j + Z.of_nat p + 1) with (aj_first j + Z.of_nat (S p)) by lia.
  rewrite swrap_small by (unfold in_s; simpl in *; lia).
  eapply loadPage_run; [by eapply cursor_loadable|done|done|].
  rewrite Hpg. simpl. rewrite Hid. intros [=]. lia.
Qed.

(** Advancing past a frame. *)
Lemma next_known_run w jn c j p k fs f :
  readable w c j → cursor w jn c j p k → aj_pages j !! p = Some fs → fs !! k = Some f →
  ∃ w' jn', next_known (frame_length f) (fr_type f) (w, jn) = (Ret tt, (w', jn')) ∧
    cursor w' jn' c j (next_pos p k f).1 (next_pos p k f).2 ∧ quiet w w' (jheld jn) ∧
    jn_cfg jn' = jn_cfg jn.
Proof.
  intros Hrb Hcu Hp Hk. pose proof Hcu as [Hloc Hdst Hro Hjs Hw Hlive (pg&wr&fs'&Hpg&Hid&Hp'&Hle&Hm&Hf)].
  assert (fs' = fs) as -> by congruence. unfold next_known.
  erewrite bind_Ret by by apply jpage_run. unfold next_pos, is_PageEnd.
  destruct (Z.eqb_spec (fr_type f) MsgType.PageEnd) as [Hend|Hend]; cbn [fst snd].
  - destruct (rest_step j p k fs f (rb_wf _ _ _ Hrb) Hp Hk) as [_ Hnext].
    destruct Hnext as [fs' Hfs']; [by apply Z.eqb_eq|]. by eapply loadNextPage_run.
  - eexists w, _. split; [done|]. split; [|split; [apply quiet_refl|done]].
    split; try done. exists pg, wr, fs. split_and!; try done.
    + apply lookup_lt_Some in Hk. lia.
    + simpl. rewrite Hf. by rewrite (frame_off_succ _ _ _ Hk).
Qed.

(** On a closed page the cursor is before the [PageEnd] or at it. *)
Definition pos_ok (j : ajournal) (p k : nat) : Prop :=
  ∀ fs, aj_closed j !! p = Some fs → (k < length fs)%nat.

Lemma next_pos_ok j p k fs f :
  aj_wf j → aj_pages j !! p = Some fs → fs !! k = Some f →
  pos_ok j (next_pos p k f).1 (next_pos p k f).2.
Proof.
  intros Hwf Hp Hk fs' Hfs'. unfold next_pos in *. destruct (is_PageEnd f) eqn:Hend; cbn [fst snd] in *.
  - destruct (wf_closed _ Hwf _ _ Hfs') as (ds&g&->&_). rewrite length_app. simpl. lia.
  - assert (fs' = fs) as ->.
    { unfold aj_pages in Hp. rewrite lookup_app_l in Hp by by eapply lookup_lt_Some. congruence. }
    destruct (wf_closed _ Hwf _ _ Hfs') as (ds&g&->&Hg&Hds).
    apply lookup_app_Some in Hk as [Hk|[Hk1 Hk2]].
    + apply lookup_lt_Some in Hk. rewrite length_app. simpl. lia.
    + apply list_lookup_singleton_Some in Hk2 as [_ ->]. congruence.
Qed.

(** A reader of one journal. *)
Record reads (w : world) (r : reader) (c : writer_config) (j : ajournal) (p k : nat)
    (jn : journal) : Prop := {
  rs_journals : rd_journals r = [jn];
  rs_single : rd_single r = true;
  rs_cursor : cursor w jn c j p k;
  rs_pos : pos_ok j p k
}.

Lemma rthis_run w r : rthis (w, r) = (Ret r, (w, r)).
Proof. done. Qed.
Lemma rio_run {A} (m : M world A) w r x w' : m w = (x, w') → rio m (w, r) = (x, (w', r)).
Proof. intros Hm. unfold rio. by eapply lift_fst_run. Qed.

Lemma tryCurrentFrame_single w r jn v :
  rd_journals r = [jn] → rd_single r = true → view_of (jn_frame jn) w = (Ret v, w) →
  tryCurrentFrame (w, r) = (Ret v, (w, r)).
Proof.
  intros Hj Hs Hv. unfold tryCurrentFrame, tryCurrentSingleFrame.
  rewrite (bind_Ret _ _ _ _ _ (rthis_run _ _)), Hs, (bind_Ret _ _ _ _ _ (rthis_run _ _)), Hj.
  by apply rio_run.
Qed.

(** Advancing past the frame that was seen. *)
Lemma advance_single w r c j p k jn fs f :
  readable w c j → reads w r c j p k jn → aj_pages j !! p = Some fs → fs !! k = Some f →
  ∃ w' r' jn', advance (MkView (jn_frame jn) (frame_length f) (fr_type f)) (w, r) = (Ret tt, (w', r')) ∧
    reads w' r' c j (next_pos p k f).1 (next_pos p k f).2 jn' ∧ quiet w w' (jheld jn) ∧
    rd_options r' = rd_options r ∧ rd_keys r' = rd_keys r.
Proof.
  intros Hrb [Hj Hs Hcu Hpos] Hp Hk.
  destruct (next_known_run _ _ _ _ _ _ _ _ Hrb Hcu Hp Hk) as (w'&jn'&Hnext&Hcu'&Hq&_).
  exists w', (rset_journals [jn'] r), jn'. split; [|split; [split; try done|done]].
  2:{ eapply next_pos_ok; [apply Hrb|done..]. }
  unfold advance. rewrite (bind_Ret _ _ _ _ _ (rthis_run _ _)), Hs.
  cbn [fv_length fv_msg_type]. unfold on_journal. simpl. rewrite Hj. simpl. by rewrite Hnext.
Qed.

(** One frame delivered. *)
Lemma nextStatic_some w r c j p k jn fs f :
  readable w c j → reads w r c j p k jn → aj_pages j !! p = Some fs → fs !! k = Some f →
  ∃ w' r' jn', nextStatic read_frame (w, r) = (Ret (Some f), (w', r')) ∧
    reads w' r' c j (next_pos p k f).1 (next_pos p k f).2 jn' ∧ quiet w w' (jheld jn) ∧
    rd_options r' = rd_options r ∧ rd_keys r' = rd_keys r.
Proof.
  intros Hrb Hrd Hp Hk. pose proof Hrd as [Hj Hs Hcu Hpos].
  destruct (advance_single _ _ _ _ _ _ _ _ _ Hrb Hrd Hp Hk) as (w'&r'&jn'&Hadv&Hres).
  exists w', r', jn'. split; [|done].
  unfold nextStatic. erewrite bind_Ret by (eapply tryCurrentFrame_single; [done..|by eapply view_of_run]).
  cbn beta iota. erewrite bind_Ret by (apply rio_run; by eapply read_frame_run).
  by erewrite bind_Ret by exact Hadv.
Qed.

Lemma at_end w jn c j p k fs :
  readable w c j → cursor w jn c j p k → pos_ok j p k → aj_pages j !! p = Some fs → fs !! k = None →
  k = length fs ∧ page_end fs + 64 ≤ page_size_ c ∧ rest j p k = [].
Proof.
  intros Hrb Hcu Hpos Hp Hk.
  assert (k = length fs) as ->.
  { destruct (cu_page _ _ _ _ _ _ Hcu) as (?&?&fs'&_&_&Hp'&Hle&_).
    apply lookup_ge_None in Hk. simplify_eq. lia. }
  assert (p = length (aj_closed j) ∧ fs = aj_cur j) as [-> ->].
  { unfold aj_pages in Hp. apply lookup_app_Some in Hp as [Hp|[Hlen Hp]].
    - specialize (Hpos _ Hp). lia.
    - apply list_lookup_singleton_Some in Hp as [? <-]. split; [lia|done]. }
  pose proof (rb_border _ _ _ Hrb) as Hb. unfold FRAME_ALIGNMENT in Hb.
  split_and!; [done|lia|]. apply rest_end with (aj_cur j); [apply Hrb|done..|]. intros fs'.
  rewrite lookup_ge_None_2; [done|]. unfold aj_pages. rewrite length_app. simpl. lia.
Qed.

Lemma nextStatic_none w r c j p k jn fs :
  readable w c j → reads w r c j p k jn → aj_pages j !! p = Some fs → fs !! k = None →
  nextStatic read_frame (w, r) = (Ret None, (w, r)) ∧ rest j p k = [].
Proof.
  intros Hrb [Hj Hs Hcu Hpos] Hp Hk.
  destruct (at_end _ _ _ _ _ _ _ Hrb Hcu Hpos Hp Hk) as (->&Hroom&Hrest). split; [|done].
  unfold nextStatic. erewrite bind_Ret by
    (eapply tryCurrentFrame_single; [done..|]; by eapply view_of_end). done.
Qed.

(** The application loop: read until there is nothing. *)
Fixpoint drain (fuel : nat) : R (list frame) :=
  match fuel with
  | O => crash OutOfFuel
  | S fuel =>
      let! x := nextStatic read_frame in
      match x with
      | None => ret []
      | Some f => let! fs := drain fuel in ret (f :: fs)
      end
  end.

Lemma drain_run fuel w r c j p k jn :
  readable w c j → 64 ≤ page_size_ c → reads w r c j p k jn → (length (rest j p k) < fuel)%nat →
  ∃ w' r' p' k' jn', drain fuel (w, r) = (Ret (rest j p k), (w', r')) ∧
    readable w' c j ∧ reads w' r' c j p' k' jn' ∧ rest j p' k' = [].
Proof.
  revert w r p k jn; induction fuel as [|fuel IH]; intros w r p k jn Hrb Hsz Hrd Hfuel; [lia|].
  cbn [drain]. destruct (cu_page _ _ _ _ _ _ (rs_cursor _ _ _ _ _ _ _ Hrd)) as (?&?&fs&_&_&Hp&_).
  destruct (fs !! k) as [f|] eqn:Hk.
  - destruct (nextStatic_some _ _ _ _ _ _ _ _ _ Hrb Hrd Hp Hk) as (w1&r1&jn1&Hrun&Hrd1&Hq&_).
    destruct (rest_step j p k fs f (rb_wf _ _ _ Hrb) Hp Hk) as [Hrest _]. rewrite Hrest in *.
    pose proof (readable_quiet _ _ _ _ _ Hsz Hq Hrb) as Hrb1.
    destruct (IH w1 r1 _ _ jn1 Hrb1 Hsz Hrd1) as (w'&r'&p'&k'&jn'&Hrec&Hres); [simpl in *; lia|].
    exists w', r', p', k', jn'. split; [|done].
    erewrite bind_Ret by exact Hrun. cbn beta iota. by erewrite bind_Ret by exact Hrec.
  - destruct (nextStatic_none _ _ _ _ _ _ _ _ Hrb Hrd Hp Hk) as [Hrun Hrest].
    exists w, r, p, k, jn. rewrite Hrest. split; [|done]. by erewrite bind_Ret by exact Hrun.
Qed.
End drain.

(** ** Joining at time 0 *)

Section join.
Context `{Env} `{!NoErrors} `{!EnvLaws} `{ILocator} `{!LocatorLaws} `{PriorityQueue}.

(** What the page's header says of its last frame. *)
Lemma last_frame_run w p b pa n wr fs :
  pg_header p = Ptr b 0 → mapped w b pa n wr → page_shown w pa n fs → 2 ^ 21 ≤ n →
  page_end fs + 64 ≤ n ∨ fs ≠ [] →
  lastFrameAddress p w = (Ret (Ptr b (last_pos fs)), w) ∧
  (∃ len, load 4 (Ptr b (last_pos fs)) w = (Ret len, w)) ∧
  frame_time (Ptr b (last_pos fs)) w = (Ret (default 0 (fr_gen <$> last fs)), w).
Proof.
  intros Hp Hm Hps Hn Hroom. pose proof (hd_pos _ _ _ _ (pn_header _ _ _ _ Hps)) as Hpos.
  split.
  { unfold lastFrameAddress, page_address. rewrite Hp. unfold_offsets. mstep. by rewrite Hpos. }
  destruct fs as [|f ds _] using rev_ind.
  - destruct Hroom as [Hroom|]; [|done]. unfold last_pos, page_end in *. simpl in *. unfold_offsets.
    split; [eexists; eapply load_run; [done|cbn; lia..]|].
    erewrite frame_time_run; [|exact Hm|cbn; lia..]. cbn [p_off]. unfold_offsets.
    pose proof (pn_next _ _ _ _ Hps) as Hz. unfold page_end in Hz. simpl in Hz. unfold_offsets.
    change (64 + 0 + 0) with (64 + 0). rewrite Hz by lia. done.
  - rewrite last_pos_snoc. pose proof (page_frame _ _ _ _ (length ds) f Hps) as Hf.
    destruct Hf as (Hat&Hwf&Hlo&Hhi); [by apply list_lookup_middle|].
    unfold frame_off in *. rewrite take_app_length in *.
    pose proof (frame_wf_stride _ Hwf) as (Hl&Hs&_).
    split; [eexists; eapply load_run; [done|cbn; lia..]|].
    erewrite frame_time_run; [|exact Hm|cbn; lia..]. cbn [p_off].
    destruct Hat as (->&_&_&_&->&_). rewrite last_snoc. simpl.
    by rewrite (proj2 (Z.eqb_neq _ 0)) by lia.
Qed.

Lemma isFull_run w p b pa n wr fs :
  pg_header p = Ptr b 0 → mapped w b pa n wr → page_shown w pa n fs → 2 ^ 21 ≤ n →
  page_end fs + 64 ≤ n ∨ fs ≠ [] → ∃ full, isFull p w = (Ret full, w).
Proof.
  intros Hp Hm Hps Hn Hroom.
  destruct (last_frame_run _ _ _ _ _ _ _ Hp Hm Hps Hn Hroom) as (Hlast&(len&Hlen)&_).
  unfold isFull. erewrite bind_Ret by exact Hlast.
  assert (load 4 (ptr_add (Ptr b (last_pos fs)) off_length) w = (Ret len, w)) as Hlen'.
  { rewrite <-Hlen. unfold ptr_add, off_length; cbn [p_base p_off]. by rewrite Z.add_0_r. }
  erewrite bind_Ret by exact Hlen'. erewrite bind_Ret by exact Hlast.
  unfold addressBorder, getPageSize. rewrite Hp. unfold_offsets. repeat mstep. by eexists.
Qed.

(** A page with room for another frame is not full. *)
Lemma isFull_room w p b pa n wr fs :
  pg_header p = Ptr b 0 → mapped w b pa n wr → page_shown w pa n fs → 2 ^ 21 ≤ n →
  page_end fs + 64 ≤ n → isFull p w = (Ret false, w).
Proof.
  intros Hp Hm Hps Hn Hroom.
  destruct (last_frame_run _ _ _ _ _ _ _ Hp Hm Hps Hn ltac:(by left)) as (Hlast&_&_).
  assert (∃ len, load 4 (ptr_add (Ptr b (last_pos fs)) off_length) w = (Ret len, w) ∧
    last_pos fs + framePhysicalLength len ≤ n - 64) as (len&Hlen&Hle).
  { unfold ptr_add, off_length; cbn [p_base p_off]. rewrite Z.add_0_r.
    destruct fs as [|f ds _] using rev_ind.
    - unfold last_pos, page_end in *. cbn [frames_span foldr removelast] in *. unfold_offsets.
      pose proof (pn_next _ _ _ _ Hps) as Hz. unfold page_end in Hz. cbn in Hz. unfold_offsets.
      eexists. split; [eapply load_run; [exact Hm|cbn; lia..]|]. cbn [p_off]. rewrite Hz by lia.
      change (framePhysicalLength 0) with 0. lia.
    - rewrite last_pos_snoc. rewrite page_end_snoc in Hroom.
      destruct (page_frame _ _ _ _ (length ds) f Hps) as (Hat&Hwf&Hlo&Hhi); [by apply list_lookup_middle|].
      unfold frame_off in *. rewrite take_app_length in *. pose proof (frame_wf_stride _ Hwf) as (Hl&Hs&_).
      eexists. split; [eapply load_run; [exact Hm|cbn; lia..]|]. cbn [p_off].
      destruct Hat as (Hlen&_). unfold off_length in Hlen. rewrite Z.add_0_r in Hlen. rewrite Hlen.
      fold (frame_stride f). lia. }
  pose proof (hd_size _ _ _ _ (pn_header _ _ _ _ Hps)) as Hsize.
  unfold isFull. erewrite bind_Ret by exact Hlast. erewrite bind_Ret by exact Hlen.
  erewrite bind_Ret by exact Hlast. unfold addressBorder, getPageSize. rewrite Hp. unfold_offsets. repeat mstep.
  rewrite Hsize. unfold page_address, addr. rewrite Hp. cbn [p_base p_off ptr_add].
  unfold ret. do 2 f_equal. apply Z.ltb_ge. lia.
Qed.

(** There is room on a page for another frame, or a page behind it. *)
Lemma page_room w c j p fs :
  readable w c j → aj_pages j !! p = Some fs →
  page_end fs + 64 ≤ page_size_ c ∨ fs ≠ [] ∧ is_Some (aj_pages j !! S p).
Proof.
  intros Hrb Hp. pose proof (rb_border _ _ _ Hrb) as Hb. unfold FRAME_ALIGNMENT in Hb.
  pose proof Hp as Hp'. unfold aj_pages in Hp. apply lookup_app_Some in Hp as [Hp|[_ Hp]].
  - right. split.
    + destruct (wf_closed _ (rb_wf _ _ _ Hrb) _ _ Hp) as (ds&f&->&_). by destruct ds.
    + apply lookup_lt_is_Some_2. apply lookup_lt_Some in Hp. unfold aj_pages. rewrite length_app. cbn. lia.
  - apply list_lookup_singleton_Some in Hp as [_ <-]. left. lia.
Qed.

(** The page under a cursor, and what its header says. *)
Lemma cursor_last w jn c j p k fs :
  readable w c j → 2 ^ 21 ≤ page_size_ c → cursor w jn c j p k → aj_pages j !! p = Some fs →
  ∃ pg full, jn_page jn = Some pg ∧ isFull pg w = (Ret full, w) ∧
    endTime pg w = (Ret (default 0 (fr_gen <$> last fs)), w) ∧
    (page_end fs + 64 ≤ page_size_ c → full = false).
Proof.
  intros Hrb Hsz Hcu Hp. destruct (cu_page _ _ _ _ _ _ Hcu) as (pg&wr&fs'&Hpg&Hid&Hp'&Hle&Hm&_).
  assert (fs' = fs) as -> by congruence. destruct (readable_page _ _ _ _ _ Hrb Hp) as (Hps&_).
  assert (pg_header pg = Ptr (base_of pg) 0) as Hph.
  { destruct (cu_live _ _ _ _ _ _ Hcu) as [_ Hl]. unfold jall, jheld in Hl. rewrite Hpg in Hl.
    by apply Forall_inv in Hl as [? _]. }
  assert (page_end fs + 64 ≤ page_size_ c ∨ fs ≠ []) as Hroom.
  { destruct (page_room _ _ _ _ _ Hrb Hp) as [?|[? _]]; [by left|by right]. }
  destruct (isFull_run _ _ _ _ _ _ _ Hph Hm Hps Hsz Hroom) as [full Hfull].
  destruct (last_frame_run _ _ _ _ _ _ _ Hph Hm Hps Hsz Hroom) as (Hla&_&Htime).
  exists pg, full. split_and!; [done..| |].
  - unfold endTime. by erewrite bind_Ret by exact Hla.
  - intros Hfit. rewrite (isFull_room _ _ _ _ _ _ _ Hph Hm Hps Hsz Hfit) in Hfull. congruence.
Qed.

(** The page is kept if it has room or ends at [t] or later. *)
Lemma skip_pages_stay fuel w jn c j p k fs t :
  readable w c j → 2 ^ 21 ≤ page_size_ c → cursor w jn c j p k → aj_pages j !! p = Some fs →
  page_end fs + 64 ≤ page_size_ c ∨ t ≤ default 0 (fr_gen <$> last fs) →
  skip_pages (S fuel) t (w, jn) = (Ret tt, (w, jn)).
Proof.
  intros Hrb Hsz Hcu Hp Hstay.
  destruct (cursor_last _ _ _ _ _ _ _ Hrb Hsz Hcu Hp) as (pg&full&Hpg&Hfull&Hend&Hroom).
  cbn [skip_pages]. erewrite bind_Ret by by apply jpage_run.
  erewrite bind_Ret by (apply jio_run; exact Hfull). destruct full; [|done].
  destruct Hstay as [Hfit|Hle]; [by specialize (Hroom Hfit)|].
  erewrite bind_Ret by (apply jio_run; exact Hend). by rewrite (proj2 (Z.ltb_ge _ _)) by lia.
Qed.

(** The check without a view sees what the view shows. *)
Lemma hasData_view h w v :
  view_of h w = (Ret v, w) → hasData_now h w = (Ret (match v with Some _ => true | None => false end), w).
Proof.
  intros Hv. unfold hasData_now, hasData_len. unfold view_of, bind, ret in *.
  destruct (getFrameLength _ _) as [[] ?]; simplify_eq; [|done..].
  destruct (getMsgType _ _) as [[] ?]; simplify_eq; [|done..]. by destruct (hasData _ _); simplify_eq.
Qed.

Lemma current_hasData_run w jn c j p k fs f :
  readable w c j → cursor w jn c j p k → aj_pages j !! p = Some fs → fs !! k = Some f →
  current_hasData (w, jn) = (Ret true, (w, jn)).
Proof.
  intros Hrb Hcu Hp Hk. pose proof (view_of_run _ _ _ _ _ _ _ _ Hrb Hcu Hp Hk) as Hv.
  unfold current_hasData. jstep. apply jio_run. exact (hasData_view _ _ _ Hv).
Qed.

Lemma current_hasData_end w jn c j p fs :
  readable w c j → cursor w jn c j p (length fs) → aj_pages j !! p = Some fs →
  page_end fs + 64 ≤ page_size_ c →
  current_hasData (w, jn) = (Ret false, (w, jn)).
Proof.
  intros Hrb Hcu Hp Hroom. pose proof (view_of_end _ _ _ _ _ _ Hrb Hcu Hp Hroom) as Hv.
  unfold current_hasData. jstep. apply jio_run. exact (hasData_view _ _ _ Hv).
Qed.

(** The frames from the first one at or after [t]. *)
Fixpoint from_time (t : Z) (fs : list frame) : list frame :=
  match fs with
  | [] => []
  | f :: fs' => if fr_gen f <? t then from_time t fs' else fs
  end.

Lemma next_run w jn c j p k fs f :
  readable w c j → cursor w jn c j p k → aj_pages j !! p = Some fs → fs !! k = Some f →
  ∃ w' jn', next (w, jn) = (Ret tt, (w', jn')) ∧
    cursor w' jn' c j (next_pos p k f).1 (next_pos p k f).2 ∧ quiet w w' (jheld jn) ∧
    jn_cfg jn' = jn_cfg jn.
Proof.
  intros Hrb Hcu Hp Hk. destruct (cu_page _ _ _ _ _ _ Hcu) as (pg&_&_&Hpg&_).
  destruct (cursor_in_page _ _ _ _ _ _ _ _ Hrb Hcu Hp Hk) as (b&wr&Hf&Hm&Hat&Hwf&Hlo&Hhi).
  pose proof (frame_wf_stride _ Hwf) as (Hl&Hs&_). destruct Hat as (Hlen&Hty&_).
  unfold next. erewrite bind_Ret by by apply jpage_run. jstep. rewrite Hf.
  unfold getFrameLength, getMsgType. unfold_offsets. rewrite ?Z.add_0_r in *.
  erewrite bind_Ret by (apply jio_run; eapply load_run; [exact Hm|cbn; lia..]).
  erewrite bind_Ret by (apply jio_run; eapply load_run; [exact Hm|cbn; lia..]).
  cbn [p_off ptr_add]. rewrite Z.add_0_r, Hlen, Hty. by eapply next_known_run.
Qed.

Lemma cursor_gen w jn c j p k fs f :
  readable w c j → cursor w jn c j p k → aj_pages j !! p = Some fs → fs !! k = Some f →
  getGenTime (jn_frame jn) w = (Ret (fr_gen f), w).
Proof.
  intros Hrb Hcu Hp Hk.
  destruct (cursor_in_page _ _ _ _ _ _ _ _ Hrb Hcu Hp Hk) as (b&wr&->&Hm&Hat&Hwf&Hlo&Hhi).
  pose proof (frame_wf_stride _ Hwf) as (Hl&Hs&_).
  destruct Hat as (_&_&_&_&Hg&_). unfold getGenTime. unfold_offsets. mstep. by rewrite Hg.
Qed.

Lemma skip_frames_run fuel t w jn c j p k :
  readable w c j → 64 ≤ page_size_ c → cursor w jn c j p k → pos_ok j p k →
  (length (rest j p k) < fuel)%nat →
  ∃ w' jn' p' k', skip_frames fuel t (w, jn) = (Ret tt, (w', jn')) ∧
    readable w' c j ∧ cursor w' jn' c j p' k' ∧ pos_ok j p' k' ∧
    rest j p' k' = from_time t (rest j p k) ∧ jn_cfg jn' = jn_cfg jn.
Proof.
  revert w jn p k; induction fuel as [|fuel IH]; intros w jn p k Hrb Hsz Hcu Hpos Hfuel; [lia|].
  cbn [skip_frames]. destruct (cu_page _ _ _ _ _ _ Hcu) as (?&?&fs&_&_&Hp&_).
  destruct (fs !! k) as [f|] eqn:Hk.
  2:{ destruct (at_end _ _ _ _ _ _ _ Hrb Hcu Hpos Hp Hk) as (->&Hroom&Hrest).
      erewrite bind_Ret by by eapply current_hasData_end. rewrite Hrest.
      exists w, jn, p, (length fs). by rewrite Hrest. }
  erewrite bind_Ret by by eapply current_hasData_run. cbn beta iota. jstep.
  destruct (rest_step j p k fs f (rb_wf _ _ _ Hrb) Hp Hk) as [Hrest _].
  erewrite bind_Ret by (apply jio_run; by eapply cursor_gen). rewrite Hrest. cbn [from_time].
  destruct (fr_gen f <? t); [|by exists w, jn, p, k].
  destruct (next_run _ _ _ _ _ _ _ _ Hrb Hcu Hp Hk) as (w1&jn1&Hnext&Hcu1&Hq&Hc1).
  erewrite bind_Ret by exact Hnext.
  destruct (IH w1 jn1 (next_pos p k f).1 (next_pos p k f).2) as (w'&jn'&p'&k'&Hrun&Hrb'&Hcu'&Hpos'&Hr'&Hc');
    [by eapply readable_quiet|done|done|by eapply next_pos_ok; [apply Hrb|..]|rewrite Hrest in Hfuel; simpl in *; lia|].
  exists w', jn', p', k'. split_and!; try done. congruence.
Qed.

Lemma skip_frames_stay fuel t w jn c j p k fs :
  readable w c j → cursor w jn c j p k → pos_ok j p k → aj_pages j !! p = Some fs →
  (∀ f, fs !! k = Some f → t ≤ fr_gen f) →
  skip_frames (S fuel) t (w, jn) = (Ret tt, (w, jn)).
Proof.
  intros Hrb Hcu Hpos Hp Hgen. cbn [skip_frames]. destruct (fs !! k) as [f|] eqn:Hk.
  - erewrite bind_Ret by by eapply current_hasData_run. cbn beta iota. jstep.
    erewrite bind_Ret by (apply jio_run; by eapply cursor_gen).
    by rewrite (proj2 (Z.ltb_ge _ _)) by by apply Hgen.
  - destruct (at_end _ _ _ _ _ _ _ Hrb Hcu Hpos Hp Hk) as (->&Hroom&_).
    by erewrite bind_Ret by by eapply current_hasData_end.
Qed.

(** Nothing is left: [nextStatic] says so. *)
Lemma drained_none w r c j p k jn :
  readable w c j → reads w r c j p k jn → rest j p k = [] →
  nextStatic read_frame (w, r) = (Ret None, (w, r)).
Proof.
  intros Hrb Hrd Hrest. destruct (cu_page _ _ _ _ _ _ (rs_cursor _ _ _ _ _ _ _ Hrd)) as (?&?&fs&_&_&Hp&_).
  destruct (fs !! k) as [f|] eqn:Hk.
  - destruct (rest_step j p k fs f (rb_wf _ _ _ Hrb) Hp Hk) as [Heq _]. by rewrite Hrest in Heq.
  - by eapply nextStatic_none.
Qed.

(** Seeking a new journal to time 0. *)
Lemma findPageId_zero w c j :
  readable w c j → in_u 32 (dest_id_ c) → 2 ^ 21 ≤ page_size_ c →
  findPageId (location_ c) (dest_id_ c) 0 w =
    (Ret (aj_first j), set_dirs ({[layoutDir (location_ c) JOURNAL]} ∪.) w).
Proof.
  intros Hrb Hd Hsz. unfold findPageId.
  pose proof (rb_names _ _ _ Hrb) as Honly. pose proof (rb_low _ _ _ Hrb) as Hnone.
  destruct (listPageId_run w (location_ c) (dest_id_ c)) as (ids&Hrun&Hsort&_&Hids); [done..|].
  erewrite bind_Ret by exact Hrun.
  destruct (lookup_lt_is_Some_2 (aj_pages j) 0) as [fs Hfs].
  { unfold aj_pages. rewrite length_app. simpl. lia. }
  destruct (readable_page _ _ _ _ _ Hrb Hfs) as (_&Hlong&_&Hr).
  rewrite Z.add_0_r in Hlong, Hr.
  assert (aj_first j ∈ ids) as Hin.
  { apply Hids. split; [done|]. apply (file_size_pos w (page_file c (aj_first j))). lia. }
  destruct ids as [|front ids]; [by apply elem_of_nil in Hin|]. cbn [Z.eqb].
  unfold ret. do 2 f_equal.
  assert (front ∈ front :: ids) as [Hf1 Hf2]%Hids by by left.
  destruct (decide (front < aj_first j)) as [Hlt|Hge].
  { change (layoutDir _ _, _) with (page_file c front) in Hf2. rewrite Hnone in Hf2 by lia.
    by destruct Hf2. }
  apply elem_of_cons in Hin as [?|Hin]; [done|]. apply StronglySorted_inv in Hsort as [_ Hall].
  eapply (proj1 (Forall_forall _ _)) in Hall; [|exact Hin]. simpl in Hall. lia.
Qed.

(** The members of a reader's new journal. *)
Lemma ctor_loadable w c o :
  jo_is_writing o = false → loadable w (Journal_ctor (location_ c) (dest_id_ c) o) c.
Proof. intros. split; try done. split; by constructor. Qed.

Lemma seek_start w c j o fuel :
  readable w c j → in_u 32 (dest_id_ c) → 2 ^ 21 ≤ page_size_ c →
  Forall (λ f, 0 ≤ fr_gen f) (aj_frames j) → (0 < fuel)%nat →
  jo_is_writing o = false →
  ∃ w' jn', seekToTime fuel 0 (w, Journal_ctor (location_ c) (dest_id_ c) o) = (Ret tt, (w', jn')) ∧
    readable w' c j ∧ cursor w' jn' c j 0 0 ∧ pos_ok j 0 0 ∧ quiet w w' [].
Proof.
  intros Hrb Hd Hsz Hgen Hfuel Ho. unfold seekToTime. jstep.
  erewrite bind_Ret by (apply jio_run; by eapply findPageId_zero). set (w1 := set_dirs _ w).
  assert (readable w1 c j) as Hrb1.
  { eapply (readable_quiet w w1 c j []); [lia|by split|done]. }
  destruct (lookup_lt_is_Some_2 (aj_pages j) 0) as [fs Hfs].
  { unfold aj_pages. rewrite length_app. simpl. lia. }
  destruct (loadPage_run w1 (Journal_ctor (location_ c) (dest_id_ c) o) c j 0 fs)
    as (w2&jn2&Hload&Hcu&Hq&_); [by apply ctor_loadable|done..|].
  rewrite Z.add_0_r in Hload. erewrite bind_Ret by exact Hload.
  pose proof (readable_quiet w1 w2 c j _ ltac:(lia) Hq Hrb1) as Hrb2.
  assert (pos_ok j 0 0) as Hpos.
  { intros fs' Hfs'. destruct (wf_closed _ (rb_wf _ _ _ Hrb) _ _ Hfs') as (ds&f&->&_).
    rewrite length_app. simpl. lia. }
  destruct fuel as [|fuel]; [lia|].
  erewrite bind_Ret.
  2:{ eapply skip_pages_stay; [done|done|exact Hcu|exact Hfs|]. right.
      destruct (last fs) as [f|] eqn:Hf; [|done]. cbn. eapply (proj1 (Forall_forall _ _) Hgen). rewrite <-rest_start.
      unfold rest. rewrite Hfs, drop_0. apply elem_of_app. left. apply last_Some in Hf as [ds Hf]. cbn. set_solver. }
  exists w2, jn2. split; [|split_and!; [done..|]].
  2:{ eapply quiet_trans; [|exact Hq]. by split. }
  eapply skip_frames_stay; [done..|].
  intros f' Hf'. eapply (proj1 (Forall_forall _ _) Hgen). rewrite <-rest_start.
  unfold rest. rewrite Hfs. cbn [default from_option id]. rewrite drop_0.
  apply elem_of_app. left. by eapply list_elem_of_lookup_2.
Qed.

(** [join] of a reader's first journal is the seek. *)
Lemma join_first fuel location dest_id t o w w' jn' :
  seekToTime fuel t (w, Journal_ctor location dest_id (MkJournalOptions false (ro_prefault o)
    (ro_background_threads o) (ro_retained_page_limit o))) = (Ret tt, (w', jn')) →
  ∃ r', join fuel location dest_id t (w, JournalReader_ctor o) = (Ret tt, (w', r')) ∧
    rd_journals r' = [jn'] ∧ rd_single r' = true.
Proof.
  intros Hseek. unfold join. rewrite (bind_Ret _ _ _ _ _ (rthis_run _ _)).
  cbn [rd_keys rd_options JournalReader_ctor]. rewrite bool_decide_false by set_solver.
  eexists. split; [unfold bind at 1; cbn [fst snd]; by rewrite Hseek|done].
Qed.

(** [join] of a reader's first journal at time 0 stands at the first frame. *)
Lemma join_start w c j o fuel :
  readable w c j → in_u 32 (dest_id_ c) → 2 ^ 21 ≤ page_size_ c →
  Forall (λ f, 0 ≤ fr_gen f) (aj_frames j) → (0 < fuel)%nat →
  ∃ w' r' jn', join fuel (location_ c) (dest_id_ c) 0 (w, JournalReader_ctor o) = (Ret tt, (w', r')) ∧
    readable w' c j ∧ reads w' r' c j 0 0 jn' ∧ quiet w w' [].
Proof.
  intros Hrb Hd Hsz Hgen Hfuel.
  destruct (seek_start w c j (MkJournalOptions false (ro_prefault o) (ro_background_threads o)
    (ro_retained_page_limit o)) fuel) as (w'&jn'&Hseek&Hrb'&Hcu&Hpos&Hq); [done..|].
  destruct (join_first _ _ _ _ o _ _ _ Hseek) as (r'&Hjoin&?&?).
  exists w', r', jn'. by split_and!.
Qed.
End join.

Lemma read_back_run `{Env} `{!NoErrors} `{!EnvLaws} `{ILocator} `{!LocatorLaws} `{PriorityQueue}
    w c j o fuel :
  readable w c j → in_u 32 (dest_id_ c) →
  Forall (λ f, 0 ≤ fr_gen f) (aj_frames j) → (length (aj_frames j) < fuel)%nat →
  ∃ w1 r1 w2 r2,
    join fuel (location_ c) (dest_id_ c) 0 (w, JournalReader_ctor o) = (Ret tt, (w1, r1)) ∧
    drain fuel (w1, r1) = (Ret (aj_frames j), (w2, r2)) ∧
    readable w2 c j ∧ nextStatic read_frame (w2, r2) = (Ret None, (w2, r2)).
Proof.
  intros Hrb Hd Hgen Hfuel.
  pose proof (findPageSize_bounds (location_ c) (dest_id_ c)) as [Hsz _].
  rewrite <-(rb_cfg _ _ _ Hrb) in Hsz.
  destruct (join_start w c j o fuel) as (w1&r1&jn1&Hjoin&Hrb1&Hrd1&_); [done..|lia|done|lia|].
  destruct (drain_run fuel w1 r1 c j 0 0 jn1) as (w2&r2&p'&k'&jn2&Hdrain&Hrb2&Hrd2&Hend);
    [done|lia|done|by rewrite rest_start|].
  rewrite rest_start in Hdrain. exists w1, r1, w2, r2. split_and!; [done..|].
  by eapply drained_none.
Qed.

(** C9: A reader gets back exactly what the files hold: joined at time 0 and
    drained, it delivers every frame of the journal -- type, flags, sequence,
    times and payload -- once, in the order they were written, following the
    [PageEnd] frames from page to page, and then finds nothing more; the files
    hold the same journal afterwards. *)
Theorem read_back `{Env} `{!NoErrors} `{!EnvLaws} `{ILocator} `{!LocatorLaws} `{PriorityQueue}
    w c j o fuel :
  readable w c j → in_u 32 (dest_id_ c) →
  Forall (λ f, 0 ≤ fr_gen f) (aj_frames j) → (length (aj_frames j) < fuel)%nat →
  ∃ w1 r1 w2 r2,
    join fuel (location_ c) (dest_id_ c) 0 (w, JournalReader_ctor o) = (Ret tt, (w1, r1)) ∧
    drain fuel (w1, r1) = (Ret (aj_frames j), (w2, r2)) ∧
    readable w2 c j ∧ nextStatic read_frame (w2, r2) = (Ret None, (w2, r2)).
Proof. apply read_back_run. Qed.
