(* ===== verification/Seek.v ===== *)
(** * Seek: joining in the middle of a journal

    [Page::findPageId], [Journal::seekToTime] and [JournalReader::join] with a
    start time, put together: which frames a reader that joins at a time gets. *)

From S2P Require Import Prelude Memory Frame Base Mmap Page Warmer Writer WriterState.
From S2P Require Import Journal Reader JournalSpec ReaderSpec.

(** ** Frames and times *)

Definition no_later (f g : frame) : Prop := fr_gen f ≤ fr_gen g.
Definition earlier (f g : frame) : Prop := fr_gen f < fr_gen g.

(** What [from_time] leaves out is before the time; of frames in order, what
    it keeps is not. *)
Lemma from_time_split t fs :
  StronglySorted no_later fs →
  ∃ skipped, fs = skipped ++ from_time t fs ∧ Forall (λ f, fr_gen f < t) skipped ∧
    Forall (λ f, t ≤ fr_gen f) (from_time t fs).
Proof.
  induction 1 as [|f fs Hs IH Hf]; [by exists []|]. cbn [from_time].
  destruct (Z.ltb_spec (fr_gen f) t) as [Hlt|Hge].
  - destruct IH as (skipped&Heq&?&?). exists (f :: skipped). cbn. rewrite <-Heq. by split; [|split; [constructor|]].
  - exists []. split; [done|]. split; [done|]. constructor; [done|].
    eapply Forall_impl; [exact Hf|]. unfold no_later. intros. lia.
Qed.

Lemma filter_from t skipped fs :
  Forall (λ f, fr_gen f < t) skipped → Forall (λ f, t ≤ fr_gen f) fs →
  filter (λ f, t ≤ fr_gen f) (skipped ++ fs) = fs.
Proof.
  intros Hsk Hfs. rewrite filter_app. induction Hsk as [|f skipped Hf _ IH].
  - induction Hfs as [|f fs Hf _ IH]; [done|]. rewrite filter_nil, filter_cons_True in * by done.
    cbn in *. by rewrite IH.
  - rewrite filter_cons_False by lia. exact IH.
Qed.

Lemma earlier_sorted fs : StronglySorted earlier fs → StronglySorted no_later fs.
Proof.
  induction 1 as [|f fs ? ? Hf]; constructor; [done|]. eapply Forall_impl; [exact Hf|].
  unfold earlier, no_later. intros. lia.
Qed.

Lemma sorted_app_rel {A} (R : A → A → Prop) l1 l2 x y :
  StronglySorted R (l1 ++ l2) → x ∈ l1 → y ∈ l2 → R x y.
Proof.
  induction l1 as [|z l1 IH]; cbn; [by intros _ ?%elem_of_nil|].
  intros [Hs Hall]%StronglySorted_inv Hx Hy. apply elem_of_cons in Hx as [->|Hx]; [|by apply IH].
  eapply (proj1 (Forall_forall _ _) Hall). apply elem_of_app. by right.
Qed.

Lemma sorted_app_r {A} (R : A → A → Prop) l1 l2 : StronglySorted R (l1 ++ l2) → StronglySorted R l2.
Proof. induction l1; cbn; [done|]. intros [? _]%StronglySorted_inv. auto. Qed.

(** ** The pages of a journal in order of time *)

Lemma frames_pages j : aj_frames j = concat (aj_pages j).
Proof. unfold aj_frames, aj_pages. rewrite concat_app. cbn. by rewrite app_nil_r. Qed.

(** The frames on the pages before page [p]. *)
Definition before (j : ajournal) (p : nat) : list frame := concat (take p (aj_pages j)).

Lemma before_rest j p fs : aj_pages j !! p = Some fs → aj_frames j = before j p ++ rest j p 0.
Proof.
  intros Hp. rewrite frames_pages. unfold before, rest. rewrite Hp, drop_0. cbn [default from_option id].
  rewrite <-(take_drop_middle (aj_pages j) p fs Hp) at 1. rewrite concat_app. done.
Qed.

Lemma before_step j p fs : aj_pages j !! p = Some fs → before j (S p) = before j p ++ fs.
Proof. intros Hp. unfold before. rewrite (take_S_r _ _ fs) by done. rewrite concat_app. cbn. by rewrite app_nil_r. Qed.

Lemma elem_of_before j p q fs f : aj_pages j !! q = Some fs → (q < p)%nat → f ∈ fs → f ∈ before j p.
Proof.
  intros Hq Hlt Hf. unfold before. apply list_elem_of_In, in_concat. exists fs.
  split; apply list_elem_of_In; [|done]. eapply list_elem_of_lookup_2. by rewrite lookup_take_lt by done.
Qed.

Lemma elem_of_rest j p fs f : aj_pages j !! p = Some fs → f ∈ fs → f ∈ rest j p 0.
Proof.
  intros Hp Hf. unfold rest. rewrite Hp, drop_0. apply elem_of_app. by left.
Qed.

(** Frames of an earlier page come first. *)
Lemma page_order j (R : frame → frame → Prop) p q fs gs f g :
  StronglySorted R (aj_frames j) → aj_pages j !! p = Some fs → aj_pages j !! q = Some gs →
  (p < q)%nat → f ∈ fs → g ∈ gs → R f g.
Proof.
  intros Hs Hp Hq Hlt Hf Hg. rewrite (before_rest j q gs Hq) in Hs.
  eapply sorted_app_rel; [exact Hs|exact (elem_of_before _ _ _ _ _ Hp Hlt Hf)|exact (elem_of_rest _ _ _ _ Hq Hg)].
Qed.

(** Only the last page can be empty. *)
Lemma closed_head j p q : 
  aj_wf j → (p < q < length (aj_pages j))%nat → ∃ fs f, aj_pages j !! p = Some fs ∧ head fs = Some f.
Proof.
  intros Hwf Hpq. unfold aj_pages in *. rewrite length_app in Hpq. cbn in Hpq.
  destruct (lookup_lt_is_Some_2 (aj_closed j) p) as [fs Hfs]; [lia|].
  rewrite lookup_app_l by by eapply lookup_lt_Some. rewrite Hfs. exists fs.
  destruct (wf_closed _ Hwf _ _ Hfs) as ([|d ds]&f&->&_); (eexists; split; reflexivity).
Qed.

Section pages.
Context `{Env} `{!NoErrors} `{!EnvLaws} `{ILocator} `{!LocatorLaws}.

Lemma page_begin_shown w pa n fs :
  page_shown w pa n fs → 2 ^ 21 ≤ n → page_begin w pa = default 0 (fr_gen <$> head fs).
Proof.
  intros Hps Hn. unfold page_begin. destruct fs as [|f fs]; cbn [head fmap option_fmap option_map default].
  - pose proof (pn_next _ _ _ _ Hps) as Hz. unfold page_end in Hz. cbn in Hz. unfold_offsets.
    rewrite Hz by lia. done.
  - destruct (page_frame _ _ _ _ 0 f Hps) as (Hat&Hwf&_); [done|].
    pose proof (frame_wf_stride _ Hwf) as (Hl&_). destruct Hat as (Hlen&_&_&_&Hg&_).
    unfold frame_off, page_end in *. cbn [take frames_span foldr] in *.
    change (sizeof_PageHeader + 0) with sizeof_PageHeader in *.
    rewrite Hlen, Hg. by rewrite (proj2 (Z.eqb_neq _ 0)) by lia.
Qed.

(** A journal whose frames are in order of time, none at time 0, and whose
    page files are the ones it is made of. *)
Record timed (w : world) (c : writer_config) (j : ajournal) : Prop := {
  td_sorted : StronglySorted no_later (aj_frames j);
  td_positive : Forall (λ f, 0 < fr_gen f) (aj_frames j);
  td_high id : aj_page j < id < 2 ^ 31 → w_files w !! page_file c id = None
}.

Lemma timed_same w w' c j : same_store w w' → timed w c j → timed w' c j.
Proof.
  intros Hs [? ? Hh]. split; try done. intros id Hid. apply eq_None_not_Some.
  rewrite (ss_file _ _ Hs). rewrite <-eq_None_not_Some. by apply Hh.
Qed.

(** The page files are the pages. *)
Lemma page_index w c j id :
  readable w c j → timed w c j → 0 ≤ id < 2 ^ 31 → is_Some (w_files w !! page_file c id) →
  ∃ p fs, id = aj_first j + Z.of_nat p ∧ aj_pages j !! p = Some fs.
Proof.
  intros Hrb Htd Hid Hf. pose proof (rb_range _ _ _ Hrb) as Hr.
  destruct (decide (id < aj_first j)) as [Hlt|Hge].
  { rewrite (rb_low _ _ _ Hrb) in Hf by lia. by destruct Hf. }
  destruct (decide (aj_page j < id)) as [Hgt|Hle].
  { rewrite (td_high _ _ _ Htd) in Hf by lia. by destruct Hf. }
  destruct (lookup_lt_is_Some_2 (aj_pages j) (Z.to_nat (id - aj_first j))) as [fs Hfs].
  { unfold aj_pages, aj_page in *. rewrite length_app. cbn. lia. }
  exists (Z.to_nat (id - aj_first j)), fs. split; [lia|done].
Qed.

Lemma page_exists w c j p fs :
  readable w c j → 2 ^ 21 ≤ page_size_ c → aj_pages j !! p = Some fs →
  is_Some (w_files w !! page_file c (aj_first j + Z.of_nat p)) ∧ 0 ≤ aj_first j + Z.of_nat p < 2 ^ 31.
Proof.
  intros Hrb Hsz Hp. destruct (readable_page _ _ _ _ _ Hrb Hp) as (_&Hlong&_&Hr). split; [|done].
  apply (file_size_pos w). lia.
Qed.

(** A page has started by [t] if it has a frame and the first is not later. *)
Lemma started_shown w c j p fs t :
  readable w c j → timed w c j → 2 ^ 21 ≤ page_size_ c → aj_pages j !! p = Some fs →
  started_by w (location_ c) (dest_id_ c) t (aj_first j + Z.of_nat p) = true ↔
  ∃ f, head fs = Some f ∧ fr_gen f ≤ t.
Proof.
  intros Hrb Htd Hsz Hp. destruct (readable_page _ _ _ _ _ Hrb Hp) as (Hps&_).
  unfold started_by. change (page_path _ _ _) with (page_file c (aj_first j + Z.of_nat p)).
  rewrite (page_begin_shown _ _ _ _ Hps Hsz). destruct fs as [|f fs]; cbn [head fmap option_fmap option_map default id].
  - split; [done|]. by intros (?&?&_).
  - assert (0 < fr_gen f).
    { apply (proj1 (Forall_forall _ _) (td_positive _ _ _ Htd)). rewrite (before_rest j p _ Hp). apply elem_of_app. right.
      eapply elem_of_rest; [exact Hp|by left]. }
    rewrite (proj2 (Z.eqb_neq _ 0)) by lia. cbn [negb andb]. rewrite Z.leb_le. split; [by exists f|].
    by intros (g&[= <-]&?).
Qed.

(** The page a search for [t] settles on, [0 < t]: the last that has started,
    or the first. *)
Lemma findPageId_time w c j t :
  readable w c j → timed w c j → in_u 32 (dest_id_ c) → 2 ^ 21 ≤ page_size_ c → 0 < t →
  ∃ p fs w', findPageId (location_ c) (dest_id_ c) t w = (Ret (aj_first j + Z.of_nat p), w') ∧
    same_store w w' ∧ aj_pages j !! p = Some fs ∧
    (p = 0%nat ∨ ∃ f, head fs = Some f ∧ fr_gen f ≤ t) ∧
    ∀ q gs g, (p < q)%nat → aj_pages j !! q = Some gs → head gs = Some g → t < fr_gen g.
Proof.
  intros Hrb Htd Hd Hsz Ht.
  destruct (findPageId_run w (location_ c) (dest_id_ c) t) as (id&w'&Hrun&Hsame&Hres);
    [done|apply Hrb| | |].
  { intros id [Hid Hf]. change (page_path _ _ _) with (page_file c id) in Hf.
    destruct (page_index w c j id) as (p&fs&->&Hp); [done..|].
    destruct (readable_page _ _ _ _ _ Hrb Hp) as (Hps&Hlong&_). rewrite (rb_cfg _ _ _ Hrb) in Hlong, Hps.
    split; [by exists (last_pos fs); apply Hps|done]. }
  { intros id1 id2 Hid1 Hid2 Hf1 Hf2 Hst.
    destruct (page_index w c j id1) as (p&fs&->&Hp); [done..|lia|done|].
    destruct (page_index w c j id2) as (q&gs&->&Hq); [done..|lia|done|].
    destruct (decide (p = q)) as [<-|Hne]; [done|].
    apply (started_shown _ _ _ _ _ _ Hrb Htd Hsz Hq) in Hst as (g&Hg&Hle).
    apply (started_shown _ _ _ _ _ _ Hrb Htd Hsz Hp).
    destruct (closed_head j p q) as (fs'&f&Hp'&Hf); [apply Hrb|apply lookup_lt_Some in Hq; lia|].
    assert (fs' = fs) as -> by congruence. exists f. split; [done|].
    pose proof (page_order j no_later p q fs gs f g (td_sorted _ _ _ Htd) Hp Hq ltac:(lia)) as Ho.
    destruct fs, gs; simplify_eq/=. unfold no_later in Ho. etrans; [apply Ho; by left|done]. }
  destruct (lookup_lt_is_Some_2 (aj_pages j) 0) as [fs0 Hfs0]; [unfold aj_pages; rewrite length_app; cbn; lia|].
  destruct (page_exists _ _ _ _ _ Hrb Hsz Hfs0) as [Hex0 Hr0].
  destruct Hres as [[Hno _]|([Hid Hf]&_&Hres)]; [by destruct (Hno _ (conj Hr0 Hex0))|].
  change (page_path _ _ _) with (page_file c id) in Hf.
  destruct (page_index w c j id) as (p&fs&->&Hp); [done..|].
  exists p, fs, w'. split; [done|]. split; [done|]. split; [done|].
  assert (∀ q gs g, aj_pages j !! q = Some gs → head gs = Some g → fr_gen g ≤ t →
    started_by w (location_ c) (dest_id_ c) t (aj_first j + Z.of_nat q) = true) as Hstart.
  { intros q gs g Hq Hg Hle. apply (started_shown _ _ _ _ _ _ Hrb Htd Hsz Hq). by exists g. }
  destruct (Hres ltac:(lia)) as [[Hst Hlast]|Hnone]; split.
  - right. by apply (started_shown _ _ _ _ _ _ Hrb Htd Hsz Hp) in Hst.
  - intros q gs g Hlt Hq Hg. destruct (page_exists _ _ _ _ _ Hrb Hsz Hq) as [Hex Hr].
    apply Z.lt_nge. intros Hle. specialize (Hlast _ (conj Hr Hex) (Hstart _ _ _ Hq Hg Hle)). lia.
  - left. destruct (Hnone _ (conj Hr0 Hex0)) as [_ Hle]. lia.
  - intros q gs g Hlt Hq Hg. destruct (page_exists _ _ _ _ _ Hrb Hsz Hq) as [Hex Hr].
    apply Z.lt_nge. intros Hle. by destruct (Hnone _ (conj Hr Hex)) as [[] _]; eapply Hstart.
Qed.
End pages.

(** ** The seek *)

Lemma sorted_page j (R : frame → frame → Prop) p fs :
  StronglySorted R (aj_frames j) → aj_pages j !! p = Some fs → StronglySorted R fs.
Proof.
  intros Hs Hp. rewrite (before_rest j p fs Hp) in Hs. apply sorted_app_r in Hs.
  unfold rest in Hs. rewrite Hp, drop_0 in Hs. cbn [default from_option id] in Hs.
  by apply StronglySorted_app in Hs as (_&?&_).
Qed.

Lemma sorted_last fs l :
  StronglySorted no_later fs → last fs = Some l → Forall (λ f, fr_gen f ≤ fr_gen l) fs.
Proof.
  intros Hs [ds ->]%last_Some. apply Forall_forall. intros f [Hf|Hf%list_elem_of_singleton]%elem_of_app.
  - apply (sorted_app_rel no_later ds [l]); [done|done|by left].
  - by subst.
Qed.

Section seek.
Context `{Env} `{!NoErrors} `{!EnvLaws} `{ILocator} `{!LocatorLaws} `{PriorityQueue}.

(** Of the pages behind the one the search found none is skipped; that one is
    if it ends before [t]. *)
Lemma skip_pages_run fuel w jn c j p fs t :
  readable w c j → timed w c j → 2 ^ 21 ≤ page_size_ c → cursor w jn c j p 0 → aj_pages j !! p = Some fs →
  (∀ q gs g, (p < q)%nat → aj_pages j !! q = Some gs → head gs = Some g → t < fr_gen g) →
  ∃ q w' jn', skip_pages (S (S fuel)) t (w, jn) = (Ret tt, (w', jn')) ∧
    readable w' c j ∧ cursor w' jn' c j q 0 ∧ (q = p ∨ q = S p ∧ Forall (λ f, fr_gen f < t) fs).
Proof.
  intros Hrb Htd Hsz Hcu Hp Hlater.
  assert (page_end fs + 64 ≤ page_size_ c ∨ t ≤ default 0 (fr_gen <$> last fs) ∨
    default 0 (fr_gen <$> last fs) < t ∧ fs ≠ [] ∧ is_Some (aj_pages j !! S p)) as [Hfit|[Hfit|(Hlt&Hne&[fs' Hp'])]].
  { destruct (page_room _ _ _ _ _ Hrb Hp) as [?|[? ?]]; [by left|right].
    destruct (Z.le_gt_cases t (default 0 (fr_gen <$> last fs))); [by left|right; by split_and!]. }
  1-2: exists p, w, jn; split_and!; try done; [eapply skip_pages_stay; [done..|by (left + right)]|by left].
  destruct (cursor_last _ _ _ _ _ _ _ Hrb Hsz Hcu Hp) as (pg&full&Hpg&Hfull&Hend&_).
  cbn [skip_pages]. erewrite bind_Ret by by apply jpage_run. erewrite bind_Ret by (apply jio_run; exact Hfull).
  destruct full; [|exists p, w, jn; split_and!; try done; by left].
  erewrite bind_Ret by (apply jio_run; exact Hend). rewrite (proj2 (Z.ltb_lt _ _)) by lia.
  destruct (loadNextPage_run _ _ _ _ _ _ _ Hrb Hcu Hp') as (w1&jn1&Hload&Hcu1&Hq&_).
  assert (readable w1 c j) as Hrb1 by (eapply readable_quiet; [|done..]; lia).
  erewrite bind_Ret by exact Hload. exists (S p), w1, jn1. split_and!; [|done..|right; split; [done|]].
  - eapply skip_pages_stay; [done..|].
    destruct (page_room _ _ _ _ _ Hrb Hp') as [?|[Hne' _]]; [by left|right].
    destruct fs' as [|h fs']; [done|]. pose proof (Hlater (S p) _ h ltac:(lia) Hp' eq_refl).
    destruct (last (h :: fs')) as [l|] eqn:Hl; [|by apply last_None in Hl]. cbn.
    pose proof (sorted_last _ _ (sorted_page _ _ _ _ (td_sorted _ _ _ Htd) Hp') Hl) as Hall.
    apply Forall_inv in Hall. lia.
  - destruct (last fs) as [l|] eqn:Hl; [|by apply last_None in Hl]. cbn in Hlt.
    eapply Forall_impl; [exact (sorted_last _ _ (sorted_page _ _ _ _ (td_sorted _ _ _ Htd) Hp) Hl)|].
    cbn. lia.
Qed.

(** What is before the page the seek goes to is not after [t], and before
    [t] if no two frames have the same time. *)
Lemma before_page j p fs f t :
  StronglySorted no_later (aj_frames j) → aj_pages j !! p = Some fs → head fs = Some f → fr_gen f ≤ t →
  Forall (λ f, fr_gen f ≤ t) (before j p) ∧
  (StronglySorted earlier (aj_frames j) → Forall (λ f, fr_gen f < t) (before j p)).
Proof.
  intros Hs Hp Hf Ht. assert (f ∈ rest j p 0) as Hin.
  { eapply elem_of_rest; [exact Hp|]. destruct fs; simplify_eq/=. by left. }
  rewrite (before_rest j p fs Hp) in *. split; [|intros He]; apply Forall_forall; intros g Hg.
  - pose proof (sorted_app_rel no_later _ _ _ _ Hs Hg Hin). unfold no_later in *. lia.
  - pose proof (sorted_app_rel earlier _ _ _ _ He Hg Hin). unfold earlier in *. lia.
Qed.

Lemma seek_time w c j o fuel t :
  readable w c j → timed w c j → in_u 32 (dest_id_ c) → 2 ^ 21 ≤ page_size_ c → 0 < t →
  (S (length (aj_frames j)) < fuel)%nat → jo_is_writing o = false →
  ∃ w' jn' p k skipped,
    seekToTime fuel t (w, Journal_ctor (location_ c) (dest_id_ c) o) = (Ret tt, (w', jn')) ∧
    readable w' c j ∧ cursor w' jn' c j p k ∧ pos_ok j p k ∧
    aj_frames j = skipped ++ rest j p k ∧ Forall (λ f, fr_gen f ≤ t) skipped ∧
    Forall (λ f, t ≤ fr_gen f) (rest j p k) ∧
    (StronglySorted earlier (aj_frames j) → Forall (λ f, fr_gen f < t) skipped).
Proof.
  intros Hrb Htd Hd Hsz Ht Hfuel Ho. destruct fuel as [|[|fuel]]; [lia..|].
  destruct (findPageId_time w c j t Hrb Htd Hd Hsz Ht) as (p&fs&w1&Hfind&Hs1&Hp&Hstart&Hlater).
  assert (quiet w w1 []) as Hq1.
  { destruct Hs1 as [Hb Hz Hf Hm _]. split; [done|intros; by rewrite Hz|done|intros; by rewrite Hm]. }
  pose proof (readable_quiet w w1 c j [] ltac:(lia) Hq1 Hrb) as Hrb1.
  destruct (loadPage_run w1 (Journal_ctor (location_ c) (dest_id_ c) o) c j p fs)
    as (w2&jn2&Hload&Hcu2&Hq2&_); [by apply ctor_loadable|done..|].
  pose proof (readable_quiet w1 w2 c j _ ltac:(lia) Hq2 Hrb1) as Hrb2.
  assert (timed w2 c j) as Htd2.
  { destruct Htd as [? ? Hh]. split; try done. intros id Hid. apply eq_None_not_Some.
    rewrite (qt_file _ _ _ Hq2), (qt_file _ _ _ Hq1), <-eq_None_not_Some. by apply Hh. }
  destruct (skip_pages_run fuel w2 jn2 c j p fs t) as (q&w3&jn3&Hskip&Hrb3&Hcu3&Hwhere); [done..|].
  destruct (cu_page _ _ _ _ _ _ Hcu3) as (_&_&gs&_&_&Hq&_).
  assert (pos_ok j q 0) as Hpos.
  { intros fs' Hfs'. destruct (wf_closed _ (rb_wf _ _ _ Hrb) _ _ Hfs') as (ds&f&->&_). rewrite length_app. cbn. lia. }
  pose proof (td_sorted _ _ _ Htd) as Hsort. pose proof (before_rest j q gs Hq) as Hall.
  destruct (skip_frames_run (S (S fuel)) t w3 jn3 c j q 0) as (w4&jn4&p'&k'&Hrun&Hrb4&Hcu4&Hpos4&Hrest&_);
    [done|lia|done|done| |].
  { apply (f_equal length) in Hall. rewrite length_app in Hall. lia. }
  rewrite Hall in Hsort. destruct (from_time_split t _ (sorted_app_r _ _ _ Hsort)) as (sk&Hsk&Hlt&Hge).
  rewrite <-Hall in Hsort. rewrite <-Hrest in Hsk, Hge.
  assert (Forall (λ f, fr_gen f ≤ t) (before j q) ∧
    (StronglySorted earlier (aj_frames j) → Forall (λ f, fr_gen f < t) (before j q))) as [Hle Hbelow].
  { assert (Forall (λ f, fr_gen f ≤ t) (before j p) ∧
      (StronglySorted earlier (aj_frames j) → Forall (λ f, fr_gen f < t) (before j p))) as [Hle Hlt'].
    { destruct Hstart as [->|(f&Hf&Hfl)]; [by split|by eapply before_page]. }
    destruct Hwhere as [->|[-> Hfs]]; [by split|]. rewrite (before_step _ _ _ Hp). split; [|intros He];
      apply Forall_app; (split; [by auto|]); [eapply Forall_impl; [exact Hfs|]; cbn; lia|done]. }
  exists w4, jn4, p', k', (before j q ++ sk). unfold seekToTime. jstep.
  erewrite bind_Ret by (apply jio_run; exact Hfind). erewrite bind_Ret by exact Hload.
  erewrite bind_Ret by exact Hskip. split_and!; try done.
  - by rewrite <-app_assoc, <-Hsk.
  - apply Forall_app. split; [done|]. eapply Forall_impl; [exact Hlt|]. cbn. lia.
  - intros He. apply Forall_app. split; [by apply Hbelow|done].
Qed.
End seek.

