(* ===== verification/Extend.v ===== *)
(** * Extend: readers while the journal grows

    A reader's position stays meaningful when the writer goes on: the frames
    it has still to read are those it had, and the new ones.  Conversely a
    reader's operations leave a writer's state what it was. *)

From S2P Require Import Prelude Memory Frame Base Mmap Page Warmer Writer WriterState.
From S2P Require Import WriterSpec Journal Reader JournalSpec ReaderSpec.

(** ** Growth of the abstract journal *)

Record extends (j j' : ajournal) (new : list frame) : Prop := {
  ex_first : aj_first j' = aj_first j;
  ex_frames : aj_frames j' = aj_frames j ++ new;
  ex_pos p k fs : aj_pages j !! p = Some fs → (k ≤ length fs)%nat → pos_ok j p k →
    ∃ ext, aj_pages j' !! p = Some (fs ++ ext) ∧ pos_ok j' p k ∧ rest j' p k = rest j p k ++ new
}.

Lemma extends_refl j : extends j j [].
Proof.
  split; [done|by rewrite app_nil_r|]. intros p k fs Hp Hk Hpos. exists []. by rewrite !app_nil_r.
Qed.

Lemma extends_trans j1 j2 j3 n1 n2 : extends j1 j2 n1 → extends j2 j3 n2 → extends j1 j3 (n1 ++ n2).
Proof.
  intros [F1 A1 P1] [F2 A2 P2]. split; [congruence|by rewrite A2, A1, app_assoc|].
  intros p k fs Hp Hk Hpos. destruct (P1 p k fs Hp Hk Hpos) as (e1&Hp1&Hpos1&Hr1).
  destruct (P2 p k (fs ++ e1) Hp1) as (e2&Hp2&Hpos2&Hr2); [rewrite length_app; lia|done|].
  exists (e1 ++ e2). rewrite app_assoc. split_and!; [done..|]. by rewrite Hr2, Hr1, app_assoc.
Qed.

(** Frames behind the current page's, then whole pages. *)
Lemma rest_grow j j' closed cur ext more p k fs :
  aj_pages j = closed ++ [cur] → aj_pages j' = closed ++ (cur ++ ext) :: more →
  aj_pages j !! p = Some fs → (k ≤ length fs)%nat →
  ∃ e, aj_pages j' !! p = Some (fs ++ e) ∧ rest j' p k = rest j p k ++ ext ++ concat more.
Proof.
  intros Hj Hj' Hp Hk. unfold rest. rewrite Hj, Hj' in *. rewrite Hp.
  apply lookup_app_Some in Hp as [Hp|[Hlen Hp]].
  - pose proof (lookup_lt_Some _ _ _ Hp). exists []. rewrite app_nil_r, lookup_app_l by done.
    split; [done|]. rewrite Hp. simpl.
    rewrite !drop_app_le, !concat_app by lia. simpl. by rewrite app_nil_r, !app_assoc.
  - apply list_lookup_singleton_Some in Hp as [Hp ->].
    assert (p = length closed) as -> by lia. exists ext. rewrite list_lookup_middle by done.
    split; [done|]. simpl. rewrite drop_app_le by done.
    rewrite (drop_ge (closed ++ [fs])) by (rewrite length_app; simpl; lia). simpl.
    rewrite cons_middle, app_assoc, drop_app_length' by (rewrite length_app; simpl; lia).
    by rewrite app_nil_r, app_assoc.
Qed.

Lemma extends_append ts ty flags payload j :
  extends j (a_append ts ty flags payload j) [Frame ty flags (aj_seq j) ts 0 payload].
Proof.
  set (f := Frame _ _ _ _ _ _). split; [done|by unfold aj_frames; simpl; rewrite app_assoc|].
  intros p k fs Hp Hk Hpos.
  destruct (rest_grow j (a_append ts ty flags payload j) (aj_closed j) (aj_cur j) [f] [] p k fs)
    as (e&He&Hr); [done..|]. by exists e.
Qed.

Lemma extends_rotate now j : extends j (a_rotate now j) [PageEnd_frame now (aj_seq j)].
Proof.
  set (f := PageEnd_frame _ _). split; [done| |].
  { unfold aj_frames. simpl. rewrite concat_app. simpl. by rewrite !app_nil_r, app_assoc. }
  intros p k fs Hp Hk Hpos.
  destruct (rest_grow j (a_rotate now j) (aj_closed j) (aj_cur j) [f] [[]] p k fs)
    as (e&He&Hr); [done| |done..|].
  { unfold aj_pages. simpl. by rewrite <-app_assoc. }
  exists e. split_and!; [done| |by rewrite Hr]. intros fs' Hfs'. simpl in Hfs'.
  apply lookup_app_Some in Hfs' as [Hfs'|[Hlen Hfs']]; [by apply Hpos|].
  apply list_lookup_singleton_Some in Hfs' as [Hp0 <-]. rewrite length_app. simpl.
  unfold aj_pages in Hp. rewrite lookup_app_r in Hp by done.
  apply list_lookup_singleton_Some in Hp as [_ <-]. lia.
Qed.

Lemma extends_room size stride now j :
  ∃ new, extends j (a_room size stride now j) new ∧ Forall (λ f, is_PageEnd f = true) new.
Proof.
  unfold a_room. case_match; [exists []; split; [apply extends_refl|by constructor]|].
  exists [PageEnd_frame now (aj_seq j)]. split; [apply extends_rotate|by repeat constructor].
Qed.

Section carry.
Context `{Env} `{!EnvLaws} `{ILocator} `{!LocatorLaws}.

(** ** A reader across the writer's steps *)

(** The reader's mappings are where they were. *)
Definition maps_kept (w w' : world) (ps : list Page) : Prop :=
  ∀ p m, p ∈ ps → w_maps w !! base_of p = Some m → w_maps w' !! base_of p = Some m.

Lemma maps_kept_live w w' ps : maps_kept w w' ps → pages_live w ps → pages_live w' ps.
Proof.
  intros Hk [Hnd Hall]. split; [done|]. apply Forall_forall. intros p Hp.
  eapply (proj1 (Forall_forall _ _)) in Hall as (?&?&[m Hm]); [|done].
  split_and!; [done..|]. exists m. by apply Hk.
Qed.

Lemma frame_off_app fs ext k : (k ≤ length fs)%nat → frame_off (fs ++ ext) k = frame_off fs k.
Proof. intros. unfold frame_off. by rewrite take_app_le. Qed.

Lemma cursor_extends w w' jn c j j' p k new :
  cursor w jn c j p k → pos_ok j p k → extends j j' new → readable w' c j' →
  maps_kept w w' (jall jn) → cursor w' jn c j' p k.
Proof.
  intros [Hloc Hdst Hro Hjs Hwd Hlive (pg&wr&fs&Hpg&Hid&Hp&Hk&(Hm&_&Hsz)&Hf)] Hpos Hex Hrb Hkept.
  split; try done; [|by eapply maps_kept_live|].
  { intros a Ha. refine (Hkept (MkPage _ _ _ _ _ a _) _ _ (Hwd a Ha)). unfold jall, jwarmed. rewrite Ha.
    apply elem_of_app. right. by left. }
  destruct (ex_pos _ _ _ Hex p k fs Hp Hk Hpos) as (ext&Hp'&_&_).
  destruct (readable_page _ _ _ _ _ Hrb Hp') as (_&Hlong&_&_).
  pose proof (ex_first _ _ _ Hex) as Hfirst.
  exists pg, wr, (fs ++ ext). rewrite Hfirst in *. split_and!; try done.
  - rewrite length_app. lia.
  - split; [|done]. apply Hkept; [|done]. unfold jall, jheld. rewrite Hpg. by left.
  - by rewrite frame_off_app.
Qed.

Lemma reads_extends w w' rd c j j' p k jn new :
  reads w rd c j p k jn → extends j j' new → readable w' c j' → maps_kept w w' (jall jn) →
  reads w' rd c j' p k jn ∧ rest j' p k = rest j p k ++ new.
Proof.
  intros [Hjs Hs Hcu Hpos] Hex Hrb Hkept.
  destruct (cu_page _ _ _ _ _ _ Hcu) as (pg&wr&fs&_&_&Hp&Hk&_).
  destruct (ex_pos _ _ _ Hex p k fs Hp Hk Hpos) as (ext&_&Hpos'&Hrest).
  split; [|done]. split; try done. by eapply cursor_extends.
Qed.

(** ** A writer across a reader's steps *)

Lemma quiet_agree w w' own pa off n : quiet w w' own → agree w w' pa off n.
Proof. intros Hq i _. apply Hq. Qed.

Lemma quiet_fle w w' own pa off n : quiet w w' own → fle w' pa off n = fle w pa off n.
Proof. intros Hq. eapply fle_agree, quiet_agree, Hq. Qed.

Lemma around_quiet w w' own c j :
  64 ≤ page_size_ c → quiet w w' own → pages_around w c j → pages_around w' c j.
Proof.
  intros Hsz Hq [Hr Hc Hl Ha Hs Hn Hlow]. split; try done.
  - intros k fs Hk. eapply page_state_agree; [done|by eapply quiet_agree|by apply Hc].
  - intros k Hk. etrans; [by apply Hl|apply (qt_size _ _ _ Hq)].
  - intros id Hid. eapply page_ahead_same; [done|apply (qt_bytes _ _ _ Hq)| |apply (qt_size _ _ _ Hq)|by apply Ha].
    by rewrite (qt_file _ _ _ Hq).
  - intros n Hf%(qt_file _ _ _ Hq). by apply Hn.
  - intros id Hid. rewrite eq_None_not_Some, (qt_file _ _ _ Hq), <-eq_None_not_Some. by apply Hlow.
Qed.

Lemma quiet_kept w w' own ps :
  quiet w w' own → (∀ p, p ∈ ps → base_of p ∉ base_of <$> own) → maps_kept w w' ps.
Proof. intros Hq Hne p m Hp Hm. apply (qt_maps _ _ _ Hq); auto. Qed.

Lemma members_quiet w w' own r j :
  quiet w w' own → maps_kept w w' (held r ++ warmed r) → members w r j → members w' r j.
Proof.
  intros Hq Hk Hmb. pose proof (members_size _ _ _ Hmb).
  destruct Hmb as [? ? ? Hwm ? Hlive (page&Hpage&(Hm&Hs&?)&?)]. split; try done.
  - intros m Hm'. eapply warm_ok_carry; [lia|reflexivity| |apply (qt_size _ _ _ Hq)| |by apply Hwm];
      [by intros; eapply header_ok_agree; [eapply quiet_agree|]|].
    intros q mp Hin. apply Hk. apply elem_of_app. right. unfold warmed. by rewrite Hm'.
  - by eapply maps_kept_live.
  - exists page. split_and!; try done. split_and!; [|etrans; [done|apply (qt_size _ _ _ Hq)]|done].
    apply Hk; [|done]. apply elem_of_app. left. unfold held. rewrite Hpage. by left.
Qed.

Lemma rep_quiet w w' own r j :
  quiet w w' own → maps_kept w w' (held r ++ warmed r) → rep w r j → rep w' r j.
Proof.
  intros Hq Hk [Hmb [Har Hcur Hb] Hseq]. pose proof (members_size _ _ _ Hmb).
  split; [by eapply members_quiet| |done]. split; [|  |done].
  - eapply around_quiet; [lia|done..].
  - eapply page_state_agree; [lia|by eapply quiet_agree|done].
Qed.

Lemma rep_open_quiet w w' own r j ts ty flags n :
  quiet w w' own → maps_kept w w' (held r ++ warmed r) → rep_open w r j ts ty flags n →
  rep_open w' r j ts ty flags n.
Proof.
  intros Hq Hk [Hmb [Har Hh Hl ? ? ? ? ? ? ? Htl ? ?] Hseq]. pose proof (members_size _ _ _ Hmb).
  split; [by eapply members_quiet| |done]. split; rewrite ?(quiet_fle _ _ _ _ _ _ Hq); try done.
  - eapply around_quiet; [lia|done..].
  - eapply header_ok_agree; [by eapply quiet_agree|done].
  - eapply laid_agree; [by eapply quiet_agree|done].
  - intros i Hi. rewrite (qt_bytes _ _ _ Hq). by apply Htl.
Qed.

Lemma slot_payload_quiet w w' own r j n : quiet w w' own → slot_payload w' r j n = slot_payload w r j n.
Proof. intros Hq. unfold slot_payload. eapply fbytes_agree, quiet_agree, Hq. Qed.
End carry.
