(* ===== verification/Resume.v ===== *)
(** * Resume: starting a writer

    The constructor of [JournalWriter]: on an empty directory it starts page 1
    at sequence 0; on an existing journal it looks for the last written page,
    scans it for the last sequence number and continues on the page behind. *)

From S2P Require Import Prelude Memory Frame Base Mmap Page Warmer Writer WriterState.
From S2P Require Import WriterSpec.

Section resume.
Context `{Env} `{!NoErrors} `{!EnvLaws} `{ILocator} `{!LocatorLaws}.

(** ** Opening a page to look at it *)

Lemma visit_run w location dest_id id prefault pos :
  let pa := page_path location dest_id id in
  let size := findPageSize location dest_id in
  header_ok w pa size pos → size ≤ file_size w pa →
  ∃ w1 w2 b,
    let page := MkPage location dest_id id prefault size (Ptr b 0) true in
    Page_load location dest_id id false prefault w = (Ret page, w1) ∧
    mapped w1 b pa size prefault ∧ (∀ pa' i, fbyte w1 pa' i = fbyte w pa' i) ∧
    Page_release page w1 = (Ret tt, w2) ∧ same_store w w2.
Proof.
  intros pa size Hh Hlong. pose proof (findPageSize_bounds location dest_id) as [Hsz _].
  destruct (Page_load_existing w location dest_id id false prefault pos)
    as (w1&b&Hload&Hop&Hb); [done..|]. fold pa size in Hload, Hop, Hsz.
  set (page := MkPage _ _ _ _ _ _ _) in Hload.
  destruct (Page_release_run w1 page b) as (w2&Hrel&Hf&Hd&Ht&Hm); [done..|].
  exists w1, w2, b. split_and!; [done|apply (op_mapped _ _ _ _ _ _ Hop)|done|done|].
  destruct Hop as [_ _ Hfresh Hfile Hsize Hso Hmaps _ Hticks]. split.
  - intros pa' i. rewrite <-Hb. by apply fbyte_files.
  - intros pa'. rewrite (file_size_files w1 w2) by done.
    destruct (decide (pa' = pa)) as [->|]; [|by apply Hso]. rewrite Hsize. case_match; lia.
  - intros pa'. rewrite Hf, Hfile. split; [|auto]. intros [->|?]; [|done].
    apply file_size_pos. lia.
  - by rewrite Hm, Hmaps, delete_insert_id.
  - by rewrite Ht, Hticks.
Qed.

(** ** The last sequence number of a page *)

(** Sequence numbers grow, and [PageEnd] can only be last. *)
Fixpoint scannable (prev : option Z) (fs : list frame) : Prop :=
  match fs with
  | [] => True
  | f :: fs =>
      (match prev with Some s => s < fr_seq f | None => True end) ∧
      (fr_type f = MsgType.PageEnd → fs = []) ∧ scannable (Some (fr_seq f)) fs
  end.

Lemma scan_run fuel w b pa n wr o fs e prev :
  mapped w b pa n wr → laid w pa o fs e → 64 ≤ o → e ≤ n → n ≤ 2 ^ 27 →
  (∀ i, e ≤ i < n → fbyte w pa i = 0) → scannable prev fs → (length fs < fuel)%nat →
  findLastSequence_loop fuel n (Ptr b o) (Ptr b n) prev w =
    (Ret (match last fs with Some f => Some (fr_seq f) | None => prev end), w).
Proof.
  revert o fs prev; induction fuel as [|fuel IH]; intros o fs prev Hm Hl Ho He Hn Hb Hs Hf; [lia|].
  cbn [findLastSequence_loop]. unfold addr, sizeof_FrameHeader; cbn [p_base p_off].
  destruct fs as [|f fs].
  - simpl in Hl. subst o. destruct (Z.leb_spec (b + e + 32) (b + n)); [|done]. unfold_offsets.
    mstep. rewrite fle_zero; [done|lia|]. intros i Hi. apply Hb. lia.
  - destruct Hl as (Hat&Hwf&Hl). pose proof (laid_le _ _ _ _ _ Hl) as Hle.
    pose proof (frame_wf_stride _ Hwf) as (Hlen&Hstr&_).
    destruct Hat as (Hat1&Hat2&_&Hat4&_). unfold_offsets. rewrite Z.add_0_r in Hat1.
    rewrite (proj2 (Z.leb_le _ _)) by lia. mstep. rewrite Hat1.
    rewrite (proj2 (Z.eqb_neq _ 0)), (proj2 (Z.ltb_ge _ _)), (proj2 (Z.ltb_ge n _)) by lia. cbn [orb].
    fold (frame_stride f). rewrite (proj2 (Z.ltb_ge (b + n) _)) by lia. mstep. rewrite Hat4.
    destruct Hs as (Hprev&Hend&Hs).
    assert (match prev with
            | Some last_seq => if last_seq <? fr_seq f then ret tt else crash AssertionFailed
            | None => ret tt
            end = ret tt :> M world unit) as Has.
    { destruct prev; [|done]. by rewrite (proj2 (Z.ltb_lt _ _)). }
    rewrite Has. mstep. mstep. rewrite Hat2.
    destruct (Z.eqb_spec (fr_type f) MsgType.PageEnd) as [Hpe|Hpe].
    + by rewrite (Hend Hpe).
    + unfold ptr_add; cbn [p_base p_off]. rewrite (IH _ fs); [|done|done|lia|done|done|done|done|simpl in *; lia].
      destruct fs as [|g fs']; [done|]. rewrite last_cons_cons.
      destruct (last (g :: fs')) eqn:E; [done|]. by apply last_None in E.
Qed.

Lemma scan_fuel_enough fs n : frames_span fs ≤ n → Forall frame_wf fs → (length fs < scan_fuel n)%nat.
Proof.
  intros Hs Hwf. unfold scan_fuel.
  assert (64 * Z.of_nat (length fs) ≤ frames_span fs) as Hlen.
  { clear Hs. induction Hwf as [|f fs Hf _ IH]; simpl; [lia|].
    apply frame_wf_stride in Hf. lia. }
  pose proof (Z.div_mod n 32 ltac:(lia)). pose proof (Z.mod_pos_bound n 32 ltac:(lia)). lia.
Qed.

(** What the writer knows of the journal's files when it starts. *)
Definition cfg_ok (c : writer_config) : Prop :=
  page_size_ c = findPageSize (location_ c) (dest_id_ c) ∧ in_u 32 (dest_id_ c).

Lemma findLastSequenceNumber_run w c id fs :
  cfg_ok c → 0 ≤ id → page_state w (page_file c id) (page_size_ c) fs →
  page_size_ c ≤ file_size w (page_file c id) → scannable None fs →
  ∃ w', findLastSequenceNumber c id w = (Ret (default 0 (fr_seq <$> last fs)), w') ∧ same_store w w'.
Proof.
  intros [Hsize Hd] Hid Hps Hlong Hscan. pose proof (findPageSize_bounds (location_ c) (dest_id_ c)) as [Hsz _].
  destruct (visit_run w (location_ c) (dest_id_ c) id (prefault_ c) (last_pos fs))
    as (w1&w2&b&Hload&Hm&Hb&Hrel&Hsame).
  { rewrite <-Hsize. apply Hps. }
  { by rewrite <-Hsize. }
  change (page_path (location_ c) (dest_id_ c) id) with (page_file c id) in Hm. rewrite <-Hsize in *.
  set (page := MkPage _ _ _ _ _ _ _) in *. exists w2. split; [|done].
  unfold findLastSequenceNumber. rewrite (proj2 (Z.ltb_ge id 0)) by done. apply try_catch_Ret.
  erewrite bind_Ret by exact Hload.
  assert (page_state w1 (page_file c id) (page_size_ c) fs) as Hps1.
  { eapply page_state_agree; [lia| |done]. intros i _. apply Hb. }
  pose proof Hps1 as [Hh1 Hl1 Hb1 Hf1].
  erewrite bind_Ret by (eapply firstFrameAddress_run; [done|exact Hm|lia|exact Hh1]).
  unfold page_address, ptr_add; cbn [pg_header page p_base p_off]. rewrite Z.add_0_l.
  erewrite bind_Ret by (eapply scan_run; try done; [lia|]; apply scan_fuel_enough;
    [unfold page_end, sizeof_PageHeader in Hf1; lia|by eapply laid_wf]).
  erewrite bind_Ret by exact Hrel. by destruct (last fs).
Qed.

(** What the search sees of one page: where its last frame is. *)
Lemma findLastWrittenPage_look fuel w c id fs :
  cfg_ok c → 0 < id → page_state w (page_file c id) (page_size_ c) fs →
  page_size_ c ≤ file_size w (page_file c id) →
  ∃ w', findLastWrittenPage_loop (S fuel) c id w =
    (if sizeof_PageHeader <? last_pos fs then ret id else findLastWrittenPage_loop fuel c (id - 1)) w' ∧
    same_store w w'.
Proof.
  intros [Hsize Hd] Hid Hps Hlong. pose proof (findPageSize_bounds (location_ c) (dest_id_ c)) as [Hsz _].
  destruct (visit_run w (location_ c) (dest_id_ c) id (prefault_ c) (last_pos fs))
    as (w1&w2&b&Hload&Hm&Hb&Hrel&Hsame).
  { rewrite <-Hsize. apply Hps. }
  { by rewrite <-Hsize. }
  rewrite <-Hsize in *. set (page := MkPage _ _ _ _ _ _ _) in *. exists w2. split; [|done].
  cbn [findLastWrittenPage_loop]. rewrite (proj2 (Z.ltb_lt 0 id)) by done.
  erewrite bind_Ret; [|apply try_catch_Ret; erewrite bind_Ret by exact Hload;
    erewrite bind_Ret by (eapply load_run; [exact Hm|cbn; unfold off_last_frame_position; lia..]);
    erewrite bind_Ret by exact Hrel; done].
  cbn [p_off pg_header page ptr_add]. rewrite Z.add_0_l.
  assert (fle w1 (page_path (location_ c) (dest_id_ c) id) off_last_frame_position 8 = last_pos fs) as ->; [|done].
  rewrite (fle_agree w w1) by by intros ??. apply (hd_pos _ _ _ _ (ps_header _ _ _ _ Hps)).
Qed.

(** A page is written when its last frame is not its first. *)
Lemma findLastWrittenPage_hit fuel w c id fs :
  cfg_ok c → 0 < id → page_state w (page_file c id) (page_size_ c) fs →
  page_size_ c ≤ file_size w (page_file c id) → sizeof_PageHeader < last_pos fs →
  ∃ w', findLastWrittenPage_loop (S fuel) c id w = (Ret id, w') ∧ same_store w w'.
Proof.
  intros Hc Hid Hps Hlong Hlast. destruct (findLastWrittenPage_look fuel w c id fs) as (w'&->&Hs); [done..|].
  exists w'. by rewrite (proj2 (Z.ltb_lt _ _)).
Qed.

(** Empty pages are passed over. *)
Lemma findLastWrittenPage_skip n fuel w c id :
  cfg_ok c → 0 < id →
  (∀ i, id < i ≤ id + Z.of_nat n → page_state w (page_file c i) (page_size_ c) [] ∧
    page_size_ c ≤ file_size w (page_file c i)) →
  ∃ w', findLastWrittenPage_loop (n + fuel) c (id + Z.of_nat n) w = findLastWrittenPage_loop fuel c id w' ∧
    same_store w w'.
Proof.
  intros Hc Hid. pose proof Hc as [Hsize _]. pose proof (findPageSize_bounds (location_ c) (dest_id_ c)) as [Hsz _].
  revert w; induction n as [|n IH]; intros w Hps.
  { exists w. by rewrite Z.add_0_r. }
  destruct (Hps (id + Z.of_nat (S n)) ltac:(lia)) as [Hp Hl].
  destruct (findLastWrittenPage_look (n + fuel) w c (id + Z.of_nat (S n)) []) as (w1&Hrun&Hs1); [done|lia|done..|].
  change (sizeof_PageHeader <? last_pos []) with false in Hrun. cbv iota in Hrun.
  destruct (IH w1) as (w2&Hrun2&Hs2).
  { intros i Hi. destruct (Hps i ltac:(lia)) as [Hpi Hli]. rewrite (ss_size _ _ Hs1). split; [|done].
    eapply page_state_agree; [lia| |exact Hpi]. intros k _. apply (ss_bytes _ _ Hs1). }
  exists w2. split; [|by etrans]. cbn [plus]. rewrite Hrun, <-Hrun2. f_equal. lia.
Qed.

(** ** The first page of a writer *)

Lemma loadInitialPage_ahead w r j :
  cfg_ok (wr_cfg r) → current_page_ r = None → page_warmer_ r = None →
  retired_pages_ r = [] → retire_queue_ r = [] →
  current_page_id_ r + 1 = aj_page j → aj_cur j = [] → aj_seq j = current_sequence_ r →
  pages_around w (wr_cfg r) j → page_ahead w (cur_file (wr_cfg r) j) (page_size_ (wr_cfg r)) →
  ∃ w' r', loadInitialPage (w, r) = (Ret tt, (w', r')) ∧ rep w' r' j ∧ kept r r'.
Proof.
  intros [Hsize Hd] Hcp Hwm Hret Hqu Hid Hcur Hseq Har Hah. set (c := wr_cfg r) in *.
  pose proof (findPageSize_bounds (location_ c) (dest_id_ c)) as [Hsz _]. rewrite <-Hsize in Hsz.
  pose proof (pa_range _ _ _ Har) as [Hr1 Hr2].
  assert (0 ≤ aj_page j) by (unfold aj_page; lia).
  unfold loadInitialPage. wstep. rewrite Hid, swrap_small by (unfold in_s; simpl; lia). wstep. fold c.
  destruct (Page_load_ahead w (location_ c) (dest_id_ c) (aj_page j) (prefault_ c))
    as (w1&b&Hload&Hop&Hps); [by rewrite <-Hsize|].
  change (page_path (location_ c) (dest_id_ c) (aj_page j)) with (cur_file c j) in *.
  rewrite <-Hsize in *. set (new := MkPage _ _ _ _ _ _ _) in Hload.
  erewrite bind_Ret by by apply io_run. wstep.
  pose proof (op_mapped _ _ _ _ _ _ Hop) as Hm. pose proof (op_touches _ _ _ _ _ _ Hop) as Ht.
  erewrite bind_Ret by (apply io_run; eapply firstFrameAddress_run; [done|exact Hm|lia|apply Hps]).
  eexists w1, _. split; [done|]. split; [split|by split].
  - split; try done.
    + simpl. intros m Hm'. by rewrite Hwm in Hm'.
    + unfold held, warmed; simpl; rewrite Hret, Hqu, Hwm; simpl. eapply (opened_pages_live w); [|done..].
      split; [apply NoDup_nil_2|by constructor].
    + exists new. rewrite Hcur. done.
  - split; simpl; fold c; rewrite ?Hcur.
    + by eapply pages_around_touches; [..|lia| |].
    + exact Hps.
    + unfold page_end, FRAME_ALIGNMENT, sizeof_PageHeader. simpl. lia.
  - done.
Qed.
End resume.

(** ** Numbering *)

(** Frames numbered one by one from [s]. *)
Definition numbered (s : Z) (fs : list frame) : Prop :=
  ∀ k f, fs !! k = Some f → fr_seq f = s + Z.of_nat k.

(** The journal's frames carry consecutive numbers, the next one is [aj_seq]. *)
Definition seq_ok (s : Z) (j : ajournal) : Prop :=
  numbered s (aj_frames j) ∧ aj_seq j = s + Z.of_nat (length (aj_frames j)).

Lemma numbered_app s fs1 fs2 :
  numbered s (fs1 ++ fs2) ↔ numbered s fs1 ∧ numbered (s + Z.of_nat (length fs1)) fs2.
Proof.
  split.
  - intros Hn. split.
    + intros k f Hk. apply Hn. by apply lookup_app_l_Some.
    + intros k f Hk. rewrite (Hn (length fs1 + k)%nat f); [lia|]. by rewrite lookup_app_r, Nat.add_comm, Nat.add_sub by lia.
  - intros [H1 H2] k f [Hk|[Hlen Hk]]%lookup_app_Some; [by apply H1|]. rewrite (H2 _ _ Hk). lia.
Qed.

Lemma numbered_scannable s prev fs :
  numbered s fs → Forall (λ f, is_PageEnd f = false) fs →
  (∀ s', prev = Some s' → s' < s) → scannable prev fs.
Proof.
  intros Hn Hall. revert s prev Hn; induction Hall as [|f fs Hf Hall IH]; intros s prev Hn Hprev; [done|].
  pose proof (Hn 0%nat f eq_refl) as Hs. simpl. split_and!.
  - destruct prev as [s'|]; [|done]. specialize (Hprev s' eq_refl). lia.
  - intros Hpe. unfold is_PageEnd in Hf. by rewrite Hpe in Hf.
  - apply (IH (s + 1)).
    + intros k g Hk. rewrite (Hn (S k) g Hk). lia.
    + intros s' [= <-]. lia.
Qed.

Lemma Forall_removelast {A} (P : A → Prop) l : Forall P l → Forall P (removelast l).
Proof. induction 1 as [|x l Hx Hl IH]; simpl; [done|]. by destruct l; constructor. Qed.

Lemma last_sorted (l : list Z) m :
  StronglySorted Z.le l → m ∈ l → (∀ x, x ∈ l → x ≤ m) → last l = Some m.
Proof.
  intros Hs Hm Hall. destruct (last l) as [x|] eqn:Hx.
  2:{ apply last_None in Hx as ->. by apply elem_of_nil in Hm. }
  f_equal. apply last_Some in Hx as [l' ->].
  assert (m ≤ x); [|pose proof (Hall x ltac:(set_solver)); lia].
  apply elem_of_app in Hm as [Hm|Hm%list_elem_of_singleton]; [|lia].
  clear Hall. induction l' as [|y l' IH]; [by apply elem_of_nil in Hm|].
  apply StronglySorted_inv in Hs as [Hs Hy]. apply elem_of_cons in Hm as [->|Hm]; [|by apply IH].
  eapply (proj1 (Forall_forall _ _)) in Hy; [exact Hy|set_solver].
Qed.

Section ctor.
Context `{Env} `{!NoErrors} `{!EnvLaws} `{ILocator} `{!LocatorLaws}.

Lemma same_store_agree w w' pa off n : same_store w w' → agree w w' pa off n.
Proof. intros [Hb _ _ _ _] i _. apply Hb. Qed.

Lemma pages_around_same w w' c j :
  64 ≤ page_size_ c → same_store w w' → pages_around w c j → pages_around w' c j.
Proof.
  intros Hsz Hs [Hr Hc Hl Ha Hsq Hn Hlow]. split; try done.
  - intros k fs Hk. eapply page_state_agree; [done|by apply same_store_agree|by apply Hc].
  - intros k Hk. rewrite (ss_size _ _ Hs). by apply Hl.
  - intros id Hid. eapply page_ahead_same; [done|apply (ss_bytes _ _ Hs)|by rewrite (ss_file _ _ Hs)| |by apply Ha].
    by rewrite (ss_size _ _ Hs).
  - intros n Hf%(ss_file _ _ Hs). by apply Hn.
  - intros id Hid. rewrite eq_None_not_Some, (ss_file _ _ Hs), <-eq_None_not_Some. by apply Hlow.
Qed.

(** The configuration the constructor gives its writer. *)
Definition ctor_cfg (ser : bool) (location : Location) (dest_id : Z) (o : JournalWriterOptions)
    : writer_config := wr_cfg (initial_writer ser location dest_id o).

Lemma findLastWrittenPage_none w c :
  in_u 32 (dest_id_ c) → only_pages w (layoutDir (location_ c) JOURNAL) →
  (∀ id, 0 ≤ id < 2 ^ 31 → w_files w !! page_file c id = None) →
  ∃ w', findLastWrittenPage c w = (Ret 0, w') ∧ same_store w w'.
Proof.
  intros Hd Honly Hnone. unfold findLastWrittenPage.
  destruct (listPageId_run w (location_ c) (dest_id_ c)) as (ids&Hrun&_&_&Hids); [done..|].
  erewrite bind_Ret by exact Hrun. destruct ids as [|id ids].
  - eexists; split; [done|]. apply same_store_dirs.
  - assert (id ∈ id :: ids) as [Hr [f Hf]]%Hids by by left.
    change (layoutDir _ _, _) with (page_file c id) in Hf. by rewrite Hnone in Hf.
Qed.

(** The page warmer a new writer starts with, on page [p]. *)
Definition first_warmer (c : writer_config) (distance p : Z) : warmer :=
  updateCurrentPage p (start (PageWarmer_ctor (location_ c) (dest_id_ c) (page_size_ c) true distance)).
Definition warmer_of (c : writer_config) (o : JournalWriterOptions) (p : Z) : option warmer :=
  if 0 <? opt_warmup_pages o then Some (first_warmer c (opt_warmup_pages o) p) else None.

Lemma first_warmer_ok w c d p : warm_ok w c p (first_warmer c d p).
Proof. split; try done. apply Forall_replicate. left. split; [done|]. cbn. lia. Qed.

Lemma rep_start_warmer w r j o :
  rep w r j → page_warmer_ r = None → rep w (set_warmer (warmer_of (wr_cfg r) o (aj_page j)) r) j.
Proof.
  intros Hrep Hn. apply rep_set_warmer; [| |done].
  - intros m. unfold warmer_of. case_match; [|done]. intros [= <-]. apply first_warmer_ok.
  - pose proof (mb_live _ _ _ (rep_members _ _ _ Hrep)) as Hlive. unfold warmed in Hlive. rewrite Hn in Hlive.
    unfold warmer_of. by case_match.
Qed.

(** What the constructor promises of its members. *)
Record new_writer (r : writer) (c : writer_config) (o : JournalWriterOptions) (p : Z) : Prop := {
  st_cfg : wr_cfg r = c;
  st_writing : writing_ r = false;
  st_open : open_frame_header_ r = None;
  st_warmer : page_warmer_ r = warmer_of c o p
}.

(** The rest of the constructor, behind [loadInitialPage]. *)
Lemma ctor_tail w r c (o : JournalWriterOptions) j :
  rep w r j → wr_cfg r = c → opt_warmup_pages o ≤ kWriterPageWarmerRingSize →
  writing_ r = false → open_frame_header_ r = None → page_warmer_ r = None →
  ∃ r', (do! when (0 <? opt_warmup_pages o)
    (do! throw_if (kWriterPageWarmerRingSize <? opt_warmup_pages o) InvalidArgument in
     let! r := this in
     update (set_warmer (Some (updateCurrentPage (current_page_id_ r)
       (start (PageWarmer_ctor (location_ c) (dest_id_ c) (page_size_ c) true
                 (opt_warmup_pages o))))))) in
    when (background_threads_ c) (update (set_retire_running true))) (w, r) = (Ret tt, (w, r')) ∧
    rep w r' j ∧ new_writer r' c o (aj_page j).
Proof.
  intros Hrep <- Ho Hw Hop Hn. pose proof (rep_start_warmer w r j o Hrep Hn) as Hrep'.
  erewrite (bind_Ret (when _ _) _ _ _ (w, set_warmer (warmer_of (wr_cfg r) o (aj_page j)) r)).
  2:{ unfold warmer_of. destruct (0 <? opt_warmup_pages o) eqn:Hd; cbn [when].
      - rewrite bind_guard by by apply Z.ltb_ge. wstep. by rewrite (mb_id _ _ _ (rep_members _ _ _ Hrep)).
      - destruct r. simpl in Hn. by subst. }
  destruct (background_threads_ (wr_cfg r)).
  - eexists; split; [done|]. split; [|by split]. destruct Hrep' as [[]]. by split; [split|..].
  - eexists; split; [done|]. by split.
Qed.

(** The files ahead of the journal: pages the warmer prepared, up to [top]. *)
Record ahead_until (w : world) (c : writer_config) (j : ajournal) (top : Z) : Prop := {
  au_range : aj_page j ≤ top < 2 ^ 31;
  au_max id : 0 ≤ id < 2 ^ 31 → is_Some (w_files w !! page_file c id) → id ≤ top;
  au_there id : aj_page j < id ≤ top → is_Some (w_files w !! page_file c id)
}.

Lemma page_ids_last w c j top :
  in_u 32 (dest_id_ c) → 64 ≤ page_size_ c → disk w c j → page_size_ c ≤ file_size w (cur_file c j) →
  ahead_until w c j top →
  ∃ ids w', listPageId (location_ c) (dest_id_ c) w = (Ret ids, w') ∧ same_store w w' ∧
    last ids = Some top.
Proof.
  intros Hd Hsz Hdk Hlong [Hr Hmax Hthere]. pose proof (pa_range _ _ _ (dk_around _ _ _ Hdk)) as [Hr1 Hr2].
  pose proof (pa_names _ _ _ (dk_around _ _ _ Hdk)) as Honly.
  destruct (listPageId_run w (location_ c) (dest_id_ c)) as (ids&Hrun&Hsort&_&Hids); [done..|].
  eexists ids, _. split; [exact Hrun|]. split; [apply same_store_dirs|].
  apply last_sorted; [done| |].
  - apply Hids. split; [unfold aj_page in *; lia|].
    destruct (decide (top = aj_page j)) as [->|]; [|apply Hthere; lia].
    apply (file_size_pos w (cur_file c j)). lia.
  - intros id [Hid Hf]%Hids. by apply Hmax.
Qed.

(** A page with two frames counts as written. *)
Lemma last_pos_two fs : (2 ≤ length fs)%nat → Forall frame_wf fs → sizeof_PageHeader < last_pos fs.
Proof.
  intros Hlen Hwf. destruct fs as [|f [|g fs]]; simpl in Hlen; [lia..|].
  unfold last_pos. simpl. apply Forall_cons in Hwf as [Hf Hwf]. apply frame_wf_stride in Hf as (_&?&_).
  pose proof (frames_span_nonneg (removelast (g :: fs))) as Hnn.
  assert (Forall frame_wf (removelast (g :: fs))) as Hwf'.
  { by apply Forall_removelast. }
  specialize (Hnn Hwf'). simpl in Hnn. lia.
Qed.

(** The constructor's first half finds the current page and its sequence. *)
Lemma find_last_run w c j s top :
  cfg_ok c → disk w c j → page_size_ c ≤ file_size w (cur_file c j) → ahead_until w c j top →
  0 < aj_page j → (2 ≤ length (aj_cur j))%nat →
  Forall (λ f, is_PageEnd f = false) (aj_cur j) → seq_ok s j →
  ∃ w1 w2, findLastWrittenPage c w = (Ret (aj_page j), w1) ∧
    findLastSequenceNumber c (aj_page j) w1 = (Ret (aj_seq j - 1), w2) ∧ same_store w w2.
Proof.
  intros Hcfg Hdk Hlong Hah Hpos Hlen Hnpe [Hnum Hseq]. pose proof Hcfg as [Hsize Hd].
  pose proof (findPageSize_bounds (location_ c) (dest_id_ c)) as [Hsz _]. rewrite <-Hsize in Hsz.
  destruct (page_ids_last w c j top) as (ids&w0&Hlist&Hs0&Hlast); [done|lia|done..|].
  destruct Hah as [Hr Hmax Hthere].
  pose proof (dk_cur _ _ _ Hdk) as Hps. pose proof (laid_wf _ _ _ _ _ (ps_laid _ _ _ _ Hps)) as Hwf.
  set (n := Z.to_nat (top - aj_page j)).
  destruct (findLastWrittenPage_skip n (S (Z.to_nat (aj_page j))) w0 c (aj_page j)) as (w0'&Hskip&Hs0'); [done|done|..].
  { intros i Hi. rewrite (ss_size _ _ Hs0). destruct (Hthere i) as [f Hf]; [lia|].
    destruct (pa_ahead _ _ _ (dk_around _ _ _ Hdk) i) as [Hno|[Hp Hl]]; [lia|congruence|].
    split; [|done]. eapply page_state_agree; [lia|by apply same_store_agree|done]. }
  assert (same_store w w0') as Hs by by etrans.
  destruct (findLastWrittenPage_hit (Z.to_nat (aj_page j)) w0' c (aj_page j) (aj_cur j)) as (w1&Hhit&Hs1).
  { done. } { done. }
  { eapply page_state_agree; [lia|by apply same_store_agree|done]. }
  { by rewrite (ss_size _ _ Hs). }
  { by apply last_pos_two. }
  assert (same_store w w1) as Hs01 by by etrans.
  destruct (findLastSequenceNumber_run w1 c (aj_page j) (aj_cur j)) as (w2&Hscan&Hs2).
  { done. } { lia. }
  { eapply page_state_agree; [lia|by apply same_store_agree|done]. }
  { by rewrite (ss_size _ _ Hs01). }
  { unfold aj_frames in Hnum. apply numbered_app in Hnum as [_ Hnum]. by eapply numbered_scannable. }
  exists w1, w2. split_and!; [|rewrite Hscan|by etrans].
  - unfold findLastWrittenPage. erewrite bind_Ret by exact Hlist. rewrite Hlast.
    replace (S (Z.to_nat top)) with (n + S (Z.to_nat (aj_page j)))%nat by lia.
    replace top with (aj_page j + Z.of_nat n) at 1 by lia. by rewrite Hskip.
  - do 2 f_equal. destruct (last (aj_cur j)) as [f|] eqn:Hf.
    + apply last_Some in Hf as [fs Hf]. simpl.
      rewrite (Hnum (length (concat (aj_closed j)) + length fs)%nat f), Hseq; unfold aj_frames; rewrite Hf.
      * rewrite !length_app. simpl. lia.
      * rewrite lookup_app_r by lia. rewrite Nat.add_comm, Nat.add_sub. by apply list_lookup_middle.
    + apply last_None in Hf. rewrite Hf in Hlen. simpl in Hlen. lia.
Qed.

(** The pages seen from the page behind the current one. *)
Lemma pages_around_open w w' c j :
  64 ≤ page_size_ c → same_store w w' → disk w c j → page_size_ c ≤ file_size w (cur_file c j) →
  aj_page j + 1 < 2 ^ 31 →
  pages_around w' c (AJ (aj_first j) (aj_closed j ++ [aj_cur j]) [] (aj_seq j)).
Proof.
  intros Hsz Hsame [Har Hcur _] Hlong Hid.
  apply (pages_around_same w w') in Har as [Hr Hc Hl Ha Hsq Hn Hlow]; [|done..].
  assert (page_state w' (cur_file c j) (page_size_ c) (aj_cur j)) as Hcur'.
  { eapply page_state_agree; [done|by apply same_store_agree|done]. }
  split; unfold aj_page in *; simpl; rewrite ?length_app; simpl; try done; [lia|..].
  - intros k fs Hk. apply lookup_app_Some in Hk as [Hk|[Hk1 Hk2]]; [by apply Hc|].
    apply list_lookup_singleton_Some in Hk2 as [Hk2 <-].
    replace (aj_first j + Z.of_nat k) with (aj_page j) by (unfold aj_page; lia). done.
  - intros k Hk. destruct (decide (k < length (aj_closed j))%nat); [by apply Hl|].
    replace (aj_first j + Z.of_nat k) with (aj_page j) by (unfold aj_page; lia).
    by rewrite (ss_size _ _ Hsame).
  - intros id Hid'. apply Ha. lia.
Qed.
End ctor.

Lemma ctor_fresh_run `{Env} `{!NoErrors} `{!EnvLaws} `{ILocator} `{!LocatorLaws}
    w ser location dest_id o :
  in_u 32 dest_id → opt_warmup_pages o ≤ kWriterPageWarmerRingSize → only_pages w (layoutDir location JOURNAL) →
  (∀ id, 0 ≤ id < 2 ^ 31 → w_files w !! page_path location dest_id id = None) →
  ∃ w' r, JournalWriter_ctor ser location dest_id o w = (Ret r, w') ∧
    rep w' r (AJ 1 [] [] 0) ∧ new_writer r (ctor_cfg ser location dest_id o) o 1.
Proof.
  intros Hd Ho Honly Hnone. set (c := ctor_cfg ser location dest_id o).
  pose proof (findPageSize_bounds location dest_id) as [Hsz _].
  destruct (findLastWrittenPage_none w c) as (w1&Hfind&Hsame); [done..|].
  set (r0 := initial_writer ser location dest_id o).
  assert (∀ id, 0 ≤ id < 2 ^ 31 → w_files w1 !! page_file c id = None) as Hblank.
  { intros id Hid. rewrite eq_None_not_Some, (ss_file _ _ Hsame), <-eq_None_not_Some. by apply Hnone. }
  destruct (loadInitialPage_ahead w1 r0 (AJ 1 [] [] 0)) as (w2&r2&Hload&Hrep&Hk); try done.
  { split; unfold aj_page; simpl; try done.
    - lia.
    - intros id Hid. left. apply Hblank. lia.
    - intros n Hf%(ss_file _ _ Hsame). by apply Honly.
    - intros id Hid. apply Hblank. lia. }
  { left. apply Hblank. unfold aj_page. simpl. lia. }
  pose proof (kp_cfg _ _ Hk) as Hc.
  destruct (ctor_tail w2 r2 c o _ Hrep Hc Ho) as (r'&Htail&Hrep'&Hst); [apply Hk..|by apply Hk|].
  exists w2, r'. unfold JournalWriter_ctor, ctor_body. fold r0.
  rewrite (bind_Ret _ _ _ _ _ (this_run _ _)). change (wr_cfg r0) with c.
  erewrite (bind_Ret (io _)) by (apply io_run; exact Hfind). cbn [Z.ltb Z.compare when].
  rewrite bind_ret_l. erewrite (bind_Ret loadInitialPage) by exact Hload. rewrite Htail.
  done.
Qed.

(** A writer constructed where its destination has no page file yet starts
    the journal at page 1 with sequence number 0, unlocked and with no frame
    open, and stands for the empty journal; with a page warmer or without. *)
Lemma ctor_fresh `{Env} `{!NoErrors} `{!EnvLaws} `{ILocator} `{!LocatorLaws}
    w ser location dest_id o :
  in_u 32 dest_id → opt_warmup_pages o ≤ kWriterPageWarmerRingSize → only_pages w (layoutDir location JOURNAL) →
  (∀ id, 0 ≤ id < 2 ^ 31 → w_files w !! page_path location dest_id id = None) →
  ∃ w' r, JournalWriter_ctor ser location dest_id o w = (Ret r, w') ∧
    rep w' r (AJ 1 [] [] 0) ∧ new_writer r (ctor_cfg ser location dest_id o) o 1.
Proof. apply ctor_fresh_run. Qed.

(** C16: A writer constructed on an existing journal whose last written page
    holds at least two frames loses nothing: it passes over the empty pages a
    page warmer prepared, finds that page and its last sequence number, and
    continues on the page behind with the next number.  The pages it found are
    unchanged, the last of them still without a [PageEnd]. *)
Theorem ctor_resume `{Env} `{!NoErrors} `{!EnvLaws} `{ILocator} `{!LocatorLaws}
    w ser location dest_id o j s top :
  let c := ctor_cfg ser location dest_id o in
  in_u 32 dest_id → opt_warmup_pages o ≤ kWriterPageWarmerRingSize →
  disk w c j → page_size_ c ≤ file_size w (cur_file c j) → ahead_until w c j top →
  0 < aj_page j → aj_page j + 1 < 2 ^ 31 → (2 ≤ length (aj_cur j))%nat →
  Forall (λ f, is_PageEnd f = false) (aj_cur j) → seq_ok s j →
  ∃ w' r, JournalWriter_ctor ser location dest_id o w = (Ret r, w') ∧
    rep w' r (AJ (aj_first j) (aj_closed j ++ [aj_cur j]) [] (aj_seq j)) ∧
    new_writer r c o (aj_page j + 1).
Proof.
  intros c Hd Ho Hdk Hlong Hah Hpos Hid Hlen Hnpe Hsq.
  pose proof (findPageSize_bounds location dest_id) as [Hsz _]. assert (cfg_ok c) as Hcfg by done.
  change (findPageSize location dest_id) with (page_size_ c) in Hsz.
  destruct (find_last_run w c j s top) as (w1&w2&Hfind&Hscan&Hsame); [done..|].
  set (j' := AJ (aj_first j) (aj_closed j ++ [aj_cur j]) [] (aj_seq j)).
  assert (aj_page j' = aj_page j + 1) as Hpage by (unfold aj_page; simpl; rewrite length_app; simpl; lia).
  set (r0 := set_sequence (aj_seq j) (set_page_id (aj_page j) (initial_writer ser location dest_id o))).
  destruct (loadInitialPage_ahead w2 r0 j') as (w3&r3&Hload&Hrep&Hk); try done.
  { by apply (pages_around_open w); [change (wr_cfg r0) with c; lia|..]. }
  { change (wr_cfg r0) with c. unfold cur_file. rewrite Hpage. eapply page_ahead_same; [lia|apply (ss_bytes _ _ Hsame)|
      by rewrite (ss_file _ _ Hsame)|by rewrite (ss_size _ _ Hsame)|].
    apply (pa_ahead _ _ _ (dk_around _ _ _ Hdk)). lia. }
  pose proof (kp_cfg _ _ Hk) as Hc. rewrite <-Hpage.
  destruct (ctor_tail w3 r3 c o _ Hrep Hc Ho) as (r'&Htail&Hrep'&Hst); [apply Hk..|by apply Hk|].
  exists w3, r'. unfold JournalWriter_ctor, ctor_body. set (r00 := initial_writer _ _ _ _) in *.
  rewrite (bind_Ret _ _ _ _ _ (this_run _ _)). change (wr_cfg r00) with c.
  erewrite (bind_Ret (io _)) by (apply io_run; exact Hfind).
  rewrite (proj2 (Z.ltb_lt 0 _)) by done. cbn [when].
  rewrite bind_assoc, (bind_Ret _ _ _ _ _ (update_run _ _ _)), bind_assoc.
  erewrite (bind_Ret (io _)) by (apply io_run; exact Hscan).
  replace (aj_seq j - 1 + 1) with (aj_seq j) by lia.
  rewrite (wrap_small 64) by apply (pa_seq _ _ _ (dk_around _ _ _ Hdk)).
  rewrite (bind_Ret _ _ _ _ _ (update_run _ _ _)). fold r0.
  erewrite (bind_Ret loadInitialPage) by exact Hload. by rewrite Htail.
Qed.
