(* ===== verification/EndToEnd.v ===== *)
(** * EndToEnd: what is written is what is read

    A writer starts on an empty directory, writes any messages, and a reader
    that joins at time 0 gets them back: the theorems about the constructor,
    the writer's operations and the reader put together. *)

From S2P Require Import Prelude Memory Frame Base Mmap Page Warmer Writer WriterState.
From S2P Require Import WriterSpec Journal Reader JournalSpec ReaderSpec Resume.

(** A message an application writes: time, type, payload. *)
Record message := Message { ms_time : Z; ms_type : Z; ms_data : list Z }.

(** The messages [writeBytes] takes on a page of [size] bytes. *)
Definition message_ok (size : Z) (m : message) : Prop :=
  0 < ms_type m < 2 ^ 16 ∧ ms_type m ≠ MsgType.PageEnd ∧ 0 ≤ ms_time m < 2 ^ 63 ∧
  Forall (in_u 8) (ms_data m) ∧ Z.of_nat (length (ms_data m)) ≤ size - 160.

(** What an application sees of a frame it wrote. *)
Definition content (f : frame) : message := Message (fr_gen f) (fr_type f) (fr_payload f).

Lemma aj_data_append ts ty flags payload j :
  ty ≠ MsgType.PageEnd →
  aj_data (a_append ts ty flags payload j) = aj_data j ++ [Frame ty flags (aj_seq j) ts 0 payload].
Proof.
  intros Hty. unfold aj_data, aj_frames. simpl. rewrite !app_assoc, (filter_app _ (_ ++ _)).
  f_equal. rewrite filter_cons_True; [done|]. by apply Z.eqb_neq.
Qed.

Lemma aj_data_rotate now j : aj_data (a_rotate now j) = aj_data j.
Proof.
  unfold aj_data, aj_frames. simpl. rewrite concat_app. simpl.
  rewrite !app_nil_r, !app_assoc, (filter_app _ (_ ++ _)).
  rewrite (filter_cons_False _ (PageEnd_frame _ _)) by done. by rewrite app_nil_r.
Qed.

Lemma aj_data_write size now ts ty flags payload j :
  ty ≠ MsgType.PageEnd →
  content <$> aj_data (a_write size now ts ty flags payload j) =
    (content <$> aj_data j) ++ [Message ts ty payload].
Proof.
  intros Hty. unfold a_write. rewrite aj_data_append by done. rewrite fmap_app.
  case_match; [done|]. by rewrite aj_data_rotate.
Qed.

(** Frames numbered from 0, as a list of numbers. *)
Lemma numbered_seqZ fs : numbered 0 fs → fr_seq <$> fs = seqZ 0 (Z.of_nat (length fs)).
Proof.
  intros Hnum. apply list_eq. intros k. rewrite list_lookup_fmap.
  destruct (fs !! k) as [f|] eqn:Hk; simpl.
  - pose proof (lookup_lt_Some _ _ _ Hk). rewrite lookup_seqZ_lt by lia. by rewrite (Hnum k f Hk).
  - apply lookup_ge_None in Hk. by rewrite lookup_seqZ_ge by lia.
Qed.

(** Numbering goes on, if the 64-bit counter does not overflow. *)
Lemma seq_ok_append s ts ty flags payload j :
  seq_ok s j → 0 ≤ s → aj_seq j + 1 < 2 ^ 64 → seq_ok s (a_append ts ty flags payload j).
Proof.
  intros [Hn Hs] Hs0 Hlt. unfold seq_ok, aj_frames in *. simpl. rewrite app_assoc, length_app. simpl.
  split; [|rewrite wrap_small; [lia|unfold in_u; lia]].
  apply numbered_app. split; [done|]. intros k f Hk. apply list_lookup_singleton_Some in Hk as [-> <-].
  simpl. lia.
Qed.

Lemma seq_ok_rotate s now j :
  seq_ok s j → 0 ≤ s → aj_seq j + 1 < 2 ^ 64 → seq_ok s (a_rotate now j).
Proof.
  intros [Hn Hs] Hs0 Hlt. unfold seq_ok, aj_frames in *. simpl. rewrite concat_app. simpl.
  rewrite !app_nil_r, app_assoc, length_app. simpl.
  split; [|rewrite wrap_small; [lia|unfold in_u; lia]].
  apply numbered_app. split; [done|]. intros k f Hk. apply list_lookup_singleton_Some in Hk as [-> <-].
  simpl. lia.
Qed.

Lemma a_rotate_seq now j : 0 ≤ aj_seq j → aj_seq j + 1 < 2 ^ 64 → aj_seq (a_rotate now j) = aj_seq j + 1.
Proof. intros. simpl. apply wrap_small. unfold in_u. lia. Qed.

(** One write: numbers, pages and times of the abstract journal. *)
Record good (s : Z) (j : ajournal) : Prop := {
  gd_wf : aj_wf j;
  gd_seq : seq_ok s j;
  gd_start : 0 ≤ s;
  gd_times : Forall (λ f, 0 ≤ fr_gen f) (aj_frames j)
}.

Lemma good_append s ts ty flags payload j :
  ty ≠ MsgType.PageEnd → 0 ≤ ts → aj_seq j + 1 < 2 ^ 64 → good s j →
  good s (a_append ts ty flags payload j).
Proof.
  intros Hty Hts Hlt []. split; [by apply a_append_wf|by apply seq_ok_append|done|].
  unfold aj_frames in *. simpl. rewrite app_assoc. apply Forall_app. split; [done|by constructor].
Qed.

Lemma good_rotate s now j : 0 ≤ now → aj_seq j + 1 < 2 ^ 64 → good s j → good s (a_rotate now j).
Proof.
  intros Hnow Hlt []. split; [by apply a_rotate_wf|by apply seq_ok_rotate|done|].
  unfold aj_frames in *. simpl. rewrite concat_app. simpl. rewrite !app_nil_r, app_assoc.
  apply Forall_app. split; [done|by constructor].
Qed.

Lemma good_write s size now ts ty flags payload j :
  ty ≠ MsgType.PageEnd → 0 ≤ ts → 0 ≤ now → aj_seq j + 2 < 2 ^ 64 → good s j →
  let j' := a_write size now ts ty flags payload j in
  good s j' ∧ aj_seq j' ≤ aj_seq j + 2 ∧ aj_page j ≤ aj_page j' ≤ aj_page j + 1 ∧
  aj_first j' = aj_first j.
Proof.
  intros Hty Hts Hnow Hlt Hg. pose proof (gd_seq _ _ Hg) as [_ Hs]. pose proof (gd_start _ _ Hg).
  assert (0 ≤ aj_seq j) by lia. unfold a_write. case_match; cbv zeta.
  - split; [apply good_append; done || lia|]. simpl. rewrite wrap_small by (unfold in_u; lia).
    unfold aj_page. simpl. lia.
  - split; [apply good_append; [done|done|rewrite a_rotate_seq; lia|apply good_rotate; done || lia]|].
    cbn [a_append aj_seq]. rewrite a_rotate_seq, wrap_small by (unfold in_u; lia).
    unfold aj_page. simpl. rewrite length_app. simpl. lia.
Qed.

Section e2e.
Context `{Env} `{!NoErrors} `{!EnvLaws} `{ILocator} `{!LocatorLaws} `{PriorityQueue}.

Fixpoint write_all (ms : list message) : W unit :=
  match ms with
  | [] => ret tt
  | m :: ms => do! writeBytes (ms_time m) (ms_type m) (ms_data m) in write_all ms
  end.

Lemma write_all_run ms s w r j :
  rep w r j → writing_ r = false → good s j → (∀ n, 0 ≤ env_clock n) →
  Forall (message_ok (page_size_ (wr_cfg r))) ms →
  aj_page j + Z.of_nat (length ms) < 2 ^ 31 → aj_seq j + 2 * Z.of_nat (length ms) < 2 ^ 64 →
  ∃ w' r' j', write_all ms (w, r) = (Ret tt, (w', r')) ∧ rep w' r' j' ∧ wr_cfg r' = wr_cfg r ∧
    writing_ r' = false ∧ good s j' ∧ aj_first j' = aj_first j ∧
    content <$> aj_data j' = (content <$> aj_data j) ++ ms ∧
    aj_page j' ≤ aj_page j + Z.of_nat (length ms) ∧
    aj_seq j' ≤ aj_seq j + 2 * Z.of_nat (length ms).
Proof.
  intros Hrep Hw Hg Hclock Hms. revert w r j Hrep Hw Hg Hms.
  induction ms as [|m ms IH]; intros w r j Hrep Hw Hg Hms Hpage Hseq; cbn [write_all length].
  { exists w, r, j. rewrite app_nil_r. simpl. split_and!; done || lia. }
  apply Forall_cons in Hms as [(Hty&Hne&Hts&Hdata&Hn) Hms]. simpl in Hpage, Hseq.
  destruct (writeBytes_run w r j (ms_time m) (ms_type m) (ms_data m))
    as (w1&r1&Hrun&Hrep1&Hc1&Hw1&_); [done..|lia|done|unfold in_s; simpl; lia|done|done|].
  destruct (good_write s (page_size_ (wr_cfg r)) (env_clock (w_ticks w)) (ms_time m) (ms_type m)
    FRAME_NORMAL (ms_data m) j) as (Hg1&Hs1&Hp1&Hf1); [done|lia|done|lia|done|].
  set (j1 := a_write _ _ _ _ _ _ _) in *.
  destruct (IH w1 r1 j1) as (w'&r'&j'&Hrec&Hrep'&Hc'&Hw'&Hg'&Hf'&Hcon&Hp'&Hs'); try done.
  { by rewrite Hc1. } { lia. } { lia. }
  exists w', r', j'. split; [by erewrite bind_Ret by exact Hrun|].
  split_and!; try done; try congruence; try lia.
  rewrite Hcon. unfold j1. rewrite aj_data_write by done. rewrite <-app_assoc. by destruct m.
Qed.
End e2e.

(** End to end: a writer started on an empty directory writes any
    messages that fit a page; a reader that joins at time 0 then drains every
    frame, and the frames that are not [PageEnd] sentinels are exactly the
    messages, with their times, types and payloads, in the order they were
    written.  The sequence numbers of all frames are 0, 1, 2, ... without gap
    or repetition, across pages. *)
Lemma write_then_read `{Env} `{!NoErrors} `{!EnvLaws} `{ILocator} `{!LocatorLaws} `{PriorityQueue}
    w ser location dest_id wo ro ms fuel :
  in_u 32 dest_id → opt_warmup_pages wo ≤ kWriterPageWarmerRingSize → only_pages w (layoutDir location JOURNAL) →
  (∀ id, 0 ≤ id < 2 ^ 31 → w_files w !! page_path location dest_id id = None) →
  (∀ n, 0 ≤ env_clock n) →
  Forall (message_ok (findPageSize location dest_id)) ms →
  Z.of_nat (length ms) < 2 ^ 30 → (2 * length ms < fuel)%nat →
  ∃ w1 r1 w2 r2 w3 d3 w4 d4 fs,
    JournalWriter_ctor ser location dest_id wo w = (Ret r1, w1) ∧
    write_all ms (w1, r1) = (Ret tt, (w2, r2)) ∧
    join fuel location dest_id 0 (w2, JournalReader_ctor ro) = (Ret tt, (w3, d3)) ∧
    drain fuel (w3, d3) = (Ret fs, (w4, d4)) ∧
    content <$> filter (λ f, is_PageEnd f = false) fs = ms ∧
    fr_seq <$> fs = seqZ 0 (Z.of_nat (length fs)) ∧
    nextStatic read_frame (w4, d4) = (Ret None, (w4, d4)).
Proof.
  intros Hd Ho Honly Hnone Hclock Hms Hlen Hfuel.
  destruct (ctor_fresh_run w ser location dest_id wo) as (w1&r1&Hctor&Hrep1&[Hc1 Hw1 _ _]); [done..|].
  assert (good 0 (AJ 1 [] [] 0)) as Hg.
  { split; [|done|done|by constructor]. split; [|by constructor]. intros p fs Hp. done. }
  destruct (write_all_run ms 0 w1 r1 (AJ 1 [] [] 0))
    as (w2&r2&j&Hwrite&Hrep2&Hc2&_&Hg2&_&Hcon&_&Hseq); try done; [by rewrite Hc1| | |].
  { unfold aj_page. simpl. lia. }
  { simpl. lia. }
  pose proof (gd_seq _ _ Hg2) as [Hnum Hs]. simpl in Hseq.
  pose proof (rep_readable _ _ _ Hrep2 (gd_wf _ _ Hg2)) as Hrb. rewrite Hc2, Hc1 in Hrb.
  destruct (read_back_run w2 (ctor_cfg ser location dest_id wo) j ro fuel)
    as (w3&d3&w4&d4&Hjoin&Hdrain&_&Hnext); [done|done|apply Hg2|lia|].
  exists w1, r1, w2, r2, w3, d3, w4, d4, (aj_frames j). split_and!; try done. by apply numbered_seqZ.
Qed.
