(* ===== verification/Warming.v ===== *)
(** * Warming: the page warmer beside its writer

    The warmer thread of a writer (PageWarmer.h) and the writer share a ring
    of pages mapped ahead.  Here the thread's operations act on the writer's
    warmer: preparing one page ahead ([warm_next], from the claim of a slot to
    its publication, with nothing of the writer in between) and cleaning up
    ([cleanupOldPages]).  [prepared] is what they may do to the world;
    whatever journal the writer and the files represent, they still do. *)

From S2P Require Import Prelude Memory Frame Base Mmap Page Warmer Writer WriterState.
From S2P Require Import WarmSpec WriterSpec.

(** An operation of the warmer thread, on the writer's warmer. *)
Definition on_warmer {A} (m : M (world * warmer) A) : W A := λ s,
  match page_warmer_ s.2 with
  | None => (Fault Sigsegv, s)
  | Some wm =>
      let '(x, (w, wm)) := m (s.1, wm) in
      (x, (w, set_warmer (Some wm) s.2))
  end.

Section warming.
Context `{Env} `{!NoErrors} `{!EnvLaws} `{ILocator} `{!LocatorLaws}.

(** ** The effect on the world *)

(** Files of pages ahead may have appeared, as empty pages; all other bytes,
    and the mappings of the writer's own pages, are as they were. *)
Record prepared (w w' : world) (r : writer) (j : ajournal) : Prop := {
  pr_bytes pa i : (∀ id, aj_page j < id < 2 ^ 31 → pa ≠ page_file (wr_cfg r) id) →
    fbyte w' pa i = fbyte w pa i;
  pr_size pa : file_size w pa ≤ file_size w' pa;
  pr_file pa : is_Some (w_files w' !! pa) →
    is_Some (w_files w !! pa) ∨ ∃ id, aj_page j < id < 2 ^ 31 ∧ pa = page_file (wr_cfg r) id;
  pr_ahead id : aj_page j < id < 2 ^ 31 → page_ahead w' (page_file (wr_cfg r) id) (page_size_ (wr_cfg r));
  pr_maps q mp : q ∈ held r → w_maps w !! base_of q = Some mp → w_maps w' !! base_of q = Some mp
}.

(** The warmer's side afterwards. *)
Record warm_effect (w w' : world) (r : writer) (m' : warmer) (j : ajournal) : Prop := {
  we_prepared : prepared w w' r j;
  we_ok : warm_ok w' (wr_cfg r) (aj_page j) m';
  we_live : pages_live w' (held r ++ warm_pages m');
  we_spares : spares_others w w' r (set_warmer (Some m') r)
}.

Section effect.
Context (w w' : world) (r : writer) (j : ajournal).
Context (Hd : in_u 32 (dest_id_ (wr_cfg r))) (Hsz : 64 ≤ page_size_ (wr_cfg r)) (Hrg : 0 ≤ aj_page j).
Context (Hpr : prepared w w' r j).

Lemma prepared_agree id off n :
  0 ≤ id ≤ aj_page j → aj_page j < 2 ^ 31 → agree w w' (page_file (wr_cfg r) id) off n.
Proof.
  intros Hid Hp i _. apply (pr_bytes _ _ _ _ Hpr). intros id' Hid' Heq%page_file_inj; [lia|done|lia..].
Qed.

Lemma prepared_around : pages_around w (wr_cfg r) j → pages_around w' (wr_cfg r) j.
Proof.
  intros [Hr Hc Hl Ha Hs Hn Hlow]. unfold aj_page in Hr. split; try done.
  - intros k fs Hk. pose proof (lookup_lt_Some _ _ _ Hk).
    eapply page_state_agree; [done| |by apply Hc]. apply prepared_agree; unfold aj_page in *; lia.
  - intros k Hk. etrans; [by apply Hl|apply (pr_size _ _ _ _ Hpr)].
  - apply (pr_ahead _ _ _ _ Hpr).
  - intros n [Hf|(id&Hid&Heq)]%(pr_file _ _ _ _ Hpr); [by apply Hn|].
    apply (f_equal snd) in Heq. simpl in Heq. exists (dest_id_ (wr_cfg r)), id. split_and!; [done|lia..|done].
  - intros id Hid. rewrite eq_None_not_Some.
    intros [Hf|(id'&Hid'&Heq)]%(pr_file _ _ _ _ Hpr).
    + by apply (proj1 (eq_None_not_Some _) (Hlow id Hid)).
    + apply page_file_inj in Heq; [unfold aj_page in *; lia|done|unfold aj_page in *; lia..].
Qed.

Lemma prepared_members m' :
  warm_ok w' (wr_cfg r) (aj_page j) m' → pages_live w' (held r ++ warm_pages m') →
  members w r j → members w' (set_warmer (Some m') r) j.
Proof.
  intros Hok Hlive [? ? ? ? ? ? (page&Hpage&(Hm&Hl&?)&Ha)]. split; try done.
  - by intros m [= <-].
  - exists page. split_and!; try done. split_and!; [|etrans; [done|apply (pr_size _ _ _ _ Hpr)]|done].
    apply (pr_maps _ _ _ _ Hpr); [|done]. unfold held. rewrite Hpage. by left.
Qed.

Lemma prepared_rep m' :
  warm_ok w' (wr_cfg r) (aj_page j) m' → pages_live w' (held r ++ warm_pages m') →
  rep w r j → rep w' (set_warmer (Some m') r) j.
Proof.
  intros Hok Hlive [Hmb [Har Hcur Hb] Hseq]. pose proof (pa_range _ _ _ Har).
  split; [by apply prepared_members| |done]. split; [by apply prepared_around| |done].
  eapply page_state_agree; [done| |done]. apply prepared_agree; lia.
Qed.

Lemma prepared_rep_open m' ts ty flags n :
  warm_ok w' (wr_cfg r) (aj_page j) m' → pages_live w' (held r ++ warm_pages m') →
  rep_open w r j ts ty flags n → rep_open w' (set_warmer (Some m') r) j ts ty flags n.
Proof.
  intros Hok Hlive [Hmb [Har Hh Hl ? ? ? ? ? ? ? Htl ? ?] Hseq]. pose proof (pa_range _ _ _ Har).
  assert (∀ off k, agree w w' (cur_file (wr_cfg r) j) off k) as Hag by (intros; apply prepared_agree; lia).
  split; [by apply prepared_members| |done].
  split; rewrite ?(fle_agree w w') by apply Hag; try done; [by apply prepared_around|..].
  - by eapply header_ok_agree.
  - by eapply laid_agree.
  - intros i Hi. rewrite (Hag i 1) by lia. by apply Htl.
Qed.

Lemma prepared_payload n : aj_page j < 2 ^ 31 → slot_payload w' r j n = slot_payload w r j n.
Proof. intros. apply fbytes_agree, prepared_agree; lia. Qed.
End effect.

(** ** Preparing a page *)

(** The header the warmer writes, and the zeroes behind it. *)
Definition warm_header_world (w : world) (pa : path) (size : Z) : world :=
  fzero (fwrite (fwrite (fwrite (fwrite (fwrite w
    pa 0 (le_bytes 4 2)) pa 4 (le_bytes 4 64)) pa 8 (le_bytes 4 (u32 size)))
    pa 12 (le_bytes 4 32)) pa 16 (le_bytes 8 64)) pa 64 (size - 64).

Lemma warm_header_run w b pa size :
  mapped w b pa size true → 64 ≤ size →
  warm_header (Ptr b 0) size w = (Ret tt, warm_header_world w pa size).
Proof.
  intros Hm Hn. unfold warm_header. unfold_offsets. do 5 mstep.
  apply (memset0_run _ (Ptr b 64) pa size); cbn; [mapped_tac|lia..].
Qed.

Lemma warm_header_touches w pa size : touches pa w (warm_header_world w pa size).
Proof. unfold warm_header_world. touches_tac. Qed.

Lemma warm_header_maps w pa size : w_maps (warm_header_world w pa size) = w_maps w.
Proof. done. Qed.

(** It is an empty page. *)
Lemma warm_header_empty w pa size :
  is_Some (w_files w !! pa) → 64 < size < 2 ^ 32 → page_state (warm_header_world w pa size) pa size [].
Proof.
  intros Hf Hs. apply page_state_empty; [lia| |].
  - unfold warm_header_world. split; unfold_offsets; mem_simpl; try done; [|lia].
    assert (u32 size = size) as -> by (apply wrap_small; unfold in_u; lia).
    apply wrap_small. unfold in_u. lia.
  - intros i Hi. unfold warm_header_world. rewrite fbyte_fzero, bool_decide_true; [done|]. split; [done|lia].
Qed.

(** What the preparation of page [id] leaves: a new mapping of its file, and
    a file that is there; ahead, an empty page. *)
Record readied (w w' : world) (r : writer) (j : ajournal) (id b : Z) : Prop := {
  rd_prepared : prepared w w' r j;
  rd_fresh : w_maps w !! b = None;
  rd_others b' mp : w_maps w !! b' = Some mp → w_maps w' !! b' = Some mp;
  rd_mapped : mapped w' b (page_file (wr_cfg r) id) (page_size_ (wr_cfg r)) true;
  rd_header id' : aj_page j < id' < 2 ^ 31 → (id' = id ∨
    header_ok w (page_file (wr_cfg r) id') (page_size_ (wr_cfg r)) sizeof_PageHeader) →
    header_ok w' (page_file (wr_cfg r) id') (page_size_ (wr_cfg r)) sizeof_PageHeader
}.

(** A page file that exists is mapped, and nothing else happens. *)
Lemma ready_existing w w1 r j id b :
  64 ≤ page_size_ (wr_cfg r) → pages_around w (wr_cfg r) j → is_Some (w_files w !! page_file (wr_cfg r) id) →
  remapped (set_dirs ({[layoutDir (location_ (wr_cfg r)) JOURNAL]} ∪.) w) w1
    (page_file (wr_cfg r) id) (page_size_ (wr_cfg r)) true b →
  readied w w1 r j id b.
Proof.
  intros Hsz Har Hf Hrm. set (c := wr_cfg r) in *.
  pose proof (remapped_touches _ _ _ _ _ _ Hrm) as Ht. pose proof (rm_bytes _ _ _ _ _ _ Hrm) as Hb.
  assert (∀ pa, is_Some (w_files w1 !! pa) → is_Some (w_files w !! pa)) as Hfile.
  { intros pa [->|?]%(rm_file _ _ _ _ _ _ Hrm); done. }
  split; [split|..].
  - intros pa i _. apply Hb.
  - apply (tc_size _ _ _ Ht).
  - intros pa Hpa. left. by apply Hfile.
  - intros id' Hid'. fold c. apply (page_ahead_same w); [done|apply Hb|apply Hfile|apply (tc_size _ _ _ Ht)|].
    by apply (pa_ahead _ _ _ Har).
  - intros q mp _. apply (tc_maps _ _ _ Ht).
  - apply (rm_fresh _ _ _ _ _ _ Hrm).
  - apply (tc_maps _ _ _ Ht).
  - fold c. eapply remapped_mapped; [exact Hrm|lia|by left].
  - intros id' Hid' Hor. fold c. apply (header_ok_agree w).
    { intros i _. apply Hb. }
    destruct Hor as [->|Hh]; [|done].
    destruct (pa_ahead _ _ _ Har id Hid') as [Hno|[Hps _]]; [|apply Hps].
    fold c in Hno. rewrite Hno in Hf. by destruct Hf.
Qed.

(** A page file that does not exist is made an empty page. *)
Lemma ready_absent w w1 r j id b :
  in_u 32 (dest_id_ (wr_cfg r)) → 64 < page_size_ (wr_cfg r) < 2 ^ 32 → 0 ≤ aj_page j < id → id < 2 ^ 31 →
  pages_around w (wr_cfg r) j →
  remapped (set_dirs ({[layoutDir (location_ (wr_cfg r)) JOURNAL]} ∪.) w) w1
    (page_file (wr_cfg r) id) (page_size_ (wr_cfg r)) true b →
  readied w (warm_header_world w1 (page_file (wr_cfg r) id) (page_size_ (wr_cfg r))) r j id b.
Proof.
  intros Hd Hsz Hlt Hid Har Hrm. set (c := wr_cfg r) in *. set (w2 := warm_header_world _ _ _).
  assert (touches (page_file c id) w w2) as Ht.
  { etrans; [apply touches_dirs|]. etrans; [by eapply remapped_touches|apply warm_header_touches]. }
  assert (mapped w1 b (page_file c id) (page_size_ c) true) as Hm1.
  { eapply remapped_mapped; [exact Hrm|lia|by left]. }
  assert (page_state w2 (page_file c id) (page_size_ c) [] ∧ page_size_ c ≤ file_size w2 (page_file c id)) as [Hps Hl].
  { split; [apply warm_header_empty; [eapply mapped_file; [|done]; lia|done]|].
    etrans; [apply Hm1|]. apply (tc_size _ _ _ (warm_header_touches w1 (page_file c id) (page_size_ c))). }
  assert (∀ id', aj_page j < id' < 2 ^ 31 → id' ≠ id → page_file c id' ≠ page_file c id) as Hne.
  { intros id' Hid' Hn Heq%page_file_inj; [done|done|lia..]. }
  split; [split|..].
  - intros pa i Hpa. apply (tc_bytes _ _ _ Ht). apply Hpa. lia.
  - apply (tc_size _ _ _ Ht).
  - intros pa Hpa. destruct (decide (pa = page_file c id)) as [->|Hn]; [right; exists id; split; [lia|done]|left].
    by apply (tc_file _ _ _ Ht).
  - intros id' Hid'. fold c. destruct (decide (id' = id)) as [->|Hn]; [by right|].
    eapply page_ahead_touches; [lia|exact Ht|by apply Hne|by apply (pa_ahead _ _ _ Har)].
  - intros q mp _. apply (tc_maps _ _ _ Ht).
  - apply (rm_fresh _ _ _ _ _ _ Hrm).
  - apply (tc_maps _ _ _ Ht).
  - eapply touches_mapped; [apply warm_header_touches|exact Hm1].
  - intros id' Hid' Hor. fold c in Hor |- *. destruct (decide (id' = id)) as [->|Hn]; [apply Hps|].
    destruct Hor as [?|Hh]; [done|]. eapply header_ok_agree; [|exact Hh].
    eapply touches_agree; [exact Ht|by apply Hne].
Qed.

(** The warmer reaches only pages behind the journal's first one. *)
Lemma warmPageIntoSlot_run w r j m id seq :
  members w r j → pages_around w (wr_cfg r) j → warm_ok w (wr_cfg r) (aj_page j) m →
  aj_first j ≤ id < 2 ^ 31 →
  ∃ w' b, warmPageIntoSlot m id seq w = (Ret (MkSlot id (Some (Ptr b 0)) (page_size_ (wr_cfg r)) seq true), w') ∧
    readied w w' r j id b.
Proof.
  intros Hmb Har [Hloc Hdst Hsize Hwr _ _] Hid. pose proof (members_size _ _ _ Hmb) as Hsz.
  pose proof (pa_range _ _ _ Har) as [Hr1 Hr2].
  unfold warmPageIntoSlot, warm_look, warm_map. rewrite Hloc, Hdst, Hsize, Hwr.
  rewrite swrap_small by (unfold in_s; simpl; lia). rewrite bind_assoc.
  erewrite bind_Ret by apply getPagePath_run. rewrite bind_assoc.
  change (page_path _ _ _) with (page_file (wr_cfg r) id). set (w0 := set_dirs _ w).
  erewrite (bind_Ret (gets _)) by reflexivity. rewrite bind_ret_l. cbn [fst snd].
  change (w_files w0) with (w_files w).
  destruct (loadMmapBuffer_run w0 (page_file (wr_cfg r) id) (page_size_ (wr_cfg r)) true true)
    as (w1&b&Hrun&Hrm); [lia|]. cbn [orb] in Hrm.
  rewrite bind_assoc. erewrite bind_Ret by exact Hrun.
  destruct (decide (is_Some (w_files w !! page_file (wr_cfg r) id))) as [Hf|Hf].
  - rewrite bool_decide_true by done. cbn [negb andb when]. rewrite bind_assoc, !bind_ret_l.
    exists w1, b. split; [done|]. apply ready_existing; [lia|done..].
  - rewrite bool_decide_false by done. cbn [negb andb when].
    rewrite bind_assoc. erewrite bind_Ret by (eapply warm_header_run; [eapply remapped_mapped; [exact Hrm|lia|by left]|lia]).
    rewrite bind_ret_l. eexists _, b. split; [done|]. apply ready_absent; [apply Hmb|lia| |lia|done|done].
    destruct (Z.lt_ge_cases (aj_page j) id) as [?|Hle]; [unfold aj_page in *; lia|]. exfalso. apply Hf.
    destruct (decide (id = aj_page j)) as [->|].
    + destruct (mb_page _ _ _ Hmb) as (page&_&Hmap&_). eapply mapped_file; [|exact Hmap]. lia.
    + apply file_size_pos. pose proof (pa_sized _ _ _ Har (Z.to_nat (id - aj_first j))) as Hlong.
      rewrite Z2Nat.id in Hlong by lia. replace (aj_first j + (id - aj_first j)) with id in Hlong by lia.
      unfold aj_page in *. specialize (Hlong ltac:(lia)). lia.
Qed.

(** ** One page, from the claim of a slot to its publication *)

Lemma ring_index_range i : 0 ≤ ring_index i < RingSize.
Proof.
  unfold ring_index. change (RingSize - 1) with (Z.ones 4). rewrite Z.land_ones by lia.
  unfold RingSize. apply Z.mod_pos_bound. lia.
Qed.

(** An empty slot is nobody's. *)
Lemma empty_slot_free w c p s : slot_ok w c p s → sl_page_id s < 0 → sl_owned s = false.
Proof. intros [[? _]|[_ ? _ _]]; [done|lia]. Qed.

(** A slot that holds no page gets one. *)
Lemma put_slot_pages m idx s s' :
  wm_ring m !! Z.to_nat idx = Some s → warm_page m s = [] →
  warm_pages (put_slot idx s' m) ≡ₚ warm_page m s' ++ warm_pages m.
Proof.
  intros Hs Hf. rewrite (warm_pages_bind m (put_slot idx s' m)) by done.
  change (wm_ring (put_slot idx s' m)) with (<[Z.to_nat idx := s']> (wm_ring m)).
  rewrite (bind_insert (warm_page m) _ (Z.to_nat idx) s' s); [|apply list_lookup_insert_eq; by eapply lookup_lt_Some|done].
  by rewrite list_insert_insert_eq, list_insert_id.
Qed.

(** The ring with the new page in it. *)
Definition published (m : warmer) (idx : Z) (s : PageSlot) : warmer :=
  set_write_index (u64 (wm_write_index m + 1)) (set_local_seq (u64 (wm_local_seq m + 1)) (put_slot idx s m)).

Lemma published_effect w w' r j m id idx b s :
  members w r j → pages_around w (wr_cfg r) j → page_warmer_ r = Some m →
  readied w w' r j id b → aj_first j ≤ id < 2 ^ 31 →
  wm_ring m !! Z.to_nat idx = Some s → sl_owned s = false →
  warm_effect w w' r (published m idx (MkSlot id (Some (Ptr b 0)) (page_size_ (wr_cfg r)) (wm_local_seq m) true)) j.
Proof.
  intros Hmb Har Hm [Hpr Hfresh Hoth Hmap Hh] Hid Hs Ho. pose proof (members_size _ _ _ Hmb) as Hsz.
  pose proof (mb_warmer _ _ _ Hmb m Hm) as Hok. pose proof (mb_live _ _ _ Hmb) as Hlive.
  pose proof (mb_range _ _ _ Hmb) as Hrg. pose proof (pa_range _ _ _ Har) as [Hf _].
  set (s' := MkSlot _ _ _ _ _). set (new := MkPage (wm_location m) (wm_dest_id m) id true (page_size_ (wr_cfg r)) (Ptr b 0) true).
  assert (warm_pages (published m idx s') ≡ₚ new :: warm_pages m) as Hperm.
  { apply (put_slot_pages m idx s s' Hs). unfold warm_page. by rewrite Ho. }
  assert (warmed r = warm_pages m) as Hwm by (unfold warmed; by rewrite Hm). rewrite Hwm in Hlive.
  split; [done|..].
  - assert (warm_ok w' (wr_cfg r) (aj_page j) m) as [? ? ? ? ? Hsl].
    { eapply warm_ok_carry; [lia|reflexivity| |apply (pr_size _ _ _ _ Hpr)| |exact Hok].
      - intros id' Hid' Hh'. apply Hh; [done|by right].
      - intros q mp _. apply Hoth. }
    split; try done; [simpl; by rewrite length_insert|]. apply Forall_insert; [done|]. right.
    split; [done|simpl; lia|by exists b|]. intros Hlt. apply Hh; [simpl in *; lia|by left].
  - rewrite Hperm, <-Permutation_middle. apply pages_live_cons. split_and!.
    + split_and!; [done..|]. change (is_Some (w_maps w' !! b)). destruct Hmap as [-> _]. by eexists.
    + intros (q&Heq&Hq)%list_elem_of_fmap. destruct Hlive as [_ Hall].
      eapply (proj1 (Forall_forall _ _)) in Hall as (_&_&[mp Hmp]); [|exact Hq].
      rewrite <-Heq in Hmp. unfold new, base_of in Hmp. simpl in Hmp. by rewrite Hfresh in Hmp.
    + destruct Hlive as [Hnd Hall]. split; [done|]. eapply Forall_impl; [exact Hall|].
      intros q (?&?&[mp Hmp]). split_and!; [done..|]. exists mp. by apply Hoth.
  - intros b' mp Hmp Hb'. split; [by apply Hoth|]. unfold page_bases in *. rewrite Hwm in Hb'.
    change (warmed (set_warmer _ r)) with (warm_pages (published m idx s')). change (held (set_warmer _ r)) with (held r).
    rewrite Hperm, <-Permutation_middle, fmap_cons, not_elem_of_cons. split; [|done].
    intros ->. unfold new, base_of in Hmp. simpl in Hmp. by rewrite Hfresh in Hmp.
Qed.

(** Nothing happened. *)
Lemma idle_effect w r j m :
  members w r j → pages_around w (wr_cfg r) j → page_warmer_ r = Some m → warm_effect w w r m j.
Proof.
  intros Hmb Har Hm. pose proof (mb_live _ _ _ Hmb) as Hlive. unfold warmed in Hlive. rewrite Hm in Hlive.
  split; [split|..]; try done.
  - by left.
  - apply (pa_ahead _ _ _ Har).
  - by apply (mb_warmer _ _ _ Hmb).
  - intros b mp Hb Hn. split; [done|]. unfold page_bases, warmed in *. by rewrite Hm in Hn.
Qed.

Lemma on_warmer_run {A} (op : M (world * warmer) A) w r m x w' m' :
  page_warmer_ r = Some m → op (w, m) = (x, (w', m')) →
  on_warmer op (w, r) = (x, (w', set_warmer (Some m') r)).
Proof. intros Hm Hop. unfold on_warmer. simpl. by rewrite Hm, Hop. Qed.

(** [warm_next] returns, and whatever the journal was, it still is. *)
Lemma warm_next_run w r j m q i :
  members w r j → pages_around w (wr_cfg r) j → page_warmer_ r = Some m →
  aj_first j ≤ q + i < 2 ^ 31 →
  ∃ w' m', on_warmer (warm_next q i) (w, r) = (Ret tt, (w', set_warmer (Some m') r)) ∧
    warm_effect w w' r m' j.
Proof.
  intros Hmb Har Hm Hid. pose proof (idle_effect w r j m Hmb Har Hm) as Hidle.
  pose proof (mb_warmer _ _ _ Hmb m Hm) as Hok.
  assert (∃ w' m', warm_next q i (w, m) = (Ret tt, (w', m')) ∧ warm_effect w w' r m' j) as (w'&m'&Hrun&He).
  2:{ exists w', m'. split; [by eapply on_warmer_run|done]. }
  unfold warm_next, warm_claim. rewrite bind_assoc. erewrite (bind_Ret (gets snd)) by reflexivity. cbn [snd].
  destruct (isPageInRing (q + i) m); [by exists w, m|].
  set (idx := ring_index (wm_write_index m)). pose proof (ring_index_range (wm_write_index m)) as Hidx. fold idx in Hidx.
  destruct (Z.eqb_spec (sl_page_id (slot_at m idx)) (-1)) as [Hempty|]; cbn [negb]; [|by exists w, m].
  assert (is_Some (wm_ring m !! Z.to_nat idx)) as [s Hs].
  { apply lookup_lt_is_Some. rewrite (wo_length _ _ _ _ Hok). lia. }
  assert (slot_at m idx = s) as Hslot by (unfold slot_at; by rewrite Hs). rewrite Hslot in *.
  pose proof (proj1 (Forall_lookup _ _) (wo_slots _ _ _ _ Hok) _ _ Hs) as Hsok.
  pose proof (empty_slot_free _ _ _ _ Hsok ltac:(lia)) as Ho.
  set (busy := MkSlot (-2) _ _ _ _). set (m1 := set_local_seq (u64 (wm_local_seq m + 1)) (put_slot idx busy m)).
  rewrite bind_assoc. erewrite (bind_Ret (modify _)) by reflexivity. cbn [fst snd]. fold m1. rewrite bind_ret_l.
  erewrite (bind_Ret (gets snd)) by reflexivity. cbn [snd wg_page wg_seq wg_slot].
  assert (warm_ok w (wr_cfg r) (aj_page j) m1) as Hok1.
  { destruct Hok. split; try done; [simpl; by rewrite length_insert|]. apply Forall_insert; [done|].
    left. split; [done|]. simpl. lia. }
  destruct (warmPageIntoSlot_run w r j m1 (q + i) (wm_local_seq m) Hmb Har Hok1 Hid) as (w'&b&Hrun&Hrd).
  set (s' := MkSlot _ _ _ _ _) in Hrun.
  exists w', (published m idx s'). split; [|by eapply published_effect].
  apply try_catch_Ret. erewrite bind_Ret by (eapply lift_fst_run; exact Hrun).
  unfold warm_publish, modify. cbn [fst snd wg_slot]. do 3 f_equal.
  unfold published, set_write_index, set_local_seq, put_slot, set_ring. simpl. by rewrite list_insert_insert_eq.
Qed.

(** ** Cleaning up *)

(** [w'] is [w] with some of the mappings of the pages [ps] gone. *)
Record thinned (w w' : world) (ps : list Page) : Prop := {
  th_files : w_files w' = w_files w;
  th_maps b : b ∉ base_of <$> ps → w_maps w' !! b = w_maps w !! b
}.

Lemma slot_ok_thinned w w' c p m ps s :
  64 ≤ page_size_ c → thinned w w' ps → (∀ q, q ∈ warm_page m s → base_of q ∉ base_of <$> ps) →
  slot_ok w c p s → slot_ok w' c p s.
Proof.
  intros Hsz [Hf Hmaps] Hd. apply slot_ok_carry; [done|reflexivity|..].
  - intros id _. apply header_ok_agree. intros i _. by apply fbyte_files.
  - intros pa. by rewrite (file_size_files w w').
  - intros b mp Ho Ha Hm. rewrite Hmaps; [done|].
    apply (Hd (MkPage (wm_location m) (wm_dest_id m) (sl_page_id s) true (sl_size s) (Ptr b 0) true)).
    unfold warm_page. rewrite Ho, Ha. by left.
Qed.

(** What the loop leaves of the slots. *)
Record cleaned (w w' : world) (c : writer_config) (p : Z) (m : warmer) (ring ring' : list PageSlot) : Prop := {
  cl_thinned : thinned w w' (ring ≫= warm_page m);
  cl_length : length ring' = length ring;
  cl_slots : Forall (slot_ok w' c p) ring';
  cl_sub : ring' ≫= warm_page m ⊆ ring ≫= warm_page m;
  cl_live : pages_live w' (ring' ≫= warm_page m)
}.

Lemma cleanup_slot_run threshold c p m s w :
  slot_ok w c p s → pages_live w (warm_page m s) →
  ∃ s' w1, cleanup_slot threshold s w = (Ret s', w1) ∧ thinned w w1 (warm_page m s) ∧ slot_ok w1 c p s' ∧
    warm_page m s' ⊆ warm_page m s ∧ pages_live w1 (warm_page m s').
Proof.
  intros Hs Hlive. unfold cleanup_slot. destruct (_ && _) eqn:Hcond; [|by exists s, w].
  apply andb_true_iff in Hcond as [H0' _]. apply Z.leb_le in H0'.
  destruct Hs as [[_ ?]|[Ho _ (b&Ha&_) _]]; [lia|]. unfold warm_page at 1. rewrite Ho, Ha.
  destruct (unmap_run w b false NONE) as (ok&w1&Hrun&Hf&_&_&Hm).
  eexists _, w1. split; [by erewrite bind_Ret by exact Hrun|]. split_and!.
  - split; [done|]. intros b' Hb'. rewrite Hm, lookup_delete_ne; [done|]. intros <-.
    apply Hb'. by left.
  - left. simpl. split; [done|lia].
  - set_solver.
  - split; [apply NoDup_nil_2|by constructor].
Qed.

Lemma cleanup_slots_run threshold c p m ring w :
  64 ≤ page_size_ c → Forall (slot_ok w c p) ring → pages_live w (ring ≫= warm_page m) →
  ∃ ring' w', cleanup_slots threshold ring w = (Ret ring', w') ∧ cleaned w w' c p m ring ring'.
Proof.
  intros Hsz. revert w; induction ring as [|s ring IH]; intros w Hok Hlive; cbn [cleanup_slots].
  { exists [], w. split; [done|]. by split. }
  apply Forall_cons in Hok as [Hs Hok]. rewrite bind_cons in Hlive.
  assert (∀ q, q ∈ warm_page m s → base_of q ∉ base_of <$> (ring ≫= warm_page m)) as Hd.
  { intros q. by eapply pages_live_disjoint. }
  pose proof (pages_live_app _ _ _ Hlive) as [Hlive1 Hlive2].
  destruct (cleanup_slot_run threshold c p m s w Hs Hlive1) as (s'&w1&Hrun1&Hth1&Hok1&Hsub1&Hl1).
  assert (Forall (slot_ok w1 c p) ring) as Hok2.
  { apply Forall_forall. intros t Ht. eapply slot_ok_thinned; [done|exact Hth1| |by eapply (proj1 (Forall_forall _ _) Hok)].
    intros q Hq Hin. apply list_elem_of_fmap in Hin as (q'&Heq&Hq'). apply (Hd q' Hq'). rewrite <-Heq.
    apply list_elem_of_fmap_2, list_elem_of_bind. by exists t. }
  destruct (IH w1 Hok2) as (ring'&w2&Hrun2&[Hth2 Hlen Hok3 Hsub2 Hl2]).
  { eapply pages_live_carry; [|exact Hlive2]. intros q Hq. apply (th_maps _ _ _ Hth1).
    intros (q'&Heq&Hq')%list_elem_of_fmap. apply (Hd q' Hq'). rewrite <-Heq. by apply list_elem_of_fmap_2. }
  exists (s' :: ring'), w2. split.
  { erewrite bind_Ret by exact Hrun1. by erewrite bind_Ret by exact Hrun2. }
  assert (∀ q, q ∈ warm_page m s' → base_of q ∉ base_of <$> (ring ≫= warm_page m)) as Hd' by auto.
  split; [split|..]; rewrite ?bind_cons.
  - by rewrite (th_files _ _ _ Hth2), (th_files _ _ _ Hth1).
  - intros b Hb. rewrite fmap_app, not_elem_of_app in Hb. destruct Hb.
    by rewrite (th_maps _ _ _ Hth2), (th_maps _ _ _ Hth1).
  - simpl. by rewrite Hlen.
  - constructor; [|done]. by eapply slot_ok_thinned.
  - set_solver.
  - apply pages_live_join; [|done|].
    + eapply pages_live_carry; [|exact Hl1]. intros q Hq. by apply (th_maps _ _ _ Hth2), Hd'.
    + intros q Hq (q'&Heq&Hq')%list_elem_of_fmap. apply (Hd' q Hq). rewrite Heq.
      apply list_elem_of_fmap_2. by apply Hsub2.
Qed.

(** [cleanupOldPages] unmaps only pages nobody has claimed. *)
Lemma cleanupOldPages_run w r j m q :
  members w r j → pages_around w (wr_cfg r) j → page_warmer_ r = Some m →
  ∃ w' m', on_warmer (cleanupOldPages q) (w, r) = (Ret tt, (w', set_warmer (Some m') r)) ∧
    warm_effect w w' r m' j.
Proof.
  intros Hmb Har Hm. pose proof (members_size _ _ _ Hmb) as Hsz.
  pose proof (mb_warmer _ _ _ Hmb m Hm) as Hok. pose proof (mb_live _ _ _ Hmb) as Hlive.
  unfold warmed in Hlive. rewrite Hm in Hlive. change (from_option _ _ _) with (warm_pages m) in Hlive.
  assert (∀ q, q ∈ held r → base_of q ∉ base_of <$> warm_pages m) as Hd by (intros q'; by eapply pages_live_disjoint).
  apply pages_live_app in Hlive as [Hheld Hwarm].
  destruct (cleanup_slots_run (q - RingSize) (wr_cfg r) (aj_page j) m (wm_ring m) w)
    as (ring'&w'&Hrun&[Hth Hlen Hsl Hsub Hl]); [lia|apply Hok|exact Hwarm|].
  fold (warm_pages m) in Hsub, Hth. exists w', (set_ring ring' m). split.
  { eapply on_warmer_run; [exact Hm|]. unfold cleanupOldPages.
    erewrite (bind_Ret (gets snd)) by reflexivity. cbn [snd].
    by erewrite bind_Ret by (eapply lift_fst_run; exact Hrun). }
  assert (∀ b, b ∉ base_of <$> warm_pages m → b ∉ base_of <$> (ring' ≫= warm_page m)) as Hnotin.
  { intros b Hb (q'&->&Hq')%list_elem_of_fmap. by apply Hb, list_elem_of_fmap_2, Hsub. }
  split; [split|..].
  - intros pa i _. by apply fbyte_files, Hth.
  - intros pa. by rewrite (file_size_files w w') by apply Hth.
  - intros pa. rewrite (th_files _ _ _ Hth). by left.
  - intros id Hid. eapply page_ahead_same; [lia|intros i; by apply fbyte_files, Hth|
      by rewrite (th_files _ _ _ Hth)|by rewrite (file_size_files w w') by apply Hth|by apply (pa_ahead _ _ _ Har)].
  - intros q' mp Hq' Hmp. by rewrite (th_maps _ _ _ Hth) by by apply Hd.
  - destruct Hok. split; try done. simpl. by rewrite Hlen.
  - apply pages_live_join; [| |].
    + eapply pages_live_carry; [|exact Hheld]. intros q' Hq'. by apply (th_maps _ _ _ Hth), Hd.
    + by rewrite (warm_pages_bind m (set_ring ring' m)).
    + intros q' Hq'. rewrite (warm_pages_bind m (set_ring ring' m)) by done. by apply Hnotin, Hd.
  - intros b mp Hmp Hb. unfold page_bases, warmed in *. rewrite Hm, fmap_app, not_elem_of_app in Hb.
    destruct Hb as [Hb1 Hb2]. split; [by rewrite (th_maps _ _ _ Hth)|].
    change (held (set_warmer _ r)) with (held r). rewrite fmap_app, not_elem_of_app. split; [done|].
    change (b ∉ base_of <$> warm_pages (set_ring ring' m)).
    rewrite (warm_pages_bind m (set_ring ring' m)) by done. by apply Hnotin.
Qed.
End warming.
