(* ===== verification/Typed.v ===== *)
(** * Typed: the values keep their C++ types

    The model computes with unbounded integers and wraps where the code does.
    This file shows that the wrapping is complete: whatever a writer, its
    retire thread and its page warmer do, and however it ends, the files hold
    bytes, the writer's members stay values of the types they are declared
    with, its [const] members stay as they are, and the warmer's
    [std::array] keeps its length and its cursor stays inside.  The proofs
    are by the triples of [Isolation]. *)

From S2P Require Import Prelude Memory Frame Base Mmap Page Warmer Writer WriterState.
From S2P Require Import WriterSpec WarmSpec Warming Isolation ReaderSpec Resume EndToEnd.
From S2P Require Import Journal Reader.

(** ** Bytes *)

Definition typed_world (w : world) : Prop := ∀ pa i, in_u 8 (fbyte w pa i).
Abbreviation typed := (triple typed_world).

Lemma typed_files w w' : w_files w' = w_files w → typed_world w → typed_world w'.
Proof. intros Hf Hw pa i. rewrite (fbyte_files w) by done. apply Hw. Qed.

#[local] Transparent le_bytes le_val fbyte fbytes fwrite.

Lemma le_bytes_typed n v : 0 ≤ n → Forall (in_u 8) (le_bytes n v).
Proof. intros. unfold le_bytes. exact (Z_to_little_endian_bound n 8 v ltac:(lia) ltac:(lia)). Qed.

Lemma load_bytes_typed p n : typed (load_bytes p n) (λ bs, Forall (in_u 8) bs ∧ Z.of_nat (length bs) = Z.max 0 n).
Proof.
  intros w x w' Hw. unfold load_bytes. case_match; intros [= <- <-]; (split; [done|]); [|done..].
  intros bs [= <-]. split.
  - unfold fbytes. apply Forall_fmap, Forall_forall. intros i _. apply Hw.
  - unfold fbytes. rewrite length_fmap, length_seqZ. lia.
Qed.
Lemma load_typed n p : 0 ≤ n → typed (load n p) (in_u (8 * n)).
Proof.
  intros Hn. eapply triple_bind; [apply load_bytes_typed|]. intros bs [Hbs Hlen]. apply triple_val.
  pose proof (little_endian_to_Z_bound 8 bs ltac:(lia) Hbs) as Hb. unfold in_u, le_val.
  rewrite Z.max_r, Hlen in * by lia. by rewrite Z.mul_comm.
Qed.
Lemma store_bytes_typed p bs : Forall (in_u 8) bs → typed (store_bytes p bs) (λ _, True).
Proof.
  intros Hbs w x w' Hw. unfold store_bytes.
  destruct (locate w p _ true) as [pf|e|f]; intros [= <- <-]; (split; [|done]); [|done..].
  intros pa i. destruct (w_files w !! pf) as [f|] eqn:Hf.
  - rewrite fbyte_fwrite by eauto. case_bool_decide; [|apply Hw].
    destruct (bs !! Z.to_nat (i - p_off p)) eqn:E; [|done]. simpl. by eapply Forall_lookup_1.
  - pose proof (Hw pa i) as Hb. unfold fbyte, fwrite in *. simpl. rewrite lookup_alter.
    case_decide as E; [subst; by rewrite Hf|done].
Qed.
Lemma store_typed n p v : 0 ≤ n → typed (store n p v) (λ _, True).
Proof. intros. by apply store_bytes_typed, le_bytes_typed. Qed.
Lemma memset0_typed p n : typed (memset0 p n) (λ _, True).
Proof.
  intros w x w' Hw. unfold memset0. case_match; intros [= <- <-]; (split; [|done]); [|done..].
  intros pa i. rewrite fbyte_fzero. case_bool_decide; [done|apply Hw].
Qed.

(** What changes no byte. *)
Lemma gets_typed {A} (f : world → A) : typed (gets f) (λ _, True).
Proof. by apply triple_gets. Qed.
Lemma modify_typed f : (∀ w, w_files (f w) = w_files w) → typed (modify f) (λ _, True).
Proof. intros Hf. apply triple_modify. intros w. by apply typed_files. Qed.

(** What changes files other than by stores: no byte appears that was not
    there. *)
Lemma set_files_typed f :
  (∀ fs pa g, f fs !! pa = Some g → ∀ i, default 0 (f_data g !! i) = 0 ∨
     ∃ g', fs !! pa = Some g' ∧ default 0 (f_data g !! i) = default 0 (f_data g' !! i)) →
  typed (modify (set_files f)) (λ _, True).
Proof.
  intros Hf. apply triple_modify. intros w Hw pa i. unfold fbyte. simpl.
  destruct (f (w_files w) !! pa) as [g|] eqn:Hg; [|done].
  destruct (Hf _ _ _ Hg i) as [->|(g'&Hg'&->)]; [done|].
  specialize (Hw pa i). unfold fbyte in Hw. by rewrite Hg' in Hw.
Qed.

(** ** System calls *)

Section world.
Context `{Env} `{!EnvLaws}.

Lemma clock_typed : typed read_clock (in_s 64).
Proof.
  intros w x w' Hw [= <- <-]. split; [by eapply typed_files|]. intros a [= <-]. apply env_clock_range.
Qed.
Lemma errno_typed : typed syscall_errno (λ _, True).
Proof. intros w x w' Hw [= <- <-]. split; [by eapply typed_files|done]. Qed.
#[local] Hint Resolve clock_typed errno_typed gets_typed memset0_typed : isolation.

Lemma or_throw_typed c : typed (syscall_or_throw c) (λ _, True).
Proof. unfold syscall_or_throw. triple_tac. Qed.
Lemma ignored_typed : typed syscall_ignored (λ _, True).
Proof. unfold syscall_ignored. triple_tac. Qed.
#[local] Hint Resolve or_throw_typed ignored_typed : isolation.

Lemma open_typed pa : typed (open_creat pa) (λ _, True).
Proof.
  unfold open_creat. eapply triple_bind; [apply or_throw_typed|cbn beta; intros _ _].
  apply set_files_typed. intros fs pa' g Hg i. destruct (fs !! pa) eqn:E; [by eauto|].
  rewrite lookup_insert in Hg. case_decide; [|by eauto]. simplify_eq. by left.
Qed.
Lemma grow_typed pa size : typed (grow pa size) (λ _, True).
Proof.
  apply set_files_typed. intros fs pa' g Hg i. rewrite lookup_alter in Hg. right.
  case_decide; [subst|by eauto]. destruct (fs !! pa') eqn:E; simplify_eq/=. by eauto.
Qed.
Lemma truncate_typed pa size : typed (truncate pa size) (λ _, True).
Proof.
  apply set_files_typed. intros fs pa' g Hg i. rewrite lookup_alter in Hg.
  case_decide; [subst|by eauto]. destruct (fs !! pa') as [g'|] eqn:E; simplify_eq/=.
  destruct (filter _ (f_data g') !! i) eqn:Hi; [|by left]. right. exists g'. split; [done|].
  apply map_lookup_filter_Some in Hi as [-> _]. done.
Qed.
#[local] Hint Resolve open_typed grow_typed truncate_typed : isolation.

Lemma allocate_typed pa size : typed (allocate pa size) (λ _, True).
Proof. unfold allocate. triple_tac. Qed.
Lemma mmap_typed pa size wr : typed (mmap_shared pa size wr) (λ _, True).
Proof.
  intros w x w' Hw. unfold mmap_shared. case_match; intros [= <- <-]; (split; [by eapply typed_files|done]).
Qed.
Lemma munmap_typed p : typed (munmap p) (λ _, True).
Proof.
  unfold munmap. eapply triple_bind; [apply errno_typed|intros [e|] _]; triple_tac.
  eapply triple_bind; [by apply modify_typed|intros; apply triple_ret].
Qed.
#[local] Hint Resolve allocate_typed mmap_typed munmap_typed : isolation.

Lemma touch_typed n p : typed (touch_pages n p) (λ _, True).
Proof.
  revert p; induction n as [|n IH]; intros p; cbn [touch_pages]; [apply triple_ret|].
  eapply triple_bind; [apply load_bytes_typed|intros; apply IH].
Qed.
#[local] Hint Resolve touch_typed : isolation.
Lemma prefault_typed p size fresh : typed (prefault_buffer p size fresh) (λ _, True).
Proof. unfold prefault_buffer. triple_tac. Qed.
#[local] Hint Resolve prefault_typed : isolation.
Lemma loadMmapBuffer_typed pa size wr pf : typed (loadMmapBuffer pa size wr pf) (λ _, True).
Proof. unfold loadMmapBuffer, stat. triple_tac. Qed.
Lemma releaseMmapBuffer_typed a pf mode : typed (releaseMmapBuffer a pf mode) (λ _, True).
Proof. unfold releaseMmapBuffer. triple_tac. Qed.
End world.
#[export] Hint Resolve clock_typed errno_typed gets_typed memset0_typed or_throw_typed ignored_typed
  loadMmapBuffer_typed releaseMmapBuffer_typed : isolation.
#[export] Hint Extern 1 (triple typed_world (store _ _ _) _) => by apply store_typed : isolation.
#[export] Hint Extern 1 (triple typed_world (load _ _) _) => by apply load_typed : isolation.

(** ** Pages *)

Section page.
Context `{Env} `{!EnvLaws} `{ILocator} `{!LocatorLaws}.

Lemma getPagePath_typed loc dst id : typed (getPagePath loc dst id) (λ _, True).
Proof.
  intros w x w' Hw. unfold getPagePath. erewrite bind_Ret by apply makeLayoutDir_run.
  intros [= <- <-]. split; [by eapply typed_files|done].
Qed.
Lemma init_header_typed p n : typed (init_header p n) (λ _, True).
Proof. unfold init_header. triple_tac. Qed.
Lemma validate_header_typed p n : typed (validate_header p n) (λ _, True).
Proof. unfold validate_header. triple_tac. Qed.
#[local] Hint Resolve getPagePath_typed init_header_typed validate_header_typed : isolation.

Lemma Page_load_typed loc dst id wr pf : typed (Page_load loc dst id wr pf) (λ _, True).
Proof.
  unfold Page_load. cbv zeta. eapply triple_bind; [apply getPagePath_typed|cbn beta; intros pa _].
  eapply triple_bind.
  { apply triple_catch with (Q := λ _, True); [apply loadMmapBuffer_typed|intros; apply triple_throw]. }
  cbn beta. intros a _. triple_tac.
Qed.
Lemma loadFromAddress_typed loc dst id a pf : typed (loadFromAddress loc dst id a pf) (λ _, True).
Proof. unfold loadFromAddress. triple_tac. Qed.
Lemma Page_release_typed p : typed (Page_release p) (λ _, True).
Proof. unfold Page_release. apply triple_when. triple_tac. Qed.
Lemma firstFrameAddress_typed p : typed (firstFrameAddress p) (λ _, True).
Proof. unfold firstFrameAddress. triple_tac. Qed.
Lemma setLastFramePosition_typed p n : typed (setLastFramePosition p n) (λ _, True).
Proof. unfold setLastFramePosition. triple_tac. Qed.
#[local] Hint Resolve Page_release_typed : isolation.
Lemma release_all_typed ps : typed (release_all ps) (λ _, True).
Proof. induction ps; cbn [release_all]; triple_tac. Qed.
Lemma release_opt_typed p : typed (release_opt p) (λ _, True).
Proof. unfold release_opt. triple_tac. Qed.

(** What a frame's accessors return. *)
Lemma read_frame_typed v :
  in_u 16 (fv_msg_type v) →
  typed (read_frame v) (λ f, in_u 16 (fr_type f) ∧ in_u 16 (fr_flags f) ∧ in_u 64 (fr_seq f) ∧
    in_s 64 (fr_gen f) ∧ in_s 64 (fr_event f) ∧ Forall (in_u 8) (fr_payload f)).
Proof.
  intros Hty. unfold read_frame, getFlags, getSequence, getGenTime, getEventTime.
  eapply triple_bind; [by apply load_typed|cbn beta; intros flags Hfl].
  eapply triple_bind; [by apply load_typed|cbn beta; intros seq Hseq].
  eapply triple_bind with (Q := in_s 64).
  { eapply triple_bind; [by apply load_typed|intros; by apply triple_val, swrap_range]. }
  cbn beta. intros gen Hgen. eapply triple_bind with (Q := in_s 64).
  { eapply triple_bind; [by apply load_typed|intros; by apply triple_val, swrap_range]. }
  cbn beta. intros event Hev. eapply triple_bind; [apply load_bytes_typed|cbn beta; intros bs [Hbs _]].
  by apply triple_val.
Qed.
End page.
#[export] Hint Resolve getPagePath_typed Page_load_typed loadFromAddress_typed Page_release_typed
  firstFrameAddress_typed setLastFramePosition_typed release_all_typed release_opt_typed : isolation.
#[export] Hint Extern 1 (triple typed_world (setGenTime _ _) _) => by apply store_typed : isolation.
#[export] Hint Extern 1 (triple typed_world (setEventTime _ _) _) => by apply store_typed : isolation.
#[export] Hint Extern 1 (triple typed_world (setMsgType _ _) _) => by apply store_typed : isolation.
#[export] Hint Extern 1 (triple typed_world (setFlags _ _) _) => by apply store_typed : isolation.
#[export] Hint Extern 1 (triple typed_world (setSequence _ _) _) => by apply store_typed : isolation.

(** ** An object beside the world *)

Section object.
Context {S : Type} (ok : S → Prop).

Definition both (s : world * S) : Prop := typed_world s.1 ∧ ok s.2.

Lemma both_lift {A} (m : M world A) Q : typed m Q → triple both (lift_fst m) Q.
Proof.
  intros Hm [w r] x s' [Hw Hr]. unfold lift_fst. simpl. destruct (m w) as [y w'] eqn:E.
  intros [= <- <-]. destruct (Hm _ _ _ Hw E) as [Hw' HQ]. by split.
Qed.
Lemma both_object : triple both (gets snd) ok.
Proof. apply triple_gets. by intros s [_ ?]. Qed.
Lemma both_modify f : (∀ r, ok r → ok (f r)) → triple both (modify (λ s, (s.1, f s.2))) (λ _, True).
Proof. intros Hf. apply triple_modify. intros s [??]. split; simpl; auto. Qed.
End object.
#[export] Hint Resolve both_lift both_object : isolation.

(** ** The warmer *)

Record typed_warmer (m : warmer) : Prop := {
  tw_ring : Z.of_nat (length (wm_ring m)) = RingSize;
  tw_read : 0 ≤ wm_read_index m < RingSize;
  tw_write : in_u 64 (wm_write_index m);
  tw_seq : in_u 64 (wm_local_seq m);
  tw_page : in_s 64 (wm_current_page m)
}.

Lemma put_slot_typed i s m : typed_warmer m → typed_warmer (put_slot i s m).
Proof. intros []. split; [|done..]. unfold put_slot. simpl. by rewrite length_insert. Qed.

Lemma set_local_seq_typed i m : typed_warmer m → typed_warmer (set_local_seq (u64 i) m).
Proof. intros []. split; try done. by apply wrap_range. Qed.
Lemma set_write_index_typed i m : typed_warmer m → typed_warmer (set_write_index (u64 i) m).
Proof. intros []. split; try done. by apply wrap_range. Qed.

Lemma getWarmedPage_typed page_id m res m' :
  getWarmedPage page_id m = (res, m') → typed_warmer m → typed_warmer m'.
Proof.
  unfold getWarmedPage. generalize (Z.to_nat RingSize) as n, 0 as i, (wm_read_index m) as s.
  induction n as [|n IH]; intros i s; cbn [getWarmedPage_from]; [by intros [= <- <-]|].
  cbv zeta. destruct (_ =? _); [|apply IH]. clear IH. intros [= <- <-] Hm.
  destruct (put_slot_typed (ring_index (s + i))
    (MkSlot (-1) (sl_address (slot_at m (ring_index (s + i)))) (sl_size (slot_at m (ring_index (s + i))))
      (sl_sequence (slot_at m (ring_index (s + i)))) false) m Hm) as [].
  split; try done. simpl. change (RingSize - 1) with (Z.ones 4). rewrite Z.land_ones by lia.
  by apply Z.mod_pos_bound.
Qed.

Section warmer.
Context `{Env} `{!EnvLaws} `{ILocator} `{!LocatorLaws}.
Abbreviation keeps := (triple (both typed_warmer)).

Lemma release_slots_typed ring :
  typed (release_slots ring) (λ ring', length ring' = length ring).
Proof.
  induction ring as [|s ring IH]; cbn [release_slots]; [by apply triple_val|].
  eapply triple_bind; [by triple_tac|cbn beta; intros s' _].
  eapply triple_bind; [apply IH|cbn beta; intros ring' Hr]. apply triple_val. simpl. by rewrite Hr.
Qed.
Lemma cleanup_slots_typed t ring : typed (cleanup_slots t ring) (λ ring', length ring' = length ring).
Proof.
  induction ring as [|s ring IH]; cbn [cleanup_slots]; [by apply triple_val|].
  eapply triple_bind; [by unfold cleanup_slot; triple_tac|cbn beta; intros s' _].
  eapply triple_bind; [apply IH|cbn beta; intros ring' Hr]. apply triple_val. simpl. by rewrite Hr.
Qed.

Lemma warm_header_typed a n : typed (warm_header a n) (λ _, True).
Proof. unfold warm_header. triple_tac. Qed.
#[local] Hint Resolve warm_header_typed : isolation.
Lemma warm_look_typed m page_id : typed (warm_look m page_id) (λ _, True).
Proof. unfold warm_look. triple_tac. Qed.
Lemma warm_map_typed m look : typed (warm_map m look) (λ _, True).
Proof. unfold warm_map. triple_tac. Qed.
#[local] Hint Resolve warm_look_typed warm_map_typed : isolation.
Lemma warmPageIntoSlot_typed m page_id seq : typed (warmPageIntoSlot m page_id seq) (λ _, True).
Proof. unfold warmPageIntoSlot. triple_tac. Qed.

Lemma warm_claim_typed p i : keeps (warm_claim p i) (λ _, True).
Proof.
  unfold warm_claim. eapply triple_bind; [apply both_object|cbn beta zeta; intros m Hm].
  case_match; [apply triple_ret|]. case_match; [apply triple_ret|].
  eapply triple_bind; [|intros; apply triple_ret].
  apply (both_modify typed_warmer (λ m', set_local_seq _ (put_slot _ _ m'))).
  intros r Hr. by apply set_local_seq_typed, put_slot_typed.
Qed.
Lemma warm_publish_typed g s : keeps (warm_publish g s) (λ _, True).
Proof.
  apply (both_modify typed_warmer (λ m, set_write_index (u64 (wm_write_index m + 1)) (put_slot _ _ m))).
  intros r Hr. by apply set_write_index_typed, put_slot_typed.
Qed.
Lemma warm_fail_typed g : keeps (warm_fail g) (λ _, True).
Proof.
  apply (both_modify typed_warmer (λ m, let slot := slot_at m (wg_slot g) in put_slot (wg_slot g)
    (MkSlot (-1) (sl_address slot) (sl_size slot) (sl_sequence slot) (sl_owned slot)) m)).
  intros r. apply put_slot_typed.
Qed.

Lemma warm_next_typed p i : keeps (warm_next p i) (λ _, True).
Proof.
  unfold warm_next. eapply triple_bind; [apply warm_claim_typed|cbn beta; intros [g|] _]; [|apply triple_ret].
  eapply triple_bind; [apply both_object|cbn beta; intros m _].
  apply triple_catch; [|intros; apply warm_fail_typed].
  eapply triple_bind; [apply both_lift, warmPageIntoSlot_typed|intros; apply warm_publish_typed].
Qed.
Lemma cleanupOldPages_typed p : keeps (cleanupOldPages p) (λ _, True).
Proof.
  unfold cleanupOldPages. intros [w m] x s' Hs. destruct (Hs) as [Hw Hm].
  rewrite (bind_Ret (gets snd) _ (w, m) m (w, m)) by reflexivity. unfold bind, lift_fst. simpl.
  destruct (cleanup_slots _ _ _) as [y w'] eqn:E. destruct (cleanup_slots_typed _ _ _ _ _ Hw E) as [Hw' HQ].
  destruct y as [ring|e|f]; intros [= <- <-]; (split; [|done]); (split; [done|]); [|done..].
  destruct Hm. split; try done. simpl. by rewrite (HQ ring).
Qed.
End warmer.

(** ** The writer *)

(** Its [const] members are [c], its counters fit [uint64_t] and [int]. *)
Record typed_writer (c : writer_config) (r : writer) : Prop := {
  ty_cfg : wr_cfg r = c;
  ty_seq : in_u 64 (current_sequence_ r);
  ty_page : in_s 32 (current_page_id_ r);
  ty_warmer : ∀ m, page_warmer_ r = Some m → typed_warmer m
}.

Section writer.
Context `{Env} `{!EnvLaws} `{ILocator} `{!LocatorLaws} (c : writer_config).
Abbreviation keeps := (triple (both (typed_writer c))).

Lemma io_types {A} (m : M world A) Q : typed m Q → keeps (io m) Q.
Proof. apply both_lift. Qed.
Lemma this_types : keeps this (typed_writer c).
Proof. apply both_object. Qed.
Lemma update_types f : (∀ r, typed_writer c r → typed_writer c (f r)) → keeps (update f) (λ _, True).
Proof. apply both_modify. Qed.
(** Updates of the other members. *)
Lemma update_other f :
  (∀ r, wr_cfg (f r) = wr_cfg r ∧ current_sequence_ (f r) = current_sequence_ r ∧
        current_page_id_ (f r) = current_page_id_ r ∧ page_warmer_ (f r) = page_warmer_ r) →
  keeps (update f) (λ _, True).
Proof.
  intros Hf. apply update_types. intros r []. destruct (Hf r) as (E1&E2&E3&E4).
  split; rewrite ?E1, ?E2, ?E3, ?E4; auto.
Qed.
Lemma the_page_types : keeps the_page (λ _, True).
Proof. intros [w r] x s' Hs. unfold the_page. case_match; by intros [= <- <-]. Qed.
Lemma acquire_types : keeps acquire_lock (λ _, True).
Proof.
  intros [w r] x s' [Hw [????]]. unfold acquire_lock. case_match; intros [= <- <-]; (split; [|done]); (split; [done|]); by split.
Qed.
#[local] Hint Resolve io_types this_types the_page_types acquire_types : isolation.
#[local] Hint Extern 2 (triple (both (typed_writer _)) (update _) _) =>
  apply update_other; intros; split_and!; reflexivity : isolation.

Lemma release_types : keeps release_lock (λ _, True).
Proof. unfold release_lock. triple_tac. Qed.
Lemma nextSeq_types : keeps nextSeq (λ _, True).
Proof.
  unfold nextSeq. eapply triple_bind; [apply this_types|cbn beta zeta; intros r _].
  eapply triple_bind; [|intros; apply triple_ret]. apply update_types. intros r' []. split; try done.
  by apply wrap_range.
Qed.
Lemma set_page_id_types n : keeps (update (set_page_id (s32 n))) (λ _, True).
Proof. apply update_types. intros r []. split; try done. by apply swrap_range. Qed.
#[local] Hint Resolve release_types nextSeq_types set_page_id_types : isolation.

Lemma retire_overflow_types n : keeps (retire_overflow n) (λ _, True).
Proof.
  induction n as [|n IH]; cbn [retire_overflow]; [apply triple_ret|].
  eapply triple_bind; [apply this_types|cbn beta; intros r _].
  case_match; [|apply triple_ret]. destruct (retired_pages_ r) as [|old rest]; [apply triple_ret|]. triple_tac.
Qed.

Lemma next_page_types id : in_s 32 id → keeps (next_page id) (λ _, True).
Proof.
  intros Hid. unfold next_page. eapply triple_bind; [apply this_types|cbn beta zeta; intros r Hr].
  destruct (page_warmer_ r) as [m|] eqn:Hm; [|apply io_types, Page_load_typed].
  destruct (getWarmedPage id m) as [warmed m'] eqn:Hg.
  pose proof (getWarmedPage_typed _ _ _ _ Hg (ty_warmer _ _ Hr m Hm)) as Hm'.
  eapply triple_bind.
  { apply update_types. intros r' []. split; try done. intros ? [= <-]. done. }
  cbn beta. intros _ _. eapply triple_bind with (Q := λ _, True).
  { destruct warmed as [[a n]|]; apply io_types; [apply loadFromAddress_typed|apply Page_load_typed]. }
  cbn beta. intros p _. eapply triple_bind; [|intros; apply triple_ret].
  apply update_types. intros r' [????]. split; try done. intros m1. simpl.
  destruct (page_warmer_ r') as [m2|] eqn:E; [|done]. intros [= <-].
  destruct (ty_warmer0 m2 eq_refl). split; try done. unfold in_s in *. simpl. lia.
Qed.

Lemma write_PageEnd_types p : keeps (write_PageEnd p) (λ _, True).
Proof. unfold write_PageEnd. triple_tac. Qed.
#[local] Hint Resolve retire_overflow_types write_PageEnd_types : isolation.
Lemma finish_page_types p : keeps (finish_page p) (λ _, True).
Proof.
  unfold finish_page. eapply triple_bind; [apply this_types|cbn beta zeta; intros r _].
  eapply triple_bind; [by case_match; eauto with isolation|cbn beta; intros _ _].
  eapply triple_bind; [apply triple_catch; eauto with isolation|cbn beta; intros _ _]. triple_tac.
Qed.
#[local] Hint Resolve finish_page_types : isolation.
Lemma rotatePage_types : keeps rotatePage (λ _, True).
Proof.
  unfold rotatePage. eapply triple_bind; [apply this_types|cbn beta zeta; intros r _].
  eapply triple_bind; [apply set_page_id_types|cbn beta; intros _ _].
  eapply triple_bind; [by apply next_page_types, swrap_range|cbn beta; intros next _].
  eapply triple_bind with (Q := λ _, True); [case_match; triple_tac|cbn beta; intros _ _]. triple_tac.
Qed.
#[local] Hint Resolve rotatePage_types : isolation.

Lemma openFrame_types ts ty n flags : keeps (openFrame ts ty n flags) (λ _, True).
Proof. unfold openFrame, new_frame. triple_tac. Qed.
Lemma closeFrame_types h n : keeps (closeFrame h n no_hook) (λ _, True).
Proof. unfold closeFrame, no_hook. triple_tac. Qed.
Lemma ensure_page_types : keeps ensure_page (λ _, True).
Proof. unfold ensure_page. triple_tac. Qed.
#[local] Hint Resolve openFrame_types closeFrame_types ensure_page_types : isolation.

Lemma with_lock_types {A} (m : W A) : keeps m (λ _, True) → keeps (with_lock m) (λ _, True).
Proof.
  intros Hm. unfold with_lock. eapply triple_bind; [apply this_types|cbn beta; intros r _].
  case_match; [|done]. eapply triple_bind; [apply acquire_types|cbn beta; intros _ _].
  eapply triple_bind; [apply triple_catch; [exact Hm|]|].
  - intros e. eapply triple_bind; [apply release_types|intros; apply triple_throw].
  - cbn beta. intros a _. eapply triple_bind; [apply release_types|intros; apply triple_ret].
Qed.
Lemma writeBytes_types ts ty data : Forall (in_u 8) data → keeps (writeBytes ts ty data) (λ _, True).
Proof.
  intros Hd. apply with_lock_types. eapply triple_bind; [apply ensure_page_types|cbn beta zeta; intros _ _].
  eapply triple_bind; [apply openFrame_types|cbn beta; intros h _].
  eapply triple_bind; [|intros; apply closeFrame_types].
  by apply triple_when, io_types, store_bytes_typed.
Qed.
Lemma openData_types n ts ty flags : keeps (openData n ts ty flags) (λ _, True).
Proof.
  unfold openData. eapply triple_bind; [apply this_types|cbn beta; intros r _].
  eapply triple_bind; [apply triple_when, acquire_types|cbn beta; intros _ _]. triple_tac.
Qed.
Lemma closeData_types n : keeps (closeData n no_hook) (λ _, True).
Proof.
  unfold closeData. eapply triple_bind; [apply this_types|cbn beta zeta; intros r _].
  destruct (open_frame_header_ r) as [h|].
  - eapply triple_bind; [apply triple_catch; [triple_tac|]|cbn beta; intros; apply triple_when, release_types].
    intros e. eapply triple_bind; [apply triple_when, release_types|intros; apply triple_throw].
  - eapply triple_bind; [apply triple_when, release_types|intros; apply triple_throw].
Qed.
Lemma retire_step_types : keeps retire_step (λ _, True).
Proof.
  unfold retire_step. eapply triple_bind; [apply this_types|cbn beta; intros r _].
  destruct (retire_queue_ r); triple_tac.
Qed.
Lemma JournalWriter_release_types : keeps JournalWriter_release (λ _, True).
Proof.
  unfold JournalWriter_release. eapply triple_bind; [apply this_types|cbn beta; intros r _].
  eapply triple_bind with (Q := λ _, True).
  { destruct (page_warmer_ r) as [m|]; [|apply triple_ret].
    eapply triple_bind; [apply io_types; unfold PageWarmer_release, releaseAllPages|].
    - eapply triple_bind; [apply release_slots_typed|intros; apply triple_ret].
    - cbn beta. intros. apply update_types. intros r' []. by split. }
  cbn beta. intros _ _. tstep. tstep.
  eapply triple_bind with (Q := λ _, True); [apply triple_when|cbn beta; intros _ _]; triple_tac.
Qed.
Lemma on_warmer_types (op : M (world * warmer) unit) :
  triple (both typed_warmer) op (λ _, True) → keeps (on_warmer op) (λ _, True).
Proof.
  intros Hop [w r] x s' [Hw Hr]. unfold on_warmer. simpl in *.
  destruct (page_warmer_ r) as [m|] eqn:Em; [|by intros [= <- <-]].
  destruct (op (w, m)) as [y [w' m']] eqn:E. intros [= <- <-]. destruct Hr as [? ? ? Hm].
  destruct (Hop (w, m) _ _ (conj Hw (Hm m Em)) E) as [[Hw' Hm'] _].
  split; [|done]. split; [done|]. split; try done. by intros ? [= <-].
Qed.

(** ** Construction *)

Lemma findLastWrittenPage_loop_typed fuel p :
  typed (findLastWrittenPage_loop fuel c p) (λ x, x = 0 ∨ 0 < x ≤ p).
Proof.
  revert p. induction fuel as [|fuel IH]; intros p; cbn [findLastWrittenPage_loop]; [apply triple_crash|].
  case_match eqn:Hp; [|apply triple_val; by left]. apply Z.ltb_lt in Hp.
  eapply triple_bind with (Q := λ _, True).
  { apply triple_catch; [triple_tac|intros; apply triple_ret]. }
  cbn beta. intros [] _; [apply triple_val; right; lia|].
  eapply triple_conseq; [apply IH|]. intros x [?|?]; [by left|right; lia].
Qed.

Lemma findLastWrittenPage_typed w x w' :
  in_u 32 (dest_id_ c) → only_pages w (layoutDir (location_ c) JOURNAL) → typed_world w →
  findLastWrittenPage c w = (x, w') → typed_world w' ∧ ∀ p, x = Ret p → in_s 32 p.
Proof.
  intros Hd Hop Hw. destruct (listPageId_run w (location_ c) (dest_id_ c) Hd Hop) as (ids&Hrun&_&_&Hids).
  unfold findLastWrittenPage. erewrite bind_Ret by exact Hrun.
  assert (typed_world (set_dirs ({[layoutDir (location_ c) JOURNAL]} ∪.) w)) as Hw1 by by eapply typed_files.
  destruct (last ids) as [p|] eqn:Hl; [|intros [= <- <-]; split; [done|by intros ? [= <-]]].
  intros Hloop. destruct (findLastWrittenPage_loop_typed _ _ _ _ _ Hw1 Hloop) as [Hw' HQ].
  split; [done|]. intros q Hq. destruct (proj1 (Hids p)) as [Hp _].
  { by apply last_Some_elem_of. }
  unfold in_s. destruct (HQ q Hq); lia.
Qed.

Lemma findLastSequence_typed fuel n a e l : typed (findLastSequence_loop fuel n a e l) (λ _, True).
Proof.
  revert a l. induction fuel as [|fuel IH]; intros a l; cbn [findLastSequence_loop]; [apply triple_crash|].
  case_match; [|apply triple_ret]. eapply triple_bind; [by apply load_typed|cbn beta zeta; intros len _].
  case_match; [apply triple_ret|]. case_match; [apply triple_ret|].
  eapply triple_bind; [by apply load_typed|cbn beta zeta; intros seq _].
  eapply triple_bind with (Q := λ _, True); [repeat case_match; triple_tac|cbn beta; intros _ _].
  eapply triple_bind; [by apply load_typed|cbn beta; intros ty _]. case_match; [apply triple_ret|apply IH].
Qed.
Lemma findLastSequenceNumber_typed p : typed (findLastSequenceNumber c p) (λ _, True).
Proof.
  unfold findLastSequenceNumber. case_match; [apply triple_ret|]. apply triple_catch; [|intros; apply triple_ret].
  eapply triple_bind; [apply Page_load_typed|cbn beta; intros page _].
  eapply triple_bind; [apply firstFrameAddress_typed|cbn beta zeta; intros a _].
  eapply triple_bind; [apply findLastSequence_typed|cbn beta; intros l _]. triple_tac.
Qed.
Lemma loadInitialPage_types : keeps loadInitialPage (λ _, True).
Proof. unfold loadInitialPage. triple_tac. Qed.

Lemma new_warmer_typed d p : in_s 32 p → typed_warmer (first_warmer c d p).
Proof. intros Hp. split; simpl; try done. unfold in_s in *. lia. Qed.

(** The body of the constructor after the search for the last page. *)
Definition ctor_rest (o : JournalWriterOptions) (last_page_id : Z) : W unit :=
  do! when (0 <? last_page_id)
    (do! update (set_page_id last_page_id) in
     let! last_seq := io (findLastSequenceNumber c last_page_id) in
     update (set_sequence (u64 (last_seq + 1)))) in
  do! loadInitialPage in
  do! when (0 <? opt_warmup_pages o)
    (do! throw_if (kWriterPageWarmerRingSize <? opt_warmup_pages o) InvalidArgument in
     let! r := this in
     update (set_warmer (Some (first_warmer c (opt_warmup_pages o) (current_page_id_ r))))) in
  when (background_threads_ c) (update (set_retire_running true)).

Lemma ctor_rest_types o last_page_id : in_s 32 last_page_id → keeps (ctor_rest o last_page_id) (λ _, True).
Proof.
  intros Hl. eapply triple_bind with (Q := λ _, True); [apply triple_when|cbn beta; intros _ _].
  - eapply triple_bind; [apply update_types; intros r []; by split|cbn beta; intros _ _].
    eapply triple_bind; [apply io_types, findLastSequenceNumber_typed|cbn beta; intros seq _].
    apply update_types. intros r []. split; try done. by apply wrap_range.
  - eapply triple_bind; [apply loadInitialPage_types|cbn beta; intros _ _].
    eapply triple_bind with (Q := λ _, True); [apply triple_when|cbn beta; intros _ _; triple_tac].
    eapply triple_bind; [apply triple_throw_if|cbn beta; intros _ _].
    eapply triple_bind; [apply this_types|cbn beta; intros r Hr].
    apply update_types. intros r' []. split; try done. intros m. simpl. intros [= <-].
    apply new_warmer_typed, Hr.
Qed.
End writer.

Section calls.
Context `{Env} `{!EnvLaws} `{ILocator} `{!LocatorLaws}.

Lemma ctor_typed w ser location dest_id o r w1 :
  in_u 32 dest_id → only_pages w (layoutDir location JOURNAL) → typed_world w →
  JournalWriter_ctor ser location dest_id o w = (Ret r, w1) →
  typed_world w1 ∧ typed_writer (ctor_cfg ser location dest_id o) r.
Proof.
  intros Hd Hop Hw. set (c := ctor_cfg ser location dest_id o). unfold JournalWriter_ctor.
  set (r0 := initial_writer ser location dest_id o).
  assert (ctor_body o (w, r0) = bind (io (findLastWrittenPage c)) (ctor_rest c o) (w, r0)) as -> by reflexivity.
  assert (typed_writer c r0) as Hr0 by by split.
  destruct (findLastWrittenPage c w) as [y w0] eqn:E.
  destruct (findLastWrittenPage_typed c w y w0 Hd Hop Hw E) as [Hw0 Hp].
  unfold bind at 1, io at 1, lift_fst at 1. cbn [fst snd]. rewrite E.
  destruct y as [p|e|f]; [|by intros Hc; repeat case_match; simplify_eq|done].
  destruct (ctor_rest c o p (w0, r0)) as [z [w2 r2]] eqn:Eb.
  destruct (ctor_rest_types c o p (Hp p eq_refl) (w0, r0) _ _ (conj Hw0 Hr0) Eb) as [[Hw2 Hr2] _].
  destruct z as [[]|e|f]; [by intros [= <- <-]| |done].
  unfold bind, throw. repeat case_match; done.
Qed.

(** What the application, the retire thread and the page warmer do. *)
Inductive typed_call : W unit → Prop :=
  | tc_write ts ty data : Forall (in_u 8) data → typed_call (writeBytes ts ty data)
  | tc_mark ts ty : typed_call (mark ts ty)
  | tc_open n ts ty flags : typed_call (do! openData n ts ty flags in ret tt)
  | tc_store p bs : Forall (in_u 8) bs → typed_call (io (store_bytes p bs))
  | tc_close n : typed_call (closeData n no_hook)
  | tc_retire : typed_call retire_step
  | tc_warm q i : typed_call (on_warmer (warm_next q i))
  | tc_clean q : typed_call (on_warmer (cleanupOldPages q))
  | tc_release : typed_call JournalWriter_release.

Lemma typed_call_types c m : typed_call m → triple (both (typed_writer c)) m (λ _, True).
Proof.
  intros [ts ty data Hd|ts ty|n ts ty flags|p bs Hbs|n| |q i|q|].
  - by apply writeBytes_types.
  - apply with_lock_types. eapply triple_bind; [apply ensure_page_types|cbn beta; intros _ _].
    eapply triple_bind; [apply openFrame_types|intros; apply closeFrame_types].
  - eapply triple_bind; [apply openData_types|intros; apply triple_ret].
  - by apply io_types, store_bytes_typed.
  - apply closeData_types.
  - apply retire_step_types.
  - apply on_warmer_types, warm_next_typed.
  - apply on_warmer_types, cleanupOldPages_typed.
  - apply JournalWriter_release_types.
Qed.

(** One call after the other, however each of them ends. *)
Definition after_call (s s' : world * writer) : Prop := ∃ m x, typed_call m ∧ m s = (x, s').

Lemma calls_typed c s s' :
  rtc after_call s s' → both (typed_writer c) s → both (typed_writer c) s'.
Proof.
  induction 1 as [|s s1 s' (m&x&Hm&Hrun) _ IH]; [done|]. intros Hs. apply IH.
  by destruct (typed_call_types c m Hm s x s1 Hs Hrun).
Qed.
End calls.

