(* ===== verification/Live.v ===== *)
(** * Live: one writer and any number of readers at the same time

    The processes share nothing but the page files and the table of mappings;
    each call of the library is one step.  [step] interleaves the writer's
    calls -- a whole [writeBytes], or [openData], the application's stores and
    [closeData] as three steps, with readers looking at the half-built frame
    in between -- its retire thread, its page warmer, readers that join at any
    time, read, and have retire threads and warmer threads of their own.  The
    invariant says what every reader has been given and has still to get.

    The warmer looks for a page's file, maps it and initialises it in one step
    here.  [Scenarios.warmer_erases_frames] shows what a writer between these
    parts can lose. *)

From S2P Require Import Prelude Memory Frame Base Mmap Page Warmer Writer WriterState.
From S2P Require Import WriterSpec WriterApi Journal Reader JournalSpec ReaderSpec Extend.
From S2P Require Import Resume EndToEnd Isolation ReaderIsolation WarmSpec Warming ReadAhead.

(** Where the writer is between its calls. *)
Inductive phase :=
  | Idle
  | Opened (m : message) (payload : ptr)    (* [openData] has returned *)
  | Filled (m : message).                   (* the payload is stored *)

Record system := Sys {
  sy_world : world;
  sy_writer : writer;
  sy_phase : phase;
  sy_sent : list message;                   (* committed so far *)
  sy_readers : list (reader * list frame)   (* each with what it was given *)
}.

Inductive action :=
  | AWrite (m : message)
  | AOpen (m : message)
  | AFill
  | AClose
  | ARetire
  | AWarm (q i : Z)                         (* the warmer saw page [q], prepares [q + i] *)
  | AClean (q : Z)
  | AJoin (o : JournalReaderOptions)
  | ARead (i : nat)
  | AReap (i : nat)
  | AAhead (i : nat).                       (* a reader's warmer thread takes a turn *)

Definition ms_size (m : message) : Z := Z.of_nat (length (ms_data m)).

Section live.
Context `{Env} `{ILocator} `{PriorityQueue}.

Inductive step : system → action → system → Prop :=
  | step_write m w r w' r' sent rds :
      message_ok (page_size_ (wr_cfg r)) m →
      writeBytes (ms_time m) (ms_type m) (ms_data m) (w, r) = (Ret tt, (w', r')) →
      step (Sys w r Idle sent rds) (AWrite m) (Sys w' r' Idle (sent ++ [m]) rds)
  | step_open m w r w' r' p sent rds :
      message_ok (page_size_ (wr_cfg r)) m →
      openData (ms_size m) (ms_time m) (ms_type m) FRAME_NORMAL (w, r) = (Ret p, (w', r')) →
      step (Sys w r Idle sent rds) (AOpen m) (Sys w' r' (Opened m p) sent rds)
  | step_fill m p w r w' r' sent rds :
      when (0 <? ms_size m) (io (store_bytes p (ms_data m))) (w, r) = (Ret tt, (w', r')) →
      step (Sys w r (Opened m p) sent rds) AFill (Sys w' r' (Filled m) sent rds)
  | step_close m w r w' r' sent rds :
      closeData (ms_size m) no_hook (w, r) = (Ret tt, (w', r')) →
      step (Sys w r (Filled m) sent rds) AClose (Sys w' r' Idle (sent ++ [m]) rds)
  | step_retire w r w' r' ph sent rds :
      retire_step (w, r) = (Ret tt, (w', r')) →
      step (Sys w r ph sent rds) ARetire (Sys w' r' ph sent rds)
  | step_warm q i w r w' r' ph sent rds :
      1 ≤ q ≤ current_page_id_ r → 1 ≤ i ≤ RingSize / 2 →
      on_warmer (warm_next q i) (w, r) = (Ret tt, (w', r')) →
      step (Sys w r ph sent rds) (AWarm q i) (Sys w' r' ph sent rds)
  | step_clean q w r w' r' ph sent rds :
      on_warmer (cleanupOldPages q) (w, r) = (Ret tt, (w', r')) →
      step (Sys w r ph sent rds) (AClean q) (Sys w' r' ph sent rds)
  | step_join o w r w' d ph sent rds :
      join 1 (location_ (wr_cfg r)) (dest_id_ (wr_cfg r)) 0 (w, JournalReader_ctor o) =
        (Ret tt, (w', d)) →
      step (Sys w r ph sent rds) (AJoin o) (Sys w' r ph sent (rds ++ [(d, [])]))
  | step_read i d got x w r w' d' ph sent rds :
      rds !! i = Some (d, got) → nextStatic read_frame (w, d) = (Ret x, (w', d')) →
      step (Sys w r ph sent rds) (ARead i)
        (Sys w' r ph sent (<[i := (d', got ++ option_list x)]> rds))
  | step_reap i d got w r w' d' ph sent rds :
      rds !! i = Some (d, got) → on_journal 0 jretire_step (w, d) = (Ret tt, (w', d')) →
      step (Sys w r ph sent rds) (AReap i) (Sys w' r ph sent (<[i := (d', got)]> rds))
  | step_ahead i d got w r w' d' ph sent rds :
      rds !! i = Some (d, got) → on_journal 0 warmer_turn (w, d) = (Ret tt, (w', d')) →
      step (Sys w r ph sent rds) (AAhead i) (Sys w' r ph sent (<[i := (d', got)]> rds)).

(** What can be asked for: one frame at a time, of a size a page can hold. *)
Definition enabled (s : system) (a : action) : Prop :=
  match a with
  | AWrite m | AOpen m => sy_phase s = Idle ∧ message_ok (page_size_ (wr_cfg (sy_writer s))) m
  | AFill => ∃ m p, sy_phase s = Opened m p
  | AClose => ∃ m, sy_phase s = Filled m
  | AWarm q i => is_Some (page_warmer_ (sy_writer s)) ∧
      1 ≤ q ≤ current_page_id_ (sy_writer s) ∧ 1 ≤ i ≤ RingSize / 2
  | AClean _ => is_Some (page_warmer_ (sy_writer s))
  | ARetire | AJoin _ => True
  | ARead i | AReap i | AAhead i => (i < length (sy_readers s))%nat
  end.

Inductive run : system → list action → system → Prop :=
  | run_nil s : run s [] s
  | run_snoc s acts s1 a s2 : run s acts s1 → step s1 a s2 → run s (acts ++ [a]) s2.

Lemma on_warmer_some {A} (op : M (world * warmer) A) w r a s' :
  on_warmer op (w, r) = (Ret a, s') → is_Some (page_warmer_ r).
Proof. unfold on_warmer. simpl. by destruct (page_warmer_ r). Qed.

Lemma step_enabled s a s' : step s a s' → enabled s a.
Proof. destruct 1; simpl; eauto using on_warmer_some; by eapply lookup_lt_Some. Qed.

(** The calls are functions: a step has one outcome. *)
Lemma step_det s a s1 s2 : step s a s1 → step s a s2 → s1 = s2.
Proof.
  destruct 1; intros Hs2; inversion Hs2; simplify_eq;
    repeat match goal with
    | H1 : ?m = (Ret _, _), H2 : ?m = (Ret _, _) |- _ => rewrite H1 in H2; simplify_eq
    end; done.
Qed.
End live.

(** ** Running a schedule *)

#[export] Instance in_u_dec w z : Decision (in_u w z).
Proof. unfold in_u. apply _. Defined.
#[export] Instance message_ok_dec size m : Decision (message_ok size m).
Proof. unfold message_ok. apply _. Defined.

Section exec.
Context `{Env} `{ILocator} `{PriorityQueue}.

(** One step, computed. *)
Definition exec (s : system) (a : action) : option system :=
  let '(Sys w r ph sent rds) := s in
  match a, ph with
  | AWrite m, Idle =>
      guard (message_ok (page_size_ (wr_cfg r)) m);;
      match writeBytes (ms_time m) (ms_type m) (ms_data m) (w, r) with
      | (Ret tt, (w', r')) => Some (Sys w' r' Idle (sent ++ [m]) rds)
      | _ => None
      end
  | AOpen m, Idle =>
      guard (message_ok (page_size_ (wr_cfg r)) m);;
      match openData (ms_size m) (ms_time m) (ms_type m) FRAME_NORMAL (w, r) with
      | (Ret p, (w', r')) => Some (Sys w' r' (Opened m p) sent rds)
      | _ => None
      end
  | AFill, Opened m p =>
      match when (0 <? ms_size m) (io (store_bytes p (ms_data m))) (w, r) with
      | (Ret tt, (w', r')) => Some (Sys w' r' (Filled m) sent rds)
      | _ => None
      end
  | AClose, Filled m =>
      match closeData (ms_size m) no_hook (w, r) with
      | (Ret tt, (w', r')) => Some (Sys w' r' Idle (sent ++ [m]) rds)
      | _ => None
      end
  | ARetire, _ =>
      match retire_step (w, r) with
      | (Ret tt, (w', r')) => Some (Sys w' r' ph sent rds)
      | _ => None
      end
  | AWarm q i, _ =>
      guard (1 ≤ q ≤ current_page_id_ r);; guard (1 ≤ i ≤ RingSize / 2);;
      match on_warmer (warm_next q i) (w, r) with
      | (Ret tt, (w', r')) => Some (Sys w' r' ph sent rds)
      | _ => None
      end
  | AClean q, _ =>
      match on_warmer (cleanupOldPages q) (w, r) with
      | (Ret tt, (w', r')) => Some (Sys w' r' ph sent rds)
      | _ => None
      end
  | AJoin o, _ =>
      match join 1 (location_ (wr_cfg r)) (dest_id_ (wr_cfg r)) 0 (w, JournalReader_ctor o) with
      | (Ret tt, (w', d)) => Some (Sys w' r ph sent (rds ++ [(d, [])]))
      | _ => None
      end
  | ARead i, _ =>
      '(d, got) ← rds !! i;
      match nextStatic read_frame (w, d) with
      | (Ret x, (w', d')) => Some (Sys w' r ph sent (<[i := (d', got ++ option_list x)]> rds))
      | _ => None
      end
  | AReap i, _ =>
      '(d, got) ← rds !! i;
      match on_journal 0 jretire_step (w, d) with
      | (Ret tt, (w', d')) => Some (Sys w' r ph sent (<[i := (d', got)]> rds))
      | _ => None
      end
  | AAhead i, _ =>
      '(d, got) ← rds !! i;
      match on_journal 0 warmer_turn (w, d) with
      | (Ret tt, (w', d')) => Some (Sys w' r ph sent (<[i := (d', got)]> rds))
      | _ => None
      end
  | _, _ => None
  end.

Definition exec_all (s : system) (acts : list action) : option system :=
  foldl (λ s a, s ← s; exec s a) (Some s) acts.

Lemma exec_step s a s' : exec s a = Some s' → step s a s'.
Proof.
  destruct s as [w r ph sent rds], a; destruct ph; cbn [exec]; intros Hs; try discriminate;
    repeat (apply bind_Some in Hs as ([]&?&Hs) || case_guard || case_match); simplify_eq/=;
    by econstructor.
Qed.

Lemma exec_run s acts s' : exec_all s acts = Some s' → run s acts s'.
Proof.
  revert s'; induction acts as [|a acts IH] using rev_ind; intros s'; unfold exec_all in *.
  - simpl. intros [= <-]. constructor.
  - rewrite foldl_app. cbn [foldl]. intros (s1&Hs1&Ha)%bind_Some.
    econstructor; [by apply IH|by apply exec_step].
Qed.
End exec.

(** ** Owners of mappings *)

Definition owners (s : system) : list (list Z) :=
  page_bases (sy_writer s) :: ((λ x, reader_bases x.1) <$> sy_readers s).

Section invariant.
Context `{Env} `{!NoErrors} `{!EnvLaws} `{ILocator} `{!LocatorLaws} `{PriorityQueue}.

Lemma reads_bases w d c j p k jn : reads w d c j p k jn → reader_bases d = base_of <$> jall jn.
Proof.
  intros [Hjs _ _ _]. unfold reader_bases, jbases. rewrite Hjs. simpl. by rewrite app_nil_r, jall_bases.
Qed.

Lemma reads_mapped w d c j p k jn b :
  reads w d c j p k jn → b ∈ reader_bases d → is_Some (w_maps w !! b).
Proof.
  intros Hrd. rewrite (reads_bases _ _ _ _ _ _ _ Hrd). intros (q&->&Hq)%list_elem_of_fmap.
  destruct (cu_live _ _ _ _ _ _ (rs_cursor _ _ _ _ _ _ _ Hrd)) as [_ Hall].
  eapply (proj1 (Forall_forall _ _)) in Hall as (_&_&?); done.
Qed.

Lemma members_mapped w r j b : members w r j → b ∈ page_bases r → is_Some (w_maps w !! b).
Proof.
  intros Hmb (q&->&Hq)%list_elem_of_fmap.
  destruct (mb_live _ _ _ Hmb) as [_ Hall].
  eapply (proj1 (Forall_forall _ _)) in Hall as (_&_&?); done.
Qed.

(** ** The writer's side of the invariant *)

Definition phase_inv (w : world) (r : writer) (ph : phase) (j : ajournal) : Prop :=
  match ph with
  | Idle => rep w r j ∧ writing_ r = false
  | Opened m p =>
      message_ok (page_size_ (wr_cfg r)) m ∧
      rep_open w r j (ms_time m) (ms_type m) FRAME_NORMAL (ms_size m) ∧
      open_frame_header_ r = Some (current_frame_address_ r) ∧ writing_ r = serialize (wr_cfg r) ∧
      p = ptr_add (current_frame_address_ r) 32
  | Filled m =>
      message_ok (page_size_ (wr_cfg r)) m ∧
      rep_open w r j (ms_time m) (ms_type m) FRAME_NORMAL (ms_size m) ∧
      open_frame_header_ r = Some (current_frame_address_ r) ∧ writing_ r = serialize (wr_cfg r) ∧
      slot_payload w r j (ms_size m) = ms_data m
  end.

Lemma phase_members w r ph j : phase_inv w r ph j → members w r j.
Proof. by destruct ph; [intros [[] _]|intros (_&[]&_)..]. Qed.

Lemma phase_readable w r ph j : phase_inv w r ph j → aj_wf j → readable w (wr_cfg r) j.
Proof.
  destruct ph; [intros [? _]; by apply rep_readable|intros (_&?&_); by eapply rep_open_readable..].
Qed.

Lemma phase_around w r ph j : phase_inv w r ph j → pages_around w (wr_cfg r) j.
Proof. by destruct ph; [intros [[_ [] _] _]|intros (_&[_ [] _]&_)..]. Qed.

Lemma phase_warm w w' r m' ph j :
  warm_effect w w' r m' j → phase_inv w r ph j → phase_inv w' (set_warmer (Some m') r) ph j.
Proof.
  intros [Hpr Hok Hlive _] Hph. pose proof (phase_members _ _ _ _ Hph) as Hmb.
  pose proof (members_size _ _ _ Hmb) as Hsz. pose proof (mb_range _ _ _ Hmb) as Hrg.
  assert (64 ≤ page_size_ (wr_cfg r)) by lia. pose proof (mb_dest _ _ _ Hmb) as Hd.
  destruct ph; simpl in *.
  - destruct Hph. split; [|done]. by eapply prepared_rep; [..|lia| | | |].
  - destruct Hph as (?&?&?). split; [done|]. split; [|done]. by eapply prepared_rep_open; [..|lia| | | |].
  - destruct Hph as (?&?&?&?&?). split; [done|]. split; [by eapply prepared_rep_open; [..|lia| | | |]|].
    split_and!; [done..|]. change (slot_payload w' (set_warmer _ r)) with (slot_payload w' r).
    rewrite (prepared_payload w w' r j); [done|done|lia|done|lia].
Qed.

Lemma phase_quiet w w' own r ph j :
  quiet w w' own → maps_kept w w' (held r ++ warmed r) → phase_inv w r ph j → phase_inv w' r ph j.
Proof.
  intros Hq Hk. destruct ph; simpl.
  - intros [? ?]. split; [by eapply rep_quiet|done].
  - intros (?&?&?). split; [done|]. split; [by eapply rep_open_quiet|done].
  - intros (?&?&?&?&?). split; [done|]. split; [by eapply rep_open_quiet|].
    by rewrite (slot_payload_quiet _ _ _ _ _ _ Hq).
Qed.

Lemma queue_perm r p rest :
  retire_queue_ r = p :: rest → held r ++ warmed r ≡ₚ p :: held (set_queue rest r) ++ warmed r.
Proof.
  intros Hq. unfold held. rewrite Hq. simpl.
  by rewrite <-(Permutation_middle (retired_pages_ r)), <-Permutation_middle.
Qed.

Lemma members_queue w r j p rest :
  retire_queue_ r = p :: rest → members w r j → members w (set_queue rest r) j.
Proof.
  intros Hq [? ? ? ? ? Hlive ?]. split; try done.
  rewrite (queue_perm _ _ _ Hq) in Hlive. by apply pages_live_cons in Hlive as (_&_&?).
Qed.

Lemma phase_queue w r ph j rest p :
  retire_queue_ r = p :: rest → phase_inv w r ph j → phase_inv w (set_queue rest r) ph j.
Proof.
  intros Hq. pose proof (members_queue w r j p rest Hq) as Hmb.
  destruct ph; simpl.
  - intros [[? ? ?] ?]. split; [split; [by apply Hmb|done..]|done].
  - intros (?&[? ? ?]&?). split; [done|]. split; [split; [by apply Hmb|done..]|done].
  - intros (?&[? ? ?]&?). split; [done|]. split; [split; [by apply Hmb|done..]|done].
Qed.

(** One step of the retire thread frees a page nobody uses. *)
Lemma phase_retire w r ph j :
  phase_inv w r ph j →
  ∃ w' r', retire_step (w, r) = (Ret tt, (w', r')) ∧ phase_inv w' r' ph j ∧ wr_cfg r' = wr_cfg r ∧
    spares_others w w' r r'.
Proof.
  intros Hph. unfold retire_step. wstep. destruct (retire_queue_ r) as [|p rest] eqn:Hq.
  { exists w, r. split_and!; [done..|]. by intros b mp. }
  wstep. pose proof (mb_live _ _ _ (phase_members _ _ _ _ Hph)) as Hlive.
  pose proof (phase_queue _ _ _ _ _ _ Hq Hph) as Hph1. set (r1 := set_queue rest r) in *.
  rewrite (queue_perm _ _ _ Hq) in Hlive. fold r1 in Hlive. change (warmed r) with (warmed r1) in Hlive.
  destruct (Page_release_quiet w p _ Hlive) as (w'&Hrun&Hun&Hqt).
  exists w', r1. split; [by apply io_run|]. split; [|split; [done|]].
  - eapply phase_quiet; [exact Hqt| |exact Hph1]. intros q m Hin Hm. by rewrite (un_maps _ _ _ Hun).
  - intros b mp Hm Hb. unfold page_bases in Hb. rewrite (queue_perm _ _ _ Hq), fmap_cons, not_elem_of_cons in Hb.
    destruct Hb as [Hne Hb]. split; [|done]. apply (qt_maps _ _ _ Hqt); [done|].
    simpl. set_solver.
Qed.
End invariant.

(** ** The invariant *)

Section system.
Context `{Env} `{!NoErrors} `{!EnvLaws} `{ILocator} `{!LocatorLaws} `{PriorityQueue}.
Context (c : writer_config) (Hclock : ∀ n, 0 ≤ env_clock n).

(** After [n] calls: the files hold [j]; its messages are those sent; each
    reader has been given a prefix of [j]'s frames and stands behind it. *)
Record inv (n : nat) (s : system) (j : ajournal) : Prop := {
  iv_phase : phase_inv (sy_world s) (sy_writer s) (sy_phase s) j;
  iv_cfg : wr_cfg (sy_writer s) = c;
  iv_good : good 0 j;
  iv_first : aj_first j = 1;
  iv_sent : content <$> aj_data j = sy_sent s;
  iv_page : aj_page j ≤ 1 + Z.of_nat n;
  iv_seq : aj_seq j ≤ 2 * Z.of_nat n;
  iv_readers i d got : sy_readers s !! i = Some (d, got) →
    ∃ p k jn, reads (sy_world s) d c j p k jn ∧ got ++ rest j p k = aj_frames j;
  iv_apart : apart_owners (owners s)
}.

Lemma inv_readable n s j : inv n s j → readable (sy_world s) c j.
Proof. intros [Hph <- Hg _ _ _ _ _ _]. eapply phase_readable; [done|apply Hg]. Qed.

Lemma inv_size n s j : inv n s j → 2 ^ 21 ≤ page_size_ c.
Proof. intros [Hph <- _ _ _ _ _ _ _]. eapply members_size, phase_members, Hph. Qed.

(** A reader nobody touched, in the new world. *)
Lemma reader_carry w w' d j j' new p k jn mine :
  reads w d c j p k jn → spared (reader_bases d) w w' mine → extends j j' new → readable w' c j' →
  reads w' d c j' p k jn ∧ rest j' p k = rest j p k ++ new.
Proof.
  intros Hrd Hsp Hex Hrb. eapply reads_extends; [done..|]. intros q m Hq Hm.
  destruct (Hsp (base_of q)) as [-> _]; [|done].
  rewrite (reads_bases _ _ _ _ _ _ _ Hrd). by apply list_elem_of_fmap_2.
Qed.

(** The writer moved. *)
Lemma inv_writer n s j w' r' ph' sent' j' new :
  inv n s j → phase_inv w' r' ph' j' → wr_cfg r' = c → good 0 j' →
  content <$> aj_data j' = sent' → aj_page j' ≤ 1 + Z.of_nat (S n) → aj_seq j' ≤ 2 * Z.of_nat (S n) →
  extends j j' new →
  (∀ i d got, sy_readers s !! i = Some (d, got) →
    spared (reader_bases d) (sy_world s) w' (page_bases r')) →
  inv (S n) (Sys w' r' ph' sent' (sy_readers s)) j'.
Proof.
  intros Hinv Hph' Hc Hg Hsent Hp Hs Hex Hsp.
  split; try done; simpl; [by rewrite (ex_first _ _ _ Hex), (iv_first _ _ _ Hinv)|..].
  - intros i d got Hi. destruct (iv_readers _ _ _ Hinv i d got Hi) as (p&k&jn&Hrd&Hgot).
    exists p, k, jn. pose proof (phase_readable _ _ _ _ Hph' (gd_wf _ _ Hg)) as Hrb. rewrite Hc in Hrb.
    destruct (reader_carry _ _ _ _ _ _ _ _ _ _ Hrd (Hsp _ _ _ Hi) Hex Hrb) as [Hrd' Hrest].
    split; [done|]. by rewrite Hrest, app_assoc, Hgot, (ex_frames _ _ _ Hex).
  - unfold owners. simpl. pose proof (iv_apart _ _ _ Hinv) as Hap.
    change (page_bases r' :: ?l) with (<[0%nat := page_bases r']> (owners s)).
    apply apart_insert; [done|]. intros [|k] B b Hk HB Hb; [done|].
    simpl in HB. rewrite list_lookup_fmap in HB.
    destruct (sy_readers s !! k) as [[d got]|] eqn:Hd; simplify_eq/=.
    by eapply Hsp.
Qed.

(** What a writer's call spares: the readers' pages. *)
Lemma writer_spares_readers n s j w' r' :
  inv n s j → spares_others (sy_world s) w' (sy_writer s) r' →
  ∀ i d got, sy_readers s !! i = Some (d, got) →
    spared (reader_bases d) (sy_world s) w' (page_bases r').
Proof.
  intros Hinv Hsp i d got Hi b Hb.
  destruct (iv_readers _ _ _ Hinv i d got Hi) as (p&k&jn&Hrd&_).
  destruct (reads_mapped _ _ _ _ _ _ _ _ Hrd Hb) as [mp Hmp].
  destruct (Hsp b mp Hmp) as [Hmp' Hn]; [|by rewrite Hmp, Hmp'].
  intros Hw. eapply (iv_apart _ _ _ Hinv 0%nat (S i)); [done|done| |exact Hw|exact Hb].
  simpl. by rewrite list_lookup_fmap, Hi.
Qed.

(** ** Each of the writer's steps *)

Lemma bounds_small n j : good 0 j → aj_page j ≤ 1 + Z.of_nat n → aj_seq j ≤ 2 * Z.of_nat n →
  Z.of_nat n < 2 ^ 29 → aj_page j + 1 < 2 ^ 31 ∧ aj_seq j + 2 < 2 ^ 64 ∧ 0 ≤ aj_seq j.
Proof.
  intros Hg Hp Hs Hn. pose proof (gd_seq _ _ Hg) as [_ Hsq].
  lia.
Qed.

Lemma write_step n s j m :
  inv n s j → Z.of_nat n < 2 ^ 29 → enabled s (AWrite m) → ∃ s' j', step s (AWrite m) s' ∧ inv (S n) s' j'.
Proof.
  intros Hinv Hn [Hidle Hok]. pose proof (iv_phase _ _ _ Hinv) as Hph. rewrite Hidle in Hph.
  destruct Hph as [Hrep Hw]. pose proof Hok as (Hty&Hne&Hts&Hdata&Hlen).
  destruct (bounds_small n j) as (Hpg&Hsq&H0'); [apply Hinv..|done|].
  destruct (writeBytes_run (sy_world s) (sy_writer s) j (ms_time m) (ms_type m) (ms_data m))
    as (w1&r1&Hrun&Hrep1&Hc1&Hw1&_&Hsp1); [done..|unfold in_s; simpl; lia|done|done|].
  set (size := page_size_ _) in Hrep1. set (now := env_clock _) in Hrep1.
  destruct (good_write 0 size now (ms_time m) (ms_type m) FRAME_NORMAL (ms_data m) j)
    as (Hg1&Hs1&Hp1&_); [done|lia|apply Hclock|done|apply Hinv|].
  set (j1 := a_write _ _ _ _ _ _ _) in *.
  exists (Sys w1 r1 Idle (sy_sent s ++ [m]) (sy_readers s)), j1. split.
  { destruct s; cbn in Hidle |- *; subst. by eapply step_write. }
  assert (∃ new, extends j j1 new) as [new Hex].
  { destruct (extends_room size (framePhysicalLength (sizeof_FrameHeader + Z.of_nat (length (ms_data m)))) now j)
      as (new&Hex&_).
    eexists. eapply extends_trans; [exact Hex|apply extends_append]. }
  pose proof (iv_page _ _ _ Hinv). pose proof (iv_seq _ _ _ Hinv).
  eapply inv_writer; [exact Hinv|done|by rewrite Hc1; apply Hinv|done| |lia|lia|exact Hex|].
  - unfold j1. rewrite aj_data_write by done. rewrite (iv_sent _ _ _ Hinv). by destruct m.
  - by eapply writer_spares_readers.
Qed.

Lemma good_room size stride now j :
  good 0 j → 0 ≤ now → 0 ≤ aj_seq j → aj_seq j + 1 < 2 ^ 64 →
  let j' := a_room size stride now j in
  good 0 j' ∧ aj_data j' = aj_data j ∧ aj_seq j' ≤ aj_seq j + 1 ∧ aj_page j' ≤ aj_page j + 1.
Proof.
  intros Hg Hnow Hs0 Hs. unfold a_room. case_match; cbv zeta.
  - split_and!; done || lia.
  - split_and!; [by apply good_rotate|apply aj_data_rotate|rewrite a_rotate_seq; lia|].
    unfold aj_page. simpl. rewrite length_app. simpl. lia.
Qed.

Lemma open_step n s j m :
  inv n s j → Z.of_nat n < 2 ^ 29 → enabled s (AOpen m) →
  ∃ s' j', step s (AOpen m) s' ∧ inv (S n) s' j' ∧ aj_frames j `prefix_of` aj_frames j'.
Proof.
  intros Hinv Hn [Hidle Hok]. pose proof (iv_phase _ _ _ Hinv) as Hph. rewrite Hidle in Hph.
  destruct Hph as [Hrep Hw]. pose proof Hok as (Hty&Hne&Hts&Hdata&Hlen).
  destruct (bounds_small n j) as (Hpg&Hsq&H0'); [apply Hinv..|done|].
  destruct (openData_run (sy_world s) (sy_writer s) j (ms_size m) (ms_time m) (ms_type m) FRAME_NORMAL)
    as (w1&r1&Hrun&Hro&Hc1&Ho1&Hw1&Hsp1); [done..|unfold in_s; simpl; lia|done|unfold ms_size; lia|].
  rewrite wrap_small in Hro by (unfold in_u; lia). set (size := page_size_ _) in Hro.
  set (now := env_clock _) in Hro. set (stride := framePhysicalLength _) in Hro.
  destruct (good_room size stride now j) as (Hg1&Hdata1&Hs1&Hp1); [apply Hinv|apply Hclock|lia|lia|].
  destruct (extends_room size stride now j) as (new&Hex&_). set (j1 := a_room _ _ _ _) in *.
  eexists (Sys w1 r1 (Opened m _) (sy_sent s) (sy_readers s)), j1. split.
  { destruct s; cbn in Hidle |- *; subst. by eapply step_open. }
  split; [|rewrite (ex_frames _ _ _ Hex); by apply prefix_app_r].
  pose proof (iv_page _ _ _ Hinv). pose proof (iv_seq _ _ _ Hinv).
  eapply inv_writer; [exact Hinv| |by rewrite Hc1; apply Hinv|done| |lia|lia|exact Hex|].
  - simpl. rewrite Hc1. by split_and!.
  - rewrite Hdata1. apply Hinv.
  - by eapply writer_spares_readers.
Qed.

Lemma fill_step n s j :
  inv n s j → enabled s AFill → ∃ s', step s AFill s' ∧ inv (S n) s' j.
Proof.
  intros Hinv (m&p&Hop). pose proof (iv_phase _ _ _ Hinv) as Hph. rewrite Hop in Hph.
  destruct Hph as (Hok&Hro&Ho&Hw&->).
  destruct (store_payload_run (sy_world s) (sy_writer s) j (ms_time m) (ms_type m) FRAME_NORMAL (ms_data m))
    as (w1&Hrun&Hro1&Hpl&Hsp1); [exact Hro|].
  exists (Sys w1 (sy_writer s) (Filled m) (sy_sent s) (sy_readers s)). split.
  { destruct s; cbn in Hop |- *; subst. eapply step_fill. exact Hrun. }
  pose proof (iv_page _ _ _ Hinv). pose proof (iv_seq _ _ _ Hinv).
  eapply inv_writer; [exact Hinv|by split_and!|apply Hinv..|lia|lia|apply extends_refl|].
  by eapply writer_spares_readers.
Qed.

Lemma close_step n s j :
  inv n s j → Z.of_nat n < 2 ^ 29 → enabled s AClose →
  ∃ s' j', step s AClose s' ∧ inv (S n) s' j' ∧ aj_frames j `prefix_of` aj_frames j'.
Proof.
  intros Hinv Hn (m&Hop). pose proof (iv_phase _ _ _ Hinv) as Hph. rewrite Hop in Hph.
  destruct Hph as (Hok&Hro&Ho&Hw&Hpl). pose proof Hok as (Hty&Hne&Hts&Hdata&Hlen).
  destruct (bounds_small n j) as (Hpg&Hsq&H0'); [apply Hinv..|done|].
  destruct (closeData_run (sy_world s) (sy_world s) (sy_writer s) j (ms_time m) (ms_type m) FRAME_NORMAL
    (ms_size m) no_hook) as (w1&r1&Hrun&Hrep1&Hc1&Ho1&Hw1&Hsp1);
    [done..|unfold in_s; simpl; lia|by rewrite Hpl|].
  rewrite Hpl in Hrep1. set (j1 := a_append _ _ _ _ _) in Hrep1.
  exists (Sys w1 r1 Idle (sy_sent s ++ [m]) (sy_readers s)), j1. split.
  { destruct s; cbn in Hop |- *; subst. by eapply step_close. }
  split; [|unfold j1; rewrite (ex_frames _ _ _ (extends_append _ _ _ _ _)); by apply prefix_app_r].
  pose proof (iv_page _ _ _ Hinv). pose proof (iv_seq _ _ _ Hinv).
  eapply inv_writer; [exact Hinv|by split|by rewrite Hc1; apply Hinv| | | | |apply extends_append|].
  - apply good_append; [done|lia|lia|apply Hinv].
  - unfold j1. rewrite aj_data_append, fmap_app, (iv_sent _ _ _ Hinv) by done. by destruct m.
  - unfold aj_page in *. simpl. lia.
  - simpl. rewrite wrap_small by (unfold in_u; lia). lia.
  - by eapply writer_spares_readers.
Qed.

Lemma retire_live_step n s j :
  inv n s j → ∃ s' j', step s ARetire s' ∧ inv (S n) s' j'.
Proof.
  intros Hinv. destruct (phase_retire _ _ _ _ (iv_phase _ _ _ Hinv)) as (w1&r1&Hrun&Hph1&Hc1&Hsp1).
  exists (Sys w1 r1 (sy_phase s) (sy_sent s) (sy_readers s)), j. split.
  { destruct s. by eapply step_retire. }
  pose proof (iv_page _ _ _ Hinv). pose proof (iv_seq _ _ _ Hinv).
  eapply inv_writer; [exact Hinv|done|by rewrite Hc1; apply Hinv|apply Hinv..|lia|lia|apply extends_refl|].
  by eapply writer_spares_readers.
Qed.

(** The warmer moved: the journal is the same. *)
Lemma warm_effect_inv n s j w' m' :
  inv n s j → warm_effect (sy_world s) w' (sy_writer s) m' j →
  inv (S n) (Sys w' (set_warmer (Some m') (sy_writer s)) (sy_phase s) (sy_sent s) (sy_readers s)) j.
Proof.
  intros Hinv He. pose proof (phase_warm _ _ _ _ _ _ He (iv_phase _ _ _ Hinv)) as Hph1.
  pose proof (iv_page _ _ _ Hinv). pose proof (iv_seq _ _ _ Hinv).
  eapply inv_writer; [exact Hinv|exact Hph1|apply Hinv..|lia|lia|apply extends_refl|].
  eapply writer_spares_readers; [exact Hinv|apply He].
Qed.

Lemma warm_step n s j q i :
  inv n s j → Z.of_nat n < 2 ^ 29 → enabled s (AWarm q i) →
  ∃ s' j', step s (AWarm q i) s' ∧ inv (S n) s' j'.
Proof.
  intros Hinv Hn ([m Hm]&Hq&Hi). pose proof (iv_phase _ _ _ Hinv) as Hph.
  pose proof (phase_members _ _ _ _ Hph) as Hmb. pose proof (iv_page _ _ _ Hinv) as Hpg.
  destruct (warm_next_run _ _ j m q i Hmb (phase_around _ _ _ _ Hph) Hm) as (w'&m'&Hrun&He).
  { rewrite (iv_first _ _ _ Hinv). rewrite (mb_id _ _ _ Hmb) in Hq.
    change (RingSize / 2) with 8 in Hi. lia. }
  eexists _, j. split; [|by apply (warm_effect_inv n s j w' m')]. destruct s. by apply step_warm.
Qed.

Lemma clean_step n s j q :
  inv n s j → enabled s (AClean q) → ∃ s' j', step s (AClean q) s' ∧ inv (S n) s' j'.
Proof.
  intros Hinv [m Hm]. pose proof (iv_phase _ _ _ Hinv) as Hph.
  destruct (cleanupOldPages_run _ _ j m q (phase_members _ _ _ _ Hph) (phase_around _ _ _ _ Hph) Hm)
    as (w'&m'&Hrun&He).
  eexists _, j. split; [|by apply (warm_effect_inv n s j w' m')]. destruct s. by apply step_clean.
Qed.

(** ** Each of the readers' steps *)

Lemma spared_kept w w' r mine :
  spared (page_bases r) w w' mine → maps_kept w w' (held r ++ warmed r).
Proof.
  intros Hsp p m Hp Hm. destruct (Hsp (base_of p)) as [-> _]; [|done]. by apply list_elem_of_fmap_2.
Qed.

(** What a reader's call spares: the writer's pages and the other readers'. *)
Lemma reader_spares_others {A} (m : R A) n s j i d x w' d' :
  inv n s j →
  (∀ b, b ∈ reader_bases d →
     (b ∉ page_bases (sy_writer s)) ∧
     ∀ k dk gk, k ≠ i → sy_readers s !! k = Some (dk, gk) → b ∉ reader_bases dk) →
  (∀ b mp, triple (foreign reader_bases b mp) m (λ _, True)) →
  m (sy_world s, d) = (x, (w', d')) →
  spared (page_bases (sy_writer s)) (sy_world s) w' (reader_bases d') ∧
  ∀ k dk gk, k ≠ i → sy_readers s !! k = Some (dk, gk) →
    spared (reader_bases dk) (sy_world s) w' (reader_bases d').
Proof.
  intros Hinv Hap Hm Hrun. split.
  - eapply triple_spared; [exact Hm|exact Hrun|]. intros b Hb. split.
    + eapply members_mapped; [apply phase_members with (ph := sy_phase s), Hinv|done].
    + intros Hd. by destruct (Hap b Hd) as [Hw _].
  - intros k dk gk Hk Hkk. eapply triple_spared; [exact Hm|exact Hrun|]. intros b Hb. split.
    + destruct (iv_readers _ _ _ Hinv k dk gk Hkk) as (p'&k'&jn'&Hrd'&_). by eapply reads_mapped.
    + intros Hd. destruct (Hap b Hd) as [_ Hr]. by eapply Hr.
Qed.

Lemma reader_apart n s j i d got b :
  inv n s j → sy_readers s !! i = Some (d, got) → b ∈ reader_bases d →
  (b ∉ page_bases (sy_writer s)) ∧
  ∀ k dk gk, k ≠ i → sy_readers s !! k = Some (dk, gk) → b ∉ reader_bases dk.
Proof.
  intros Hinv Hi Hb.
  assert (∀ k dk gk, sy_readers s !! k = Some (dk, gk) → owners s !! S k = Some (reader_bases dk)) as Hown.
  { intros k dk gk Hk. simpl. by rewrite list_lookup_fmap, Hk. }
  split.
  - eapply (iv_apart _ _ _ Hinv (S i) 0%nat); [done|by eapply Hown|done|done].
  - intros k dk gk Hk Hkk. eapply (iv_apart _ _ _ Hinv (S i) (S k)); [lia|by eapply Hown|by eapply Hown|done].
Qed.

(** The other readers and the writer, once a reader has moved. *)
Lemma bystanders n s j w' own mine i :
  inv n s j → quiet (sy_world s) w' own →
  spared (page_bases (sy_writer s)) (sy_world s) w' mine →
  (∀ k dk gk, k ≠ i → sy_readers s !! k = Some (dk, gk) → spared (reader_bases dk) (sy_world s) w' mine) →
  phase_inv w' (sy_writer s) (sy_phase s) j ∧
  ∀ k dk gk, k ≠ i → sy_readers s !! k = Some (dk, gk) →
    ∃ p q jn, reads w' dk c j p q jn ∧ gk ++ rest j p q = aj_frames j.
Proof.
  intros Hinv Hq Hw Hr. pose proof (iv_phase _ _ _ Hinv) as Hph.
  assert (phase_inv w' (sy_writer s) (sy_phase s) j) as Hph'.
  { eapply phase_quiet; [exact Hq| |exact Hph]. by eapply spared_kept. }
  split; [done|]. intros k dk gk Hk Hkk.
  destruct (iv_readers _ _ _ Hinv k dk gk Hkk) as (p&q&jn&Hrd&Hgot).
  pose proof (phase_readable _ _ _ _ Hph' (gd_wf _ _ (iv_good _ _ _ Hinv))) as Hrb.
  rewrite (iv_cfg _ _ _ Hinv) in Hrb.
  destruct (reader_carry _ _ _ _ _ _ _ _ _ _ Hrd (Hr k dk gk Hk Hkk) (extends_refl j) Hrb) as [Hrd' _].
  by exists p, q, jn.
Qed.

Lemma inv_reader n s j i d got w' d' got' own :
  inv n s j → sy_readers s !! i = Some (d, got) → quiet (sy_world s) w' own →
  spared (page_bases (sy_writer s)) (sy_world s) w' (reader_bases d') ∧
  (∀ k dk gk, k ≠ i → sy_readers s !! k = Some (dk, gk) →
    spared (reader_bases dk) (sy_world s) w' (reader_bases d')) →
  (∃ p k jn, reads w' d' c j p k jn ∧ got' ++ rest j p k = aj_frames j) →
  inv (S n) (Sys w' (sy_writer s) (sy_phase s) (sy_sent s) (<[i := (d', got')]> (sy_readers s))) j.
Proof.
  intros Hinv Hi Hq [Hw Hr] Hme. destruct (bystanders _ _ _ _ _ _ i Hinv Hq Hw Hr) as [Hph' Hothers].
  pose proof (iv_page _ _ _ Hinv). pose proof (iv_seq _ _ _ Hinv). pose proof Hinv as [_ ? ? ? ? _ _ _ Hap].
  split; try done; simpl; [lia|lia| |].
  - intros k dk gk Hk. apply list_lookup_insert_Some in Hk as [(<-&Heq&_)|[Hk Hkk]].
    + injection Heq as <- <-. exact Hme.
    + by eapply Hothers.
  - unfold owners. simpl. rewrite list_fmap_insert. simpl.
    change (page_bases (sy_writer s) :: <[i := reader_bases d']> ?l) with
      (<[S i := reader_bases d']> (owners s)).
    apply apart_insert; [done|]. intros [|k] B b Hk HB Hb.
    + simpl in HB. simplify_eq. by apply Hw.
    + simpl in HB. rewrite list_lookup_fmap in HB.
      destruct (sy_readers s !! k) as [[dk gk]|] eqn:Hkk; simplify_eq/=.
      apply (Hr k dk gk); [lia|done..].
Qed.

Lemma join_step n s j o :
  inv n s j → ∃ s' j', step s (AJoin o) s' ∧ inv (S n) s' j'.
Proof.
  intros Hinv. pose proof (iv_phase _ _ _ Hinv) as Hph. pose proof (phase_members _ _ _ _ Hph) as Hmb.
  pose proof (iv_cfg _ _ _ Hinv) as Hc.
  destruct (join_start (sy_world s) c j o 1) as (w'&d&jn&Hrun&_&Hrd&Hq);
    [by eapply inv_readable|rewrite <-Hc; apply Hmb|by eapply inv_size|apply Hinv|lia|].
  exists (Sys w' (sy_writer s) (sy_phase s) (sy_sent s) (sy_readers s ++ [(d, [])])), j. split.
  { rewrite <-Hc in Hrun. destruct s. by eapply step_join. }
  destruct (reader_spares_others (join 1 (location_ c) (dest_id_ c) 0) n s j (length (sy_readers s))
    (JournalReader_ctor o) (Ret tt) w' d Hinv) as [Hw Hr];
    [by intros b Hb%elem_of_nil|intros b mp; apply join_spares|done|].
  destruct (bystanders _ _ _ _ _ _ (length (sy_readers s)) Hinv Hq Hw Hr) as [Hph' Hothers].
  pose proof (iv_page _ _ _ Hinv). pose proof (iv_seq _ _ _ Hinv). pose proof Hinv as [_ ? ? ? ? _ _ _ Hap].
  split; try done; simpl; [lia|lia| |].
  - intros k dk gk [Hk|[_ Hk]]%lookup_app_Some.
    + eapply Hothers; [|done]. apply lookup_lt_Some in Hk. lia.
    + apply list_lookup_singleton_Some in Hk as [_ Hk]. injection Hk as <- <-.
      exists 0%nat, 0%nat, jn. split; [done|]. by rewrite rest_start.
  - unfold owners. simpl. rewrite fmap_app. simpl. rewrite app_comm_cons. apply apart_snoc; [done|].
    intros B b HB Hb. apply elem_of_cons in HB as [->|HB]; [by apply Hw|].
    apply list_elem_of_fmap in HB as ([dk gk]&->&Hin). apply list_elem_of_lookup in Hin as [k Hk].
    eapply (Hr k dk gk); [|done..]. apply lookup_lt_Some in Hk. lia.
Qed.

Lemma read_step n s j i :
  inv n s j → enabled s (ARead i) → ∃ s' j', step s (ARead i) s' ∧ inv (S n) s' j'.
Proof.
  intros Hinv [[d got] Hi]%lookup_lt_is_Some_2.
  destruct (iv_readers _ _ _ Hinv i d got Hi) as (p&k&jn&Hrd&Hgot).
  pose proof (inv_readable _ _ _ Hinv) as Hrb.
  assert (∃ x w' d' own, nextStatic read_frame (sy_world s, d) = (Ret x, (w', d')) ∧
    quiet (sy_world s) w' own ∧
    ∃ p' k' jn', reads w' d' c j p' k' jn' ∧ (got ++ option_list x) ++ rest j p' k' = aj_frames j)
    as (x&w'&d'&own&Hrun&Hq&Hme).
  { destruct (cu_page _ _ _ _ _ _ (rs_cursor _ _ _ _ _ _ _ Hrd)) as (?&?&fs&_&_&Hp&_).
    destruct (fs !! k) as [f|] eqn:Hk.
    - destruct (nextStatic_some _ _ _ _ _ _ _ _ _ Hrb Hrd Hp Hk) as (w'&d'&jn'&Hrun&Hrd'&Hq&_).
      exists (Some f), w', d', (jheld jn). split; [done|]. split; [done|].
      eexists _, _, jn'. split; [exact Hrd'|]. rewrite <-Hgot.
      destruct (rest_step j p k fs f (rb_wf _ _ _ Hrb) Hp Hk) as [-> _]. by rewrite <-app_assoc.
    - destruct (nextStatic_none _ _ _ _ _ _ _ _ Hrb Hrd Hp Hk) as [Hrun _].
      exists None, (sy_world s), d, []. split; [done|]. split; [apply quiet_refl|].
      exists p, k, jn. split; [done|]. by rewrite app_nil_r. }
  exists (Sys w' (sy_writer s) (sy_phase s) (sy_sent s) (<[i := (d', got ++ option_list x)]> (sy_readers s))), j.
  split; [destruct s; by eapply step_read|].
  eapply (inv_reader n s j i d got); [done|done|exact Hq| |done].
  eapply reader_spares_others; [exact Hinv|by intros; eapply reader_apart| |exact Hrun].
  intros b mp. apply nextStatic_spares. intros v. unfold read_frame, getFlags, getSequence, getEventTime.
  triple_tac. eapply triple_bind; [apply load2_safe; intros; apply triple_ret|cbn beta; intros; triple_tac].
Qed.

(** A thread of a reader does something to the journal that leaves the cursor
    where it is. *)
Lemma thread_run (op : J unit) w d j p k jn w' jn' :
  reads w d c j p k jn → op (w, jn) = (Ret tt, (w', jn')) → cursor w' jn' c j p k →
  ∃ d', on_journal 0 op (w, d) = (Ret tt, (w', d')) ∧ reads w' d' c j p k jn'.
Proof.
  intros [Hjs Hs Hcu Hpos] Hrun Hcu'. exists (rset_journals [jn'] d). split; [|by split].
  unfold on_journal. simpl. rewrite Hjs. simpl. by rewrite Hrun.
Qed.

Lemma thread_step (op : J unit) n s j i :
  (∀ w jn p k, cursor w jn c j p k →
     ∃ w' jn' own, op (w, jn) = (Ret tt, (w', jn')) ∧ cursor w' jn' c j p k ∧ quiet w w' own) →
  (∀ b mp, triple (foreign jbases b mp) op (λ _, True)) →
  inv n s j → (i < length (sy_readers s))%nat →
  ∃ d got w' d', sy_readers s !! i = Some (d, got) ∧
    on_journal 0 op (sy_world s, d) = (Ret tt, (w', d')) ∧
    inv (S n) (Sys w' (sy_writer s) (sy_phase s) (sy_sent s) (<[i := (d', got)]> (sy_readers s))) j.
Proof.
  intros Hop Hsp Hinv [[d got] Hi]%lookup_lt_is_Some_2.
  destruct (iv_readers _ _ _ Hinv i d got Hi) as (p&k&jn&Hrd&Hgot).
  destruct (Hop _ _ _ _ (rs_cursor _ _ _ _ _ _ _ Hrd)) as (w'&jn'&own&Hrun&Hcu&Hq).
  destruct (thread_run op _ _ _ _ _ _ _ _ Hrd Hrun Hcu) as (d'&Hrun'&Hrd').
  exists d, got, w', d'. split_and!; [done..|].
  eapply (inv_reader n s j i d got); [done|done|exact Hq| |by exists p, k, jn'].
  eapply reader_spares_others; [exact Hinv|by intros; eapply reader_apart| |exact Hrun'].
  intros b mp. by apply on_journal_spares.
Qed.

(** A reader's retire thread frees a page the reader has left. *)
Lemma jretire_step_run w jn j p k :
  cursor w jn c j p k →
  ∃ w' jn' own, jretire_step (w, jn) = (Ret tt, (w', jn')) ∧ cursor w' jn' c j p k ∧ quiet w w' own.
Proof.
  intros Hcu. unfold jretire_step. jstep. destruct (jn_queue jn) as [|old rest] eqn:Hqu.
  { exists w, jn, []. split_and!; [done..|apply quiet_refl]. }
  jstep. destruct Hcu as [? ? ? ? Hws Hlive (pg&wr&fs&Hpg&?&?&?&Hm&?)].
  set (jn1 := jset_queue rest jn).
  assert (pages_live w (old :: jall jn1)) as Hlive1.
  { eapply pages_live_perm; [|exact Hlive]. unfold jall, jheld. rewrite Hqu. simpl.
    change (jwarmed jn1) with (jwarmed jn). solve_Permutation. }
  destruct (Page_release_quiet w old (jall jn1) Hlive1) as (w'&Hrun&Hun&Hqt).
  exists w', jn1, [old]. split; [by apply jio_run|]. split; [|done].
  assert (pg ∈ jall jn1) as Hin by (unfold jall, jheld; simpl; rewrite Hpg; by left).
  split; try done.
  - apply (warm_seen_carry w w' jn jn1); [|by split|done]. intros q Hin'. apply (un_maps _ _ _ Hun).
    apply elem_of_app. by right.
  - eapply unmapped_live; [done|]. by apply pages_live_cons in Hlive1 as (_&_&?).
  - exists pg, wr, fs. split_and!; try done. by eapply unmapped_mapped.
Qed.

Lemma reap_step n s j i :
  inv n s j → enabled s (AReap i) → ∃ s' j', step s (AReap i) s' ∧ inv (S n) s' j'.
Proof.
  intros Hinv Hi. destruct (thread_step jretire_step n s j i) as (d&got&w'&d'&Hd&Hrun&Hinv'); [|..|done|done|].
  - intros. by eapply jretire_step_run.
  - intros. apply jretire_step_spares.
  - eexists _, j. split; [|exact Hinv']. destruct s. by eapply step_reap.
Qed.

(** Its warmer thread maps the next page ahead. *)
Lemma ahead_step n s j i :
  inv n s j → enabled s (AAhead i) → ∃ s' j', step s (AAhead i) s' ∧ inv (S n) s' j'.
Proof.
  intros Hinv Hi. destruct (thread_step warmer_turn n s j i) as (d&got&w'&d'&Hd&Hrun&Hinv'); [|..|done|done|].
  - intros w jn p k Hcu. destruct (warmer_turn_run _ _ _ _ _ _ Hcu) as (w'&jn'&?&?&?). by exists w', jn', (jwarmed jn).
  - intros. apply warmer_turn_spares.
  - eexists _, j. split; [|exact Hinv']. destruct s. by eapply step_ahead.
Qed.

(** ** All steps *)

Lemma any_step n s j a :
  inv n s j → Z.of_nat n < 2 ^ 29 → enabled s a → ∃ s' j', step s a s' ∧ inv (S n) s' j'.
Proof.
  intros Hinv Hn Ha. destruct a.
  - by eapply write_step.
  - destruct (open_step n s j m) as (s'&j'&?&?&_); eauto.
  - destruct (fill_step n s j) as (s'&?&?); eauto.
  - destruct (close_step n s j) as (s'&j'&?&?&_); eauto.
  - by eapply retire_live_step.
  - by eapply warm_step.
  - by eapply clean_step.
  - by eapply join_step.
  - by eapply read_step.
  - by eapply reap_step.
  - by eapply ahead_step.
Qed.

Lemma step_inv n s a s' j :
  inv n s j → Z.of_nat n < 2 ^ 29 → step s a s' → ∃ j', inv (S n) s' j'.
Proof.
  intros Hinv Hn Hstep.
  destruct (any_step _ _ _ a Hinv Hn) as (s2&j2&Hstep'&Hinv2); [by eapply step_enabled|].
  rewrite (step_det _ _ _ _ Hstep Hstep'). by exists j2.
Qed.

Lemma inv_run n s acts s' j :
  inv n s j → run s acts s' → Z.of_nat (n + length acts) ≤ 2 ^ 29 → ∃ j', inv (n + length acts) s' j'.
Proof.
  intros Hinv Hrun. induction Hrun as [s|s acts s1 a s2 Hrun IH Hstep].
  - intros _. exists j. simpl. by rewrite Nat.add_0_r.
  - rewrite length_app. simpl. intros Hn. destruct (IH Hinv) as [j1 Hinv1]; [lia|].
    destruct (step_inv _ _ _ _ _ Hinv1 ltac:(lia) Hstep) as [j2 Hinv2]. exists j2.
    by replace (n + (length acts + 1))%nat with (S (n + length acts)) by lia.
Qed.

Lemma inv_wait n s j : inv n s j → inv (S n) s j.
Proof. intros [? ? ? ? ? ? ? ? ?]. split; try done; lia. Qed.

(** What the invariant says to an application. *)
Lemma inv_delivery n s j i d got fuel :
  inv n s j → sy_readers s !! i = Some (d, got) → (2 * n < fuel)%nat →
  ∃ fs w' d',
    drain fuel (sy_world s, d) = (Ret fs, (w', d')) ∧
    content <$> filter (λ f, is_PageEnd f = false) (got ++ fs) = sy_sent s ∧
    fr_seq <$> (got ++ fs) = seqZ 0 (Z.of_nat (length (got ++ fs))).
Proof.
  intros Hinv Hi Hfuel. destruct (iv_readers _ _ _ Hinv i d got Hi) as (p&k&jn&Hrd&Hgot).
  pose proof (gd_seq _ _ (iv_good _ _ _ Hinv)) as [Hnum Hs]. pose proof (iv_seq _ _ _ Hinv).
  destruct (drain_run fuel (sy_world s) d c j p k jn) as (w'&d'&p'&k'&jn'&Hdrain&_);
    [by eapply inv_readable|pose proof (inv_size _ _ _ Hinv); lia|done| |].
  { apply (f_equal length) in Hgot. rewrite length_app in Hgot. lia. }
  exists (rest j p k), w', d'. split; [done|]. rewrite Hgot. split; [apply Hinv|].
  by apply numbered_seqZ.
Qed.
End system.

(** ** From the start *)

Section start.
Context `{Env} `{!NoErrors} `{!EnvLaws} `{ILocator} `{!LocatorLaws} `{PriorityQueue}.

Definition started (w1 : world) (r1 : writer) : system := Sys w1 r1 Idle [] [].

(** An empty destination. *)
Record empty_destination (w : world) (location : Location) (dest_id : Z) : Prop := {
  ed_dest : in_u 32 dest_id;
  ed_pages : only_pages w (layoutDir location JOURNAL);
  ed_none id : 0 ≤ id < 2 ^ 31 → w_files w !! page_path location dest_id id = None
}.

Lemma started_inv w ser location dest_id wo w1 r1 :
  empty_destination w location dest_id → opt_warmup_pages wo ≤ kWriterPageWarmerRingSize →
  JournalWriter_ctor ser location dest_id wo w = (Ret r1, w1) →
  inv (ctor_cfg ser location dest_id wo) 0 (started w1 r1) (AJ 1 [] [] 0).
Proof.
  intros [Hd Honly Hnone] Ho Hctor.
  destruct (ctor_fresh_run w ser location dest_id wo) as (w1'&r1'&Hctor'&Hrep&[Hc Hw _ _]); [done..|].
  rewrite Hctor in Hctor'. simplify_eq. split; try done.
  intros [|i] [|k] B B' b Hne Hi Hk; done.
Qed.

Lemma run_inv w ser location dest_id wo w1 r1 acts s :
  empty_destination w location dest_id → opt_warmup_pages wo ≤ kWriterPageWarmerRingSize → (∀ n, 0 ≤ env_clock n) →
  JournalWriter_ctor ser location dest_id wo w = (Ret r1, w1) →
  run (started w1 r1) acts s → Z.of_nat (length acts) < 2 ^ 29 →
  ∃ j, inv (ctor_cfg ser location dest_id wo) (length acts) s j.
Proof.
  intros Hed Ho Hclock Hctor Hrun Hlen.
  eapply (inv_run _ Hclock 0); [by eapply started_inv|exact Hrun|simpl; lia].
Qed.
End start.

(** C1: Any number of readers beside one writer.  Start a writer on an empty
    destination and interleave, in any order: writes, typed writes whose
    frame stays open while others run, readers that join, read, retire pages
    and have their warmer threads map pages ahead, the writer's retire thread, and its page warmer, which prepares
    pages up to half its ring ahead of a page it has seen as the current one
    (one page is one step, and so is a clean-up).  At every moment each reader has
    been given exactly the first of the messages committed so far, in order;
    if it then drains, it gets exactly the rest.  The numbers of all frames
    it is given are 0, 1, 2, ...: none is lost, repeated, or seen half built. *)
Theorem live_delivery `{Env} `{!NoErrors} `{!EnvLaws} `{ILocator} `{!LocatorLaws} `{PriorityQueue}
    w ser location dest_id wo w1 r1 acts s i d got fuel :
  empty_destination w location dest_id → opt_warmup_pages wo ≤ kWriterPageWarmerRingSize → (∀ n, 0 ≤ env_clock n) →
  JournalWriter_ctor ser location dest_id wo w = (Ret r1, w1) →
  run (started w1 r1) acts s → Z.of_nat (length acts) < 2 ^ 29 →
  sy_readers s !! i = Some (d, got) → (2 * length acts < fuel)%nat →
  content <$> filter (λ f, is_PageEnd f = false) got `prefix_of` sy_sent s ∧
  ∃ fs w' d',
    drain fuel (sy_world s, d) = (Ret fs, (w', d')) ∧
    content <$> filter (λ f, is_PageEnd f = false) (got ++ fs) = sy_sent s ∧
    fr_seq <$> (got ++ fs) = seqZ 0 (Z.of_nat (length (got ++ fs))).
Proof.
  intros Hed Ho Hclock Hctor Hrun Hlen Hi Hfuel.
  destruct (run_inv _ _ _ _ _ _ _ _ _ Hed Ho Hclock Hctor Hrun Hlen) as [j Hinv].
  destruct (inv_delivery _ _ _ _ _ _ _ _ Hinv Hi Hfuel) as (fs&w'&d'&Hdrain&Hsent&Hseq).
  split; [|by exists fs, w', d']. rewrite <-Hsent, filter_app, fmap_app. by apply prefix_app_r.
Qed.

(** C2: Nobody gets stuck: in every state that can be reached, each call that
    may be made -- any write while no frame is open, the next stage of a
    typed write, a join, a read, a step of a retire thread, of the writer's page
    warmer or of a reader's warmer thread -- returns normally: no fault, no exception, no endless wait. *)
Theorem live_progress `{Env} `{!NoErrors} `{!EnvLaws} `{ILocator} `{!LocatorLaws} `{PriorityQueue}
    w ser location dest_id wo w1 r1 acts s a :
  empty_destination w location dest_id → opt_warmup_pages wo ≤ kWriterPageWarmerRingSize → (∀ n, 0 ≤ env_clock n) →
  JournalWriter_ctor ser location dest_id wo w = (Ret r1, w1) →
  run (started w1 r1) acts s → Z.of_nat (length acts) < 2 ^ 29 → enabled s a →
  ∃ s', step s a s'.
Proof.
  intros Hed Ho Hclock Hctor Hrun Hlen Ha.
  destruct (run_inv _ _ _ _ _ _ _ _ _ Hed Ho Hclock Hctor Hrun Hlen) as [j Hinv].
  destruct (any_step _ Hclock _ _ _ _ Hinv Hlen Ha) as (s'&_&Hstep&_). by exists s'.
Qed.
