(* ===== verification/Threads.v ===== *)
(** * Threads: several threads writing through one writer

    [JournalWriter<MultiWriterPolicy>] (JournalWriter.h): threads of one
    process share a writer, and every call takes the spin lock [writing_].
    Here each thread has a program counter of its own and nothing but the calls
    themselves keeps the threads apart: a thread may call at any time, and a
    call made while the lock is taken spins.  Readers, retire threads and the
    page warmer run in between as in [Live].  The threads are related to the one writer of
    [Live] by a simulation, which carries its theorems over. *)

From S2P Require Import Prelude Memory Frame Base Mmap Page Warmer Writer WriterState.
From S2P Require Import WriterSpec WriterApi Journal Reader JournalSpec ReaderSpec Extend.
From S2P Require Import Resume EndToEnd Isolation ReaderIsolation Live.

(** ** Interleavings *)

(** [s] is made of the lists [ls], each kept in order. *)
Inductive interleaves {A} : list (list A) → list A → Prop :=
  | inter_nil n : interleaves (replicate n []) []
  | inter_snoc ls s i l x : interleaves ls s → ls !! i = Some l →
      interleaves (<[i := l ++ [x]]> ls) (s ++ [x]).

Lemma interleaves_perm {A} (ls : list (list A)) s : interleaves ls s → s ≡ₚ concat ls.
Proof.
  induction 1 as [n|ls s i l x _ IH Hi]; [by induction n|].
  rewrite IH, <-(take_drop_middle ls i l Hi) at 1.
  rewrite insert_take_drop by by eapply lookup_lt_Some.
  rewrite !concat_app. cbn. rewrite <-!app_assoc. cbn. solve_Permutation.
Qed.

Lemma interleaves_sublist {A} (ls : list (list A)) s i l :
  interleaves ls s → ls !! i = Some l → l `sublist_of` s.
Proof.
  intros Hls; revert i l. induction Hls as [n|ls s k l' x _ IH Hk]; intros i l Hi.
  - by apply lookup_replicate_1 in Hi as [-> _].
  - destruct (decide (i = k)) as [->|Hne].
    + rewrite list_lookup_insert_eq in Hi by by eapply lookup_lt_Some. injection Hi as <-.
      apply sublist_app; [by eapply IH|done].
    + rewrite list_lookup_insert_ne in Hi by done. apply sublist_inserts_r. by eapply IH.
Qed.

(** ** The threads *)

Record tstate := TState {
  ts_world : world;
  ts_writer : writer;
  ts_threads : list (phase * list message);   (* each with what it has written *)
  ts_sent : list message;
  ts_readers : list (reader * list frame)
}.

Inductive taction :=
  | TWrite (i : nat) (m : message)
  | TOpen (i : nat) (m : message)
  | TSpin (i : nat) (m : message)
  | TFill (i : nat)
  | TClose (i : nat)
  | TOther (a : action).

#[export] Instance message_eq_dec : EqDecision message.
Proof. solve_decision. Defined.
#[export] Instance phase_eq_dec : EqDecision phase.
Proof. solve_decision. Defined.

Lemma acquire_taken w r : writing_ r = true → acquire_lock (w, r) = (Fault Spin, (w, r)).
Proof. unfold acquire_lock. cbn. by intros ->. Qed.

(** What is not a call of a writing thread. *)
Definition background (a : action) : bool :=
  match a with ARetire | AWarm _ _ | AClean _ | AJoin _ | ARead _ | AReap _ | AAhead _ => true | _ => false end.

Section threads.
Context `{Env} `{ILocator} `{PriorityQueue}.

Inductive tstep : tstate → taction → tstate → Prop :=
  | tstep_write i m w r w' r' ths log sent rds :
      ths !! i = Some (Idle, log) → message_ok (page_size_ (wr_cfg r)) m →
      writeBytes (ms_time m) (ms_type m) (ms_data m) (w, r) = (Ret tt, (w', r')) →
      tstep (TState w r ths sent rds) (TWrite i m)
        (TState w' r' (<[i := (Idle, log ++ [m])]> ths) (sent ++ [m]) rds)
  | tstep_open i m p w r w' r' ths log sent rds :
      ths !! i = Some (Idle, log) → message_ok (page_size_ (wr_cfg r)) m →
      openData (ms_size m) (ms_time m) (ms_type m) FRAME_NORMAL (w, r) = (Ret p, (w', r')) →
      tstep (TState w r ths sent rds) (TOpen i m) (TState w' r' (<[i := (Opened m p, log)]> ths) sent rds)
  | tstep_spin i m w r ths log sent rds :
      ths !! i = Some (Idle, log) → acquire_lock (w, r) = (Fault Spin, (w, r)) →
      tstep (TState w r ths sent rds) (TSpin i m) (TState w r ths sent rds)
  | tstep_fill i m p w r w' r' ths log sent rds :
      ths !! i = Some (Opened m p, log) →
      when (0 <? ms_size m) (io (store_bytes p (ms_data m))) (w, r) = (Ret tt, (w', r')) →
      tstep (TState w r ths sent rds) (TFill i) (TState w' r' (<[i := (Filled m, log)]> ths) sent rds)
  | tstep_close i m w r w' r' ths log sent rds :
      ths !! i = Some (Filled m, log) →
      closeData (ms_size m) no_hook (w, r) = (Ret tt, (w', r')) →
      tstep (TState w r ths sent rds) (TClose i)
        (TState w' r' (<[i := (Idle, log ++ [m])]> ths) (sent ++ [m]) rds)
  | tstep_other a w r w' r' ths sent rds rds' :
      background a = true →
      step (Sys w r Idle sent rds) a (Sys w' r' Idle sent rds') →
      tstep (TState w r ths sent rds) (TOther a) (TState w' r' ths sent rds').

Inductive trun : tstate → list taction → tstate → Prop :=
  | trun_nil t : trun t [] t
  | trun_snoc t acts t1 a t2 : trun t acts t1 → tstep t1 a t2 → trun t (acts ++ [a]) t2.
(** One step, computed. *)
Definition texec (t : tstate) (a : taction) : option tstate :=
  let '(TState w r ths sent rds) := t in
  match a with
  | TWrite i m =>
      '(ph, log) ← ths !! i; guard (ph = Idle ∧ message_ok (page_size_ (wr_cfg r)) m);;
      match writeBytes (ms_time m) (ms_type m) (ms_data m) (w, r) with
      | (Ret tt, (w', r')) => Some (TState w' r' (<[i := (Idle, log ++ [m])]> ths) (sent ++ [m]) rds)
      | _ => None
      end
  | TOpen i m =>
      '(ph, log) ← ths !! i; guard (ph = Idle ∧ message_ok (page_size_ (wr_cfg r)) m);;
      match openData (ms_size m) (ms_time m) (ms_type m) FRAME_NORMAL (w, r) with
      | (Ret p, (w', r')) => Some (TState w' r' (<[i := (Opened m p, log)]> ths) sent rds)
      | _ => None
      end
  | TSpin i m =>
      '(ph, log) ← ths !! i; guard (ph = Idle ∧ writing_ r = true);; Some t
  | TFill i =>
      x ← ths !! i;
      match x with
      | (Opened m p, log) =>
          match when (0 <? ms_size m) (io (store_bytes p (ms_data m))) (w, r) with
          | (Ret tt, (w', r')) => Some (TState w' r' (<[i := (Filled m, log)]> ths) sent rds)
          | _ => None
          end
      | _ => None
      end
  | TClose i =>
      x ← ths !! i;
      match x with
      | (Filled m, log) =>
          match closeData (ms_size m) no_hook (w, r) with
          | (Ret tt, (w', r')) => Some (TState w' r' (<[i := (Idle, log ++ [m])]> ths) (sent ++ [m]) rds)
          | _ => None
          end
      | _ => None
      end
  | TOther a =>
      if background a then
        s ← exec (Sys w r Idle sent rds) a; Some (TState (sy_world s) (sy_writer s) ths sent (sy_readers s))
      else None
  end.

Definition texec_all (t : tstate) (acts : list taction) : option tstate :=
  foldl (λ t a, t ← t; texec t a) (Some t) acts.

Lemma texec_step t a t' : texec t a = Some t' → tstep t a t'.
Proof.
  destruct t as [w r ths sent rds], a; cbn [texec]; intros Hs.
  6:{ destruct (background a) eqn:Ha; [|done]. apply bind_Some in Hs as (s&He&Hs).
      injection Hs as <-. apply exec_step in He. apply tstep_other; [done|].
      destruct a; try discriminate; inversion He; subst; exact He. }
  all: apply bind_Some in Hs as ([ph log]&Hi&Hs);
    repeat (apply bind_Some in Hs as ([]&?&Hs) || case_guard || case_match || destruct_and?); simplify_eq/=;
    econstructor; try done; by apply acquire_taken.
Qed.

Lemma texec_run t acts t' : texec_all t acts = Some t' → trun t acts t'.
Proof.
  revert t'; induction acts as [|a acts IH] using rev_ind; intros t'; unfold texec_all in *.
  - cbn. intros [= <-]. constructor.
  - rewrite foldl_app. cbn [foldl]. intros (t1&Ht1&Ha)%bind_Some.
    econstructor; [by apply IH|by apply texec_step].
Qed.
End threads.

(** ** The simulation *)



(** The phase of the thread that has a frame open. *)
Fixpoint open_phase (ths : list (phase * list message)) : phase :=
  match ths with
  | [] => Idle
  | (Idle, _) :: ths => open_phase ths
  | (ph, _) :: _ => ph
  end.

Definition as_system (t : tstate) : system :=
  Sys (ts_world t) (ts_writer t) (open_phase (ts_threads t)) (ts_sent t) (ts_readers t).

(** At most one thread is between [openData] and [closeData]. *)
Definition exclusive (ths : list (phase * list message)) : Prop :=
  ∀ i k ph1 ph2 l1 l2, ths !! i = Some (ph1, l1) → ths !! k = Some (ph2, l2) →
    ph1 ≠ Idle → ph2 ≠ Idle → i = k.

Lemma open_phase_idle ths : open_phase ths = Idle ↔ ∀ i ph l, ths !! i = Some (ph, l) → ph = Idle.
Proof.
  induction ths as [|[ph l] ths IH]; cbn; [split; [done|done]|]. split.
  - intros Hop [|i] ph' l' Hi; [injection Hi as <- <-; by destruct ph|].
    destruct ph; [by eapply (proj1 IH)|done..].
  - intros Hall. rewrite (Hall 0%nat ph l eq_refl). apply IH. intros i. apply (Hall (S i)).
Qed.

Lemma open_phase_cases ths : open_phase ths = Idle ∨ ∃ i ph l, ths !! i = Some (ph, l) ∧ ph ≠ Idle.
Proof.
  destruct (decide (Exists (λ x : phase * list message, x.1 ≠ Idle) ths)) as [He|Hn].
  - right. apply Exists_exists in He as ([ph l]&[i Hi]%list_elem_of_lookup&Hne). by exists i, ph, l.
  - left. apply open_phase_idle. intros i ph l Hi. destruct (decide (ph = Idle)) as [|Hne]; [done|].
    destruct Hn. apply Exists_exists. exists (ph, l). split; [by eapply list_elem_of_lookup_2|done].
Qed.

Lemma open_phase_owner ths i ph l :
  exclusive ths → ths !! i = Some (ph, l) → ph ≠ Idle → open_phase ths = ph.
Proof.
  revert i; induction ths as [|[ph0 l0] ths IH]; intros i Hex Hi Hne; [done|].
  destruct i as [|i]; cbn in Hi |- *; [by injection Hi as -> ->; destruct ph|].
  assert (ph0 = Idle) as ->.
  { destruct ph0; [done|..]; by pose proof (Hex 0%nat (S i) _ _ _ _ eq_refl Hi ltac:(done) Hne). }
  eapply IH; [|exact Hi|done]. intros a b ph1 ph2 l1 l2 Ha Hb H1 H2.
  pose proof (Hex (S a) (S b) _ _ _ _ Ha Hb H1 H2). lia.
Qed.

Lemma exclusive_insert ths i ph l0 l :
  exclusive ths → (∀ k ph' l', ths !! k = Some (ph', l') → ph' ≠ Idle → k = i) ∨ ph = Idle →
  ths !! i = Some l0 → exclusive (<[i := (ph, l)]> ths).
Proof.
  intros Hex Hph Hi a b ph1 ph2 l1 l2 Ha Hb H1 H2.
  rewrite list_lookup_insert in Ha, Hb.
  repeat case_decide; destruct_and?; simplify_eq/=; try done.
  1-2: destruct Hph as [Hph|?]; [first [by eapply Hph|symmetry; by eapply Hph]|done].
  - by eapply Hex.
Qed.

(** A thread that moves, when no other thread has a frame open. *)
Lemma open_phase_insert ths i ph l0 l :
  exclusive ths → (∀ k ph' l', ths !! k = Some (ph', l') → ph' ≠ Idle → k = i) →
  ths !! i = Some l0 → open_phase (<[i := (ph, l)]> ths) = ph.
Proof.
  intros Hex Hoth Hi. assert ((<[i := (ph, l)]> ths) !! i = Some (ph, l)) as Hnew.
  { apply list_lookup_insert_eq. by eapply lookup_lt_Some. }
  destruct (decide (ph = Idle)) as [->|Hne].
  - apply open_phase_idle. intros k ph' l' Hk. destruct (decide (i = k)) as [<-|Hik].
    + rewrite Hnew in Hk. by injection Hk as <- _.
    + rewrite list_lookup_insert_ne in Hk by done. destruct ph'; [done|..]; by rewrite (Hoth _ _ _ Hk) in Hik.
  - eapply open_phase_owner; [|exact Hnew|done]. eapply exclusive_insert; [done|by left|done].
Qed.

(** ** The threads' invariant *)

Section invariant.
Context `{Env} `{!NoErrors} `{!EnvLaws} `{ILocator} `{!LocatorLaws} `{PriorityQueue}.
Context (c : writer_config) (Hclock : ∀ n, 0 ≤ env_clock n) (Hser : serialize c = true).

Record tinv (n : nat) (t : tstate) (j : ajournal) : Prop := {
  ti_system : inv c n (as_system t) j;
  ti_exclusive : exclusive (ts_threads t);
  ti_logs : interleaves (ts_threads t).*2 (ts_sent t)
}.

(** The lock is taken exactly while some thread has a frame open. *)
Lemma phase_lock n t j : tinv n t j → writing_ (ts_writer t) = negb (bool_decide (open_phase (ts_threads t) = Idle)).
Proof.
  intros [Hinv _ _]. pose proof (iv_phase _ _ _ _ Hinv) as Hph. pose proof (iv_cfg _ _ _ _ Hinv) as Hc.
  cbn in Hph, Hc. destruct (open_phase _); cbn in Hph.
  - by destruct Hph.
  - destruct Hph as (_&_&_&->&_). by rewrite Hc, Hser.
  - destruct Hph as (_&_&_&->&_). by rewrite Hc, Hser.
Qed.

(** A call that returns found the lock free. *)
Lemma with_lock_free {A} (m : W A) w r x s :
  serialize (wr_cfg r) = true → with_lock m (w, r) = (Ret x, s) → writing_ r = false.
Proof.
  intros Hs. unfold with_lock. rewrite (bind_Ret _ _ _ _ _ (this_run _ _)), Hs.
  destruct (writing_ r) eqn:Hw; [|done]. unfold bind at 1. by rewrite acquire_taken.
Qed.

Lemma openData_free n ts ty flags w r x s :
  serialize (wr_cfg r) = true → openData n ts ty flags (w, r) = (Ret x, s) → writing_ r = false.
Proof.
  intros Hs. unfold openData. rewrite (bind_Ret _ _ _ _ _ (this_run _ _)), Hs. cbn [when].
  destruct (writing_ r) eqn:Hw; [|done]. unfold bind at 1. by rewrite acquire_taken.
Qed.

(** What a thread's call means to the one writer of [Live]. *)
Definition live_action (a : taction) : option action :=
  match a with
  | TWrite _ m => Some (AWrite m)
  | TOpen _ m => Some (AOpen m)
  | TSpin _ _ => None
  | TFill _ => Some AFill
  | TClose _ => Some AClose
  | TOther a => Some a
  end.

Lemma all_idle n t j : tinv n t j → writing_ (ts_writer t) = false → open_phase (ts_threads t) = Idle.
Proof.
  intros Ht Hw. rewrite (phase_lock _ _ _ Ht) in Hw. by apply negb_false_iff, bool_decide_eq_true in Hw.
Qed.

Lemma logs_insert (ths : list (phase * list message)) i ph l :
  (<[i := (ph, l)]> ths).*2 = <[i := l]> (ths.*2).
Proof. by rewrite list_fmap_insert. Qed.

Lemma logs_same (ths : list (phase * list message)) i ph ph' l :
  ths !! i = Some (ph, l) → (<[i := (ph', l)]> ths).*2 = ths.*2.
Proof. intros Hi. rewrite logs_insert. apply list_insert_id. by rewrite list_lookup_fmap, Hi. Qed.

(** The owner of the open frame is the only one with a phase. *)
Lemma only_owner ths i ph l k ph' l' :
  exclusive ths → ths !! i = Some (ph, l) → ph ≠ Idle → ths !! k = Some (ph', l') → ph' ≠ Idle → k = i.
Proof. intros Hex Hi Hne Hk Hne'. by eapply Hex. Qed.

Lemma nobody_else ths k ph' l' i : open_phase ths = Idle → ths !! k = Some (ph', l') → ph' ≠ Idle → k = i.
Proof. intros Hop Hk Hne. by rewrite (proj1 (open_phase_idle ths) Hop _ _ _ Hk) in Hne. Qed.

(** One step of a thread that makes a step of [Live]. *)
Lemma tinv_step n w r ths sent rds j w' r' ph sent' rds' j' i l x :
  tinv n (TState w r ths sent rds) j → ths !! i = Some x →
  (∀ k ph' l', ths !! k = Some (ph', l') → ph' ≠ Idle → k = i) →
  inv c (S n) (Sys w' r' ph sent' rds') j' → interleaves (<[i := l]> ths.*2) sent' →
  tinv (S n) (TState w' r' (<[i := (ph, l)]> ths) sent' rds') j'.
Proof.
  intros [Hinv Hex Hlogs] Hi Hoth Hinv' Hl. cbn in *. split; cbn.
  - unfold as_system. cbn. by rewrite (open_phase_insert _ _ _ _ _ Hex Hoth Hi).
  - eapply exclusive_insert; [done|by left|done].
  - by rewrite logs_insert.
Qed.

(** The other calls do not look at the phase. *)
Lemma background_phase a w r w' r' ph sent rds rds' :
  background a = true → step (Sys w r Idle sent rds) a (Sys w' r' Idle sent rds') →
  step (Sys w r ph sent rds) a (Sys w' r' ph sent rds').
Proof. intros Ha Hs. destruct a; try discriminate Ha; inversion Hs; subst; by econstructor. Qed.

Lemma log_insert {A} (ths : list (A * list message)) i ph l m sent :
  interleaves ths.*2 sent → ths !! i = Some (ph, l) → interleaves (<[i := l ++ [m]]> ths.*2) (sent ++ [m]).
Proof. intros Hl Hi. apply inter_snoc; [done|]. by rewrite list_lookup_fmap, Hi. Qed.

Lemma log_keep {A} (ths : list (A * list message)) i ph l sent :
  interleaves ths.*2 sent → ths !! i = Some (ph, l) → interleaves (<[i := l]> ths.*2) sent.
Proof. intros Hl Hi. by rewrite list_insert_id by by rewrite list_lookup_fmap, Hi. Qed.

Lemma tstep_inv n t a t' j :
  tinv n t j → Z.of_nat n < 2 ^ 29 → tstep t a t' → ∃ j', tinv (S n) t' j'.
Proof.
  intros Ht Hn Hstep. pose proof Ht as [Hinv Hex Hlogs]. pose proof (iv_cfg _ _ _ _ Hinv) as Hc.
  assert (∀ s, as_system t = s → ∀ b s', step s b s' → ∃ j', inv c (S n) s' j') as Hlive.
  { intros s <- b s'. by eapply step_inv. }
  destruct Hstep as [i m w r w' r' ths log sent rds Hi Hok Hrun|i m p w r w' r' ths log sent rds Hi Hok Hrun
    |i m w r ths log sent rds Hi Hspin|i m p w r w' r' ths log sent rds Hi Hrun
    |i m w r w' r' ths log sent rds Hi Hrun|a w r w' r' ths sent rds rds' Ha Hother];
    cbn in Hc, Hex, Hlogs; pose proof (f_equal serialize Hc) as Hs; rewrite Hser in Hs;
    unfold as_system in Hlive; cbn in Hlive.
  - pose proof (all_idle _ _ _ Ht (with_lock_free _ _ _ _ _ Hs Hrun)) as Hidle. cbn in Hidle. rewrite Hidle in Hlive.
    destruct (Hlive _ eq_refl _ _ (step_write m w r w' r' sent rds Hok Hrun)) as [j' Hinv'].
    exists j'. eapply tinv_step; [exact Ht|exact Hi| |exact Hinv'|by eapply log_insert].
    intros k ph' l'. by apply nobody_else.
  - pose proof (all_idle _ _ _ Ht (openData_free _ _ _ _ _ _ _ _ Hs Hrun)) as Hidle. cbn in Hidle. rewrite Hidle in Hlive.
    destruct (Hlive _ eq_refl _ _ (step_open m w r w' r' p sent rds Hok Hrun)) as [j' Hinv'].
    exists j'. eapply tinv_step; [exact Ht|exact Hi| |exact Hinv'|by eapply log_keep].
    intros k ph' l'. by apply nobody_else.
  - exists j. split; [by apply inv_wait|done..].
  - rewrite (open_phase_owner _ _ _ _ Hex Hi) in Hlive by done.
    destruct (Hlive _ eq_refl _ _ (step_fill m p w r w' r' sent rds Hrun)) as [j' Hinv'].
    exists j'. eapply tinv_step; [exact Ht|exact Hi| |exact Hinv'|by eapply log_keep].
    intros k ph' l'. by eapply only_owner.
  - rewrite (open_phase_owner _ _ _ _ Hex Hi) in Hlive by done.
    destruct (Hlive _ eq_refl _ _ (step_close m w r w' r' sent rds Hrun)) as [j' Hinv'].
    exists j'. eapply tinv_step; [exact Ht|exact Hi| |exact Hinv'|by eapply log_insert].
    intros k ph' l'. by eapply only_owner.
  - destruct (Hlive _ eq_refl _ _ (background_phase _ _ _ _ _ _ _ _ _ Ha Hother)) as [j' Hinv'].
    by exists j'.
Qed.

Lemma tinv_run n t acts t' j :
  tinv n t j → trun t acts t' → Z.of_nat (n + length acts) ≤ 2 ^ 29 → ∃ j', tinv (n + length acts) t' j'.
Proof.
  intros Ht Hrun. induction Hrun as [t|t acts t1 a t2 Hrun IH Hstep].
  - intros _. exists j. cbn. by rewrite Nat.add_0_r.
  - rewrite length_app. cbn. intros Hn. destruct (IH Ht) as [j1 Ht1]; [lia|].
    destruct (tstep_inv _ _ _ _ _ Ht1 ltac:(lia) Hstep) as [j2 Ht2]. exists j2.
    by replace (n + (length acts + 1))%nat with (S (n + length acts)) by lia.
Qed.

(** Somebody can always go on: with the lock free any thread can write; with
    the lock taken the thread that holds it can take its next step. *)
Lemma tinv_progress n t j i log m :
  tinv n t j → Z.of_nat n < 2 ^ 29 → ts_threads t !! i = Some (Idle, log) →
  message_ok (page_size_ (wr_cfg (ts_writer t))) m →
  (∃ t1 t2, tstep t (TWrite i m) t1 ∧ tstep t (TOpen i m) t2) ∨
  (tstep t (TSpin i m) t ∧ ∃ k t', k ≠ i ∧ (tstep t (TFill k) t' ∨ tstep t (TClose k) t')).
Proof.
  intros Ht Hn Hi Hok. pose proof Ht as [Hinv Hex _]. destruct t as [w r ths sent rds]. cbn in *.
  assert (∀ a, enabled (Sys w r (open_phase ths) sent rds) a →
    ∃ s', step (Sys w r (open_phase ths) sent rds) a s') as Hlive.
  { intros a Ha. destruct (any_step _ Hclock _ _ _ _ Hinv Hn Ha) as (s'&_&Hstep&_). by exists s'. }
  pose proof (phase_lock _ _ _ Ht) as Hlock. cbn in Hlock.
  destruct (open_phase_cases ths) as [Hidle|(k&ph&l&Hk&Hne)].
  - left. rewrite Hidle in Hlive.
    destruct (Hlive (AWrite m)) as [s1 Hs1]; [done|]. destruct (Hlive (AOpen m)) as [s2 Hs2]; [done|].
    inversion Hs1; subst. inversion Hs2; subst. eexists _, _. split; by econstructor.
  - right. pose proof (open_phase_owner _ _ _ _ Hex Hk Hne) as Hph. rewrite Hph in Hlive, Hlock.
    rewrite bool_decide_false in Hlock by done. split; [eapply tstep_spin; [exact Hi|by apply acquire_taken]|].
    destruct ph as [|m' p|m']; [done| |].
    + destruct (Hlive AFill) as [s1 Hs1]; [by exists m', p|]. inversion Hs1; subst.
      exists k. eexists. split; [congruence|]. left. by econstructor.
    + destruct (Hlive AClose) as [s1 Hs1]; [by exists m'|]. inversion Hs1; subst.
      exists k. eexists. split; [congruence|]. right. by econstructor.
Qed.
End invariant.

(** ** From the start *)

(** [k] threads around a new writer. *)
Definition tstarted (k : nat) (w1 : world) (r1 : writer) : tstate := TState w1 r1 (replicate k (Idle, [])) [] [].

Section start.
Context `{Env} `{!NoErrors} `{!EnvLaws} `{ILocator} `{!LocatorLaws} `{PriorityQueue}.

Lemma trun_inv w location dest_id wo w1 r1 k acts t :
  empty_destination w location dest_id → opt_warmup_pages wo ≤ kWriterPageWarmerRingSize → (∀ n, 0 ≤ env_clock n) →
  JournalWriter_ctor true location dest_id wo w = (Ret r1, w1) →
  trun (tstarted k w1 r1) acts t → Z.of_nat (length acts) < 2 ^ 29 →
  ∃ j, tinv (ctor_cfg true location dest_id wo) (length acts) t j.
Proof.
  intros Hed Ho Hclock Hctor Hrun Hlen.
  eapply (tinv_run (ctor_cfg true location dest_id wo) Hclock eq_refl 0 _ acts t (AJ 1 [] [] 0)); [|exact Hrun|cbn; lia].
  assert (∀ i ph l, replicate k (Idle, [] : list message) !! i = Some (ph, l) → ph = Idle) as Hall.
  { intros i ph l [Hi _]%lookup_replicate_1. by injection Hi. }
  split.
  - unfold as_system. cbn. rewrite (proj2 (open_phase_idle _) Hall). by eapply started_inv.
  - intros a b ph1 ph2 l1 l2 Ha Hb Hne. by rewrite (Hall _ _ _ Ha) in Hne.
  - cbn. rewrite fmap_replicate. apply inter_nil.
Qed.
End start.

(** C3: Any number of threads writing through one writer.  The threads call
    [writeBytes] or [openData] and [closeData] whenever they like, kept apart
    by nothing but the spin lock, with readers, retire threads and the page
    warmer in between.
    At every moment at most one thread has a frame open, and the lock is taken
    exactly then; what has been committed is an interleaving of what the
    threads have written, each thread's messages in its own order; and each
    reader has been given the first of it and gets the rest if it drains. *)
Theorem threads_delivery `{Env} `{!NoErrors} `{!EnvLaws} `{ILocator} `{!LocatorLaws} `{PriorityQueue}
    w location dest_id wo w1 r1 k acts t :
  empty_destination w location dest_id → opt_warmup_pages wo ≤ kWriterPageWarmerRingSize → (∀ n, 0 ≤ env_clock n) →
  JournalWriter_ctor true location dest_id wo w = (Ret r1, w1) →
  trun (tstarted k w1 r1) acts t → Z.of_nat (length acts) < 2 ^ 29 →
  exclusive (ts_threads t) ∧
  (writing_ (ts_writer t) = true ↔ ∃ i ph log, ts_threads t !! i = Some (ph, log) ∧ ph ≠ Idle) ∧
  interleaves (ts_threads t).*2 (ts_sent t) ∧
  ∀ i d got fuel, ts_readers t !! i = Some (d, got) → (2 * length acts < fuel)%nat →
    ∃ fs w' d', drain fuel (ts_world t, d) = (Ret fs, (w', d')) ∧
      content <$> filter (λ f, is_PageEnd f = false) (got ++ fs) = ts_sent t ∧
      fr_seq <$> (got ++ fs) = seqZ 0 (Z.of_nat (length (got ++ fs))).
Proof.
  intros Hed Ho Hclock Hctor Hrun Hlen.
  destruct (trun_inv _ _ _ _ _ _ _ _ _ Hed Ho Hclock Hctor Hrun Hlen) as [j Ht].
  split; [apply Ht|]. split; [|split; [apply Ht|]].
  - rewrite (phase_lock (ctor_cfg true location dest_id wo) eq_refl _ _ _ Ht), negb_true_iff, bool_decide_eq_false, open_phase_idle. split.
    + intros Hn. rewrite <-open_phase_idle in Hn. by destruct (open_phase_cases (ts_threads t)).
    + intros (i&ph&log&Hi&Hne) Hall. by apply Hne, (Hall _ _ _ Hi).
  - intros i d got fuel Hi Hfuel. eapply (inv_delivery _ _ (as_system t)); [apply Ht|exact Hi|done].
Qed.

(** C4: The lock cannot be left taken by a thread that writes without errors:
    whenever a thread wants to write, either it can -- a whole write and a
    typed one both succeed -- or it spins and the one thread that holds the
    lock can take its next step towards [closeData]. *)
Theorem threads_progress `{Env} `{!NoErrors} `{!EnvLaws} `{ILocator} `{!LocatorLaws} `{PriorityQueue}
    w location dest_id wo w1 r1 k acts t i log m :
  empty_destination w location dest_id → opt_warmup_pages wo ≤ kWriterPageWarmerRingSize → (∀ n, 0 ≤ env_clock n) →
  JournalWriter_ctor true location dest_id wo w = (Ret r1, w1) →
  trun (tstarted k w1 r1) acts t → Z.of_nat (length acts) < 2 ^ 29 →
  ts_threads t !! i = Some (Idle, log) → message_ok (page_size_ (wr_cfg (ts_writer t))) m →
  (∃ t1 t2, tstep t (TWrite i m) t1 ∧ tstep t (TOpen i m) t2) ∨
  (tstep t (TSpin i m) t ∧ ∃ k t', k ≠ i ∧ (tstep t (TFill k) t' ∨ tstep t (TClose k) t')).
Proof.
  intros Hed Ho Hclock Hctor Hrun Hlen Hi Hok.
  destruct (trun_inv _ _ _ _ _ _ _ _ _ Hed Ho Hclock Hctor Hrun Hlen) as [j Ht].
  by eapply (tinv_progress (ctor_cfg true location dest_id wo) Hclock eq_refl).
Qed.
