(* ===== verification/Retire.v ===== *)
(** * Retire: the retire thread, its queue and its end

    [retireLoop] of JournalWriter.h and Journal.h beside the thread that owns
    the journal: a queue under a mutex, a condition variable, the flag
    [retire_running_], and the destructor that hands over the remaining pages,
    clears the flag, notifies and joins.  The steps here are as fine as the
    locking: taking the mutex, what is done under it, the notification after
    it is given back.  A sleeping thread may be woken for no reason, as C++
    allows.  The model is of a journal with [background_threads]; without
    them the owner destroys its pages itself.  ([retire_step] and [JournalWriter_release] of Writer and
    [jretire_step] of Journal are what these steps do to the pages.) *)

From S2P Require Import Prelude.
From stdpp Require Import relations.

Section retire.
Context {A : Type}.

(** Where the retire thread is. *)
Inductive worker_pc :=
  | WLock              (* about to take the mutex *)
  | WTest              (* has it; evaluates the predicate of [wait] *)
  | WSleep             (* waits, the mutex given back *)
  | WWake              (* woken, about to take the mutex again *)
  | WDrain             (* has it; [while (!retire_queue_.empty())] *)
  | WFree (a : A)      (* the mutex given back, about to destroy a page *)
  | WRelock            (* about to take the mutex again *)
  | WExit.

(** Where the owner is: running, handing a page over, in the destructor. *)
Inductive owner_pc :=
  | ORun
  | OHand (a : A)      (* about to take the mutex, with the oldest page *)
  | OPush (a : A)      (* has it *)
  | ONotify            (* has given it back, about to [notify_one] *)
  | OStop              (* the destructor, about to take the mutex *)
  | OMove              (* has it *)
  | ONotifyAll         (* has given it back, about to [notify_all] *)
  | OJoin
  | ODone.

Record retire_state := RS {
  rs_worker : worker_pc;
  rs_owner : owner_pc;
  rs_queue : list A;            (* [retire_queue_] *)
  rs_running : bool;            (* [retire_running_] *)
  rs_current : option A;        (* a page the destructor hands over first: the reader's *)
  rs_retired : list A;          (* [retired_pages_] *)
  rs_handed : list A;           (* pages pushed so far, in order *)
  rs_freed : list A;            (* pages destroyed so far, in order *)
  rs_all : list A               (* every page given to the journal *)
}.

Definition worker_holds (w : worker_pc) : bool :=
  match w with WTest | WDrain => true | _ => false end.
Definition owner_holds (o : owner_pc) : bool :=
  match o with OPush _ | OMove => true | _ => false end.
(** Whether [retire_mutex_] can be taken. *)
Definition lock_free (s : retire_state) : bool :=
  negb (worker_holds (rs_worker s)) && negb (owner_holds (rs_owner s)).

(** ** The retire thread *)

Definition at_worker (w : worker_pc) (s : retire_state) : retire_state :=
  RS w (rs_owner s) (rs_queue s) (rs_running s) (rs_current s) (rs_retired s) (rs_handed s)
    (rs_freed s) (rs_all s).

(** [retireLoop]: its next step, if it can make one. *)
Definition retireLoop (s : retire_state) : option retire_state :=
  match rs_worker s with
  | WLock | WWake => if lock_free s then Some (at_worker WTest s) else None
  | WTest =>
      Some (at_worker (if bool_decide (rs_queue s ≠ []) || negb (rs_running s) then WDrain else WSleep) s)
  | WSleep => None
  | WDrain =>
      match rs_queue s with
      | a :: q =>
          Some (RS (WFree a) (rs_owner s) q (rs_running s) (rs_current s) (rs_retired s)
            (rs_handed s) (rs_freed s) (rs_all s))
      | [] => Some (at_worker (if rs_running s then WLock else WExit) s)
      end
  | WFree a =>
      Some (RS WRelock (rs_owner s) (rs_queue s) (rs_running s) (rs_current s) (rs_retired s)
        (rs_handed s) (rs_freed s ++ [a]) (rs_all s))
  | WRelock => if lock_free s then Some (at_worker WDrain s) else None
  | WExit => None
  end.

(** ** The owner *)

Definition at_owner (o : owner_pc) (s : retire_state) : retire_state :=
  RS (rs_worker s) o (rs_queue s) (rs_running s) (rs_current s) (rs_retired s) (rs_handed s)
    (rs_freed s) (rs_all s).

(** A notification wakes the thread if it sleeps, and is lost otherwise. *)
Definition notified (w : worker_pc) : worker_pc := match w with WSleep => WWake | _ => w end.

(** The pages the destructor hands over. *)
Definition last_pages (s : retire_state) : list A := option_list (rs_current s) ++ rs_retired s.

(** The handing over of a page. *)
Definition hand_over_step (s : retire_state) : option retire_state :=
  match rs_owner s with
  | OHand a => if lock_free s then Some (at_owner (OPush a) s) else None
  | OPush a =>
      Some (RS (rs_worker s) ONotify (rs_queue s ++ [a]) (rs_running s) (rs_current s)
        (rs_retired s) (rs_handed s ++ [a]) (rs_freed s) (rs_all s))
  | ONotify =>
      Some (RS (notified (rs_worker s)) ORun (rs_queue s) (rs_running s) (rs_current s)
        (rs_retired s) (rs_handed s) (rs_freed s) (rs_all s))
  | _ => None
  end.

(** The destructor. *)
Definition destroy_step (s : retire_state) : option retire_state :=
  match rs_owner s with
  | OStop => if lock_free s then Some (at_owner OMove s) else None
  | OMove =>
      Some (RS (rs_worker s) ONotifyAll (rs_queue s ++ last_pages s) false None []
        (rs_handed s ++ last_pages s) (rs_freed s) (rs_all s))
  | ONotifyAll =>
      Some (RS (notified (rs_worker s)) OJoin (rs_queue s) (rs_running s) (rs_current s)
        (rs_retired s) (rs_handed s) (rs_freed s) (rs_all s))
  | OJoin => match rs_worker s with WExit => Some (at_owner ODone s) | _ => None end
  | _ => None
  end.

(** The owner's next step in what it is doing. *)
Definition owner_step (s : retire_state) : option retire_state :=
  match rs_owner s with
  | OHand _ | OPush _ | ONotify => hand_over_step s
  | _ => destroy_step s
  end.

(** What the owner starts: the current page is given up for another (the
    reader keeps the new one until the destructor, the writer does not), the
    oldest retained page is handed over, the destructor begins. *)
Inductive request := Leave (a : A) | Enter (a : A) | HandOver | Destroy.

Definition owner_start (limit : nat) (r : request) (s : retire_state) : option retire_state :=
  match rs_owner s, r with
  | ORun, Leave a =>
      Some (RS (rs_worker s) ORun (rs_queue s) (rs_running s) (rs_current s) (rs_retired s ++ [a])
        (rs_handed s) (rs_freed s) (rs_all s ++ [a]))
  | ORun, Enter a =>
      Some (RS (rs_worker s) ORun (rs_queue s) (rs_running s) (Some a)
        (rs_retired s ++ option_list (rs_current s)) (rs_handed s) (rs_freed s) (rs_all s ++ [a]))
  | ORun, HandOver =>
      match rs_retired s with
      | a :: rest =>
          if decide (limit < length (rs_retired s))%nat then
            Some (RS (rs_worker s) (OHand a) (rs_queue s) (rs_running s) (rs_current s) rest
              (rs_handed s) (rs_freed s) (rs_all s))
          else None
      | [] => None
      end
  | ORun, Destroy => Some (at_owner OStop s)
  | _, _ => None
  end.

(** ** All steps *)

Inductive turn := Worker | Owner | Request (r : request) | Spurious.

Definition tick (limit : nat) (t : turn) (s : retire_state) : option retire_state :=
  match t with
  | Worker => retireLoop s
  | Owner => owner_step s
  | Request r => owner_start limit r s
  | Spurious => match rs_worker s with WSleep => Some (at_worker WWake s) | _ => None end
  end.

Definition steps (limit : nat) (s s' : retire_state) : Prop := ∃ t, tick limit t s = Some s'.

(** A whole schedule. *)
Fixpoint ticks (limit : nat) (ts : list turn) (s : retire_state) : option retire_state :=
  match ts with
  | [] => Some s
  | t :: ts => match tick limit t s with Some s1 => ticks limit ts s1 | None => None end
  end.

Definition started : retire_state := RS WLock ORun [] true None [] [] [] [].

End retire.
Arguments worker_pc : clear implicits.
Arguments owner_pc : clear implicits.
Arguments retire_state : clear implicits.
Arguments turn : clear implicits.
Arguments request : clear implicits.

Section retire_facts.
Context {A : Type} (limit : nat).
Implicit Types s : retire_state A.

Lemma lock_free_spec s :
  lock_free s = true ↔ worker_holds (rs_worker s) = false ∧ owner_holds (rs_owner s) = false.
Proof. unfold lock_free. destruct (worker_holds _), (owner_holds _); naive_solver. Qed.

(** ** The invariant *)

Definition worker_hand (w : worker_pc A) : list A := match w with WFree a => [a] | _ => [] end.
Definition owner_hand (o : owner_pc A) : list A := match o with OHand a | OPush a => [a] | _ => [] end.
(** A notification is on its way. *)
Definition notifying (o : owner_pc A) : bool := match o with ONotify | ONotifyAll => true | _ => false end.
(** The destructor has given the last pages away and cleared the flag. *)
Definition stopped (o : owner_pc A) : bool := match o with ONotifyAll | OJoin | ODone => true | _ => false end.

Record retire_inv s : Prop := {
  ri_order : rs_freed s ++ worker_hand (rs_worker s) ++ rs_queue s = rs_handed s;
  ri_all : rs_handed s ++ owner_hand (rs_owner s) ++ last_pages s ≡ₚ rs_all s;
  ri_mutex : worker_holds (rs_worker s) = true → owner_holds (rs_owner s) = false;
  ri_awake : rs_worker s = WSleep → notifying (rs_owner s) = false → rs_queue s = [] ∧ rs_running s = true;
  ri_running : rs_running s = negb (stopped (rs_owner s));
  ri_exit : rs_worker s = WExit → rs_running s = false ∧ rs_queue s = [];
  ri_empty : stopped (rs_owner s) = true → last_pages s = [];
  ri_done : rs_owner s = ODone → rs_worker s = WExit
}.

Lemma started_retire_inv : retire_inv started.
Proof. by split. Qed.

(** The fields of the invariant that the step leaves to the old ones. *)
Ltac fields :=
  split; unfold last_pages in *; cbn in *; intros; simplify_eq/=;
  repeat match goal with
  | H : ?a = ?a → _ |- _ => specialize (H eq_refl)
  | H : ?P → _, H' : ?P |- _ => specialize (H H')
  | H : _ ∧ _ |- _ => destruct H
  end; simplify_eq/=; try first [done | by auto | by split | congruence].

Lemma worker_inv s s' : retireLoop s = Some s' → retire_inv s → retire_inv s'.
Proof.
  intros Hs [Hord Hall Hmx Haw Hrun Hex Hem Hdn]. destruct s as [w o q run cur ret hd fr all].
  unfold retireLoop, lock_free in Hs. cbn in *. destruct w as [| | | | |a| |]; cbn in *.
  - destruct (owner_holds o) eqn:Hl; simplify_eq/=. fields.
  - injection Hs as <-. case_bool_decide as Hq; cbn; [fields|].
    subst q. destruct run; fields.
  - done.
  - destruct (owner_holds o) eqn:Hl; simplify_eq/=. fields.
  - destruct q as [|a q]; simplify_eq/=; [|fields].
    destruct o; fields.
  - simplify_eq/=. fields. by rewrite <-app_assoc.
  - destruct (owner_holds o) eqn:Hl; simplify_eq/=. fields.
  - done.
Qed.

Lemma owner_inv s s' : owner_step s = Some s' → retire_inv s → retire_inv s'.
Proof.
  intros Hs [Hord Hall Hmx Haw Hrun Hex Hem Hdn]. destruct s as [w o q run cur ret hd fr all].
  unfold owner_step, hand_over_step, destroy_step, lock_free in Hs. cbn in *. destruct o as [|a|a| | | | | |]; cbn in *.
  - done.
  - destruct (worker_holds w) eqn:Hl; simplify_eq/=; fields.
  - simplify_eq/=. fields.
    + by rewrite <-!app_assoc.
    + by rewrite <-app_assoc.
  - simplify_eq/=. destruct w; fields.
  - destruct (worker_holds w) eqn:Hl; simplify_eq/=; fields.
  - simplify_eq/=. fields.
    + by rewrite <-!app_assoc.
    + by rewrite app_nil_r.
  - simplify_eq/=. destruct w; fields.
  - destruct w; simplify_eq/=. fields.
  - done.
Qed.

Lemma request_inv r s s' : owner_start limit r s = Some s' → retire_inv s → retire_inv s'.
Proof.
  intros Hs [Hord Hall Hmx Haw Hrun Hex Hem Hdn]. destruct s as [w o q run cur ret hd fr all].
  unfold owner_start in Hs. cbn in *. destruct o; try done. cbn in *. unfold last_pages in *. cbn in *.
  destruct r as [a|a| |]; cbn in *.
  - simplify_eq/=. fields. unfold last_pages. cbn. by rewrite <-Hall, <-!app_assoc.
  - simplify_eq/=. fields. unfold last_pages. cbn. rewrite <-Hall. solve_Permutation.
  - destruct ret as [|a rest]; [done|]. case_decide; simplify_eq/=. fields.
    unfold last_pages. cbn. rewrite <-Hall. solve_Permutation.
  - simplify_eq/=. fields.
Qed.

Lemma tick_inv t s s' : tick limit t s = Some s' → retire_inv s → retire_inv s'.
Proof.
  destruct t; cbn [tick].
  - apply worker_inv.
  - apply owner_inv.
  - apply request_inv.
  - intros Hs [Hord Hall Hmx Haw Hrun Hex Hem Hdn]. destruct s as [w o q run cur ret hd fr all].
    cbn in *. destruct w; simplify_eq/=. fields.
Qed.

Lemma steps_inv s s' : rtc (steps limit) s s' → retire_inv s → retire_inv s'.
Proof. induction 1 as [|s s1 s' [t Ht] _ IH]; [done|]. intros Hinv. by eapply IH, tick_inv. Qed.

(** ** Nobody waits for nothing *)

Definition can_go s : Prop := is_Some (retireLoop s) ∨ is_Some (owner_step s).

Lemma idle_or_goes s :
  retire_inv s →
  can_go s ∨
  (rs_owner s = ORun ∧ rs_worker s = WSleep ∧ rs_queue s = [] ∧ rs_running s = true) ∨
  (rs_owner s = ODone ∧ rs_worker s = WExit).
Proof.
  intros [Hord Hall Hmx Haw Hrun Hex Hem Hdn]. destruct s as [w o q run cur ret hd fr all].
  unfold can_go, retireLoop, owner_step, hand_over_step, destroy_step, lock_free. cbn in *.
  destruct w as [| | | | |a| |], o as [|b|b| | | | | |]; cbn in *; eauto 6;
    try (specialize (Hmx eq_refl)); try (specialize (Hdn eq_refl)); try done; try (by destruct q; eauto).
  - destruct (Haw eq_refl eq_refl) as [-> ->]. by right; left.
  - destruct (Hex eq_refl) as [? _]. congruence.
Qed.

(** ** The end *)

Definition worker_rank (w : worker_pc A) : nat :=
  match w with
  | WSleep => 4 | WWake | WLock | WFree _ => 3 | WTest | WRelock => 2 | WDrain => 1 | WExit => 0
  end.
Definition owner_rank (o : owner_pc A) : nat := match o with ONotifyAll => 2 | OJoin => 1 | _ => 0 end.
Definition rank s : nat := 4 * length (rs_queue s) + worker_rank (rs_worker s) + owner_rank (rs_owner s).

(** Once the destructor has cleared the flag every step brings the end
    nearer, whoever makes it. *)
Lemma stopped_tick t s s' :
  retire_inv s → stopped (rs_owner s) = true → tick limit t s = Some s' →
  (rank s' < rank s)%nat ∧ stopped (rs_owner s') = true ∧ rs_all s' = rs_all s.
Proof.
  intros [Hord Hall Hmx Haw Hrun Hex Hem Hdn] Hst Ht. destruct s as [w o q run cur ret hd fr all].
  unfold rank. cbn in *. rewrite Hst in Hrun. subst run.
  destruct t as [| |r|]; cbn in Ht.
  - unfold retireLoop, lock_free in Ht. cbn in Ht.
    destruct w; cbn in *; repeat case_match; simplify_eq/=; try case_bool_decide; cbn; try (split_and!; auto; lia).
  - unfold owner_step, hand_over_step, destroy_step in Ht. cbn in Ht. destruct o; try done; destruct w; simplify_eq/=; split_and!; auto; lia.
  - unfold owner_start in Ht. cbn in Ht. destruct o; done.
  - destruct w; simplify_eq/=. split_and!; auto; lia.
Qed.

Lemma stopped_ends s : retire_inv s → stopped (rs_owner s) = true → Acc (λ s2 s1, steps limit s1 s2) s.
Proof.
  remember (rank s) as n eqn:Hn. revert s Hn. induction (lt_wf n) as [n _ IH]. intros s -> Hinv Hst.
  constructor. intros s' [t Ht]. destruct (stopped_tick t s s' Hinv Hst Ht) as (Hlt & Hst' & _).
  exact (IH _ Hlt s' eq_refl (tick_inv t s s' Ht Hinv) Hst').
Qed.

Lemma stopped_steps s s' :
  rtc (steps limit) s s' → retire_inv s → stopped (rs_owner s) = true →
  stopped (rs_owner s') = true ∧ rs_all s' = rs_all s.
Proof.
  induction 1 as [|s s1 s' [t Ht] _ IH]; [done|]. intros Hinv Hst.
  destruct (stopped_tick t s s1 Hinv Hst Ht) as (_ & Hst1 & Hall).
  destruct (IH (tick_inv t s s1 Ht Hinv) Hst1) as [? ->]. done.
Qed.

Lemma ticks_steps ts s s' : ticks limit ts s = Some s' → rtc (steps limit) s s'.
Proof.
  revert s. induction ts as [|t ts IH]; intros s; cbn; [intros [= ->]; constructor|].
  destruct (tick limit t s) as [s1|] eqn:Ht; [|done]. intros Hts. eapply rtc_l; [by exists t|by apply IH].
Qed.

Lemma reached_inv s : rtc (steps limit) started s → retire_inv s.
Proof. intros Hs. exact (steps_inv started s Hs started_retire_inv). Qed.

(** C19: in every interleaving of the owner, the retire thread and spurious
    wakeups, the pages handed over are destroyed once each and in the order
    of the handing over; a page given to the journal is destroyed, queued, in
    a thread's hands or retained; the mutex has one holder; a sleeping thread
    has nothing to do unless a notification is on its way; and a state where
    neither thread can go on is an idle one or the end (no deadlock, no lost
    wakeup). *)
Theorem retire_thread_safe s :
  rtc (steps limit) started s →
  rs_freed s ++ worker_hand (rs_worker s) ++ rs_queue s = rs_handed s ∧
  rs_handed s ++ owner_hand (rs_owner s) ++ last_pages s ≡ₚ rs_all s ∧
  ¬ (worker_holds (rs_worker s) = true ∧ owner_holds (rs_owner s) = true) ∧
  (rs_worker s = WSleep → notifying (rs_owner s) = false → rs_queue s = [] ∧ rs_running s = true) ∧
  (¬ can_go s →
   (rs_owner s = ORun ∧ rs_worker s = WSleep ∧ rs_queue s = []) ∨
   (rs_owner s = ODone ∧ rs_worker s = WExit)).
Proof.
  intros Hs. pose proof (reached_inv s Hs) as Hinv. pose proof (idle_or_goes s Hinv) as Hgo.
  destruct Hinv as [Hord Hall Hmx Haw Hrun Hex Hem Hdn]. split_and!; try done.
  - intros [Hw Ho]. specialize (Hmx Hw). congruence.
  - naive_solver.
Qed.

(** C18: once the destructor has cleared [retire_running_] under the mutex, no
    execution goes on for ever, whatever the scheduler does and however often
    the thread is woken for no reason; and where an execution ends, the thread
    has been joined and every page the journal ever had, and no other, has
    been destroyed once. *)
Theorem retire_shutdown_terminates s :
  rtc (steps limit) started s → stopped (rs_owner s) = true →
  Acc (λ s2 s1, steps limit s1 s2) s ∧
  ∀ s', rtc (steps limit) s s' → (∀ s'', ¬ steps limit s' s'') →
    rs_owner s' = ODone ∧ rs_worker s' = WExit ∧ rs_freed s' ≡ₚ rs_all s.
Proof.
  intros Hs Hst. pose proof (reached_inv s Hs) as Hinv. split; [by apply stopped_ends|].
  intros s' Hs' Hend. destruct (stopped_steps s s' Hs' Hinv Hst) as [Hst' Hall].
  pose proof (steps_inv s s' Hs' Hinv) as Hinv'.
  destruct (idle_or_goes s' Hinv') as [[[s'' Hgo]|[s'' Hgo]]|[(Ho & _)|[Ho Hw]]].
  - destruct (Hend s''). by exists Worker.
  - destruct (Hend s''). by exists Owner.
  - by rewrite Ho in Hst'.
  - split_and!; [done..|]. rewrite <-Hall, <-(ri_all _ Hinv'), <-(ri_order _ Hinv').
    rewrite (ri_empty _ Hinv' Hst'), Ho, Hw. destruct (ri_exit _ Hinv' Hw) as [_ ->]. cbn. by rewrite !app_nil_r.
Qed.
End retire_facts.

(** ** A run with three pages *)

(** A writer that retains one page: pages 1 and 2 retire and page 1 is handed
    over; the thread wakes for no reason just before the notification, which
    is lost on it, and destroys page 1; page 3 retires and the destructor
    runs. *)
Definition demo_turns : list (turn nat) :=
  [Worker; Request (Leave 1); Request (Leave 2); Request HandOver; Worker; Owner; Owner; Spurious; Owner;
   Worker; Worker; Worker; Request (Leave 3); Request Destroy; Worker; Owner; Owner].
Definition demo_end : list (turn nat) :=
  [Worker; Worker; Owner; Worker; Worker; Worker; Worker; Worker; Worker; Owner].

Lemma retire_thread_safe_witness :
  ∃ s : retire_state nat,
    ticks 1 demo_turns started = Some s ∧ rs_freed s ++ worker_hand (rs_worker s) ++ rs_queue s = [1; 2; 3].
Proof.
  eexists. split; [vm_compute; reflexivity|].
  refine (eq_trans (proj1 (retire_thread_safe 1 _ (ticks_steps 1 demo_turns _ _ _))) _); reflexivity.
Defined.

Lemma retire_shutdown_terminates_witness :
  ∃ s : retire_state nat,
    ticks 1 demo_turns started = Some s ∧ Acc (λ s2 s1, steps 1 s1 s2) s ∧
    ∀ s', rtc (steps 1) s s' → (∀ s'', ¬ steps 1 s' s'') → rs_freed s' ≡ₚ [1; 2; 3].
Proof.
  eexists. split; [vm_compute; reflexivity|].
  edestruct (retire_shutdown_terminates (A := nat) 1) as [Hacc Hend];
    [apply (ticks_steps 1 demo_turns); vm_compute; reflexivity|reflexivity|].
  split; [exact Hacc|]. intros s' Hs' He. exact (proj2 (proj2 (Hend s' Hs' He))).
Defined.

Example demo_end_run :
  ∃ s, ticks 1 (demo_turns ++ demo_end) started = Some s ∧ rs_owner s = ODone ∧ rs_freed s = [1; 2; 3].
Proof. eexists. split; [vm_compute; reflexivity|done]. Qed.
