(* ===== verification/Merge.v ===== *)
(** * Merge: a reader of several journals

    A reader that joined several journals delivers their frames merged by
    time.  [source] is one of the journals: the abstract journal its files
    hold, where the reader's cursor stands in it, and the cursor.  [reads_all]
    is the reader's invariant, [merges] the specification: the earliest of the
    frames at the heads, again and again.  Both ways the code chooses the next
    journal, the scan and the heap, implement it. *)

From S2P Require Import Prelude Memory Frame Base Mmap Page Warmer Writer WriterState.
From S2P Require Import Journal Reader JournalSpec Isolation ReaderIsolation ReaderSpec Extend.

(** ** Merging, abstractly *)

Inductive merges : list (list frame) → list frame → Prop :=
  | merges_nil rs : Forall (λ fs, fs = []) rs → merges rs []
  | merges_cons rs i f fs out :
      rs !! i = Some (f :: fs) →
      (∀ k g gs, rs !! k = Some (g :: gs) → fr_gen f ≤ fr_gen g) →
      merges (<[i := fs]> rs) out → merges rs (f :: out).

Lemma concat_insert {A} (ls : list (list A)) i x l :
  ls !! i = Some (x :: l) → concat ls ≡ₚ x :: concat (<[i := l]> ls).
Proof.
  revert i; induction ls as [|l' ls IH]; intros [|i] Hi; simplify_eq/=; [done|].
  rewrite (IH _ Hi). by rewrite Permutation_middle.
Qed.

(** Nothing is lost or invented. *)
Lemma merges_perm rs out : merges rs out → out ≡ₚ concat rs.
Proof.
  induction 1 as [rs Hnil|rs i f fs out Hi Hmin _ IH].
  - induction Hnil as [|? ? ->]; done.
  - by rewrite (concat_insert _ _ _ _ Hi), IH.
Qed.

Definition by_time (f g : frame) : Prop := fr_gen f ≤ fr_gen g.
#[export] Instance by_time_trans : Transitive by_time.
Proof. intros f g h. unfold by_time. lia. Qed.

(** Sources in order of time give a result in order of time. *)
Lemma merges_sorted rs out :
  merges rs out → Forall (StronglySorted by_time) rs → StronglySorted by_time out.
Proof.
  induction 1 as [rs Hnil|rs i f fs out Hi Hmin Hm IH]; intros Hs; [constructor|].
  pose proof (proj1 (Forall_lookup _ _) Hs _ _ Hi) as Hf. apply StronglySorted_inv in Hf as [Hfs Hall].
  constructor; [by apply IH, Forall_insert|].
  apply Forall_forall. intros g Hg. rewrite (merges_perm _ _ Hm) in Hg.
  apply list_elem_of_In, in_concat in Hg as (l&Hl&Hg).
  apply list_elem_of_In in Hl. apply list_elem_of_In in Hg.
  apply list_elem_of_lookup in Hl as [k Hk].
  apply list_lookup_insert_Some in Hk as [(<-&<-&_)|[Hne Hk]].
  - by eapply (proj1 (Forall_forall _ _) Hall).
  - pose proof (proj1 (Forall_lookup _ _) Hs _ _ Hk) as Hl. destruct l as [|h l]; [by apply elem_of_nil in Hg|].
    apply StronglySorted_inv in Hl as [_ Hl]. pose proof (Hmin _ _ _ Hk). unfold by_time in *.
    apply elem_of_cons in Hg as [->|Hg]; [done|].
    eapply (proj1 (Forall_forall _ _) Hl) in Hg. lia.
Qed.

(** ** Choosing the earliest *)

(** [ks] are the times at the heads, [None] where there is no frame. *)
Definition earliest (ks : list (option Z)) (o : option nat) : Prop :=
  match o with
  | None => Forall (λ k, k = None) ks
  | Some i => ∃ t, ks !! i = Some (Some t) ∧ ∀ k u, ks !! k = Some (Some u) → t ≤ u
  end.

Fixpoint scan_keys (i : nat) (ks : list (option Z)) (min_time : Z) (min_index : option nat) : option nat :=
  match ks with
  | [] => min_index
  | Some t :: ks => if t <? min_time then scan_keys (S i) ks t (Some i) else scan_keys (S i) ks min_time min_index
  | None :: ks => scan_keys (S i) ks min_time min_index
  end.

Lemma scan_keys_spec ks i m o :
  (scan_keys i ks m o = o ∧ ∀ k u, ks !! k = Some (Some u) → m ≤ u) ∨
  ∃ n t, scan_keys i ks m o = Some (i + n)%nat ∧ ks !! n = Some (Some t) ∧ t < m ∧
         ∀ k u, ks !! k = Some (Some u) → t ≤ u.
Proof.
  revert i m o; induction ks as [|[t|] ks IH]; intros i m o; cbn [scan_keys].
  - left. split; [done|]. intros k u Hk. by rewrite lookup_nil in Hk.
  - destruct (Z.ltb_spec t m).
    + right. destruct (IH (S i) t (Some i)) as [[Heq Hle]|(n&u&Heq&Hn&Hlt&Hle)].
      * exists 0%nat, t. rewrite Heq, Nat.add_0_r. split_and!; [done..|].
        intros [|k] v Hv; simplify_eq/=; [lia|by eapply Hle].
      * exists (S n), u. rewrite Heq. split_and!; [f_equal; lia|done|lia|].
        intros [|k] v Hv; simplify_eq/=; [lia|by eapply Hle].
    + destruct (IH (S i) m o) as [[Heq Hle]|(n&u&Heq&Hn&Hlt&Hle)].
      * left. split; [done|]. intros [|k] v Hv; simplify_eq/=; [lia|by eapply Hle].
      * right. exists (S n), u. rewrite Heq. split_and!; [f_equal; lia|done|lia|].
        intros [|k] v Hv; simplify_eq/=; [lia|by eapply Hle].
  - destruct (IH (S i) m o) as [[Heq Hle]|(n&u&Heq&Hn&Hlt&Hle)].
    + left. split; [done|]. intros [|k] v Hv; simplify_eq/=. by eapply Hle.
    + right. exists (S n), u. rewrite Heq. split_and!; [f_equal; lia|done|lia|].
      intros [|k] v Hv; simplify_eq/=. by eapply Hle.
Qed.

(** The scan starts from the largest time there is. *)
Lemma scan_earliest ks :
  (∀ i t, ks !! i = Some (Some t) → t < 2 ^ 63 - 1) → earliest ks (scan_keys 0 ks (2 ^ 63 - 1) None).
Proof.
  intros Hsmall. destruct (scan_keys_spec ks 0 (2 ^ 63 - 1) None) as [[-> Hle]|(n&t&->&Hn&_&Hle)].
  - apply Forall_lookup. intros k [t|] Hk; [|done]. pose proof (Hle _ _ Hk). pose proof (Hsmall _ _ Hk). lia.
  - by exists t.
Qed.

(** The entries of the heap. *)
Fixpoint entries (i : nat) (ks : list (option Z)) : list entry :=
  match ks with
  | [] => []
  | Some t :: ks => (t, i) :: entries (S i) ks
  | None :: ks => entries (S i) ks
  end.

Lemma elem_of_entries i ks e :
  e ∈ entries i ks ↔ ∃ n t, ks !! n = Some (Some t) ∧ e = (t, (i + n)%nat).
Proof.
  revert i; induction ks as [|k ks IH]; intros i; cbn [entries].
  { split; [by intros ?%elem_of_nil|]. intros (n&t&Hn&_). by rewrite lookup_nil in Hn. }
  assert (e ∈ entries (S i) ks ↔ ∃ n t, (k :: ks) !! S n = Some (Some t) ∧ e = (t, (i + S n)%nat)) as Htail.
  { rewrite IH. cbn. split; intros (n&t&Hn&->); exists n, t; (split; [done|f_equal; lia]). }
  destruct k as [t|]; [rewrite elem_of_cons|]; rewrite Htail; split.
  - intros [->|(n&u&Hn&->)]; [exists 0%nat, t; by rewrite Nat.add_0_r|by exists (S n), u].
  - intros ([|n]&u&Hn&->); [left; simplify_eq/=; by rewrite Nat.add_0_r|right; by exists n, u].
  - intros (n&u&Hn&->). by exists (S n), u.
  - intros ([|n]&u&Hn&->); [done|by exists n, u].
Qed.

(** One head taken out. *)
Lemma entries_insert i ks n k k' :
  ks !! n = Some k →
  entries i (<[n := k']> ks) ≡ₚ
    option_list ((λ t, (t, (i + n)%nat)) <$> k') ++ entries i (<[n := None]> ks).
Proof.
  revert i n; induction ks as [|k0 ks IH]; intros i [|n] Hn; simplify_eq/=.
  - rewrite Nat.add_0_r. by destruct k'.
  - rewrite <-Nat.add_succ_comm. destruct k0 as [t|]; cbn [entries].
    + rewrite (IH (S i) n Hn). by rewrite Permutation_middle.
    + by apply IH.
Qed.

Lemma remove_one_perm e l : e ∈ l → l ≡ₚ e :: remove_one e l.
Proof.
  induction l as [|x l IH]; [by intros ?%elem_of_nil|]. cbn [remove_one].
  destruct (decide (x = e)) as [->|Hne]; [done|].
  intros [->|Hin]%elem_of_cons; [done|]. rewrite IH at 1 by done. apply perm_swap.
Qed.

Section queue.
Context `{PriorityQueueLaws}.

(** The top of a queue that holds the entries is earliest. *)
Lemma top_earliest ks h :
  h ≡ₚ entries 0 ks → earliest ks (snd <$> pq_top h).
Proof.
  intros Hh. destruct (pq_top h) as [e|] eqn:Htop; cbn [fmap option_fmap option_map earliest].
  - apply pq_top_Some in Htop as [Hin Hmin]. rewrite Hh in Hin.
    apply elem_of_entries in Hin as (n&t&Hn&->). exists t. split; [done|]. intros k u Hk.
    specialize (Hmin (u, k)). cbn in Hmin. apply Hmin. rewrite Hh. apply elem_of_entries. by exists k, u.
  - apply pq_top_None in Htop as ->. apply Permutation_nil_l in Hh. apply Forall_lookup.
    intros k [t|] Hk; [|done]. assert ((t, k) ∈ entries 0 ks) as Hin by (apply elem_of_entries; by exists k, t).
    rewrite <-Hh in Hin. by apply elem_of_nil in Hin.
Qed.
End queue.

(** ** The sources *)

Record source := Src {
  so_cfg : writer_config; so_j : ajournal; so_p : nat; so_k : nat; so_jn : journal
}.
Definition so_rest (s : source) : list frame := rest (so_j s) (so_p s) (so_k s).
Definition so_key (s : source) : option Z := fr_gen <$> head (so_rest s).

Section sources.
Context `{Env} `{!NoErrors} `{!EnvLaws} `{ILocator} `{!LocatorLaws} `{PriorityQueue} `{!PriorityQueueLaws}.

Record source_ok (w : world) (s : source) : Prop := {
  ok_readable : readable w (so_cfg s) (so_j s);
  ok_cursor : cursor w (so_jn s) (so_cfg s) (so_j s) (so_p s) (so_k s);
  ok_pos : pos_ok (so_j s) (so_p s) (so_k s);
  ok_size : 64 ≤ page_size_ (so_cfg s)
}.

(** Either there is a frame under the cursor, the first of the rest, or the
    rest is empty. *)
Lemma source_head w s :
  source_ok w s →
  ∃ fs, aj_pages (so_j s) !! so_p s = Some fs ∧
    match fs !! so_k s with
    | Some f => so_rest s = f :: rest (so_j s) (next_pos (so_p s) (so_k s) f).1 (next_pos (so_p s) (so_k s) f).2
    | None => so_k s = length fs ∧ page_end fs + 64 ≤ page_size_ (so_cfg s) ∧ so_rest s = []
    end.
Proof.
  intros [Hrb Hcu Hpos _]. destruct (cu_page _ _ _ _ _ _ Hcu) as (_&_&fs&_&_&Hp&_).
  exists fs. split; [done|]. destruct (fs !! so_k s) as [f|] eqn:Hk.
  - by eapply rest_step; [apply Hrb|..].
  - by eapply at_end.
Qed.

Definition head_view (s : source) : option FrameView :=
  (λ f, MkView (jn_frame (so_jn s)) (frame_length f) (fr_type f)) <$> head (so_rest s).

Lemma source_view w s : source_ok w s → view_of (jn_frame (so_jn s)) w = (Ret (head_view s), w).
Proof.
  intros Hok. pose proof Hok as [Hrb Hcu Hpos _]. destruct (source_head w s Hok) as (fs&Hp&Hk).
  unfold head_view. destruct (fs !! so_k s) as [f|] eqn:Hf.
  - rewrite Hk. by eapply view_of_run.
  - destruct Hk as (Hlen&Hroom&->). rewrite Hlen in Hcu. by eapply view_of_end.
Qed.

Lemma frame_key_run w s : source_ok w s → frame_key (jn_frame (so_jn s)) w = (Ret (so_key s), w).
Proof.
  intros Hok. pose proof Hok as [Hrb Hcu Hpos _]. unfold frame_key.
  erewrite bind_Ret by (by eapply hasData_view, source_view). unfold head_view, so_key.
  destruct (source_head w s Hok) as (fs&Hp&Hk). destruct (fs !! so_k s) as [f|] eqn:Hf.
  - rewrite Hk. cbn. by erewrite bind_Ret by by eapply cursor_gen.
  - destruct Hk as (_&_&->). done.
Qed.

(** Reading one frame of a source. *)
Lemma source_read w s f fs :
  source_ok w s → so_rest s = f :: fs →
  read_frame (MkView (jn_frame (so_jn s)) (frame_length f) (fr_type f)) w = (Ret f, w) ∧
  ∃ w' jn' p' k', next (w, so_jn s) = (Ret tt, (w', jn')) ∧
    let s' := Src (so_cfg s) (so_j s) p' k' jn' in
    source_ok w' s' ∧ so_rest s' = fs ∧ quiet w w' (jheld (so_jn s)).
Proof.
  intros Hok Hrest. pose proof Hok as [Hrb Hcu Hpos Hsz]. destruct (source_head w s Hok) as (pg&Hp&Hk).
  destruct (pg !! so_k s) as [g|] eqn:Hf; [|destruct Hk as (_&_&Hk); by rewrite Hk in Hrest].
  rewrite Hrest in Hk. injection Hk as <- Hfs. split; [by eapply read_frame_run|].
  destruct (next_run _ _ _ _ _ _ _ _ Hrb Hcu Hp Hf) as (w'&jn'&Hrun&Hcu'&Hq&_).
  exists w', jn', (next_pos (so_p s) (so_k s) f).1, (next_pos (so_p s) (so_k s) f).2.
  split; [done|]. split; [|split; [done|done]]. split; [|done| |done].
  - by eapply readable_quiet.
  - by eapply next_pos_ok; [apply Hrb|..].
Qed.

Lemma source_bases w s : source_ok w s → jbases (so_jn s) = base_of <$> jall (so_jn s).
Proof. intros _. by rewrite jall_bases. Qed.

Lemma source_mapped w s b : source_ok w s → b ∈ jbases (so_jn s) → is_Some (w_maps w !! b).
Proof.
  intros Hok. rewrite (source_bases w s Hok). intros (q&->&Hq)%list_elem_of_fmap.
  destruct (cu_live _ _ _ _ _ _ (ok_cursor _ _ Hok)) as [_ Hall].
  eapply (proj1 (Forall_forall _ _)) in Hall as (_&_&?); done.
Qed.

(** A source nobody touched, in the new world. *)
Lemma source_carry w w' s own mine :
  source_ok w s → quiet w w' own → spared (jbases (so_jn s)) w w' mine → source_ok w' s.
Proof.
  intros Hok Hq Hsp. pose proof Hok as [Hrb Hcu Hpos Hsz].
  pose proof (readable_quiet _ _ _ _ _ Hsz Hq Hrb) as Hrb'. split; try done.
  eapply cursor_extends; [done|done|apply extends_refl|done|]. intros q m Hin Hm.
  destruct (Hsp (base_of q)) as [-> _]; [|done].
  rewrite (source_bases w s Hok). by apply list_elem_of_fmap_2.
Qed.

(** ** The reader *)

Record reads_all (w : world) (r : reader) (ss : list source) : Prop := {
  ra_journals : rd_journals r = so_jn <$> ss;
  ra_sources : Forall (source_ok w) ss;
  ra_apart : apart_owners ((λ s, jbases (so_jn s)) <$> ss)
}.

Lemma reads_all_same w r r' ss :
  rd_journals r' = rd_journals r → reads_all w r ss → reads_all w r' ss.
Proof. intros Hj []. split; [congruence|done..]. Qed.

(** One source moves on, the others stay. *)
Lemma advance_source w r ss i s f fs :
  reads_all w r ss → ss !! i = Some s → so_rest s = f :: fs →
  ∃ w' s', on_journal i next (w, r) = (Ret tt, (w', rset_journals (<[i := so_jn s']> (rd_journals r)) r)) ∧
    reads_all w' (rset_journals (<[i := so_jn s']> (rd_journals r)) r) (<[i := s']> ss) ∧
    so_rest s' = fs ∧ so_cfg s' = so_cfg s ∧ so_j s' = so_j s.
Proof.
  intros [Hjs Hss Hap] Hi Hrest. pose proof (proj1 (Forall_lookup _ _) Hss _ _ Hi) as Hok.
  destruct (source_read w s f fs Hok Hrest) as (_&w'&jn'&p'&k'&Hrun&Hok'&Hrest'&Hq).
  exists w', (Src (so_cfg s) (so_j s) p' k' jn'). cbn [so_jn].
  assert (∀ k t, k ≠ i → ss !! k = Some t → spared (jbases (so_jn t)) w w' (jbases jn')) as Hsp.
  { intros k t Hk Ht. eapply triple_spared; [|exact Hrun|].
    { intros b mp. apply next_spares. }
    intros b Hb. split; [eapply source_mapped; [by eapply (proj1 (Forall_lookup _ _) Hss)|done]|].
    intros Hb'. eapply (Hap k i); [done| | |exact Hb|exact Hb'].
    - by rewrite list_lookup_fmap, Ht.
    - by rewrite list_lookup_fmap, Hi. }
  split_and!; try done.
  - unfold on_journal. cbn [snd fst]. rewrite Hjs, list_lookup_fmap, Hi. cbn [fmap option_fmap option_map].
    by rewrite Hrun.
  - split.
    + cbn. by rewrite Hjs, list_fmap_insert.
    + apply Forall_lookup. intros k t [(<-&<-&_)|[Hk Ht]]%list_lookup_insert_Some; [done|].
      eapply source_carry; [by eapply (proj1 (Forall_lookup _ _) Hss)|exact Hq|by eapply (Hsp k)].
    + rewrite list_fmap_insert. cbn. apply apart_insert; [done|].
      intros k B b Hk HB Hb. rewrite list_lookup_fmap in HB.
      destruct (ss !! k) as [t|] eqn:Ht; simplify_eq/=. by eapply (Hsp k t).
Qed.

Lemma scan_journals_run w ss i m o :
  Forall (source_ok w) ss →
  scan_journals i (so_jn <$> ss) m o w = (Ret (scan_keys i (so_key <$> ss) m o), w).
Proof.
  intros Hss. revert i m o; induction Hss as [|s ss Hs Hss IH]; intros i m o; [done|].
  rewrite !fmap_cons. cbn [scan_journals scan_keys]. erewrite bind_Ret by by apply frame_key_run.
  destruct (so_key s) as [t|]; [case_match|]; apply IH.
Qed.

Lemma heap_entries_run w ss i :
  Forall (source_ok w) ss →
  heap_entries i (so_jn <$> ss) w = (Ret (entries i (so_key <$> ss)), w).
Proof.
  intros Hss. revert i; induction Hss as [|s ss Hs Hss IH]; intros i; [done|].
  rewrite !fmap_cons. cbn [heap_entries entries]. erewrite bind_Ret by by apply frame_key_run.
  erewrite bind_Ret by apply IH. by destruct (so_key s).
Qed.

(** ** Choosing a source *)

(** The members choosing leaves alone. *)
Record same_members (r r' : reader) : Prop := {
  sm_journals : rd_journals r' = rd_journals r;
  sm_single : rd_single r' = rd_single r;
  sm_use_heap : rd_use_heap r' = rd_use_heap r;
  sm_keys : rd_keys r' = rd_keys r
}.
Lemma same_members_trans r1 r2 r3 : same_members r1 r2 → same_members r2 r3 → same_members r1 r3.
Proof. intros [] []. split; congruence. Qed.
Lemma same_big r r' : same_members r r' → big r' = big r.
Proof. intros [Hj _ Hu _]. unfold big. by rewrite Hj, Hu. Qed.

(** The reader stands at source [i], an earliest one. *)
Record chosen (r : reader) (ss : list source) (i : nat) : Prop := {
  ch_current : rd_current r = Some i;
  ch_earliest : earliest (so_key <$> ss) (Some i);
  ch_heap : big r = true → rd_heap r ≡ₚ entries 0 (so_key <$> ss) ∧ snd <$> pq_top (rd_heap r) = Some i
}.
Definition all_read (ss : list source) : Prop := Forall (λ s, so_rest s = []) ss.
Definition ready (r : reader) (ss : list source) : Prop :=
  rd_needs_rebuild r = true ∨ ∃ i, chosen r ss i.

(** No frame is from the last nanosecond there is. *)
Definition small (s : source) : Prop := Forall (λ f, fr_gen f < 2 ^ 63 - 1) (so_rest s).

Lemma small_keys ss i t : Forall small ss → (so_key <$> ss) !! i = Some (Some t) → t < 2 ^ 63 - 1.
Proof.
  intros Hs. rewrite list_lookup_fmap. destruct (ss !! i) as [s|] eqn:Hi; [|done]. cbn. intros [= Hk].
  eapply (proj1 (Forall_lookup _ _)) in Hs; [|exact Hi]. unfold small, so_key in *.
  destruct (so_rest s) as [|f fs]; [done|]. apply Forall_cons in Hs as [? _]. by simplify_eq/=.
Qed.

Lemma keys_none ss : earliest (so_key <$> ss) None → all_read ss.
Proof.
  cbn. intros Hn%Forall_fmap. eapply Forall_impl; [exact Hn|]. intros s. cbn. unfold so_key.
  by destruct (so_rest s).
Qed.

Lemma earliest_source ss i :
  earliest (so_key <$> ss) (Some i) →
  ∃ s f fs, ss !! i = Some s ∧ so_rest s = f :: fs ∧
    ∀ k t g gs, ss !! k = Some t → so_rest t = g :: gs → fr_gen f ≤ fr_gen g.
Proof.
  intros (t&Hi&Hle). rewrite list_lookup_fmap in Hi. destruct (ss !! i) as [s|] eqn:Hs; [|done].
  cbn in Hi. injection Hi as Hk. unfold so_key in Hk. destruct (so_rest s) as [|f fs] eqn:Hf; [done|].
  exists s, f, fs. split_and!; [done..|]. intros k u g gs Hu Hg. cbn in Hk. injection Hk as ->.
  apply (Hle k). rewrite list_lookup_fmap, Hu. cbn. unfold so_key. by rewrite Hg.
Qed.

Lemma rupdate_run f w r : rupdate f (w, r) = (Ret tt, (w, f r)).
Proof. done. Qed.

Lemma rebuildHeap_run w r ss :
  reads_all w r ss → ss ≠ [] → Forall small ss →
  ∃ r', rebuildHeap (w, r) = (Ret tt, (w, r')) ∧ same_members r r' ∧ rd_needs_rebuild r' = false ∧
    ((∃ i, chosen r' ss i) ∨ rd_current r' = None ∧ all_read ss).
Proof.
  intros [Hjs Hss Hap] Hne Hsmall. unfold rebuildHeap. rewrite (bind_Ret _ _ _ _ _ (rthis_run _ _)).
  destruct (rd_journals r) as [|jn jns] eqn:Hj; [by destruct ss|]. rewrite Hjs.
  destruct (big r) eqn:Hbig.
  - rewrite bind_assoc. erewrite bind_Ret by (apply rio_run; by apply heap_entries_run).
    set (temp := entries 0 (so_key <$> ss)).
    pose proof (top_earliest (so_key <$> ss) temp ltac:(done)) as He.
    destruct (pq_top temp) as [e|] eqn:Htop; cbn [fmap option_fmap option_map] in He.
    + rewrite (bind_Ret _ _ _ _ _ (rupdate_run _ _ _)), rupdate_run. eexists. split; [reflexivity|].
      split; [done|]. split; [done|]. left. exists e.2. split; [done|done|]. intros _. cbn.
      split; [done|]. by rewrite Htop.
    + rewrite (bind_Ret _ _ _ _ _ (rupdate_run _ _ _)), rupdate_run. eexists. split; [reflexivity|].
      split; [done|]. split; [done|]. right. split; [done|]. by apply keys_none.
  - unfold findMinimumLinear. rewrite bind_assoc, (bind_Ret _ _ _ _ _ (rthis_run _ _)), bind_assoc, Hj, Hjs.
    erewrite bind_Ret by (apply rio_run; by apply scan_journals_run).
    rewrite (bind_Ret _ _ _ _ _ (rupdate_run _ _ _)), rupdate_run. eexists. split; [reflexivity|].
    split; [done|]. split; [done|].
    pose proof (scan_earliest (so_key <$> ss) (λ i t, small_keys ss i t Hsmall)) as He.
    destruct (scan_keys _ _ _ _) as [i|].
    + left. exists i. split; [done|done|]. unfold big in *. cbn. congruence.
    + right. split; [done|]. by apply keys_none.
Qed.

(** The frame of the chosen source. *)
Lemma chosen_frame w r ss i :
  reads_all w r ss → chosen r ss i →
  ∃ s f fs, ss !! i = Some s ∧ so_rest s = f :: fs ∧ currentFrameRaw r = Some (jn_frame (so_jn s)) ∧
    view_of (jn_frame (so_jn s)) w = (Ret (Some (MkView (jn_frame (so_jn s)) (frame_length f) (fr_type f))), w) ∧
    valid_current r = Some i ∧
    ∀ k t g gs, ss !! k = Some t → so_rest t = g :: gs → fr_gen f ≤ fr_gen g.
Proof.
  intros [Hjs Hss Hap] [Hcur He _]. destruct (earliest_source _ _ He) as (s&f&fs&Hs&Hrest&Hle).
  exists s, f, fs. pose proof (proj1 (Forall_lookup _ _) Hss _ _ Hs) as Hok.
  assert (valid_current r = Some i) as Hv.
  { unfold valid_current. rewrite Hcur, Hjs, length_fmap. apply lookup_lt_Some in Hs. by rewrite decide_True. }
  split_and!; try done.
  - unfold currentFrameRaw. rewrite Hv. cbn. by rewrite Hjs, list_lookup_fmap, Hs.
  - rewrite (source_view w s Hok). unfold head_view. by rewrite Hrest.
Qed.

(** There is data exactly if some source has a frame; then an earliest one is
    current. *)
Lemma isDataAvailable_run w r ss :
  reads_all w r ss → rd_single r = false → ss ≠ [] → Forall small ss → ready r ss →
  ∃ b r', isDataAvailable (w, r) = (Ret b, (w, r')) ∧ same_members r r' ∧
    (b = true ∧ (∃ i, chosen r' ss i) ∨ b = false ∧ rd_needs_rebuild r' = true ∧ all_read ss).
Proof.
  intros Hra Hs Hne Hsmall Hready. unfold isDataAvailable. rewrite (bind_Ret _ _ _ _ _ (rthis_run _ _)), Hs.
  assert (∃ r1, (if rd_needs_rebuild r then rebuildHeap else ret tt) (w, r) = (Ret tt, (w, r1)) ∧
    same_members r r1 ∧ ((∃ i, chosen r1 ss i) ∨ rd_current r1 = None ∧ all_read ss)) as (r1&Hrun&Hsm&Hr1).
  { destruct (rd_needs_rebuild r) eqn:Hn.
    - destruct (rebuildHeap_run _ _ _ Hra Hne Hsmall) as (r1&Hrun&Hsm&_&Hr1). by exists r1.
    - destruct Hready as [Hn'|Hch]; [congruence|]. exists r. split_and!; [done|by split|by left]. }
  rewrite (bind_Ret _ _ _ _ _ Hrun), (bind_Ret _ _ _ _ _ (rthis_run _ _)).
  pose proof (reads_all_same _ _ _ _ (sm_journals _ _ Hsm) Hra) as Hra1.
  destruct Hr1 as [[i Hch]|[Hcur Hall]].
  - destruct (chosen_frame _ _ _ _ Hra1 Hch) as (s&f&fs&_&_&->&Hview&_).
    exists true, r1. split; [|split; [done|left; by eauto]].
    apply rio_run. exact (hasData_view _ _ _ Hview).
  - unfold currentFrameRaw, valid_current. rewrite Hcur. cbn [mbind option_bind].
    rewrite (ra_journals _ _ _ Hra1). destruct ss as [|s ss]; [done|]. rewrite fmap_cons.
    rewrite (bind_Ret _ _ _ _ _ (rupdate_run _ _ _)). eexists false, _. split; [reflexivity|].
    split; [eapply same_members_trans; [exact Hsm|done]|]. by right.
Qed.

(** The heap after the current source has moved on. *)
Lemma updateHeap_run w r ss i s s' :
  reads_all w r (<[i := s']> ss) → ss !! i = Some s → is_Some (so_key s) →
  rd_current r = Some i → rd_heap r ≡ₚ entries 0 (so_key <$> ss) → snd <$> pq_top (rd_heap r) = Some i →
  ∃ r', updateHeap (w, r) = (Ret tt, (w, r')) ∧ same_members r r' ∧ ready r' (<[i := s']> ss).
Proof.
  intros Hra Hi [t Ht] Hcur Hheap Htop. unfold updateHeap. rewrite (bind_Ret _ _ _ _ _ (rthis_run _ _)).
  destruct (pq_top (rd_heap r)) as [e|] eqn:He; [|done]. cbn in Htop. injection Htop as Hei.
  destruct (pq_top_Some _ _ He) as [Hin _].
  assert ((so_key <$> ss) !! i = Some (Some t)) as Hki by (rewrite list_lookup_fmap, Hi; cbn; by rewrite Ht).
  assert (e = (t, i)) as ->.
  { rewrite Hheap in Hin. apply elem_of_entries in Hin as (n&u&Hn&->). cbn in Hei. subst n. by simplify_eq. }
  set (others := entries 0 (<[i := None]> (so_key <$> ss))).
  assert (remove_one (t, i) (rd_heap r) ≡ₚ others) as Hpop.
  { eapply Permutation_cons_inv. rewrite <-(remove_one_perm _ _ Hin), Hheap.
    rewrite <-(list_insert_id (so_key <$> ss) i (Some t)) by done. by rewrite (entries_insert _ _ _ _ _ Hki). }
  destruct (rd_heap r) as [|e0 h] eqn:Hh; [by apply elem_of_nil in Hin|].
  rewrite (bind_Ret _ _ _ _ _ (rupdate_run _ _ _)). rewrite Hcur.
  unfold pq_pop at 1. rewrite Hh, He.
  set (r1 := rset_heap (remove_one (t, i) (e0 :: h)) r).
  assert ((<[i := s']> ss) !! i = Some s') as Hi'
    by (apply list_lookup_insert_eq; by eapply lookup_lt_Some).
  assert (rd_journals r !! i = Some (so_jn s')) as Hji
    by (rewrite (ra_journals _ _ _ Hra), list_lookup_fmap, Hi'; done).
  assert (on_journal i (let! j := jthis in jio (frame_key (jn_frame j))) (w, r1) =
    (Ret (so_key s'), (w, rset_journals (rd_journals r) r1))) as Hkey.
  { unfold on_journal. cbn [snd fst r1 rset_heap rd_journals]. rewrite Hji.
    rewrite (bind_Ret _ _ _ _ _ (jthis_run _ _)).
    erewrite jio_run by (apply frame_key_run; by eapply (proj1 (Forall_lookup _ _) (ra_sources _ _ _ Hra))).
    by rewrite list_insert_id. }
  erewrite bind_Ret by exact Hkey. set (r2 := rset_journals _ r1).
  set (h' := remove_one (t, i) (e0 :: h) ++ option_list ((λ u, (u, i)) <$> so_key s')).
  assert (∃ r3, (match so_key s' with
    | Some gen_time => rupdate (λ r, rset_heap (rd_heap r ++ [(gen_time, i)]) r)
    | None => ret tt end) (w, r2) = (Ret tt, (w, r3)) ∧ same_members r r3 ∧ rd_heap r3 = h') as (r3&Hpush&Hsm&Hh3).
  { destruct (so_key s') as [u|]; eexists; (split; [reflexivity|split; [done|]]); [done|].
    unfold h'. cbn. by rewrite app_nil_r. }
  rewrite (bind_Ret _ _ _ _ _ Hpush), (bind_Ret _ _ _ _ _ (rthis_run _ _)), Hh3.
  assert (h' ≡ₚ entries 0 (so_key <$> <[i := s']> ss)) as Hh'.
  { rewrite list_fmap_insert, (entries_insert _ _ _ _ _ Hki). unfold h'. rewrite Hpop. apply Permutation_app_comm. }
  pose proof (top_earliest _ _ Hh') as Hear. destruct (pq_top h') as [e'|] eqn:Htop'.
  - rewrite rupdate_run. eexists. split; [reflexivity|]. split; [eapply same_members_trans; [exact Hsm|done]|].
    right. exists e'.2. split; [done|exact Hear|]. intros _. cbn. rewrite Hh3. split; [done|]. by rewrite Htop'.
  - rewrite rupdate_run. eexists. split; [reflexivity|]. split; [eapply same_members_trans; [exact Hsm|done]|].
    by left.
Qed.

Lemma small_rest s s' f : small s → so_rest s = f :: so_rest s' → small s'.
Proof. unfold small. intros Hs Hr. rewrite Hr in Hs. by apply Forall_cons in Hs as [_ ?]. Qed.

(** One frame delivered, from an earliest source. *)
Lemma nextStatic_all w r ss :
  reads_all w r ss → rd_single r = false → ss ≠ [] → Forall small ss → ready r ss →
  (∃ i s f s' w' r', nextStatic read_frame (w, r) = (Ret (Some f), (w', r')) ∧
     ss !! i = Some s ∧ so_rest s = f :: so_rest s' ∧
     (∀ k t g gs, ss !! k = Some t → so_rest t = g :: gs → fr_gen f ≤ fr_gen g) ∧
     reads_all w' r' (<[i := s']> ss) ∧ rd_single r' = false ∧ ready r' (<[i := s']> ss) ∧
     so_cfg s' = so_cfg s ∧ so_j s' = so_j s) ∨
  (∃ r', nextStatic read_frame (w, r) = (Ret None, (w, r')) ∧ all_read ss ∧
     reads_all w r' ss ∧ rd_single r' = false ∧ ready r' ss).
Proof.
  intros Hra Hs Hne Hsmall Hready.
  destruct (isDataAvailable_run _ _ _ Hra Hs Hne Hsmall Hready) as (b&r1&Hdata&Hsm&Hb).
  pose proof (reads_all_same _ _ _ _ (sm_journals _ _ Hsm) Hra) as Hra1.
  pose proof (sm_single _ _ Hsm) as Hs1. rewrite Hs in Hs1.
  unfold nextStatic, tryCurrentFrame.
  rewrite bind_assoc, (bind_Ret _ _ _ _ _ (rthis_run _ _)), Hs, bind_assoc, (bind_Ret _ _ _ _ _ Hdata).
  destruct Hb as [[-> [i Hch]]|(->&Hn&Hall)].
  2:{ right. exists r1. rewrite bind_ret_l. split_and!; [done..|by left]. }
  left. destruct (chosen_frame _ _ _ _ Hra1 Hch) as (s&f&fs&Hi&Hrest&Hcur&Hview&Hval&Hle).
  rewrite bind_assoc, (bind_Ret _ _ _ _ _ (rthis_run _ _)), Hcur.
  rewrite (bind_Ret _ _ _ _ _ (rio_run _ _ _ _ _ Hview)).
  pose proof (proj1 (Forall_lookup _ _) (ra_sources _ _ _ Hra1) _ _ Hi) as Hok.
  destruct (source_read w s f fs Hok Hrest) as [Hread _].
  rewrite (bind_Ret _ _ _ _ _ (rio_run _ _ _ _ _ Hread)).
  destruct (advance_source _ _ _ _ _ _ _ Hra1 Hi Hrest) as (w'&s'&Hadv&Hra2&Hrest'&Hc'&Hj').
  set (r2 := rset_journals _ r1) in *.
  assert (∃ r', advance (MkView (jn_frame (so_jn s)) (frame_length f) (fr_type f)) (w, r1) = (Ret tt, (w', r')) ∧
    same_members r2 r' ∧ ready r' (<[i := s']> ss)) as (r'&Hrun&Hsm'&Hready').
  { unfold advance, reader_next. rewrite (bind_Ret _ _ _ _ _ (rthis_run _ _)), Hs1.
    rewrite (bind_Ret _ _ _ _ _ (rthis_run _ _)), Hval, Hs1, (bind_Ret _ _ _ _ _ Hadv).
    destruct (big r1) eqn:Hbig; [|by eexists; split; [by rewrite rupdate_run|split; [done|by left]]].
    destruct (ch_heap _ _ _ Hch Hbig) as [Hheap Htop].
    eapply (updateHeap_run w' r2 ss i s s'); [done|done| |by apply Hch|done|done].
    unfold so_key. rewrite Hrest. by eexists. }
  exists i, s, f, s', w', r'. rewrite (bind_Ret _ _ _ _ _ Hrun). split_and!; try done.
  - by rewrite Hrest'.
  - eapply reads_all_same; [apply Hsm'|done].
  - by rewrite (sm_single _ _ Hsm').
Qed.

(** The application loop delivers a merge. *)
Lemma drain_merges fuel w r ss :
  reads_all w r ss → rd_single r = false → ss ≠ [] → Forall small ss → ready r ss →
  (length (concat (so_rest <$> ss)) < fuel)%nat →
  ∃ fs w' r' ss', drain fuel (w, r) = (Ret fs, (w', r')) ∧ merges (so_rest <$> ss) fs ∧
    reads_all w' r' ss' ∧ all_read ss' ∧ (λ s, (so_cfg s, so_j s)) <$> ss' = (λ s, (so_cfg s, so_j s)) <$> ss.
Proof.
  revert w r ss; induction fuel as [|fuel IH]; intros w r ss Hra Hs Hne Hsmall Hready Hfuel; [lia|].
  cbn [drain]. destruct (nextStatic_all _ _ _ Hra Hs Hne Hsmall Hready)
    as [(i&s&f&s'&w1&r1&Hrun&Hi&Hrest&Hle&Hra1&Hs1&Hready1&Hc&Hj)|(r1&Hrun&Hall&Hra1&_)].
  - assert ((so_rest <$> ss) !! i = Some (f :: so_rest s')) as Hri by (rewrite list_lookup_fmap, Hi; cbn; by f_equal).
    destruct (IH w1 r1 (<[i := s']> ss)) as (fs&w'&r'&ss'&Hdrain&Hm&Hra'&Hall&Hsame); [done|done| | |done| |].
    + intros Hnil%(f_equal length). rewrite length_insert in Hnil. by destruct ss.
    + apply Forall_insert; [done|]. eapply small_rest; [|exact Hrest]. by eapply (proj1 (Forall_lookup _ _) Hsmall).
    + rewrite list_fmap_insert. pose proof (Permutation_length (concat_insert _ _ _ _ Hri)) as Hlen.
      cbn [length] in Hlen. lia.
    + exists (f :: fs), w', r', ss'. rewrite (bind_Ret _ _ _ _ _ Hrun), (bind_Ret _ _ _ _ _ Hdrain).
      split; [done|]. rewrite list_fmap_insert in Hm. split_and!; [|done|done|].
      * eapply merges_cons; [exact Hri| |exact Hm]. intros k g gs Hk. rewrite list_lookup_fmap in Hk.
        destruct (ss !! k) as [t|] eqn:Ht; [|done]. cbn in Hk. injection Hk as Hk. by eapply Hle.
      * rewrite Hsame, list_fmap_insert. apply list_insert_id. rewrite list_lookup_fmap, Hi. cbn. by rewrite Hc, Hj.
  - exists [], w, r1, ss. rewrite (bind_Ret _ _ _ _ _ Hrun). split_and!; try done.
    constructor. by apply Forall_fmap.
Qed.

(** ** Joining *)

(** One more journal, joined at time 0. *)
Lemma join_adds fuel w r ss c j :
  reads_all w r ss → makeKey (uid (location_ c)) (dest_id_ c) ∉ rd_keys r →
  readable w c j → in_u 32 (dest_id_ c) → Forall (λ f, 0 ≤ fr_gen f) (aj_frames j) → (0 < fuel)%nat →
  ∃ w' r' jn, join fuel (location_ c) (dest_id_ c) 0 (w, r) = (Ret tt, (w', r')) ∧
    reads_all w' r' (ss ++ [Src c j 0 0 jn]) ∧ rd_needs_rebuild r' = true ∧ 
    rd_single r' = bool_decide (length ss = 0%nat) ∧
    rd_keys r' = {[makeKey (uid (location_ c)) (dest_id_ c)]} ∪ rd_keys r ∧ quiet w w' [].
Proof.
  intros [Hjs Hss Hap] Hkey Hrb Hd Hgen Hfuel.
  pose proof (findPageSize_bounds (location_ c) (dest_id_ c)) as [Hsz _].
  rewrite <-(rb_cfg _ _ _ Hrb) in Hsz. unfold join.
  rewrite (bind_Ret _ _ _ _ _ (rthis_run _ _)). cbn zeta. rewrite bool_decide_false by done.
  set (jo := MkJournalOptions _ _ _ _).
  destruct (seek_start w c j jo fuel) as (w'&jn&Hseek&Hrb'&Hcu&Hpos&Hq); [done|done|lia|done..|].
  assert (∀ s, s ∈ ss → spared (jbases (so_jn s)) w w' (jbases jn)) as Hsp.
  { intros s Hs. eapply triple_spared; [|exact Hseek|].
    { intros b mp. apply seekToTime_spares. }
    intros b Hb. split; [|by apply not_elem_of_nil].
    eapply source_mapped; [by eapply (proj1 (Forall_forall _ _) Hss)|done]. }
  eexists w', _, jn. split; [unfold bind at 1; cbn [fst snd]; rewrite Hseek; reflexivity|].
  assert (∀ r0, rd_journals r0 = so_jn <$> ss ++ [Src c j 0 0 jn] →
    rd_journals (refreshSingleJournal r0) = so_jn <$> ss ++ [Src c j 0 0 jn] ∧
    rd_single (refreshSingleJournal r0) = bool_decide (length ss = 0%nat) ∧
    rd_keys (refreshSingleJournal r0) = rd_keys r0) as Hrefresh.
  { intros r0 Hr0. unfold refreshSingleJournal. rewrite Hr0.
    rewrite (bool_decide_ext (length (so_jn <$> ss ++ [Src c j 0 0 jn]) = 1%nat) (length ss = 0%nat))
      by (rewrite length_fmap, length_app; cbn; lia).
    by destruct (bool_decide (length ss = 0%nat)). }
  destruct (Hrefresh (rset_keys ({[makeKey (uid (location_ c)) (dest_id_ c)]} ∪ rd_keys r)
    (rset_journals (rd_journals r ++ [jn]) r))) as (Hj&Hs&Hk).
  { cbn. by rewrite Hjs, fmap_app. }
  split; [|split_and!; done]. split.
  - exact Hj.
  - apply Forall_app. split; [|apply Forall_singleton; split; [done..|cbn; lia]].
    apply Forall_forall. intros s Hs'. eapply source_carry; [by eapply (proj1 (Forall_forall _ _) Hss)|exact Hq|by apply Hsp].
  - rewrite fmap_app. apply apart_snoc; [done|]. intros B b (s&->&Hs')%list_elem_of_fmap Hb. by apply (Hsp s).
Qed.

Fixpoint join_all (fuel : nat) (cs : list (Location * Z)) : R unit :=
  match cs with
  | [] => ret tt
  | (location, dest_id) :: cs => do! join fuel location dest_id 0 in join_all fuel cs
  end.

Definition where_ (x : writer_config * ajournal) : Location * Z := (location_ x.1, dest_id_ x.1).
Definition key_of (x : writer_config * ajournal) : Z := makeKey (uid (location_ x.1)) (dest_id_ x.1).

(** What is asked of a journal to be joined. *)
Record joinable (w : world) (x : writer_config * ajournal) : Prop := {
  jb_readable : readable w x.1 x.2;
  jb_dest : in_u 32 (dest_id_ x.1);
  jb_times : Forall (λ f, 0 ≤ fr_gen f < 2 ^ 63 - 1) (aj_frames x.2)
}.

Lemma joinable_quiet w w' x : quiet w w' [] → joinable w x → joinable w' x.
Proof.
  intros Hq [Hrb ? ?]. split; try done. eapply readable_quiet; [|exact Hq|done].
  pose proof (findPageSize_bounds (location_ x.1) (dest_id_ x.1)) as [Hsz _].
  rewrite <-(rb_cfg _ _ _ Hrb) in Hsz. lia.
Qed.

Lemma join_all_run fuel w r ss xs :
  reads_all w r ss → rd_needs_rebuild r = true → rd_single r = bool_decide (length ss = 1%nat) →
  Forall (joinable w) xs → NoDup (key_of <$> xs) → (∀ x, x ∈ xs → key_of x ∉ rd_keys r) → (0 < fuel)%nat →
  ∃ w' r' ss', join_all fuel (where_ <$> xs) (w, r) = (Ret tt, (w', r')) ∧
    reads_all w' r' (ss ++ ss') ∧ rd_needs_rebuild r' = true ∧
    rd_single r' = bool_decide (length (ss ++ ss') = 1%nat) ∧
    so_rest <$> ss' = (λ x, aj_frames x.2) <$> xs ∧ (λ s, (so_cfg s, so_j s)) <$> ss' = xs.
Proof.
  revert w r ss; induction xs as [|x xs IH]; intros w r ss Hra Hn Hs Hxs Hnd Hkeys Hfuel.
  { exists w, r, []. rewrite app_nil_r. split_and!; done. }
  apply Forall_cons in Hxs as [[Hrb Hd Ht] Hxs]. rewrite fmap_cons in Hnd. apply NoDup_cons in Hnd as [Hx Hnd].
  destruct (join_adds fuel w r ss x.1 x.2) as (w1&r1&jn&Hjoin&Hra1&Hn1&Hs1&Hk1&Hq); [done|by apply Hkeys; left|done..| |done|].
  { eapply Forall_impl; [exact Ht|]. cbn. lia. }
  destruct (IH w1 r1 (ss ++ [Src x.1 x.2 0 0 jn])) as (w'&r'&ss'&Hrun&Hra'&Hn'&Hs'&Hrest&Hsame); try done.
  - rewrite Hs1. apply bool_decide_ext. rewrite length_app. cbn. lia.
  - eapply Forall_impl; [exact Hxs|]. intros y. by apply joinable_quiet.
  - intros y Hy. rewrite Hk1. apply not_elem_of_union. split.
    + rewrite elem_of_singleton. intros Heq. apply Hx. change (makeKey _ _) with (key_of x) in Heq.
      rewrite <-Heq. by apply list_elem_of_fmap_2.
    + apply Hkeys. by right.
  - exists w', r', (Src x.1 x.2 0 0 jn :: ss'). rewrite <-app_assoc in Hra', Hs'. cbn [app] in Hra', Hs'.
    rewrite fmap_cons. unfold where_ at 1. cbn [join_all].
    rewrite (bind_Ret _ _ _ _ _ Hjoin), Hrun. split_and!; try done.
    + rewrite !fmap_cons, Hrest. f_equal. unfold so_rest. cbn [so_j so_p so_k]. apply rest_start.
    + rewrite fmap_cons, Hsame. f_equal. by destruct x.
Qed.
End sources.

(** C10: a reader of several journals merges them by time.  Joined at time 0 to
    two or more journals and drained, it delivers every frame of every one of
    them exactly once, each time one that no frame at another head precedes --
    whether it scans the journals or keeps the heap for more than three -- so
    that journals written in order of time come out in order of time. *)
Theorem merge_read_back `{Env} `{!NoErrors} `{!EnvLaws} `{ILocator} `{!LocatorLaws} `{PriorityQueueLaws}
    w o xs fuel :
  Forall (joinable w) xs → NoDup (key_of <$> xs) → (2 ≤ length xs)%nat →
  let journals := (λ x, aj_frames x.2) <$> xs in
  (length (concat journals) < fuel)%nat →
  ∃ w1 r1 w2 r2 fs,
    join_all fuel (where_ <$> xs) (w, JournalReader_ctor o) = (Ret tt, (w1, r1)) ∧
    drain fuel (w1, r1) = (Ret fs, (w2, r2)) ∧
    merges journals fs ∧ fs ≡ₚ concat journals ∧
    (Forall (StronglySorted by_time) journals → StronglySorted by_time fs).
Proof.
  intros Hxs Hnd Hlen journals Hfuel.
  destruct (join_all_run fuel w (JournalReader_ctor o) [] xs) as (w1&r1&ss&Hjoin&Hra&Hn&Hs&Hrest&Hsame);
    try done.
  { lia. }
  cbn [app] in *. assert (length ss = length xs) as Hl by (rewrite <-Hsame; by rewrite length_fmap).
  destruct (drain_merges fuel w1 r1 ss) as (fs&w2&r2&ss'&Hdrain&Hm&_&_); [done| | | |by left|by rewrite Hrest|].
  - rewrite Hs. apply bool_decide_false. lia.
  - intros ->. cbn in Hl. lia.
  - apply Forall_lookup. intros i s Hi. unfold small.
    assert ((so_rest <$> ss) !! i = Some (so_rest s)) as Hi' by (by rewrite list_lookup_fmap, Hi).
    rewrite Hrest, list_lookup_fmap in Hi'. destruct (xs !! i) as [x|] eqn:Hx; [|done]. cbn in Hi'. injection Hi' as <-.
    eapply Forall_impl; [apply (jb_times _ _ (proj1 (Forall_lookup _ _) Hxs _ _ Hx))|]. cbn. lia.
  - rewrite Hrest in Hm. exists w1, r1, w2, r2, fs. split_and!; [done..| |].
    + by apply merges_perm.
    + intros Hsorted. by eapply merges_sorted.
Qed.
