(* ===== verification/Dispatcher.v ===== *)
(** * Dispatcher: frames routed to typed handlers

    [src/include/revoq/TypedJournalDispatcher.h].  A handler is the
    application's code: a computation on the world and the application's own
    state, given the payload (the bytes of the [T] object) and the address of
    the frame.  The dispatcher is its two members; [next] and [run] work on
    world, reader and application state.  The specification [run_spec] routes a
    list of frames; the theorem says that [run] does just that to the frames
    the reader has still to deliver. *)

From S2P Require Import Prelude Memory Frame Base Mmap Page Warmer Writer WriterState.
From S2P Require Import Journal Reader JournalSpec ReaderSpec.

(** What the templates need of [T]: [T::kMsgType], [sizeof(T)], [is_empty_v]. *)
Record payload_type := PayloadType { kMsgType : Z; pt_sizeof : Z; pt_empty : bool }.

Section Dispatcher.
Context `{Env} `{ILocator} `{PriorityQueue} {A : Type}.

(** The two signatures [on] accepts, [(const T &, const Frame &)] and
    [(const T &)]. *)
Inductive TypedHandler :=
  | WithFrame (f : list Z → ptr → M (world * A) unit)
  | WithoutFrame (f : list Z → M (world * A) unit).
Abbreviation FrameHandler := (FrameView → M (world * A) unit).

Record TypedJournalDispatcher := MkDispatcher {
  typed_handlers_ : gmap Z FrameHandler;
  unknown_handler_ : option FrameHandler
}.
Definition TypedJournalDispatcher_ctor : TypedJournalDispatcher := MkDispatcher ∅ None.

(** [typedPayload<T>] of the current frame, read when the handler
    is called. *)
Definition typedPayload (T : payload_type) (v : FrameView) : M world (list Z) :=
  let data_length := getDataLength_of (fv_length v) in
  if pt_empty T && (data_length =? 0) then ret []
  else if negb (data_length =? pt_sizeof T) then
    let! t := getMsgType (fv_frame v) in
    throw (PayloadSizeMismatch t (pt_sizeof T) data_length)
  else load_bytes (dataAddress (fv_frame v)) (pt_sizeof T).

Definition invokeTypedHandler (handler : TypedHandler) (message : list Z) (frame : ptr)
    : M (world * A) unit :=
  match handler with
  | WithFrame f => f message frame
  | WithoutFrame f => f message
  end.

(** The closure [on] stores. *)
Definition typed_closure (T : payload_type) (handler : TypedHandler) : FrameHandler := λ current,
  let! message := lift_fst (typedPayload T current) in
  invokeTypedHandler handler message (fv_frame current).

Definition on (T : payload_type) (handler : TypedHandler) (d : TypedJournalDispatcher)
    : TypedJournalDispatcher :=
  MkDispatcher (<[kMsgType T := typed_closure T handler]> (typed_handlers_ d)) (unknown_handler_ d).
Definition onUnknown (handler : ptr → M (world * A) unit) (d : TypedJournalDispatcher)
    : TypedJournalDispatcher :=
  MkDispatcher (typed_handlers_ d) (Some (λ current, handler (fv_frame current))).
Definition clearHandlers (d : TypedJournalDispatcher) : TypedJournalDispatcher := MkDispatcher ∅ None.

(** The state [dispatchCurrent], [next] and [run] work on. *)
Abbreviation D := (M (world * (reader * A))).
Definition reader_ {X} (m : R X) : D X := λ s,
  let '(x, (w, r)) := m (s.1, s.2.1) in (x, (w, (r, s.2.2))).
Definition application {X} (m : M (world * A) X) : D X := λ s,
  let '(x, (w, a)) := m (s.1, s.2.2) in (x, (w, (s.2.1, a))).

Definition dispatchFrame (d : TypedJournalDispatcher) (current : FrameView) : M (world * A) bool :=
  match typed_handlers_ d !! fv_msg_type current with
  | Some handler => do! handler current in ret true
  | None =>
      match unknown_handler_ d with
      | Some handler => do! handler current in ret true
      | None => ret false
      end
  end.

Definition dispatchCurrent (d : TypedJournalDispatcher) : D bool :=
  let! current := reader_ tryCurrentFrame in
  match current with
  | None => ret false
  | Some v => application (dispatchFrame d v)
  end.

Definition dispatcher_next (d : TypedJournalDispatcher) : D bool :=
  let! current := reader_ tryCurrentFrame in
  match current with
  | None => ret false
  | Some v =>
      let! _handled := application (dispatchFrame d v) in
      do! reader_ (advance v) in
      ret true
  end.

(** [while (count < max_frames && next()) ++count;] *)
Fixpoint run_loop (fuel : nat) (d : TypedJournalDispatcher) (max_frames count : Z) : D Z :=
  match fuel with
  | O => crash OutOfFuel
  | S fuel =>
      if count <? max_frames then
        let! more := dispatcher_next d in
        if more then run_loop fuel d max_frames (count + 1) else ret count
      else ret count
  end.
Definition dispatcher_run (fuel : nat) (d : TypedJournalDispatcher) (max_frames : Z) : D Z :=
  run_loop fuel d max_frames 0.
End Dispatcher.
Arguments TypedJournalDispatcher : clear implicits.

(** ** What a dispatcher means *)

Section spec.
Context {A : Type}.

(** What handlers do to the application's state, and how they end. *)
Record route := Route { rt_type : payload_type; rt_apply : list Z → A → outcome unit * A }.

(** The routes and what happens to the other frames. *)
Record routing := Routing {
  rg_typed : gmap Z route;
  rg_unknown : option (frame → A → outcome unit * A)
}.

Definition payload_ok (T : payload_type) (payload : list Z) : bool :=
  let n := Z.of_nat (length payload) in (pt_empty T && (n =? 0)) || (n =? pt_sizeof T).

(** One frame. *)
Definition route_frame (rg : routing) (f : frame) (a : A) : outcome unit * A :=
  match rg_typed rg !! fr_type f with
  | Some r =>
      if payload_ok (rt_type r) (fr_payload f) then rt_apply r (fr_payload f) a
      else (Throw (PayloadSizeMismatch (fr_type f) (pt_sizeof (rt_type r))
                    (Z.of_nat (length (fr_payload f)))), a)
  | None => match rg_unknown rg with Some u => u f a | None => (Ret tt, a) end
  end.

(** At most [max] frames: how many were consumed, the application state, and
    how it ended. *)
Fixpoint run_spec (rg : routing) (max : Z) (fs : list frame) (n : nat) (a : A)
    : nat * A * outcome unit :=
  match fs with
  | [] => (n, a, Ret tt)
  | f :: fs =>
      if Z.of_nat n <? max then
        match route_frame rg f a with
        | (Ret _, a') => run_spec rg max fs (S n) a'
        | (x, a') => (n, a', x)
        end
      else (n, a, Ret tt)
  end.

(** What [run] returns: the number of frames, or what ended it. *)
Definition run_result (n : nat) (x : outcome unit) : outcome Z :=
  match x with Ret _ => Ret (Z.of_nat n) | Throw e => Throw e | Fault f => Fault f end.
End spec.
Arguments route : clear implicits.
Arguments routing : clear implicits.

Section correct.
Context `{Env} `{!NoErrors} `{!EnvLaws} `{ILocator} `{!LocatorLaws} `{PriorityQueue} {A : Type}.

(** A run that leaves the world alone. *)
Definition ends {X} (w : world) (x : X * A) : X * (world * A) := (x.1, (w, x.2)).

(** A handler does [f] to the application's state and returns or throws as
    [f] says; it may look at the frame. *)
Definition applies (T : payload_type) (handler : @TypedHandler A)
    (f : list Z → A → outcome unit * A) : Prop :=
  ∀ w b pa n wr off fr a,
    mapped w b pa n wr → frame_at w pa off fr → frame_wf fr → 64 ≤ off → off + frame_stride fr ≤ n →
    payload_ok T (fr_payload fr) = true →
    invokeTypedHandler handler (fr_payload fr) (Ptr b off) (w, a) = ends w (f (fr_payload fr) a).

(** A handler of unknown frames. *)
Definition observes (handler : ptr → M (world * A) unit) (u : frame → A → outcome unit * A) : Prop :=
  ∀ w b pa n wr off f a,
    mapped w b pa n wr → frame_at w pa off f → frame_wf f → 64 ≤ off → off + frame_stride f ≤ n →
    handler (Ptr b off) (w, a) = ends w (u f a).

Record implements (d : TypedJournalDispatcher A) (rg : routing A) : Prop := {
  im_typed t :
    match rg_typed rg !! t with
    | Some r => ∃ h, typed_handlers_ d !! t = Some (typed_closure (rt_type r) h) ∧
        applies (rt_type r) h (rt_apply r)
    | None => typed_handlers_ d !! t = None
    end;
  im_unknown :
    match rg_unknown rg with
    | Some u => ∃ h, unknown_handler_ d = Some (λ v, h (fv_frame v)) ∧ observes h u
    | None => unknown_handler_ d = None
    end
}.

Lemma ctor_implements : implements TypedJournalDispatcher_ctor (Routing ∅ None).
Proof. split; [intros t; simpl; by rewrite !lookup_empty|done]. Qed.
Lemma clear_implements d : implements (clearHandlers d) (Routing ∅ None).
Proof. apply ctor_implements. Qed.
(** The last registration for a type counts. *)
Lemma on_implements T h f d rg :
  implements d rg → applies T h f →
  implements (on T h d) (Routing (<[kMsgType T := Route T f]> (rg_typed rg)) (rg_unknown rg)).
Proof.
  intros [Ht Hu] Hh. split; [|done]. intros t. simpl.
  destruct (decide (kMsgType T = t)) as [<-|Hne].
  - rewrite !lookup_insert_eq. by exists h.
  - rewrite !lookup_insert_ne by done. apply Ht.
Qed.
Lemma onUnknown_implements h u d rg :
  implements d rg → observes h u → implements (onUnknown h d) (Routing (rg_typed rg) (Some u)).
Proof. intros [Ht Hu] Hh. split; [done|]. by exists h. Qed.

Lemma reader_run {X} (m : R X) w r (a : A) x w' r' :
  m (w, r) = (x, (w', r')) → reader_ m (w, (r, a)) = (x, (w', (r', a))).
Proof. intros Hm. unfold reader_. simpl. by rewrite Hm. Qed.
Lemma application_run {X} (m : M (world * A) X) w r a x w' a' :
  m (w, a) = (x, (w', a')) → application m (w, (r, a)) = (x, (w', (r, a'))).
Proof. intros Hm. unfold application. simpl. by rewrite Hm. Qed.

(** The payload, or the exception. *)
Lemma typedPayload_run w b pa n wr off f T :
  mapped w b pa n wr → frame_at w pa off f → frame_wf f → 64 ≤ off → off + frame_stride f ≤ n →
  typedPayload T (MkView (Ptr b off) (frame_length f) (fr_type f)) w =
    (if payload_ok T (fr_payload f) then Ret (fr_payload f)
     else Throw (PayloadSizeMismatch (fr_type f) (pt_sizeof T) (Z.of_nat (length (fr_payload f)))), w).
Proof.
  intros Hm Hat Hwf Hlo Hhi. pose proof (frame_wf_stride _ Hwf) as (Hl&Hs&_).
  destruct Hat as (_&Hty&_&_&_&_&Hpl). unfold typedPayload, payload_ok. cbn [fv_length fv_frame].
  assert (getDataLength_of (frame_length f) = Z.of_nat (length (fr_payload f))) as ->.
  { unfold getDataLength_of, frame_length, sizeof_FrameHeader.
    rewrite (proj2 (Z.ltb_ge _ _)) by lia. lia. }
  set (len := Z.of_nat (length (fr_payload f))) in *.
  unfold frame_length, sizeof_FrameHeader in Hl. fold len in Hl.
  assert (pt_empty T && (len =? 0) = true → fr_payload f = []) as Hnil.
  { intros [_ Hz%Z.eqb_eq]%andb_true_iff. destruct (fr_payload f); [done|]. unfold len in Hz. simpl in Hz. lia. }
  destruct (pt_empty T && (len =? 0)) eqn:He; cbn [orb]; [by rewrite Hnil|].
  destruct (Z.eqb_spec len (pt_sizeof T)) as [<-|Hne]; cbn [negb].
  - unfold dataAddress, getHeaderLength. unfold_offsets.
    erewrite load_bytes_run; [|exact Hm|cbn; lia..].
    cbn [p_off ptr_add]. by rewrite Hpl.
  - unfold getMsgType. unfold_offsets.
    erewrite bind_Ret by (eapply load_run; [exact Hm|cbn; lia..]). cbn. by rewrite Hty.
Qed.

(** The frame under the cursor goes where the routing says. *)
Lemma dispatchFrame_run d rg w jn c j p k fs f (a : A) :
  implements d rg →
  readable w c j → cursor w jn c j p k → aj_pages j !! p = Some fs → fs !! k = Some f →
  let v := MkView (jn_frame jn) (frame_length f) (fr_type f) in
  let '(x, a') := route_frame rg f a in
  ∃ handled, dispatchFrame d v (w, a) =
    (match x with Ret _ => Ret handled | Throw e => Throw e | Fault f => Fault f end, (w, a')).
Proof.
  intros [Ht Hu] Hrb Hcu Hp Hk v.
  destruct (cursor_in_page _ _ _ _ _ _ _ _ Hrb Hcu Hp Hk) as (b&wr&Hf&Hm&Hat&Hwf&Hlo&Hhi).
  unfold v, dispatchFrame, route_frame. cbn [fv_msg_type]. specialize (Ht (fr_type f)).
  destruct (rg_typed rg !! fr_type f) as [r|].
  - destruct Ht as (h&Hh&Happ). rewrite Hh. unfold typed_closure.
    pose proof (typedPayload_run w b _ _ wr (frame_off fs k) f (rt_type r) Hm Hat Hwf Hlo Hhi) as Hpl.
    rewrite Hf. destruct (payload_ok _ _) eqn:Hok.
    + specialize (Happ w b _ _ wr (frame_off fs k) f a Hm Hat Hwf Hlo Hhi Hok).
      destruct (rt_apply r (fr_payload f) a) as [x a']. exists true.
      rewrite bind_assoc. erewrite bind_Ret by by apply lift_fst_run.
      unfold bind. cbn [fv_frame]. rewrite Happ. by destruct x.
    + exists true. rewrite bind_assoc. by erewrite bind_Throw by by apply lift_fst_run.
  - rewrite Ht. destruct (rg_unknown rg) as [u|]; [|rewrite Hu; by exists false].
    destruct Hu as (h&->&Hobs). specialize (Hobs w b _ _ wr (frame_off fs k) f a Hm Hat Hwf Hlo Hhi).
    destruct (u f a) as [x a']. exists true. unfold bind. cbn [fv_frame]. rewrite Hf, Hobs. by destruct x.
Qed.

(** One call of [next]: the frame is dispatched and the reader moves on, or
    the handler's exception leaves the reader where it is. *)
Lemma dispatcher_next_some d rg w r c j p k jn fs f (a : A) :
  implements d rg →
  readable w c j → reads w r c j p k jn → aj_pages j !! p = Some fs → fs !! k = Some f →
  match route_frame rg f a with
  | (Ret _, a') =>
      ∃ w' r' jn', dispatcher_next d (w, (r, a)) = (Ret true, (w', (r', a'))) ∧
        reads w' r' c j (next_pos p k f).1 (next_pos p k f).2 jn' ∧ quiet w w' (jheld jn)
  | (Throw e, a') => dispatcher_next d (w, (r, a)) = (Throw e, (w, (r, a')))
  | (Fault g, a') => dispatcher_next d (w, (r, a)) = (Fault g, (w, (r, a')))
  end.
Proof.
  intros Him Hrb Hrd Hp Hk. pose proof Hrd as [Hj Hs Hcu Hpos].
  pose proof (view_of_run _ _ _ _ _ _ _ _ Hrb Hcu Hp Hk) as Hview.
  pose proof (tryCurrentFrame_single w r jn _ Hj Hs Hview) as Htry.
  pose proof (dispatchFrame_run d rg _ _ _ _ _ _ _ _ a Him Hrb Hcu Hp Hk) as Hdisp.
  assert (∀ x s, dispatchFrame d (MkView (jn_frame jn) (frame_length f) (fr_type f)) (w, a) = (x, (w, s)) →
    dispatcher_next d (w, (r, a)) =
      bind (λ _, (x, (w, (r, s))))
        (λ _, do! reader_ (advance (MkView (jn_frame jn) (frame_length f) (fr_type f))) in ret true)
        (w, (r, a))) as Hnext.
  { intros x s Hx. unfold dispatcher_next. erewrite bind_Ret by by apply reader_run. cbn beta iota.
    unfold bind at 1. by erewrite application_run by exact Hx. }
  destruct (route_frame rg f a) as [x a']. destruct Hdisp as [handled Hdisp].
  destruct x as [_|e|g]; [|by erewrite Hnext by exact Hdisp..].
  destruct (advance_single _ _ _ _ _ _ _ _ _ Hrb Hrd Hp Hk)
    as (w'&r'&jn'&Hadv&Hrd'&Hq&_&_).
  exists w', r', jn'. split; [|done]. erewrite Hnext by exact Hdisp. unfold bind at 1.
  by erewrite bind_Ret by by apply reader_run.
Qed.

Lemma dispatcher_next_none d w r c j p k jn fs (a : A) :
  readable w c j → reads w r c j p k jn → aj_pages j !! p = Some fs → fs !! k = None →
  dispatcher_next d (w, (r, a)) = (Ret false, (w, (r, a))) ∧ rest j p k = [].
Proof.
  intros Hrb [Hj Hs Hcu Hpos] Hp Hk.
  destruct (at_end _ _ _ _ _ _ _ Hrb Hcu Hpos Hp Hk) as (->&Hroom&Hrest). split; [|done].
  unfold dispatcher_next. erewrite bind_Ret by
    (apply reader_run; eapply tryCurrentFrame_single; [done..|]; by eapply view_of_end). done.
Qed.

Lemma run_loop_correct fuel d rg max w r c j p k jn n (a : A) :
  implements d rg → readable w c j → 64 ≤ page_size_ c → reads w r c j p k jn →
  (length (rest j p k) < fuel)%nat →
  let '(n', a', x) := run_spec rg max (rest j p k) n a in
  ∃ w' r' p' k' jn',
    run_loop fuel d max (Z.of_nat n) (w, (r, a)) = (run_result n' x, (w', (r', a'))) ∧
    readable w' c j ∧ reads w' r' c j p' k' jn' ∧
    (n ≤ n')%nat ∧ rest j p' k' = drop (n' - n) (rest j p k).
Proof.
  intros Him. revert w r p k jn n a; induction fuel as [|fuel IH];
    intros w r p k jn n a Hrb Hsz Hrd Hfuel; [lia|].
  destruct (cu_page _ _ _ _ _ _ (rs_cursor _ _ _ _ _ _ _ Hrd)) as (?&?&fs&_&_&Hp&_).
  assert (∀ x a', run_loop (S fuel) d max (Z.of_nat n) (w, (r, a)) = (run_result n x, (w, (r, a'))) →
    ∃ w' r' p' k' jn',
      run_loop (S fuel) d max (Z.of_nat n) (w, (r, a)) = (run_result n x, (w', (r', a'))) ∧
      readable w' c j ∧ reads w' r' c j p' k' jn' ∧ (n ≤ n)%nat ∧
      rest j p' k' = drop (n - n) (rest j p k)) as Hstay.
  { intros y a' Hrun. exists w, r, p, k, jn. by rewrite Nat.sub_diag, drop_0. }
  cbn [run_loop] in Hstay |- *. destruct (fs !! k) as [f|] eqn:Hk.
  2:{ destruct (dispatcher_next_none d _ _ _ _ _ _ _ _ a Hrb Hrd Hp Hk) as [Hrun Hrest].
      rewrite Hrest in *. cbn [run_spec]. apply Hstay. case_match; [|done].
      by erewrite bind_Ret by exact Hrun. }
  destruct (rest_step j p k fs f (rb_wf _ _ _ Hrb) Hp Hk) as [Hrest _]. rewrite Hrest in *.
  cbn [run_spec]. destruct (Z.of_nat n <? max); [|by apply Hstay].
  pose proof (dispatcher_next_some d rg _ _ _ _ _ _ _ _ _ a Him Hrb Hrd Hp Hk) as Hnext.
  destruct (route_frame rg f a) as [[_|e|g] a'];
    [|by apply Hstay; erewrite bind_Throw by exact Hnext|by apply Hstay; erewrite bind_Fault by exact Hnext].
  clear Hstay. destruct Hnext as (w1&r1&jn1&Hrun&Hrd1&Hq).
  pose proof (readable_quiet _ _ _ _ _ Hsz Hq Hrb) as Hrb1.
  specialize (IH w1 r1 _ _ jn1 (S n) a' Hrb1 Hsz Hrd1 ltac:(simpl in Hfuel; lia)).
  destruct (run_spec rg max _ (S n) a') as [[n' a''] res].
  destruct IH as (w'&r'&p'&k'&jn'&Hloop&Hrb'&Hrd'&Hn&Hr').
  exists w', r', p', k', jn'. split_and!; [|done|done|lia|].
  - erewrite bind_Ret by exact Hrun. cbn beta iota.
    by replace (Z.of_nat n + 1) with (Z.of_nat (S n)) by lia.
  - rewrite Hr'. replace (n' - n)%nat with (S (n' - S n)) by lia. done.
Qed.
End correct.

