(* ===== verification/Client.v ===== *)
(** * Client: programs around the library

    What the programs under [src/examples] share: messages are objects
    in memory -- fields in order, a [double] as its IEEE 754 encoding, padding
    bytes of no particular value --, objects are destroyed where their scope
    ends, also by an exception ([scoped]), [publish] writes an object through
    the typed interface, and a loop reads until there is nothing.  The lemmas
    give what is stored after a sequence of writes ([with_writer_run]) and
    what a reading loop computes ([reader_fold]). *)

From Stdlib Require Import SpecFloat.
From S2P Require Import Prelude Memory Frame Strings Time Doubles Base Mmap Page.
From S2P Require Import Warmer Writer WriterState WriterSpec WriterApi Journal Reader JournalSpec ReaderSpec.
From S2P Require Import Extend Resume EndToEnd Isolation ReadAhead Live Typed Dispatcher.

(** ** A [double] in memory *)

Definition sign_bit (s : bool) : Z := if s then 2 ^ 63 else 0.

Definition double_bits (x : double) : Z :=
  match x with
  | S754_zero s => sign_bit s
  | S754_infinity s => sign_bit s + 2047 * 2 ^ 52
  | S754_nan => 2047 * 2 ^ 52 + 2 ^ 51
  | S754_finite s m e =>
      sign_bit s + (if Zpos m <? 2 ^ 52 then Zpos m else (e + 1075) * 2 ^ 52 + (Zpos m - 2 ^ 52))
  end.

Definition bits_double (b : Z) : double :=
  let s := 2 ^ 63 <=? b in
  let exponent := (b / 2 ^ 52) `mod` 2 ^ 11 in
  let fraction := b `mod` 2 ^ 52 in
  if exponent =? 2047 then if fraction =? 0 then S754_infinity s else S754_nan
  else if exponent =? 0 then
    match fraction with Zpos m => S754_finite s m (-1074) | _ => S754_zero s end
  else S754_finite s (Z.to_pos (fraction + 2 ^ 52)) (exponent - 1075).

(** The three fields of an encoding taken apart. *)
Lemma bits_double_fields s E F :
  0 ≤ E < 2 ^ 11 → 0 ≤ F < 2 ^ 52 →
  bits_double (sign_bit s + (E * 2 ^ 52 + F)) =
    if E =? 2047 then if F =? 0 then S754_infinity s else S754_nan
    else if E =? 0 then match F with Zpos m => S754_finite s m (-1074) | _ => S754_zero s end
    else S754_finite s (Z.to_pos (F + 2 ^ 52)) (E - 1075).
Proof.
  intros HE HF. unfold bits_double, sign_bit.
  assert ((2 ^ 63 <=? (if s then 2 ^ 63 else 0) + (E * 2 ^ 52 + F)) = s) as ->.
  { destruct s; [apply Z.leb_le|apply Z.leb_gt]; lia. }
  replace ((if s then 2 ^ 63 else 0) + (E * 2 ^ 52 + F)) with
    (((if s then 2 ^ 11 else 0) + E) * 2 ^ 52 + F) by (destruct s; lia).
  assert ((((if s then 2 ^ 11 else 0) + E) * 2 ^ 52 + F) `mod` 2 ^ 52 = F) as ->.
  { rewrite Z.add_comm, Z_mod_plus_full. by apply Z.mod_small. }
  assert ((((if s then 2 ^ 11 else 0) + E) * 2 ^ 52 + F) / 2 ^ 52 = (if s then 2 ^ 11 else 0) + E) as ->.
  { rewrite Z.div_add_l, Z.div_small by lia. lia. }
  assert (((if s then 2 ^ 11 else 0) + E) `mod` 2 ^ 11 = E) as ->; [|done].
  destruct s; [rewrite <-(Z.mul_1_l (2 ^ 11)) at 1; rewrite Z.add_comm, Z_mod_plus_full|]; by apply Z.mod_small.
Qed.

(** Every number a [double] can be is read back. *)
Lemma bits_double_bits x :
  valid_binary 53 1024 x = true → x ≠ S754_nan → bits_double (double_bits x) = x.
Proof.
  intros Hv Hn. destruct x as [s|s| |s m e]; [by destruct s| by destruct s|done|].
  cbn [valid_binary] in Hv. unfold bounded, canonical_mantissa in Hv.
  apply andb_true_iff in Hv as [Hc%Z.eqb_eq Hmax%Z.leb_le].
  unfold fexp, emin in Hc. cbn in Hmax. rewrite digits2_log2 in Hc.
  pose proof (Z.log2_spec (Zpos m) ltac:(lia)) as [Hlo Hhi].
  set (d := Z.log2 (Zpos m)) in *. assert (0 ≤ d) by apply Z.log2_nonneg.
  cbn [double_bits]. destruct (Z.ltb_spec (Zpos m) (2 ^ 52)) as [Hsub|Hnorm].
  - assert (d < 52). { apply (Z.pow_lt_mono_r_iff 2); lia. }
    assert (e = -1074) as -> by lia.
    exact (bits_double_fields s 0 (Zpos m) ltac:(lia) ltac:(lia)).
  - assert (52 ≤ d). { apply Z.log2_le_pow2; lia. }
    assert (d = 52) as Hd by lia. rewrite Hd in *.
    rewrite bits_double_fields by lia.
    rewrite (proj2 (Z.eqb_neq _ _)) by lia.
    destruct (Z.eqb_spec (e + 1075) 0) as [He|He]; [lia|].
    replace (Zpos m - 2 ^ 52 + 2 ^ 52) with (Zpos m) by lia. cbn [Z.to_pos].
    f_equal. lia.
Qed.

Lemma double_bits_range x : valid_binary 53 1024 x = true → in_u 64 (double_bits x).
Proof.
  intros Hv. unfold in_u, double_bits, sign_bit. destruct x as [s|s| |s m e]; [by destruct s..|done|].
  cbn [valid_binary] in Hv. unfold bounded, canonical_mantissa in Hv.
  apply andb_true_iff in Hv as [Hc%Z.eqb_eq Hmax%Z.leb_le].
  unfold fexp, emin in Hc. cbn in Hmax. rewrite digits2_log2 in Hc.
  pose proof (Z.log2_spec (Zpos m) ltac:(lia)) as [Hlo Hhi].
  assert (2 ^ Z.succ (Z.log2 (Zpos m)) ≤ 2 ^ 53) by (apply Z.pow_le_mono_r; lia).
  destruct s, (Z.ltb_spec (Zpos m) (2 ^ 52)); lia.
Qed.

(** ** Objects with a scope *)

(** [{ T object(...); body }]: the destructor runs on the way out, also of an
    exception; one that throws ends the process. *)
Definition scoped {S A} (destructor : M (world * S) unit) (object : S) (body : M (world * S) A)
    : M world A := λ w,
  match body (w, object) with
  | (Fault f, (w, _)) => (Fault f, w)
  | (x, s) =>
      match destructor s with
      | (Ret _, (w, _)) => (x, w)
      | (Throw _, (w, _)) => (Fault AssertionFailed, w)
      | (Fault f, (w, _)) => (Fault f, w)
      end
  end.

Lemma scoped_run {S A} (destructor : M (world * S) unit) object (body : M (world * S) A) w a w1 s1 w2 s2 :
  body (w, object) = (Ret a, (w1, s1)) → destructor (w1, s1) = (Ret tt, (w2, s2)) →
  scoped destructor object body w = (Ret a, w2).
Proof. intros Hb Hd. unfold scoped. by rewrite Hb, Hd. Qed.

(** The writer and reader options of all examples. *)
Definition example_writer_options : JournalWriterOptions :=
  MkWriterOptions false (opt_warmup_pages default_options) false
    (opt_retained_page_limit default_options).
Definition example_reader_options : JournalReaderOptions := MkReaderOptions false false 0.

Section programs.
Context `{Env} `{ILocator} `{PriorityQueue}.

Definition with_writer {A} (location : Location) (dest_id : Z) (body : W A) : M world A :=
  let! writer := JournalWriter_ctor false location dest_id example_writer_options in
  scoped JournalWriter_release writer body.

Definition with_reader {A} (body : R A) : M world A :=
  scoped JournalReader_release (JournalReader_ctor example_reader_options) body.

(** [publish]: [slot = message;] copies the object into the page. *)
Definition publish (timestamp msg_type : Z) (message : list Z) : W unit :=
  let sizeof := Z.of_nat (length message) in
  let! slot := openData sizeof timestamp msg_type FRAME_NORMAL in
  do! io (store_bytes slot message) in
  closeData sizeof no_hook.

(** [while (const auto current = reader.tryCurrentFrame()) { body;
    reader.advance(current); }]: what the body does to the variables
    around the loop. *)
Fixpoint while_current {A} (fuel : nat) (body : A → FrameView → M world A) (a : A) : R A :=
  match fuel with
  | O => crash OutOfFuel
  | S fuel =>
      let! current := tryCurrentFrame in
      match current with
      | None => ret a
      | Some v =>
          let! a := rio (body a v) in
          do! advance v in
          while_current fuel body a
      end
  end.

(** [while (reader.nextStatic(dispatcher)) {}] *)
Fixpoint while_next {A} (fuel : nat) (dispatcher : A → FrameView → M world A) (a : A) : R A :=
  match fuel with
  | O => crash OutOfFuel
  | S fuel =>
      let! x := nextStatic (dispatcher a) in
      match x with None => ret a | Some a => while_next fuel dispatcher a end
  end.

(** [for (x : xs) op(x);] *)
Fixpoint for_each {X} (op : X → W unit) (xs : list X) : W unit :=
  match xs with
  | [] => ret tt
  | x :: xs => do! op x in for_each op xs
  end.

(** [current->data<T>().member]: [n] bytes at [off]. *)
Definition data_member (n off : Z) (frame : ptr) : M world Z :=
  load n (ptr_add (dataAddress frame) off).
Definition data_double (off : Z) (frame : ptr) : M world double :=
  let! b := data_member 8 off frame in ret (bits_double b).
End programs.

(** ** Writing in sequence *)

Section writing.
Context `{Env} `{!NoErrors} `{!EnvLaws} `{ILocator} `{!LocatorLaws} `{PriorityQueue}.

(** [op] writes the message [m]. *)
Definition emits (op : W unit) (m : message) : Prop :=
  ∀ w r j, rep w r j → writing_ r = false → aj_page j + 1 < 2 ^ 31 →
  message_ok (page_size_ (wr_cfg r)) m →
  ∃ w' r', op (w, r) = (Ret tt, (w', r')) ∧
    rep w' r' (a_write (page_size_ (wr_cfg r)) (env_clock (w_ticks w)) (ms_time m) (ms_type m)
      FRAME_NORMAL (ms_data m) j) ∧
    wr_cfg r' = wr_cfg r ∧ writing_ r' = false.

Lemma writeBytes_emits m : emits (writeBytes (ms_time m) (ms_type m) (ms_data m)) m.
Proof.
  intros w r j Hrep Hw Hp (Hty&_&Hts&Hdata&Hlen).
  destruct (writeBytes_run w r j (ms_time m) (ms_type m) (ms_data m))
    as (w'&r'&Hrun&Hrep'&Hc&Hw'&_); [done..|unfold in_s; simpl; lia|done|done|].
  by exists w', r'.
Qed.

Lemma mark_emits ts ty : emits (mark ts ty) (Message ts ty []).
Proof. exact (writeBytes_emits (Message ts ty [])). Qed.

Lemma publish_emits ts ty data : data ≠ [] → emits (publish ts ty data) (Message ts ty data).
Proof.
  intros Hne w r j Hrep Hw Hp (Hty&_&Hts&Hdata&Hlen). cbn [ms_time ms_type ms_data] in *.
  set (n := Z.of_nat (length data)) in *. assert (0 < n) by (destruct data; [done|unfold n; simpl; lia]).
  destruct (openData_run w r j n ts ty FRAME_NORMAL)
    as (w1&r1&Hopen&Hro&Hc1&Ho1&Hw1&_); [done..|unfold in_s; simpl; lia|done|lia|].
  rewrite wrap_small in Hro by (unfold in_u; lia). set (j1 := a_room _ _ _ _) in Hro.
  destruct (store_payload_run w1 r1 j1 ts ty FRAME_NORMAL data) as (w2&Hstore&Hro2&Hpl&_); [exact Hro|].
  fold n in Hstore, Hro2, Hpl. rewrite (proj2 (Z.ltb_lt 0 n)) in Hstore by done. cbn [when] in Hstore.
  destruct (closeData_run w2 w2 r1 j1 ts ty FRAME_NORMAL n no_hook)
    as (w3&r3&Hclose&Hrep3&Hc3&_&Hw3&_); [done..|by rewrite Hw1, Hc1|done|done|unfold in_s; simpl; lia|by rewrite Hpl|].
  rewrite Hpl in Hrep3. exists w3, r3. split_and!; [|exact Hrep3|congruence|done].
  unfold publish. fold n. by erewrite bind_Ret, bind_Ret by eassumption.
Qed.

(** Few and small messages stay on the first page. *)
Definition few (ms : list message) : Prop :=
  Forall (λ m, (length (ms_data m) ≤ 64)%nat) ms ∧ Z.of_nat (length ms) ≤ 10000.
Definition one_page (ms : list message) (j : ajournal) : Prop :=
  few ms → aj_closed j = [] ∧ page_end (aj_cur j) ≤ 64 + 192 * Z.of_nat (length ms).

Lemma one_page_write size now m ms j :
  2 ^ 21 ≤ size → one_page ms j →
  one_page (ms ++ [m]) (a_write size now (ms_time m) (ms_type m) FRAME_NORMAL (ms_data m) j).
Proof.
  intros Hsz Hone [Hms Hlen]. apply Forall_app in Hms as [Hms Hm]. apply Forall_inv in Hm.  cbn beta in Hm.
  rewrite length_app in Hlen |- *. cbn [length] in *. destruct Hone as [Hc He]; [by split; [|lia]|].
  pose proof (framePhysicalLength_bounds (sizeof_FrameHeader + Z.of_nat (length (ms_data m)))) as [Hb _];
    [unfold sizeof_FrameHeader; lia|]. unfold sizeof_FrameHeader in Hb.
  unfold a_write, a_fits, FRAME_ALIGNMENT. rewrite (proj2 (Z.leb_le _ _)) by (unfold sizeof_FrameHeader; lia).
  cbn [a_append aj_closed aj_cur]. split; [done|]. rewrite page_end_snoc.
  unfold frame_stride, frame_length, sizeof_FrameHeader. cbn [fr_payload]. lia.
Qed.

Lemma one_page_frames ms j : aj_wf j → one_page ms j → few ms → aj_data j = aj_frames j.
Proof.
  intros Hwf Hone Hfew. destruct (Hone Hfew) as [Hc _]. unfold aj_data, aj_frames. rewrite Hc.
  cbn [concat app].
  induction (wf_cur _ Hwf) as [|f fs Hf _ IH]; [done|]. by rewrite filter_cons_True, IH.
Qed.

(** A writer that has written [ms], one after the other, from a new start. *)
Definition written (c : writer_config) (ms : list message) (s : world * writer) : Prop :=
  ∃ j, rep s.1 s.2 j ∧ wr_cfg s.2 = c ∧ writing_ s.2 = false ∧ good 0 j ∧
    content <$> aj_data j = ms ∧ one_page ms j ∧ aj_page j ≤ 1 + Z.of_nat (length ms) ∧
    aj_seq j ≤ 2 * Z.of_nat (length ms).

Lemma ctor_written w location dest_id o :
  empty_destination w location dest_id → opt_warmup_pages o ≤ kWriterPageWarmerRingSize →
  ∃ w' r, JournalWriter_ctor false location dest_id o w = (Ret r, w') ∧
    written (ctor_cfg false location dest_id o) [] (w', r).
Proof.
  intros [Hd Honly Hnone] Ho.
  destruct (ctor_fresh_run w false location dest_id o) as (w'&r&Hrun&Hrep&[Hc Hw _ _]); [done..|].
  exists w', r. split; [done|]. exists (AJ 1 [] [] 0). by split_and!.
Qed.

Lemma emit_written c op m ms s :
  (∀ n, 0 ≤ env_clock n) → written c ms s → emits op m → message_ok (page_size_ c) m →
  Z.of_nat (length ms) < 2 ^ 30 → ∃ s', op s = (Ret tt, s') ∧ written c (ms ++ [m]) s'.
Proof.
  destruct s as [w r]. intros Hclock (j&Hrep&Hc&Hw&Hg&Hms&Hone&Hp&Hs) Hop Hm Hlen. cbn [fst snd] in *.
  pose proof Hm as (Hty&Hne&Hts&_). rewrite <-Hc in Hm.
  destruct (Hop w r j) as (w'&r'&Hrun&Hrep'&Hc'&Hw'); [done..|lia|done|].
  destruct (good_write 0 (page_size_ (wr_cfg r)) (env_clock (w_ticks w)) (ms_time m) (ms_type m)
    FRAME_NORMAL (ms_data m) j) as (Hg'&Hs'&Hp'&_); [done|lia|apply Hclock|lia|done|].
  exists (w', r'). split; [done|]. eexists. split; [exact Hrep'|]. cbn [fst snd].
  pose proof (members_size _ _ _ (rep_members _ _ _ Hrep)) as [Hsz _].
  rewrite length_app. cbn [length]. split_and!; [congruence|done|done| |by apply one_page_write|lia|lia].
  rewrite aj_data_write, Hms by done. by destruct m.
Qed.

Lemma emit_then {A} c op m ms s (k : unit → W A) a ms' :
  (∀ n, 0 ≤ env_clock n) → written c ms s → emits op m → message_ok (page_size_ c) m →
  Z.of_nat (length ms) < 2 ^ 30 →
  (∀ s', written c (ms ++ [m]) s' → ∃ s2, k tt s' = (Ret a, s2) ∧ written c ms' s2) →
  ∃ s2, bind op k s = (Ret a, s2) ∧ written c ms' s2.
Proof.
  intros Hclock Hw Hop Hm Hlen Hk.
  destruct (emit_written _ _ _ _ _ Hclock Hw Hop Hm Hlen) as (s1&Hrun&Hw1).
  destruct (Hk s1 Hw1) as (s2&Hk2&Hw2). exists s2. by erewrite bind_Ret by exact Hrun.
Qed.

(** [for] each element of a list. *)
Lemma for_each_written {X} c (op : X → W unit) (m : X → message) xs ms s :
  (∀ n, 0 ≤ env_clock n) →
  Forall (λ x, emits (op x) (m x) ∧ message_ok (page_size_ c) (m x)) xs →
  Z.of_nat (length ms + length xs) < 2 ^ 30 → written c ms s →
  ∃ s', for_each op xs s = (Ret tt, s') ∧ written c (ms ++ (m <$> xs)) s'.
Proof.
  intros Hclock Hxs. revert ms s; induction Hxs as [|x xs [Hop Hm] _ IH]; intros ms s Hlen Hw.
  { exists s. by rewrite app_nil_r. }
  cbn [for_each fmap list_fmap length] in *. rewrite (cons_middle (m x)), app_assoc.
  eapply emit_then; [done|exact Hw|done..|lia|]. intros s' Hw'. apply IH; [|done].
  rewrite length_app. simpl. lia.
Qed.
End writing.

(** ** Reading with a loop *)

Definition slice {A} (off n : Z) (l : list A) : list A := take (Z.to_nat n) (drop (Z.to_nat off) l).

#[local] Transparent fbytes fle.
Lemma fbytes_slice w pa o off n len :
  0 ≤ off → 0 ≤ n → off + n ≤ len → fbytes w pa (o + off) n = slice off n (fbytes w pa o len).
Proof.
  intros Hoff Hn Hlen. unfold fbytes, slice. rewrite <-fmap_drop, <-fmap_take. f_equal.
  apply list_eq. intros i. rewrite lookup_take, lookup_drop. case_decide.
  - rewrite !lookup_seqZ_lt by lia. f_equal. lia.
  - rewrite lookup_seqZ_ge by lia. done.
Qed.

Lemma fle_slice w pa o off n len :
  0 ≤ off → 0 ≤ n → off + n ≤ len → fle w pa (o + off) n = le_val (slice off n (fbytes w pa o len)).
Proof. intros. unfold fle. by rewrite (fbytes_slice _ _ _ _ _ len). Qed.
#[local] Opaque fbytes fle.

Section reading.
Context `{Env} `{!NoErrors} `{!EnvLaws} `{ILocator} `{!LocatorLaws} `{PriorityQueue}.

(** A member of the object under the cursor. *)
Lemma data_member_run n off w jn c j p k fs f :
  readable w c j → cursor w jn c j p k → aj_pages j !! p = Some fs → fs !! k = Some f →
  0 < n → 0 ≤ off → off + n ≤ Z.of_nat (length (fr_payload f)) →
  data_member n off (jn_frame jn) w = (Ret (le_val (slice off n (fr_payload f))), w).
Proof.
  intros Hrb Hcu Hp Hk Hn Hoff Hlen.
  destruct (cursor_in_page _ _ _ _ _ _ _ _ Hrb Hcu Hp Hk) as (b&wr&->&Hm&Hat&Hwf&Hlo&Hhi).
  pose proof (frame_wf_stride _ Hwf) as (Hl&Hs&_). destruct Hat as (_&_&_&_&_&_&Hpl).
  unfold frame_length, sizeof_FrameHeader in Hl, Hpl.
  unfold data_member, dataAddress, getHeaderLength, sizeof_FrameHeader.
  erewrite load_run; [|exact Hm|cbn; lia..]. cbn [p_off ptr_add].
  rewrite (fle_slice _ _ _ _ _ (Z.of_nat (length (fr_payload f)))) by lia. by rewrite Hpl.
Qed.

(** The loop is a fold over the frames still to come, if each round of its
    body is one step. *)
Lemma while_current_run {A} (body : A → FrameView → M world A) (step : A → frame → A) w0 r0 c j p0 k0 jn0 fuel a :
  readable w0 c j → 64 ≤ page_size_ c → reads w0 r0 c j p0 k0 jn0 → (length (rest j p0 k0) < fuel)%nat →
  (∀ w jn p k fs f a, readable w c j → cursor w jn c j p k → aj_pages j !! p = Some fs → fs !! k = Some f →
     f ∈ aj_frames j →
     body a (MkView (jn_frame jn) (frame_length f) (fr_type f)) w = (Ret (step a f), w)) →
  (∀ f, f ∈ rest j p0 k0 → f ∈ aj_frames j) →
  ∃ w' r' p' k' jn', while_current fuel body a (w0, r0) = (Ret (foldl step a (rest j p0 k0)), (w', r')) ∧
    readable w' c j ∧ reads w' r' c j p' k' jn' ∧ rest j p' k' = [].
Proof.
  intros Hrb Hsz Hrd Hfuel Hbody. revert w0 r0 p0 k0 jn0 a Hrb Hrd Hfuel.
  induction fuel as [|fuel IH]; intros w r p k jn a Hrb Hrd Hfuel Hin; [lia|].
  cbn [while_current]. pose proof Hrd as [Hj Hs Hcu Hpos].
  destruct (cu_page _ _ _ _ _ _ Hcu) as (?&?&fs&_&_&Hp&_). destruct (fs !! k) as [f|] eqn:Hk.
  - destruct (rest_step j p k fs f (rb_wf _ _ _ Hrb) Hp Hk) as [Hrest _]. rewrite Hrest in *.
    destruct (advance_single _ _ _ _ _ _ _ _ _ Hrb Hrd Hp Hk) as (w1&r1&jn1&Hadv&Hrd1&Hq&_).
    pose proof (readable_quiet _ _ _ _ _ Hsz Hq Hrb) as Hrb1.
    destruct (IH w1 r1 _ _ jn1 (step a f) Hrb1 Hrd1) as (w'&r'&p'&k'&jn'&Hrec&Hres);
      [simpl in *; lia|intros; apply Hin; by right|].
    exists w', r', p', k', jn'. split; [|done].
    erewrite bind_Ret by (eapply tryCurrentFrame_single; [done..|by eapply view_of_run]). cbn beta iota.
    erewrite bind_Ret by (apply rio_run; eapply Hbody; [done..|apply Hin; by left]).
    by erewrite bind_Ret by exact Hadv.
  - destruct (at_end _ _ _ _ _ _ _ Hrb Hcu Hpos Hp Hk) as (->&Hroom&Hrest).
    exists w, r, p, (length fs), jn. rewrite Hrest. split; [|done].
    by erewrite bind_Ret by (eapply tryCurrentFrame_single; [done..|by eapply view_of_end]).
Qed.

(** [nextStatic] in a loop is that loop. *)
Lemma while_next_current {A} fuel (body : A → FrameView → M world A) a s :
  while_next fuel body a s = while_current fuel body a s.
Proof.
  revert a s; induction fuel as [|fuel IH]; intros a s; [done|].
  cbn [while_next while_current]. unfold nextStatic, bind.
  destruct (tryCurrentFrame s) as [[[v|]|e|f] s1]; try done.
  destruct (rio (body a v) s1) as [[a'|e|f] s2]; try done.
  destruct (advance v s2) as [[[]|e|f] s3]; try done. apply IH.
Qed.

(** The destructor of a reader of one journal. *)
Lemma jrelease_all_run w ps :
  pages_live w ps → ∃ w', jrelease_all ps w = (Ret tt, w') ∧ released w w' ps.
Proof. exact (release_all_run w ps). Qed.

Lemma JournalReader_release_run w r c j p k jn :
  reads w r c j p k jn →
  ∃ w' r', JournalReader_release (w, r) = (Ret tt, (w', r')).
Proof.
  intros [Hj _ Hcu _]. pose proof (cu_live _ _ _ _ _ _ Hcu) as Hlive. unfold jall, jheld in Hlive.
  set (ps := jn_queue jn ++ option_list (jn_page jn) ++ jn_retired jn).
  assert (pages_live w (ps ++ jwarmed jn)) as Hlive'.
  { eapply pages_live_perm; [|exact Hlive]. unfold ps. solve_Permutation. }
  destruct (jrelease_all_run w ps) as (w1&Hrel&Hr1); [by apply pages_live_app in Hlive' as [? _]|].
  pose proof (released_live _ _ _ _ Hr1 Hlive') as Hlive1.
  set (jn1 := jset_queue [] (jset_running false (jset_retired [] (jset_page None (jset_queue ps jn))))).
  destruct (releaseWarmedPage_run w1 jn1 []) as (w2&Hw2&_); [exact Hlive1|].
  exists w2, (rset_journals [] r). unfold JournalReader_release.
  rewrite (bind_Ret _ _ _ _ _ (rthis_run _ _)), Hj. cbn [release_journals].
  rewrite (bind_Ret _ _ _ tt (w2, r)); [done|]. apply rio_run. unfold bind at 1.
  assert (Journal_release (w, jn) = (Ret tt, (w2, unwarmed jn1))) as ->; [|done].
  unfold Journal_release. do 4 jstep. erewrite bind_Ret by (apply jio_run; exact Hrel).
  jstep. exact Hw2.
Qed.
End reading.

(** ** A whole program: write, then read *)

Section driver.
Context `{Env} `{!NoErrors} `{!EnvLaws} `{ILocator} `{!LocatorLaws} `{PriorityQueue}.
Context (Hclock : ∀ n, 0 ≤ env_clock n) (location : Location) (dest_id : Z).

Definition example_cfg : writer_config := ctor_cfg false location dest_id example_writer_options.

(** The files hold the journal of [ms]. *)
Definition stored (ms : list message) (w : world) : Prop :=
  ∃ j, readable w example_cfg j ∧ good 0 j ∧ content <$> aj_data j = ms ∧
    (length (aj_frames j) ≤ 2 * length ms)%nat ∧ (few ms → content <$> aj_frames j = ms).

Lemma released_quiet w w' ps : released w w' ps → quiet w w' ps.
Proof.
  intros [Hf _ Hr]. split.
  - intros. by apply fbyte_files.
  - intros. by rewrite (file_size_files w w').
  - intros. by rewrite Hf.
  - intros b m Hb Hn. by rewrite Hr.
Qed.

Lemma example_size : 2 ^ 21 ≤ page_size_ example_cfg.
Proof. apply findPageSize_bounds. Qed.

(** Small messages fit a page of any size. *)
Lemma small_message_ok m :
  0 < ms_type m < 2 ^ 16 → ms_type m ≠ MsgType.PageEnd → 0 ≤ ms_time m < 2 ^ 63 →
  Forall (in_u 8) (ms_data m) → (length (ms_data m) ≤ 1000)%nat → message_ok (page_size_ example_cfg) m.
Proof. pose proof example_size. intros. split_and!; try done; lia. Qed.

Lemma with_writer_run {A} w (body : W A) a ms :
  empty_destination w location dest_id →
  (∀ s, written example_cfg [] s → ∃ s', body s = (Ret a, s') ∧ written example_cfg ms s') →
  ∃ w', with_writer location dest_id body w = (Ret a, w') ∧ stored ms w'.
Proof.
  intros Hempty Hbody.
  destruct (ctor_written w location dest_id example_writer_options) as (w1&r1&Hctor&Hwr1);
    [done|vm_compute; discriminate|].
  destruct (Hbody _ Hwr1) as ([w2 r2]&Hrun&j&Hrep&Hc&_&Hg&Hms&Hone&_&Hseq). cbn [fst snd] in *.
  destruct (JournalWriter_release_run w2 r2 j Hrep) as (w3&r3&ps&Hrel&Hr&_).
  exists w3. split.
  { unfold with_writer. erewrite bind_Ret by exact Hctor. by eapply scoped_run. }
  exists j. split; [|split; [done|split; [done|split]]].
  - apply (readable_quiet w2 w3 _ _ ps); [pose proof example_size; lia|by apply released_quiet|].
    rewrite <-Hc. apply rep_readable; [done|apply Hg].
  - pose proof (gd_seq _ _ Hg) as [_ Hs]. lia.
  - intros Hfew. by rewrite <-(one_page_frames ms j (gd_wf _ _ Hg) Hone Hfew).
Qed.

(** What a frame is to a fold over messages: [PageEnd] frames are skipped. *)
Definition frame_step {A} (step : A → message → A) (a : A) (f : frame) : A :=
  if is_PageEnd f then a else step a (content f).

Lemma fold_frames {A} (step : A → message → A) a fs :
  foldl (frame_step step) a fs = foldl step a (content <$> filter (λ f, is_PageEnd f = false) fs).
Proof.
  revert a; induction fs as [|f fs IH]; intros a; [done|].
  cbn [foldl]. rewrite filter_cons. unfold frame_step at 2.
  destruct (is_PageEnd f) eqn:Hend; [rewrite decide_False by done|rewrite decide_True by done]; apply IH.
Qed.

(** Opening a reader and its first look. *)
Lemma with_reader_run {A} w (body : R A) ms (P : A → Prop) fuel :
  0 ≤ dest_id < 2 ^ 32 → stored ms w → (0 < fuel)%nat →
  (∀ w1 r1 j jn, readable w1 example_cfg j → reads w1 r1 example_cfg j 0 0 jn → good 0 j →
     content <$> aj_data j = ms → (length (aj_frames j) ≤ 2 * length ms)%nat →
     (few ms → content <$> aj_frames j = ms) →
     ∃ a w2 r2 p k jn', body (w1, r1) = (Ret a, (w2, r2)) ∧ P a ∧ reads w2 r2 example_cfg j p k jn') →
  ∃ a w', with_reader (do! join fuel location dest_id 0 in body) w = (Ret a, w') ∧ P a.
Proof.
  intros Hd (j&Hrb&Hg&Hms&Hlen&Hfew) Hfuel Hbody.
  destruct (join_start w example_cfg j example_reader_options fuel)
    as (w1&r1&jn&Hjoin&Hrb1&Hrd1&_); [done|done|apply example_size|apply Hg|done|].
  destruct (Hbody w1 r1 j jn) as (a&w2&r2&p&k&jn'&Hrun&HP&Hrd2); [done..|].
  destruct (JournalReader_release_run _ _ _ _ _ _ _ Hrd2) as (w3&r3&Hrel).
  exists a, w3. split; [|done]. unfold with_reader. eapply scoped_run; [|exact Hrel].
  by erewrite bind_Ret by exact Hjoin.
Qed.

(** Reading with a loop gives the fold over the messages. *)
Lemma reader_fold {A} w (body : A → FrameView → M world A) (step : A → message → A) a ms fuel B (k : A → R B) b :
  0 ≤ dest_id < 2 ^ 32 → stored ms w → (2 * length ms < fuel)%nat →
  (∀ j w jn p k fs f a, readable w example_cfg j → cursor w jn example_cfg j p k →
     aj_pages j !! p = Some fs → fs !! k = Some f →
     (is_PageEnd f = false → content f ∈ ms) →
     body a (MkView (jn_frame jn) (frame_length f) (fr_type f)) w = (Ret (frame_step step a f), w)) →
  (∀ s, k (foldl step a ms) s = (Ret b, s)) →
  ∃ w', with_reader (do! join fuel location dest_id 0 in let! a := while_current fuel body a in k a) w =
    (Ret b, w').
Proof.
  intros Hd Hst Hfuel Hbody Hk.
  destruct (with_reader_run w (let! a := while_current fuel body a in k a) ms (λ b', b' = b) fuel)
    as (?&w'&Hrun&->); [done|done|lia| |by exists w'].
  intros w1 r1 j jn Hrb Hrd Hg Hms Hlen _.
  destruct (while_current_run body (frame_step step) w1 r1 example_cfg j 0 0 jn fuel a)
    as (w2&r2&p&q&jn'&Hloop&_&Hrd2&_); [done|pose proof example_size; lia|done| | | |].
  - rewrite rest_start. lia.
  - intros w2 jn2 p q fs f a2 Hrb2 Hcu2 Hp Hq Hin. eapply Hbody; [done..|]. intros Hend.
    rewrite <-Hms. apply list_elem_of_fmap_2. by apply list_elem_of_filter.
  - intros f. by rewrite rest_start.
  - exists b, w2, r2, p, q, jn'. split_and!; [|done|done].
    erewrite bind_Ret by exact Hloop. rewrite rest_start, fold_frames.
    change (content <$> filter _ (aj_frames j)) with (content <$> aj_data j). by rewrite Hms, Hk.
Qed.
End driver.

(** ** Objects as bytes *)

Lemma slice_skip {A} off n (l bs : list A) :
  Z.of_nat (length l) ≤ off → slice off n (l ++ bs) = slice (off - Z.of_nat (length l)) n bs.
Proof.
  intros Hl. unfold slice. rewrite drop_app_ge by lia. do 2 f_equal. lia.
Qed.
Lemma slice_here {A} n (l bs : list A) : n = Z.of_nat (length l) → slice 0 n (l ++ bs) = l.
Proof. intros ->. unfold slice. rewrite Nat2Z.id. by apply take_app_length. Qed.
Lemma slice_last {A} n (l : list A) : n = Z.of_nat (length l) → slice 0 n l = l.
Proof. rewrite <-(app_nil_r l) at 2. apply slice_here. Qed.

(** The value of a member whose place in the object is known. *)
Lemma le_val_double x : valid_binary 53 1024 x = true → x ≠ S754_nan →
  bits_double (le_val (le_bytes 8 (double_bits x))) = x.
Proof.
  intros Hv Hn. rewrite le_val_le_bytes by lia. rewrite wrap_small by by apply double_bits_range.
  by apply bits_double_bits.
Qed.
Lemma le_val_u32 v : in_u 32 v → le_val (le_bytes 4 v) = v.
Proof. intros. rewrite le_val_le_bytes by lia. by apply wrap_small. Qed.

(** Finds a member of an object given as a concatenation. *)
Ltac find_member :=
  repeat (rewrite slice_skip by (rewrite ?length_le_bytes; lia));
  match goal with
  | |- context [slice ?off _ _] => replace off with 0 by (rewrite ?length_le_bytes; lia)
  end;
  first [rewrite slice_here by (rewrite ?length_le_bytes; lia)
        |rewrite slice_last by (rewrite ?length_le_bytes; lia)].
