(* ===== verification/Examples.v ===== *)
(** * Examples: the single-process programs of src/examples

    [basic_write_read.cpp], [static_dispatch.cpp] and [typed_dispatch.cpp]
    write messages, read them back with the three interfaces a reader has, and
    check what they got.  Each [main] is translated whole, on a locator whose
    directory is new ([TempDir]); its result is the exit status and the numbers
    it prints.  The theorem says that the checks hold. *)

From Stdlib Require Import SpecFloat.
From S2P Require Import Prelude Memory Frame Strings Time Doubles Base Mmap Page.
From S2P Require Import Warmer Writer WriterState WriterSpec WriterApi Journal Reader JournalSpec ReaderSpec.
From S2P Require Import Extend Resume EndToEnd Isolation ReadAhead Live Typed Dispatcher Client.

(** A fold over encoded items. *)
Lemma foldl_encode {A X} (step : A → message → A) (item_step : A → X → A) (encode : X → message) xs a :
  Forall (λ x, ∀ a, step a (encode x) = item_step a x) xs →
  foldl step a (encode <$> xs) = foldl item_step a xs.
Proof. intros Hxs. revert a. induction Hxs as [|x xs Hx _ IH]; intros a; [done|]. cbn. by rewrite Hx, IH. Qed.

(** Padding bytes between a 4-byte and an 8-byte member: any bytes. *)
Definition four_bytes (padding : Z → list Z) : Prop :=
  ∀ ts, length (padding ts) = 4%nat ∧ Forall (in_u 8) (padding ts).

(** ** basic_write_read.cpp *)

Module basic_write_read.
Record Trade := MkTrade { timestamp : Z; symbol_id : Z; price : double; quantity : Z }.

(** The object in memory: the [double] is aligned to 8 bytes. *)
Definition Trade_bytes (padding : list Z) (t : Trade) : list Z :=
  le_bytes 8 (timestamp t) ++ le_bytes 4 (symbol_id t) ++ padding ++
  le_bytes 8 (double_bits (price t)) ++ le_bytes 8 (quantity t).

Section main.
Context `{Env} `{ILocator} `{PriorityQueue} (padding : Z → list Z).

Definition publish_trade (ts : Z) (t : Trade) : W unit :=
  publish ts MsgType.Trade (Trade_bytes (padding ts) t).

Definition write_trades : W unit :=
  do! publish_trade 1 (MkTrade 1 101 (literal_of 401 4) 10) in
  do! publish_trade 2 (MkTrade 2 101 (literal_of 201 2) 20) in
  publish_trade 3 (MkTrade 3 101 (literal_of 403 4) 30).

(** The body of the read loop: [count] and [last_price]. *)
Definition look (s : Z * double) (current : FrameView) : M world (Z * double) :=
  if fv_msg_type current =? MsgType.Trade then
    let! p := data_double 16 (fv_frame current) in ret (s.1 + 1, p)
  else ret s.

(** [main]: the exit status and the numbers printed after "ok". *)
Definition main (fuel : nat) : M world (Z * list Z) :=
  try_catch
    (let! location := Location_make LIVE EXECUTION (lit "examples") (lit "basic-write-read") in
     do! with_writer location 0 write_trades in
     with_reader
       (do! join fuel location 0 0 in
        let! s := while_current fuel look (0, of_int 0) in
        do! throw_if (negb (s.1 =? 3) || negb (SFeqb s.2 (literal_of 403 4))) RuntimeError in
        ret (0, [s.1])))
    (λ _, ret (1, [])).
End main.

Section correct.
Context `{Env} `{!NoErrors} `{!EnvLaws} `{ILocator} `{!LocatorLaws} `{PriorityQueue}.
Context (Hclock : ∀ n, 0 ≤ env_clock n) (padding : Z → list Z) (Hpad : four_bytes padding).

Definition location : Location := Location_ctor LIVE EXECUTION (lit "examples") (lit "basic-write-read").
Definition trades : list Trade :=
  [MkTrade 1 101 (literal_of 401 4) 10; MkTrade 2 101 (literal_of 201 2) 20;
   MkTrade 3 101 (literal_of 403 4) 30].
Definition Trade_message (t : Trade) : message :=
  Message (timestamp t) MsgType.Trade (Trade_bytes (padding (timestamp t)) t).

Lemma length_basic_Trade t ts : length (Trade_bytes (padding ts) t) = 32%nat.
Proof.
  apply Nat2Z.inj. unfold Trade_bytes. destruct (Hpad ts) as [Hl _].
  rewrite !length_app, !Nat2Z.inj_add, !length_le_bytes by lia. rewrite Hl. done.
Qed.

Lemma basic_Trade_price t ts :
  valid_binary 53 1024 (price t) = true → price t ≠ S754_nan →
  bits_double (le_val (slice 16 8 (Trade_bytes (padding ts) t))) = price t.
Proof.
  intros Hv Hn. unfold Trade_bytes. destruct (Hpad ts) as [Hl _]. find_member.
  by apply le_val_double.
Qed.

Lemma Trade_emits t :
  0 ≤ timestamp t < 2 ^ 63 → emits (publish_trade padding (timestamp t) t) (Trade_message t) ∧
    message_ok (page_size_ (example_cfg location 0)) (Trade_message t).
Proof.
  intros Ht. split.
  - apply publish_emits. intros Hnil. pose proof (length_basic_Trade t (timestamp t)) as Hl.
    by rewrite Hnil in Hl.
  - apply small_message_ok; cbn; [done|done|done| |rewrite length_basic_Trade; lia].
    unfold Trade_bytes. rewrite !Forall_app. split_and!; try (apply le_bytes_typed; lia). apply Hpad.
Qed.

Lemma write_trades_run s :
  written (example_cfg location 0) [] s →
  ∃ s', write_trades padding s = (Ret tt, s') ∧
    written (example_cfg location 0) (Trade_message <$> trades) s'.
Proof.
  intros Hw. unfold write_trades.
  eapply emit_then; [done|exact Hw|apply (Trade_emits (MkTrade 1 _ _ _)); done..|done|clear s Hw; intros s Hw].
  eapply emit_then; [done|exact Hw|apply (Trade_emits (MkTrade 2 _ _ _)); done..|done|clear s Hw; intros s Hw].
  destruct (Trade_emits (MkTrade 3 101 (literal_of 403 4) 30)) as [He Hok]; [done|].
  exact (emit_written _ _ _ _ _ Hclock Hw He Hok eq_refl).
Qed.

(** What the loop's body makes of a message. *)
Definition look_step (s : Z * double) (m : message) : Z * double :=
  if ms_type m =? MsgType.Trade then (s.1 + 1, bits_double (le_val (slice 16 8 (ms_data m)))) else s.

Lemma look_run w jn j p k fs f a :
  readable w (example_cfg location 0) j → cursor w jn (example_cfg location 0) j p k →
  aj_pages j !! p = Some fs → fs !! k = Some f →
  (is_PageEnd f = false → content f ∈ Trade_message <$> trades) →
  look a (MkView (jn_frame jn) (frame_length f) (fr_type f)) w = (Ret (frame_step look_step a f), w).
Proof.
  intros Hrb Hcu Hp Hk Hin. unfold look, frame_step, look_step, is_PageEnd in *. cbn [fv_msg_type fv_frame].
  destruct (Z.eqb_spec (fr_type f) MsgType.PageEnd) as [->|Hne]; [done|].
  specialize (Hin eq_refl). apply list_elem_of_fmap in Hin as (t&Hc&_). cbn [ms_type content].
  destruct (fr_type f =? MsgType.Trade); [|done]. unfold data_double.
  rewrite !bind_assoc. erewrite bind_Ret; [reflexivity|].
  eapply data_member_run; [done..|lia|].
  apply (f_equal (λ m, length (ms_data m))) in Hc. cbn in Hc. rewrite Hc, length_basic_Trade. lia.
Qed.

Lemma look_fold : foldl look_step (0, of_int 0) (Trade_message <$> trades) = (3, literal_of 403 4).
Proof.
  rewrite (foldl_encode look_step (λ s t, (s.1 + 1, price t))); [done|].
  repeat apply Forall_cons_2; [..|apply Forall_nil_2]; intros a; unfold look_step;
    cbn [Trade_message ms_type ms_data timestamp]; rewrite basic_Trade_price; done.
Qed.

Lemma basic_main_run w fuel :
  empty_destination w location 0 → (6 < fuel)%nat →
  ∃ w', main padding fuel w = (Ret (0, [3]), w').
Proof.
  intros Hempty Hfuel.
  destruct (with_writer_run location 0 w (write_trades padding) tt (Trade_message <$> trades) Hempty write_trades_run)
    as (w1&Hwr&Hst).
  destruct (reader_fold location 0 w1 look look_step (0, of_int 0) (Trade_message <$> trades) fuel (Z * list Z)
    (λ s, do! throw_if (negb (s.1 =? 3) || negb (SFeqb s.2 (literal_of 403 4))) RuntimeError in ret (0, [s.1]))
    (0, [3])) as (w2&Hrd); [lia|done|done|intros; by eapply look_run|intros s; by rewrite look_fold|].
  exists w2. unfold main. apply try_catch_Ret. erewrite bind_Ret by done. fold location.
  by erewrite bind_Ret by exact Hwr.
Qed.
End correct.
End basic_write_read.

(** ** static_dispatch.cpp *)

(** [static_cast<uint64_t>] of a [double]; out of range it is undefined. *)
Definition to_uint64 (x : double) : outcome Z :=
  match Doubles.truncate x with
  | Some z => if bool_decide (0 ≤ z < 2 ^ 64) then Ret z else Fault UndefinedBehaviour
  | None => Fault UndefinedBehaviour
  end.

(** The payloads of the dispatch examples. *)
Record Trade := MkTrade { timestamp : Z; symbol_id : Z; price : double }.
Record Bbo := MkBbo { bbo_timestamp : Z; bid_size : Z; ask_size : Z }.

Definition Trade_bytes (padding : list Z) (t : Trade) : list Z :=
  le_bytes 8 (timestamp t) ++ le_bytes 4 (symbol_id t) ++ padding ++ le_bytes 8 (double_bits (price t)).
Definition Bbo_bytes (b : Bbo) : list Z :=
  le_bytes 8 (bbo_timestamp b) ++ le_bytes 4 (bid_size b) ++ le_bytes 4 (ask_size b).

Lemma length_Bbo_bytes b : length (Bbo_bytes b) = 16%nat.
Proof.
  apply Nat2Z.inj. unfold Bbo_bytes. by rewrite !length_app, !Nat2Z.inj_add, !length_le_bytes by lia.
Qed.
Lemma Bbo_bytes_typed b : Forall (in_u 8) (Bbo_bytes b).
Proof. unfold Bbo_bytes. rewrite !Forall_app. split_and!; apply le_bytes_typed; lia. Qed.
Lemma Bbo_bid b : in_u 32 (bid_size b) → le_val (slice 8 4 (Bbo_bytes b)) = bid_size b.
Proof. intros Hs. unfold Bbo_bytes. find_member. by apply le_val_u32. Qed.
Lemma Bbo_ask b : in_u 32 (ask_size b) → le_val (slice 12 4 (Bbo_bytes b)) = ask_size b.
Proof. intros Hs. unfold Bbo_bytes. find_member. by apply le_val_u32. Qed.

Section payloads.
Context (padding : list Z) (Hlen : length padding = 4%nat) (Hbytes : Forall (in_u 8) padding).

Lemma length_Trade_bytes t : length (Trade_bytes padding t) = 24%nat.
Proof.
  apply Nat2Z.inj. unfold Trade_bytes. rewrite !length_app, !Nat2Z.inj_add, !length_le_bytes by lia.
  by rewrite Hlen.
Qed.
Lemma Trade_bytes_typed t : Forall (in_u 8) (Trade_bytes padding t).
Proof.
  unfold Trade_bytes. rewrite !Forall_app. split_and!; try (apply le_bytes_typed; lia). exact Hbytes.
Qed.

Lemma Trade_symbol t : in_u 32 (symbol_id t) → le_val (slice 8 4 (Trade_bytes padding t)) = symbol_id t.
Proof. intros Hs. unfold Trade_bytes. find_member. by apply le_val_u32. Qed.
Lemma Trade_price t :
  valid_binary 53 1024 (price t) = true → price t ≠ S754_nan →
  bits_double (le_val (slice 16 8 (Trade_bytes padding t))) = price t.
Proof. intros. unfold Trade_bytes. find_member. by apply le_val_double. Qed.
End payloads.

Module static_dispatch.
Definition messages : Z := 1000.

Section main.
Context `{Env} `{ILocator} `{PriorityQueue} (padding : Z → list Z).

(** Round [i] of the writing loop. *)
Definition write_message (i : Z) : W unit :=
  let ts := i + 1 in
  if Z.rem i 3 =? 0 then
    publish ts MsgType.Trade
      (Trade_bytes (padding ts) (MkTrade ts 101 (f64_add (literal_of 100 1) (of_int i))))
  else if Z.rem i 3 =? 1 then
    publish ts MsgType.BBO (Bbo_bytes (MkBbo ts (u32 i) (u32 (i + 1))))
  else mark ts MsgType.BookReset.

(** The lambda [dispatcher]: [handled] and [checksum]. *)
Definition dispatcher (s : Z * Z) (current : FrameView) : M world (Z * Z) :=
  let '(handled, checksum) := s in
  let t := fv_msg_type current in
  if t =? MsgType.Trade then
    let! symbol := data_member 4 8 (fv_frame current) in
    let! p := data_double 16 (fv_frame current) in
    let! whole := (λ w, (to_uint64 p, w)) in
    ret (handled + 1, Z.lxor checksum (u64 (symbol + whole)))
  else if t =? MsgType.BBO then
    let! bid := data_member 4 8 (fv_frame current) in
    let! ask := data_member 4 12 (fv_frame current) in
    ret (handled + 1, Z.lxor checksum (u32 (bid + ask)))
  else if t =? MsgType.BookReset then ret (handled + 1, checksum)
  else if t =? MsgType.PageEnd then ret (handled, checksum)
  else throw RuntimeError.

Definition main (fuel : nat) : M world (Z * list Z) :=
  try_catch
    (let! location := Location_make LIVE EXECUTION (lit "examples") (lit "static-dispatch") in
     do! with_writer location 0 (for_each write_message (seqZ 0 messages)) in
     with_reader
       (do! join fuel location 0 0 in
        let! s := while_next fuel dispatcher (0, 0) in
        do! throw_if (negb (s.1 =? messages)) RuntimeError in
        ret (0, [s.1; s.2])))
    (λ _, ret (1, [])).
End main.

Section correct.
Context `{Env} `{!NoErrors} `{!EnvLaws} `{ILocator} `{!LocatorLaws} `{PriorityQueue}.
Context (Hclock : ∀ n, 0 ≤ env_clock n) (padding : Z → list Z) (Hpad : four_bytes padding).

Definition location : Location := Location_ctor LIVE EXECUTION (lit "examples") (lit "static-dispatch").
Definition price_of (i : Z) : double := f64_add (literal_of 100 1) (of_int i).
Definition message_of (i : Z) : message :=
  let ts := i + 1 in
  if Z.rem i 3 =? 0 then
    Message ts MsgType.Trade (Trade_bytes (padding ts) (MkTrade ts 101 (price_of i)))
  else if Z.rem i 3 =? 1 then Message ts MsgType.BBO (Bbo_bytes (MkBbo ts (u32 i) (u32 (i + 1))))
  else Message ts MsgType.BookReset [].

Lemma message_emits i :
  0 ≤ i < messages →
  emits (write_message padding i) (message_of i) ∧
  message_ok (page_size_ (example_cfg location 0)) (message_of i).
Proof.
  intros Hi. unfold messages in Hi. unfold write_message, message_of. destruct (Hpad (i + 1)) as [Hl Hb].
  split; (case_match; [|case_match]).
  - apply publish_emits. intros Hnil%(f_equal length). by rewrite (length_Trade_bytes _ Hl) in Hnil.
  - apply publish_emits. intros Hnil%(f_equal length). by rewrite length_Bbo_bytes in Hnil.
  - apply mark_emits.
  - apply small_message_ok; cbn; [done|done|lia|by apply Trade_bytes_typed|rewrite (length_Trade_bytes _ Hl); lia].
  - apply small_message_ok; cbn; [done|done|lia|by apply Bbo_bytes_typed|rewrite length_Bbo_bytes; lia].
  - apply small_message_ok; cbn; [done|done|lia|by constructor|lia].
Qed.

(** The lambda on messages and on rounds of the writer. *)
Definition dispatch_step (s : Z * Z) (m : message) : Z * Z :=
  let t := ms_type m in
  let member n off := le_val (slice off n (ms_data m)) in
  if t =? MsgType.Trade then
    (s.1 + 1, Z.lxor s.2 (u64 (member 4 8 +
      match to_uint64 (bits_double (member 8 16)) with Ret z => z | _ => 0 end)))
  else if t =? MsgType.BBO then (s.1 + 1, Z.lxor s.2 (u32 (member 4 8 + member 4 12)))
  else (s.1 + 1, s.2).
Definition item_step (s : Z * Z) (i : Z) : Z * Z :=
  (s.1 + 1,
   if Z.rem i 3 =? 0 then
     Z.lxor s.2 (u64 (101 + match to_uint64 (price_of i) with Ret z => z | _ => 0 end))
   else if Z.rem i 3 =? 1 then Z.lxor s.2 (u32 (u32 i + u32 (i + 1)))
   else s.2).

(** Every price is a number the cast is defined for. *)
Definition price_ok (i : Z) : bool :=
  valid_binary 53 1024 (price_of i) &&
  match price_of i with S754_nan => false | _ => true end &&
  match to_uint64 (price_of i) with Ret _ => true | _ => false end.
Lemma prices_ok i : 0 ≤ i < messages → price_ok i = true.
Proof.
  intros Hi. assert (forallb price_ok (seqZ 0 messages) = true) as Hall by (vm_compute; done).
  rewrite forallb_forall in Hall. apply Hall, list_elem_of_In, elem_of_seqZ. lia.
Qed.

Lemma item_correct i s : 0 ≤ i < messages → dispatch_step s (message_of i) = item_step s i.
Proof.
  intros Hi. pose proof (prices_ok i Hi) as [[Hv Hn]%andb_true_iff _]%andb_true_iff.
  unfold messages in Hi. destruct (Hpad (i + 1)) as [Hl _]. unfold dispatch_step, item_step, message_of.
  assert (in_u 32 i ∧ in_u 32 (i + 1)) as [Hi1 Hi2] by (unfold in_u; lia).
  rewrite !wrap_small in * by done.
  destruct (Z.rem i 3 =? 0); [|destruct (Z.rem i 3 =? 1)]; cbn [ms_type ms_data]; [| |done].
  - cbn [MsgType.Trade Z.eqb Pos.eqb]. rewrite (Trade_symbol _ Hl), (Trade_price _ Hl); [done|exact Hv| |done].
    cbn [price]. by destruct (price_of i).
  - cbn [MsgType.Trade MsgType.BBO Z.eqb Pos.eqb]. by rewrite Bbo_bid, Bbo_ask.
Qed.

Lemma dispatcher_step w jn j p k fs f a :
  readable w (example_cfg location 0) j → cursor w jn (example_cfg location 0) j p k →
  aj_pages j !! p = Some fs → fs !! k = Some f →
  (is_PageEnd f = false → content f ∈ message_of <$> seqZ 0 messages) →
  dispatcher a (MkView (jn_frame jn) (frame_length f) (fr_type f)) w = (Ret (frame_step dispatch_step a f), w).
Proof.
  intros Hrb Hcu Hp Hk Hin. unfold dispatcher, frame_step, is_PageEnd in *. destruct a as [h s].
  cbn [fv_msg_type fv_frame].
  destruct (Z.eqb_spec (fr_type f) MsgType.PageEnd) as [->|Hne]; [done|].
  specialize (Hin eq_refl). apply list_elem_of_fmap in Hin as (i&Hc&Hi%elem_of_seqZ).
  assert (∀ n off, 0 < n → 0 ≤ off → off + n ≤ Z.of_nat (length (ms_data (message_of i))) →
    data_member n off (jn_frame jn) w = (Ret (le_val (slice off n (fr_payload f))), w)) as Hmember.
  { intros n off Hn Ho Hl. eapply data_member_run; [done..|]. by rewrite <-Hc in Hl. }
  pose proof (prices_ok i ltac:(lia)) as [_ Hto]%andb_true_iff.
  pose proof (prices_ok i ltac:(lia)) as [[Hv Hn]%andb_true_iff _]%andb_true_iff.
  destruct (Hpad (i + 1)) as [Hl _].
  unfold dispatch_step. cbn [content ms_type ms_data fst snd].
  unfold message_of in Hc, Hmember. unfold content in Hc.
  destruct (Z.rem i 3 =? 0); [|destruct (Z.rem i 3 =? 1)]; injection Hc as _ Hty Hpl;
    rewrite Hty, Hpl in *; cbn [ms_data] in Hmember; cbn [MsgType.Trade MsgType.BBO MsgType.BookReset Z.eqb Pos.eqb]; [| |done].
  - rewrite (length_Trade_bytes _ Hl) in Hmember. unfold data_double.
    erewrite bind_Ret by (apply Hmember; lia). rewrite !bind_assoc.
    erewrite bind_Ret by (apply Hmember; lia). rewrite bind_ret_l. unfold bind, ret.
    rewrite (Trade_price _ Hl); [|exact Hv|cbn [price]; by destruct (price_of i)]. cbn [price].
    by destruct (to_uint64 (price_of i)).
  - rewrite length_Bbo_bytes in Hmember. by erewrite !bind_Ret by (apply Hmember; lia).
Qed.

Lemma dispatch_fold : foldl dispatch_step (0, 0) (message_of <$> seqZ 0 messages) = (1000, 1438).
Proof.
  rewrite (foldl_encode dispatch_step item_step); [vm_compute; done|].
  apply Forall_forall. intros i Hi%elem_of_seqZ a. apply item_correct. lia.
Qed.

Lemma static_main_run w fuel :
  empty_destination w location 0 → (2000 < fuel)%nat →
  ∃ w', main padding fuel w = (Ret (0, [1000; 1438]), w').
Proof.
  intros Hempty Hfuel.
  destruct (with_writer_run location 0 w (for_each (write_message padding) (seqZ 0 messages)) tt
    (message_of <$> seqZ 0 messages) Hempty) as (w1&Hwr&Hst).
  { intros s Hs. eapply (for_each_written _ _ message_of (seqZ 0 messages) []); [done| |done|done].
    apply Forall_forall. intros i Hi%elem_of_seqZ. apply message_emits. lia. }
  destruct (reader_fold location 0 w1 dispatcher dispatch_step (0, 0) (message_of <$> seqZ 0 messages) fuel
    (Z * list Z) (λ s, do! throw_if (negb (s.1 =? messages)) RuntimeError in ret (0, [s.1; s.2]))
    (0, [1000; 1438])) as (w2&Hrd);
    [lia|done|by rewrite length_fmap, length_seqZ|intros; by eapply dispatcher_step
    |intros s; by rewrite dispatch_fold|].
  exists w2. unfold main. apply try_catch_Ret. erewrite bind_Ret by done. fold location.
  erewrite bind_Ret by exact Hwr. rewrite <-Hrd. unfold with_reader, scoped, bind.
  destruct (join _ _ _ _ _) as [[u|e|g] s]; [|done..]. by rewrite while_next_current.
Qed.
End correct.
End static_dispatch.

(** ** typed_dispatch.cpp *)

Module typed_dispatch.
(** The variables the handlers write to. *)
Record counts := Counts {
  trades : Z; bbo : Z; resets : Z; last_trade : double; bbo_size : Z
}.
Definition no_counts : counts := Counts 0 0 0 (of_int 0) 0.

(** [T::kMsgType], [sizeof(T)], [is_empty_v<T>] of the three payloads. *)
Definition Trade_type : payload_type := PayloadType MsgType.Trade 24 false.
Definition Bbo_type : payload_type := PayloadType MsgType.BBO 16 false.
Definition BookReset_type : payload_type := PayloadType MsgType.BookReset 1 true.

Section main.
Context `{Env} `{ILocator} `{PriorityQueue} (padding : Z → list Z).

Definition publish_Trade (t : Trade) : W unit :=
  publish (timestamp t) (kMsgType Trade_type) (Trade_bytes (padding (timestamp t)) t).
Definition publish_Bbo (b : Bbo) : W unit :=
  publish (bbo_timestamp b) (kMsgType Bbo_type) (Bbo_bytes b).

Definition write_messages : W unit :=
  do! publish_Trade (MkTrade 1 101 (literal_of 401 4)) in
  do! publish_Bbo (MkBbo 2 500 700) in
  do! mark 3 (kMsgType BookReset_type) in
  publish_Trade (MkTrade 4 101 (literal_of 201 2)).

(** The three lambdas; [data] are the bytes of the object they are given. *)
Definition on_Trade (data : list Z) : M (world * counts) unit :=
  modify (λ s, (s.1, Counts (trades s.2 + 1) (bbo s.2) (resets s.2)
    (bits_double (le_val (slice 16 8 data))) (bbo_size s.2))).
Definition on_Bbo (data : list Z) : M (world * counts) unit :=
  modify (λ s, (s.1, Counts (trades s.2) (bbo s.2 + 1) (resets s.2) (last_trade s.2)
    (u32 (le_val (slice 8 4 data) + le_val (slice 12 4 data))))).
Definition on_BookReset (data : list Z) (frame : ptr) : M (world * counts) unit :=
  do! modify (λ s, (s.1, Counts (trades s.2) (bbo s.2) (resets s.2 + 1) (last_trade s.2) (bbo_size s.2))) in
  let! n := lift_fst (getDataLength frame) in
  throw_if (negb (n =? 0)) RuntimeError.

Definition dispatcher : TypedJournalDispatcher counts :=
  on BookReset_type (WithFrame on_BookReset)
    (on Bbo_type (WithoutFrame on_Bbo)
      (on Trade_type (WithoutFrame on_Trade) TypedJournalDispatcher_ctor)).

(** [dispatcher.run()] on the reader and the local variables. *)
Definition run_dispatcher (fuel : nat) : R (Z * counts) := λ '(w, r),
  let '(x, (w, (r, a))) := dispatcher_run fuel dispatcher (2 ^ 64 - 1) (w, (r, no_counts)) in
  (match x with Ret n => Ret (n, a) | Throw e => Throw e | Fault f => Fault f end, (w, r)).

Definition main (fuel : nat) : M world (Z * list Z) :=
  try_catch
    (let! location := Location_make LIVE EXECUTION (lit "examples") (lit "typed-dispatch") in
     do! with_writer location 0 write_messages in
     with_reader
       (do! join fuel location 0 0 in
        let! s := run_dispatcher fuel in
        let a := s.2 in
        do! throw_if (negb (s.1 =? 4) || negb (trades a =? 2) || negb (bbo a =? 1) ||
                      negb (resets a =? 1) || negb (SFeqb (last_trade a) (literal_of 201 2)) ||
                      negb (bbo_size a =? 1200)) RuntimeError in
        ret (0, [trades a; bbo a; resets a])))
    (λ _, ret (1, [])).
End main.

Section correct.
Context `{Env} `{!NoErrors} `{!EnvLaws} `{ILocator} `{!LocatorLaws} `{PriorityQueue}.
Context (Hclock : ∀ n, 0 ≤ env_clock n) (padding : Z → list Z) (Hpad : four_bytes padding).

Definition location : Location := Location_ctor LIVE EXECUTION (lit "examples") (lit "typed-dispatch").

(** What the program writes, message by message. *)
Inductive item := ITrade (t : Trade) | IBbo (b : Bbo) | IReset (ts : Z).
Definition message_of (x : item) : message :=
  match x with
  | ITrade t => Message (timestamp t) MsgType.Trade (Trade_bytes (padding (timestamp t)) t)
  | IBbo b => Message (bbo_timestamp b) MsgType.BBO (Bbo_bytes b)
  | IReset ts => Message ts MsgType.BookReset []
  end.
Definition items : list item :=
  [ITrade (MkTrade 1 101 (literal_of 401 4)); IBbo (MkBbo 2 500 700); IReset 3;
   ITrade (MkTrade 4 101 (literal_of 201 2))].

Lemma message_of_ok x : x ∈ items → message_ok (page_size_ (example_cfg location 0)) (message_of x) ∧
  (length (ms_data (message_of x)) ≤ 64)%nat.
Proof.
  intros Hx. assert (length (ms_data (message_of x)) ≤ 64)%nat as Hl.
  { destruct x; cbn [message_of ms_data]; [rewrite (length_Trade_bytes _ (proj1 (Hpad _)))|rewrite length_Bbo_bytes|simpl]; lia. }
  assert (Forall (λ x, 0 ≤ ms_time (message_of x) < 2 ^ 63) items) as Ht by (repeat constructor; simpl; lia).
  rewrite Forall_forall in Ht. specialize (Ht x Hx).
  split; [|done]. apply small_message_ok; [by destruct x|by destruct x|done| |lia].
  destruct x; cbn [message_of ms_data]; [apply Trade_bytes_typed; apply Hpad|apply Bbo_bytes_typed|by constructor].
Qed.

Lemma write_messages_run s :
  written (example_cfg location 0) [] s →
  ∃ s', write_messages padding s = (Ret tt, s') ∧
    written (example_cfg location 0) (message_of <$> items) s'.
Proof.
  intros Hw. unfold write_messages.
  assert (∀ x, x ∈ items → message_ok (page_size_ (example_cfg location 0)) (message_of x)) as Hok
    by (intros x Hx; by apply message_of_ok).
  assert (∀ t, emits (publish_Trade padding t) (message_of (ITrade t))) as HTrade.
  { intros t. unfold publish_Trade. cbn [kMsgType Trade_type message_of]. apply publish_emits. intros Hnil%(f_equal length).
    by rewrite (length_Trade_bytes _ (proj1 (Hpad _))) in Hnil. }
  assert (∀ b, emits (publish_Bbo b) (message_of (IBbo b))) as HBbo.
  { intros b. unfold publish_Bbo. cbn [kMsgType Bbo_type message_of]. apply publish_emits. intros Hnil%(f_equal length). by rewrite length_Bbo_bytes in Hnil. }
  set (t1 := MkTrade 1 101 (literal_of 401 4)). set (t4 := MkTrade 4 101 (literal_of 201 2)).
  set (b2 := MkBbo 2 500 700).
  eapply (emit_then _ _ (message_of (ITrade t1)));
    [done|exact Hw|apply HTrade|apply Hok; by left|done|clear s Hw; intros s Hw].
  eapply (emit_then _ _ (message_of (IBbo b2)));
    [done|exact Hw|apply HBbo|apply Hok; right; by left|done|clear s Hw; intros s Hw].
  eapply (emit_then _ _ (message_of (IReset 3)));
    [done|exact Hw|apply mark_emits|apply Hok; do 2 right; by left|done|clear s Hw; intros s Hw].
  refine (emit_written _ _ (message_of (ITrade t4)) _ _ Hclock Hw (HTrade _) (Hok _ _) _); [|done].
  do 3 right. by left.
Qed.

(** The routing the registrations amount to. *)
Definition route_on (T : payload_type) (f : list Z → counts → outcome unit * counts) (rg : routing counts)
    : routing counts :=
  Routing (<[kMsgType T := Route T f]> (rg_typed rg)) (rg_unknown rg).
Definition routes : routing counts :=
  route_on BookReset_type (λ data a,
      (if Z.of_nat (length data) =? 0 then Ret tt else Throw RuntimeError,
       Counts (trades a) (bbo a) (resets a + 1) (last_trade a) (bbo_size a)))
    (route_on Bbo_type (λ data a,
        (Ret tt, Counts (trades a) (bbo a + 1) (resets a) (last_trade a)
          (u32 (le_val (slice 8 4 data) + le_val (slice 12 4 data)))))
      (route_on Trade_type (λ data a,
          (Ret tt, Counts (trades a + 1) (bbo a) (resets a)
            (bits_double (le_val (slice 16 8 data))) (bbo_size a)))
        (Routing ∅ None))).

Lemma dispatcher_implements : implements dispatcher routes.
Proof.
  unfold dispatcher, routes. apply on_implements; [apply on_implements; [apply on_implements|]|].
  - apply ctor_implements.
  - by intros ? **.
  - by intros ? **.
  - intros w b pa n wr off fr a Hm (Hlen&_) Hwf Hlo Hhi _. pose proof (frame_wf_stride _ Hwf) as (Hl&Hs&_).
    assert (getDataLength (Ptr b off) w = (Ret (Z.of_nat (length (fr_payload fr))), w)) as Hdl.
    { unfold getDataLength, getFrameLength. unfold_offsets. rewrite ?Z.add_0_r in Hlen. mstep. rewrite Hlen.
      unfold getDataLength_of, frame_length, sizeof_FrameHeader in *. rewrite (proj2 (Z.ltb_ge _ _)) by lia.
      unfold ret. do 2 f_equal. lia. }
    unfold invokeTypedHandler, on_BookReset, modify, ends. unfold bind at 1.
    erewrite bind_Ret; [|apply lift_fst_run; exact Hdl].
    unfold throw_if. cbn [fst snd]. by destruct (_ =? 0).
Qed.

(** One item routed. *)
Definition apply_item (a : counts) (x : item) : counts :=
  match x with
  | ITrade t => Counts (trades a + 1) (bbo a) (resets a) (price t) (bbo_size a)
  | IBbo b => Counts (trades a) (bbo a + 1) (resets a) (last_trade a) (u32 (bid_size b + ask_size b))
  | IReset _ => Counts (trades a) (bbo a) (resets a + 1) (last_trade a) (bbo_size a)
  end.
Definition item_ok (x : item) : bool :=
  match x with
  | ITrade t => valid_binary 53 1024 (price t) && match price t with S754_nan => false | _ => true end
  | IBbo b => bool_decide (in_u 32 (bid_size b)) && bool_decide (in_u 32 (ask_size b))
  | IReset _ => true
  end.

Lemma route_item f x a :
  content f = message_of x → item_ok x = true → route_frame routes f a = (Ret tt, apply_item a x).
Proof.
  intros Hc Hok. destruct x as [t|b|ts]; cbn [message_of item_ok apply_item] in *; unfold content in Hc;
    injection Hc as _ Hty Hpl; unfold route_frame; rewrite Hty.
  - change (rg_typed routes !! MsgType.Trade) with (Some (Route Trade_type (λ data a,
      (Ret tt, Counts (trades a + 1) (bbo a) (resets a) (bits_double (le_val (slice 16 8 data))) (bbo_size a))))).
    cbn [rt_type rt_apply]. unfold payload_ok. rewrite Hpl, (length_Trade_bytes _ (proj1 (Hpad _))).
    apply andb_true_iff in Hok as [Hv Hn].
    rewrite (Trade_price _ (proj1 (Hpad _))); [done|done|by destruct (price t)].
  - change (rg_typed routes !! MsgType.BBO) with (Some (Route Bbo_type (λ data a,
      (Ret tt, Counts (trades a) (bbo a + 1) (resets a) (last_trade a)
         (u32 (le_val (slice 8 4 data) + le_val (slice 12 4 data))))))).
    cbn [rt_type rt_apply]. unfold payload_ok. rewrite Hpl, length_Bbo_bytes.
    apply andb_true_iff in Hok as [Hb%bool_decide_eq_true Ha%bool_decide_eq_true].
    by rewrite Bbo_bid, Bbo_ask.
  - change (rg_typed routes !! MsgType.BookReset) with (Some (Route BookReset_type (λ data a,
      (if Z.of_nat (length data) =? 0 then Ret tt else Throw RuntimeError,
       Counts (trades a) (bbo a) (resets a + 1) (last_trade a) (bbo_size a))))).
    cbn [rt_type rt_apply]. by rewrite Hpl.
Qed.

Lemma run_items fs xs n a max :
  content <$> fs = message_of <$> xs → forallb item_ok xs = true → Z.of_nat (n + length xs) < max →
  run_spec routes max fs n a = ((n + length xs)%nat, foldl apply_item a xs, Ret tt).
Proof.
  revert xs n a; induction fs as [|f fs IH]; intros [|x xs] n a Hc Hok Hmax; try done; cbn [run_spec].
  - by rewrite Nat.add_0_r.
  - cbn [fmap list_fmap] in Hc. injection Hc as Hf Hc.
    cbn [forallb length] in *. apply andb_true_iff in Hok as [Hx Hok].
    rewrite (proj2 (Z.ltb_lt _ _)) by lia.
    rewrite (route_item f x) by done.
    rewrite (IH xs); [|done|done|lia]. by rewrite <-Nat.add_succ_comm.
Qed.

Lemma typed_main_run w fuel :
  empty_destination w location 0 → (8 < fuel)%nat →
  ∃ w', main padding fuel w = (Ret (0, [2; 1; 1]), w').
Proof.
  intros Hempty Hfuel.
  destruct (with_writer_run location 0 w (write_messages padding) tt (message_of <$> items) Hempty
    write_messages_run) as (w1&Hwr&Hst).
  set (after := Counts 2 1 1 (literal_of 201 2) 1200).
  destruct (with_reader_run location 0 w1 (let! s := run_dispatcher fuel in
      let a := s.2 in
      do! throw_if (negb (s.1 =? 4) || negb (trades a =? 2) || negb (bbo a =? 1) ||
                    negb (resets a =? 1) || negb (SFeqb (last_trade a) (literal_of 201 2)) ||
                    negb (bbo_size a =? 1200)) RuntimeError in
      ret (0, [trades a; bbo a; resets a])) (message_of <$> items) (λ x, x = (0, [2; 1; 1])) fuel)
    as (x&w2&Hrd&->); [lia|done|lia| |].
  - intros w2 r2 j jn Hrb Hrd Hg _ Hlen Hfew.
    assert (few (message_of <$> items)) as Hf.
    { split; [|done]. apply Forall_fmap, Forall_forall. intros x Hx. by apply message_of_ok. }
    pose proof (run_loop_correct fuel dispatcher routes (2 ^ 64 - 1) w2 r2 _ j 0 0 jn 0 no_counts
      dispatcher_implements Hrb ltac:(pose proof (example_size location 0); lia) Hrd) as Hrun.
    rewrite rest_start in Hrun. rewrite length_fmap in Hlen. specialize (Hrun ltac:(simpl in Hlen; lia)).
    rewrite (run_items (aj_frames j) items 0 no_counts) in Hrun; [|by apply Hfew|vm_compute; done|done].
    destruct Hrun as (w3&r3&p&k&jn'&Hrun&_&Hrd3&_). change (Z.of_nat 0) with 0 in Hrun.
    exists (0, [2; 1; 1]), w3, r3, p, k, jn'. split_and!; [|done|exact Hrd3].
    rewrite (bind_Ret _ _ _ (4, after) (w3, r3)); [done|].
    unfold run_dispatcher, dispatcher_run. by rewrite Hrun.
  - exists w2. unfold main. apply try_catch_Ret. erewrite bind_Ret by done. fold location.
    by erewrite bind_Ret by exact Hwr.
Qed.
End correct.
End typed_dispatch.

(** C13: The example programs succeed, whatever the padding bytes of their
    messages are: on a fresh directory, with enough fuel for their loops,
    every [main] returns 0 and prints what its verification expects.
    [basic_write_read] counts three trades; [static_dispatch] handles all 1000
    messages, with this checksum over prices and sizes that went through
    memory as bytes; [typed_dispatch] routes four frames, each to the handler
    of its type. *)
Theorem examples_succeed `{Env} `{!NoErrors} `{!EnvLaws} `{ILocator} `{!LocatorLaws} `{PriorityQueue}
    padding fuel w1 w2 w3 :
  (∀ n, 0 ≤ env_clock n) → four_bytes padding → (2000 < fuel)%nat →
  empty_destination w1 basic_write_read.location 0 → empty_destination w2 static_dispatch.location 0 →
  empty_destination w3 typed_dispatch.location 0 →
  (∃ w', basic_write_read.main padding fuel w1 = (Ret (0, [3]), w')) ∧
  (∃ w', static_dispatch.main padding fuel w2 = (Ret (0, [1000; 1438]), w')) ∧
  (∃ w', typed_dispatch.main padding fuel w3 = (Ret (0, [2; 1; 1]), w')).
Proof.
  intros Hclock Hpad Hfuel Hw1 Hw2 Hw3. split_and!.
  - apply basic_write_read.basic_main_run; [done..|lia].
  - by apply static_dispatch.static_main_run.
  - apply typed_dispatch.typed_main_run; [done..|lia].
Qed.
