(* ===== verification/Processes.v ===== *)
(** * Processes: multiprocess.cpp, a writer and a forked reader

    [main] makes a writer, forks, and the two processes share the page files
    and a pipe: the child joins as a reader, signals over the pipe and then
    polls until it has seen all messages, checking that every sequence number
    is the one before plus 1; the parent waits for the signal, publishes the
    messages and waits for the child's exit status.

    Each process is a program counter; one step is one call on something the
    processes share, so that the other process may run between [openData], the
    store and [closeData], and between the child's look at a frame, its check
    of the sequence number and its [advance].  The clock the child asks is
    not shared: an action says whether it finds itself late.  The pipe holds
    the byte of the signal or nothing.  [fork] copies the parent's objects; the
    child never touches its copy of the writer, and [_exit] runs no
    destructor. *)

From Stdlib Require Import SpecFloat.
From S2P Require Import Prelude Memory Frame Strings Time Doubles Base Mmap Page.
From S2P Require Import Warmer Writer WriterState WriterSpec WriterApi Journal Reader JournalSpec ReaderSpec.
From S2P Require Import Extend Resume EndToEnd Isolation ReaderIsolation ReadAhead Live Typed.
From S2P Require Import Client Examples.

Module multiprocess.

(** The command line: the number of messages, or the exit status 2 after the
    usage message.  [std::stoi] may throw. *)
Fixpoint parse_arguments (args : list str) (messages : Z) : outcome (Z + Z) :=
  match args with
  | [] => Ret (inl messages)
  | arg :: rest =>
      match rest with
      | value :: rest =>
          if bool_decide (arg = lit "--messages") then
            match stoi value with
            | Ret n => parse_arguments rest n
            | Throw e => Throw e
            | Fault f => Fault f
            end
          else Ret (inr 2)
      | [] => Ret (inr 2)
      end
  end.

Inductive parent_at :=
  | PReady                        (* in [readSignal] *)
  | POpen (i : Z)                 (* at the head of the loop *)
  | PFill (i : Z) (slot : ptr)    (* [slot = message;] *)
  | PClose (i : Z)
  | PWait                         (* in [waitpid] *)
  | PUnwind (status : Z)          (* on the way out of [main] *)
  | PExit (status : Z)
  | PCrash (f : fault).

Inductive child_at :=
  | CJoin
  | CSignal (reader : reader)
  | CPoll (reader : reader) (count prev : Z)
  | CSeen (reader : reader) (count prev : Z) (current : FrameView)
  | CAdvance (reader : reader) (count prev : Z) (current : FrameView)
  | CExit (status : Z)
  | CCrash (f : fault).

Record state := State {
  mp_world : world;
  mp_writer : writer;
  mp_parent : parent_at;
  mp_pipe : bool;                 (* the byte is in the pipe *)
  mp_child : child_at
}.

Inductive action := Parent | Child (late : bool).

#[export] Instance action_eq_dec : EqDecision action.
Proof. solve_decision. Defined.

Section program.
Context `{Env} `{ILocator} `{PriorityQueue} (padding : Z → list Z) (messages : Z) (location : Location).

(** Round [i] of the parent's loop: [Trade{ts, 101, 100.0 + i, 10}]. *)
Definition trade (i : Z) : basic_write_read.Trade :=
  basic_write_read.MkTrade (i + 1) 101 (f64_add (literal_of 100 1) (of_int i)) 10.
Definition trade_bytes (i : Z) : list Z :=
  basic_write_read.Trade_bytes (padding (i + 1)) (trade i).

(** The end of the pipe the child writes to is open. *)
Definition pipe_open (c : child_at) : bool :=
  match c with CJoin | CSignal _ => true | _ => false end.

(** A call of the parent's: where it goes on, or that an exception leads to
    the handler, which returns 1. *)
Definition parent_call {A} (m : W A) (next : A → parent_at) (s : state) : state :=
  let '(x, (w, r)) := m (mp_world s, mp_writer s) in
  State w r (match x with Ret a => next a | Throw _ => PUnwind 1 | Fault f => PCrash f end)
    (mp_pipe s) (mp_child s).

Definition set_parent (p : parent_at) (s : state) : state :=
  State (mp_world s) (mp_writer s) p (mp_pipe s) (mp_child s).

(** The writer's destructor on the way out: one that throws ends the process. *)
Definition parent_return (status : Z) (s : state) : state :=
  let '(x, (w, r)) := JournalWriter_release (mp_world s, mp_writer s) in
  State w r (match x with Ret _ => PExit status | Throw _ => PCrash AssertionFailed | Fault f => PCrash f end)
    (mp_pipe s) (mp_child s).

(** One step of the parent; [None] while it is blocked or gone. *)
Definition parent_step (s : state) : option state :=
  match mp_parent s with
  | PReady =>
      if mp_pipe s then Some (State (mp_world s) (mp_writer s) (POpen 0) false (mp_child s))
      else if pipe_open (mp_child s) then None
      else Some (set_parent (PUnwind 1) s)
  | POpen i =>
      if i <? messages then
        Some (parent_call (openData (Z.of_nat (length (trade_bytes i))) (i + 1) MsgType.Trade FRAME_NORMAL)
          (PFill i) s)
      else Some (set_parent PWait s)
  | PFill i slot => Some (parent_call (io (store_bytes slot (trade_bytes i))) (λ _, PClose i) s)
  | PClose i =>
      Some (parent_call (closeData (Z.of_nat (length (trade_bytes i))) no_hook) (λ _, POpen (i + 1)) s)
  | PWait =>
      match mp_child s with
      | CExit status => Some (set_parent (PUnwind (if status =? 0 then 0 else 1)) s)
      | CCrash _ => Some (set_parent (PUnwind 1) s)
      | _ => None
      end
  | PUnwind status => Some (parent_return status s)
  | PExit _ | PCrash _ => None
  end.

(** A call of the child's on its reader; an exception leads to the same
    handler, in the child.  What unwinding does to the child's copies of the
    parent's objects is left out: the theorems below show that no call of the
    child throws as long as no system call fails. *)
Definition child_call {A} (m : R A) (d : reader) (next : A → reader → child_at) (s : state) : state :=
  let '(x, (w, d)) := m (mp_world s, d) in
  State w (mp_writer s) (mp_parent s) (mp_pipe s)
    (match x with Ret a => next a d | Throw _ => CExit 1 | Fault f => CCrash f end).

Definition set_child (c : child_at) (s : state) : state :=
  State (mp_world s) (mp_writer s) (mp_parent s) (mp_pipe s) c.

Definition child_step (late : bool) (s : state) : option state :=
  match mp_child s with
  | CJoin =>
      Some (child_call (join 1 location 0 0) (JournalReader_ctor example_reader_options)
        (λ _ d, CSignal d) s)
  | CSignal d => Some (State (mp_world s) (mp_writer s) (mp_parent s) true (CPoll d 0 (-1)))
  | CPoll d count prev =>
      if count <? messages then
        if late then Some (set_child (CExit 11) s)
        else Some (child_call tryCurrentFrame d
          (λ current d, match current with None => CPoll d count prev | Some v => CSeen d count prev v end) s)
      else Some (set_child (CExit 0) s)
  | CSeen d count prev v =>
      Some (child_call (rio (getSequence (fv_frame v))) d
        (λ n d,
          let sequence := s64 n in
          if negb (sequence =? prev + 1) then CExit 12
          else CAdvance d (if fv_msg_type v =? MsgType.Trade then count + 1 else count) sequence v) s)
  | CAdvance d count prev v => Some (child_call (advance v) d (λ _ d, CPoll d count prev) s)
  | CExit _ | CCrash _ => None
  end.

Definition step (a : action) : state → option state :=
  match a with Parent => parent_step | Child late => child_step late end.

(** A schedule; [None] if it asks a process that is blocked. *)
Definition steps (acts : list action) (s : state) : option state :=
  foldl (λ s a, s ← s; step a s) (Some s) acts.

(** [main] up to [fork]. *)
Definition start : M world state :=
  let! writer := JournalWriter_ctor false location 0 example_writer_options in
  λ w, (Ret (State w writer PReady false CJoin), w).
End program.

(** [main] from its arguments to [fork]: the exit status, or the number of
    messages and the two processes. *)
Definition launch `{Env} `{ILocator} (args : list str) : M world (Z + Z * state) :=
  try_catch
    (let! parsed := (λ w, (parse_arguments args 1000, w)) in
     match parsed with
     | inr status => ret (inl status)
     | inl messages =>
         let! location := Location_make LIVE EXECUTION (lit "examples") (lit "multiprocess") in
         let! s := start location in
         ret (inr (messages, s))
     end)
    (λ _, ret (inl 1)).
Definition location : Location := Location_ctor LIVE EXECUTION (lit "examples") (lit "multiprocess").

(** ** The invariant *)

Section correct.
Context `{Env} `{!NoErrors} `{!EnvLaws} `{ILocator} `{!LocatorLaws} `{PriorityQueue}.
Context (Hclock : ∀ n, 0 ≤ env_clock n) (padding : Z → list Z) (Hpad : four_bytes padding).
Context (messages : Z) (Hmessages : messages < 2 ^ 27) (location : Location).

Let c : writer_config := example_cfg location 0.

Definition trade_message (i : Z) : message := Message (i + 1) MsgType.Trade (trade_bytes padding i).
Definition first_messages (i : Z) : list message := trade_message <$> seqZ 0 i.

Lemma length_trade_bytes i : length (trade_bytes padding i) = 32%nat.
Proof. apply basic_write_read.length_basic_Trade, Hpad. Qed.

Lemma trade_message_ok i :
  0 ≤ i < messages → message_ok (page_size_ c) (trade_message i).
Proof.
  intros Hi. apply small_message_ok; cbn [trade_message ms_type ms_time ms_data]; [done|done|lia| |].
  - unfold trade_bytes, basic_write_read.Trade_bytes. rewrite !Forall_app.
    split_and!; try (apply le_bytes_typed; lia). apply Hpad.
  - rewrite length_trade_bytes. lia.
Qed.

Lemma first_messages_succ i : 0 ≤ i → first_messages (i + 1) = first_messages i ++ [trade_message i].
Proof.
  intros Hi. unfold first_messages. rewrite seqZ_app by lia. rewrite fmap_app. f_equal.
Qed.

(** How many of the frames are messages. *)
Definition count_trades (fs : list frame) : Z :=
  Z.of_nat (length (filter (λ f, fr_type f = MsgType.Trade) fs)).

Lemma count_trades_snoc fs f :
  count_trades (fs ++ [f]) = if fr_type f =? MsgType.Trade then count_trades fs + 1 else count_trades fs.
Proof.
  unfold count_trades. rewrite filter_app, length_app.
  destruct (Z.eqb_spec (fr_type f) MsgType.Trade).
  - rewrite filter_cons_True by done. simpl. lia.
  - rewrite filter_cons_False by done. simpl. lia.
Qed.

(** The parent: what is sent, where it is in a frame, and how many calls it
    has made. *)
Definition parent_inv (p : parent_at) (ph : phase) (sent : list message) (n : nat) : Prop :=
  match p with
  | PReady => ph = Idle ∧ sent = [] ∧ (n ≤ 1)%nat
  | POpen i => 0 ≤ i ≤ Z.max 0 messages ∧ ph = Idle ∧ sent = first_messages i ∧ Z.of_nat n ≤ 3 * i + 1
  | PFill i slot =>
      0 ≤ i < messages ∧ ph = Opened (trade_message i) slot ∧ sent = first_messages i ∧ Z.of_nat n ≤ 3 * i + 2
  | PClose i =>
      0 ≤ i < messages ∧ ph = Filled (trade_message i) ∧ sent = first_messages i ∧ Z.of_nat n ≤ 3 * i + 3
  | PWait | PUnwind _ =>
      ph = Idle ∧ sent = first_messages (Z.max 0 messages) ∧ Z.of_nat n ≤ 3 * Z.max 0 messages + 1
  | PExit _ | PCrash _ => False
  end.

(** How many messages the parent has committed. *)
Definition published (p : parent_at) : Z :=
  match p with
  | PReady => 0
  | POpen i | PFill i _ | PClose i => i
  | _ => Z.max 0 messages
  end.

(** The child has been given the frames [got]. *)
Definition progress (got : list frame) (count prev : Z) : Prop :=
  count = count_trades got ∧ prev = Z.of_nat (length got) - 1.

(** The frame behind them is the one the child looks at. *)
Definition seen (d : reader) (got : list frame) (j : ajournal) (f : frame) (v : FrameView) : Prop :=
  ∃ jn, rd_journals d = [jn] ∧ aj_frames j !! length got = Some f ∧
    v = MkView (jn_frame jn) (frame_length f) (fr_type f).

Definition child_inv (ch : child_at) (readers : list (reader * list frame)) (j : ajournal) : Prop :=
  match ch with
  | CJoin => readers = []
  | CSignal d => readers = [(d, [])]
  | CPoll d count prev => ∃ got, readers = [(d, got)] ∧ progress got count prev
  | CSeen d count prev v =>
      ∃ got f, readers = [(d, got)] ∧ progress got count prev ∧ seen d got j f v
  | CAdvance d count prev v =>
      ∃ got f, readers = [(d, got)] ∧ progress (got ++ [f]) count prev ∧ seen d got j f v
  | CExit status =>
      ∃ d got, readers = [(d, got)] ∧ (status = 0 ∧ messages ≤ count_trades got ∨ status = 11)
  | CCrash _ => False
  end.

(** The pipe, and how the processes wait for each other. *)
Definition sync (p : parent_at) (pipe : bool) (ch : child_at) (n : nat) : Prop :=
  match p with
  | PReady => pipe = negb (pipe_open ch) ∧ (ch = CJoin → n = 0%nat)
  | PUnwind status | PExit status => status = 0 ∧ ch = CExit 0 ∨ status = 1 ∧ ch = CExit 11
  | _ => pipe_open ch = false
  end.

Definition Inv (s : state) : Prop :=
  match mp_parent s with
  | PExit _ => sync (mp_parent s) (mp_pipe s) (mp_child s) 0
  | _ =>
      ∃ n ph sent readers j,
        inv c n (Sys (mp_world s) (mp_writer s) ph sent readers) j ∧
        parent_inv (mp_parent s) ph sent n ∧ child_inv (mp_child s) readers j ∧
        sync (mp_parent s) (mp_pipe s) (mp_child s) n
  end.

(** The number of steps the invariant of [Live] allows is never reached. *)
Lemma parent_small p ph sent n : parent_inv p ph sent n → Z.of_nat n < 2 ^ 29.
Proof. destruct p; simpl; try done; lia. Qed.

(** A step that leaves the journal as it is costs nothing. *)
Lemma inv_same n n' s s' j : inv c n s j → inv c n' s' j → inv c n s' j.
Proof. intros [_ _ _ _ _ ? ? _ _] []. by split. Qed.

(** ** The parent's steps *)

(** What the child knows stays true while frames are added. *)
Lemma child_grows ch readers j j' :
  aj_frames j `prefix_of` aj_frames j' → child_inv ch readers j → child_inv ch readers j'.
Proof.
  intros [new Hnew]. destruct ch; simpl; try done.
  - intros (got&f&?&?&jn&?&Hf&?). exists got, f. split_and!; [done..|]. exists jn. split_and!; [done| |done].
    rewrite Hnew. by apply lookup_app_l_Some.
  - intros (got&f&?&?&jn&?&Hf&?). exists got, f. split_and!; [done..|]. exists jn. split_and!; [done| |done].
    rewrite Hnew. by apply lookup_app_l_Some.
Qed.

(** [openData] in round [i]. *)
Lemma open_inv s i n ph sent readers j :
  mp_parent s = POpen i → i < messages →
  inv c n (Sys (mp_world s) (mp_writer s) ph sent readers) j →
  parent_inv (POpen i) ph sent n → child_inv (mp_child s) readers j → pipe_open (mp_child s) = false →
  Inv (parent_call (openData (Z.of_nat (length (trade_bytes padding i))) (i + 1) MsgType.Trade FRAME_NORMAL)
    (PFill i) s).
Proof.
  intros Hp Hi Hinv (Hi0&->&->&Hn) Hch Hpipe.
  destruct (open_step c Hclock n _ j (trade_message i) Hinv) as (s'&j'&Hstep&Hinv'&Hgrow); [lia| |].
  { split; [done|]. pose proof (iv_cfg _ _ _ _ Hinv) as Hcfg. cbn [sy_writer] in *.
    rewrite Hcfg. apply trade_message_ok. lia. }
  inversion Hstep; subst. rename select (openData _ _ _ _ _ = _) into Hrun. unfold ms_size in Hrun.
  cbn [trade_message ms_data ms_time ms_type] in Hrun. unfold Inv, parent_call. rewrite Hrun.
  cbn [mp_parent mp_world mp_writer mp_child mp_pipe].
  exists (S n), (Opened (trade_message i) p), (first_messages i), readers, j'.
  split_and!; [done| |by eapply child_grows|done]. simpl. split_and!; [lia|lia|done|done|lia].
Qed.

Lemma fill_inv s i slot n ph sent readers j :
  mp_parent s = PFill i slot →
  inv c n (Sys (mp_world s) (mp_writer s) ph sent readers) j →
  parent_inv (PFill i slot) ph sent n → child_inv (mp_child s) readers j → pipe_open (mp_child s) = false →
  Inv (parent_call (io (store_bytes slot (trade_bytes padding i))) (λ _, PClose i) s).
Proof.
  intros Hp Hinv (Hi0&->&->&Hn) Hch Hpipe.
  destruct (fill_step c n _ j Hinv) as (s'&Hstep&Hinv'); [by eexists _, _|].
  inversion Hstep; subst. rename select (when _ _ _ = _) into Hrun. unfold ms_size in Hrun.
  cbn [trade_message ms_data] in Hrun. rewrite length_trade_bytes in Hrun. cbn [Z.of_nat Z.ltb] in Hrun.
  unfold Inv, parent_call. change (when _ ?m) with m in Hrun. rewrite Hrun.
  cbn [mp_parent mp_world mp_writer mp_child mp_pipe].
  exists (S n), (Filled (trade_message i)), (first_messages i), readers, j.
  split_and!; [done| |done|done]. simpl. split_and!; [lia|lia|done|done|lia].
Qed.

Lemma close_inv s i n ph sent readers j :
  mp_parent s = PClose i →
  inv c n (Sys (mp_world s) (mp_writer s) ph sent readers) j →
  parent_inv (PClose i) ph sent n → child_inv (mp_child s) readers j → pipe_open (mp_child s) = false →
  Inv (parent_call (closeData (Z.of_nat (length (trade_bytes padding i))) no_hook) (λ _, POpen (i + 1)) s).
Proof.
  intros Hp Hinv (Hi0&->&->&Hn) Hch Hpipe.
  destruct (close_step c n _ j Hinv) as (s'&j'&Hstep&Hinv'&Hgrow); [lia|by eexists|].
  inversion Hstep; subst. rename select (closeData _ _ _ = _) into Hrun. unfold ms_size in Hrun.
  cbn [trade_message ms_data] in Hrun. unfold Inv, parent_call. rewrite Hrun.
  cbn [mp_parent mp_world mp_writer mp_child mp_pipe].
  exists (S n), Idle, (first_messages i ++ [trade_message i]), readers, j'.
  split_and!; [done| |by eapply child_grows|done]. simpl.
  rewrite first_messages_succ by lia. split_and!; [lia|lia|done|done|lia].
Qed.

Lemma release_inv s status n ph sent readers j :
  mp_parent s = PUnwind status →
  inv c n (Sys (mp_world s) (mp_writer s) ph sent readers) j →
  parent_inv (PUnwind status) ph sent n → sync (PUnwind status) (mp_pipe s) (mp_child s) n →
  Inv (parent_return status s).
Proof.
  intros Hp Hinv (->&->&Hn) Hsync. pose proof (iv_phase _ _ _ _ Hinv) as [Hrep _].
  destruct (JournalWriter_release_run _ _ _ Hrep) as (w'&r'&ps&Hrun&_). cbn [sy_world sy_writer] in Hrun.
  unfold Inv, parent_return. by rewrite Hrun.
Qed.

Lemma parent_inv_step s s' : Inv s → parent_step padding messages s = Some s' → Inv s'.
Proof.
  intros HI. unfold parent_step. unfold Inv in HI.
  destruct (mp_parent s) as [|i|i slot|i| |status|status|f] eqn:Hp; try done.
  - destruct HI as (n&ph&sent&readers&j&Hinv&(->&->&Hn)&Hch&Hpipe&Hjoin).
    destruct (mp_pipe s) eqn:Hb.
    + intros [= <-]. exists n, Idle, [], readers, j. cbn. split_and!; try done; [lia..|].
      destruct (mp_child s); done.
    + destruct (pipe_open (mp_child s)); [done|]. done.
  - destruct HI as (n&ph&sent&readers&j&Hinv&Hpar&Hch&Hsync).
    destruct (Z.ltb_spec i messages); intros [= <-]; [by eapply open_inv|].
    destruct Hpar as (Hi&->&->&Hn). assert (i = Z.max 0 messages) as -> by lia.
    by exists n, Idle, (first_messages (Z.max 0 messages)), readers, j.
  - destruct HI as (n&ph&sent&readers&j&Hinv&Hpar&Hch&Hsync). intros [= <-]. by eapply fill_inv.
  - destruct HI as (n&ph&sent&readers&j&Hinv&Hpar&Hch&Hsync). intros [= <-]. by eapply close_inv.
  - destruct HI as (n&ph&sent&readers&j&Hinv&Hpar&Hch&Hsync). unfold set_parent.
    destruct (mp_child s) as [| | | | |status|f] eqn:Hc; try done. intros [= <-].
    exists n, ph, sent, readers, j. cbn [mp_parent mp_world mp_writer mp_child mp_pipe].
    split_and!; [done..|]. destruct Hch as (d&got&_&[[-> _]| ->]); [by left|by right].
  - destruct HI as (n&ph&sent&readers&j&Hinv&Hpar&Hch&Hsync). intros [= <-]. by eapply release_inv.
Qed.

(** ** The child's steps *)

(** The child's call on its reader, seen from the processes' invariant. *)
Lemma child_moves {A} (m : R A) n w r ph sent j d got x w' d' got' own :
  inv c n (Sys w r ph sent [(d, got)]) j → m (w, d) = (x, (w', d')) → quiet w w' own →
  (∀ b mp, triple (foreign reader_bases b mp) m (λ _, True)) →
  (∃ p k jn, reads w' d' c j p k jn ∧ got' ++ rest j p k = aj_frames j) →
  inv c n (Sys w' r ph sent [(d', got')]) j.
Proof.
  intros Hinv Hrun Hq Hsp Hrd. eapply inv_same; [exact Hinv|].
  refine (inv_reader c n _ j 0 d got w' d' got' own Hinv eq_refl Hq _ Hrd).
  eapply reader_spares_others; [exact Hinv|by intros; eapply (reader_apart _ _ _ _ 0)|exact Hsp|exact Hrun].
Qed.

(** Where the reader stands. *)
Lemma stands n w r ph sent j d got :
  inv c n (Sys w r ph sent [(d, got)]) j →
  ∃ p k jn fs, reads w d c j p k jn ∧ got ++ rest j p k = aj_frames j ∧ readable w c j ∧
    aj_pages j !! p = Some fs ∧ aj_frames j !! length got = fs !! k.
Proof.
  intros Hinv. destruct (iv_readers _ _ _ _ Hinv 0 d got eq_refl) as (p&k&jn&Hrd&Hgot).
  pose proof (inv_readable _ _ _ _ Hinv) as Hrb. cbn [sy_world] in *.
  destruct (cu_page _ _ _ _ _ _ (rs_cursor _ _ _ _ _ _ _ Hrd)) as (?&?&fs&_&_&Hp&_).
  exists p, k, jn, fs. split_and!; try done. rewrite <-Hgot, lookup_app_r, Nat.sub_diag by done.
  destruct (fs !! k) as [f|] eqn:Hk.
  - destruct (rest_step j p k fs f (rb_wf _ _ _ Hrb) Hp Hk) as [-> _]. done.
  - destruct (at_end _ _ _ _ _ _ _ Hrb (rs_cursor _ _ _ _ _ _ _ Hrd) (rs_pos _ _ _ _ _ _ _ Hrd) Hp Hk)
      as (_&_&->). done.
Qed.

(** Looking for a frame. *)
Lemma look_now n w r ph sent j d got :
  inv c n (Sys w r ph sent [(d, got)]) j →
  match aj_frames j !! length got with
  | Some f => ∃ v, tryCurrentFrame (w, d) = (Ret (Some v), (w, d)) ∧ seen d got j f v
  | None => tryCurrentFrame (w, d) = (Ret None, (w, d)) ∧ got = aj_frames j
  end.
Proof.
  intros Hinv. destruct (stands _ _ _ _ _ _ _ _ Hinv) as (p&k&jn&fs&Hrd&Hgot&Hrb&Hp&Hf).
  pose proof Hrd as [Hj Hs Hcu Hpos]. rewrite Hf. destruct (fs !! k) as [f|] eqn:Hk.
  - eexists. split; [eapply tryCurrentFrame_single; [done..|by eapply view_of_run]|].
    exists jn. by rewrite Hf.
  - destruct (at_end _ _ _ _ _ _ _ Hrb Hcu Hpos Hp Hk) as (->&Hroom&Hrest). split.
    + eapply tryCurrentFrame_single; [done..|by eapply view_of_end].
    + by rewrite <-Hgot, Hrest, app_nil_r.
Qed.

(** The frame that was seen is still there: its number, and the way past it. *)
Lemma seen_sequence n w r ph sent j d got f v :
  inv c n (Sys w r ph sent [(d, got)]) j → seen d got j f v → Z.of_nat n < 2 ^ 29 →
  rio (getSequence (fv_frame v)) (w, d) = (Ret (Z.of_nat (length got)), (w, d)) ∧
  s64 (Z.of_nat (length got)) = Z.of_nat (length got).
Proof.
  intros Hinv (jn&Hj&Hf&->) Hn. destruct (stands _ _ _ _ _ _ _ _ Hinv) as (p&k&jn'&fs&Hrd&Hgot&Hrb&Hp&Hk).
  rewrite Hf in Hk. pose proof Hrd as [Hj' Hs Hcu Hpos]. assert (jn' = jn) as -> by congruence.
  destruct (cursor_in_page _ _ _ _ _ _ _ f Hrb Hcu Hp ltac:(done)) as (b&wr&Hfr&Hm&Hat&Hwf&Hlo&Hhi).
  pose proof (frame_wf_stride _ Hwf) as (Hl&Hst&_). destruct Hat as (_&_&_&Hsq&_).
  pose proof (gd_seq _ _ (iv_good _ _ _ _ Hinv)) as [Hnum Hseq]. rewrite (Hnum _ _ Hf) in Hsq.
  pose proof (iv_seq _ _ _ _ Hinv). pose proof (lookup_lt_Some _ _ _ Hf). split.
  - apply rio_run. cbn [fv_frame]. rewrite Hfr. unfold getSequence. unfold_offsets.
    erewrite load_run; [|exact Hm|cbn [p_off ptr_add]; lia..]. cbn [p_off ptr_add]. by rewrite Hsq.
  - apply swrap_small; [lia|]. unfold in_s. simpl. lia.
Qed.

Lemma seen_advance n w r ph sent j d got f v :
  inv c n (Sys w r ph sent [(d, got)]) j → seen d got j f v →
  ∃ w' d', advance v (w, d) = (Ret tt, (w', d')) ∧ inv c n (Sys w' r ph sent [(d', got ++ [f])]) j.
Proof.
  intros Hinv (jn&Hj&Hf&->). destruct (stands _ _ _ _ _ _ _ _ Hinv) as (p&k&jn'&fs&Hrd&Hgot&Hrb&Hp&Hk).
  rewrite Hf in Hk. symmetry in Hk. pose proof Hrd as [Hj' _ _ _]. assert (jn' = jn) as -> by congruence.
  destruct (advance_single _ _ _ _ _ _ _ _ _ Hrb Hrd Hp Hk) as (w'&d'&jn''&Hadv&Hrd'&Hq&_).
  exists w', d'. split; [done|].
  eapply (child_moves _ _ _ _ _ _ _ _ _ _ _ _ _ _ Hinv Hadv Hq); [intros; apply advance_spares|].
  eexists _, _, jn''. split; [exact Hrd'|]. rewrite <-Hgot.
  destruct (rest_step j p k fs f (rb_wf _ _ _ Hrb) Hp Hk) as [-> _]. by rewrite <-app_assoc.
Qed.

(** While the child runs, the parent has not left [waitpid]. *)
Lemma child_runs s :
  Inv s → (∀ status, mp_child s ≠ CExit status) →
  ∃ n ph sent readers j,
    inv c n (Sys (mp_world s) (mp_writer s) ph sent readers) j ∧
    parent_inv (mp_parent s) ph sent n ∧ child_inv (mp_child s) readers j ∧
    sync (mp_parent s) (mp_pipe s) (mp_child s) n ∧
    ∀ status, mp_parent s ≠ PUnwind status ∧ mp_parent s ≠ PExit status.
Proof.
  intros HI Hrun. unfold Inv in HI.
  destruct (mp_parent s) eqn:Hp;
    try (destruct HI as (n&ph&sent&readers&j&Hinv&Hpar&Hch&Hsync); exists n, ph, sent, readers, j; done).
  - destruct HI as (n&ph&sent&readers&j&Hinv&Hpar&Hch&[[_ Hc]|[_ Hc]]); by destruct (Hrun _ Hc).
  - destruct HI as [[_ Hc]|[_ Hc]]; by destruct (Hrun _ Hc).
Qed.

Lemma Inv_intro w r p pipe ch n ph sent readers j :
  (∀ status, p ≠ PUnwind status ∧ p ≠ PExit status) →
  inv c n (Sys w r ph sent readers) j → parent_inv p ph sent n → child_inv ch readers j → sync p pipe ch n →
  Inv (State w r p pipe ch).
Proof.
  intros Hp Hinv Hpar Hch Hsync. unfold Inv. cbn [mp_parent mp_world mp_writer mp_child mp_pipe].
  destruct p as [| | | | | |status|]; try by exists n, ph, sent, readers, j. by destruct (Hp status).
Qed.

Lemma sync_runs p pipe ch ch' n :
  (∀ status, p ≠ PUnwind status ∧ p ≠ PExit status) →
  sync p pipe ch n → pipe_open ch = false → pipe_open ch' = false → sync p pipe ch' n.
Proof.
  intros Hp Hsync Hc Hc'. destruct p as [| | | | |status|status|]; simpl in *; try done.
  - destruct Hsync as [-> _]. rewrite Hc, Hc'. split; [done|]. by intros ->.
  - by destruct (Hp status).
  - by destruct (Hp status).
Qed.

Lemma join_inv s :
  Inv s → mp_child s = CJoin →
  Inv (child_call (join 1 location 0 0) (JournalReader_ctor example_reader_options) (λ _ d, CSignal d) s).
Proof.
  intros HI Hc. destruct (child_runs s HI) as (n&ph&sent&readers&j&Hinv&Hpar&Hch&Hsync&Hp); [by rewrite Hc|].
  rewrite Hc in Hch, Hsync. cbn in Hch. subst readers.
  destruct (join_step c n _ j example_reader_options Hinv) as (s'&j'&Hstep&Hinv').
  inversion Hstep; subst. rename select (join _ _ _ _ _ = _) into Hrun.
  pose proof (iv_cfg _ _ _ _ Hinv) as Hcfg. cbn [sy_writer] in Hcfg. rewrite Hcfg in Hrun.
  change (location_ c) with location in Hrun. change (dest_id_ c) with 0 in Hrun.
  unfold child_call. rewrite Hrun.
  destruct (mp_parent s) eqn:Hpar'; try done; [|by destruct (Hp status) as [[] _]].
  destruct Hsync as [Hb Hn]. specialize (Hn eq_refl). subst n. destruct Hpar as (->&->&_).
  eapply (Inv_intro _ _ _ _ _ 1%nat); [done|exact Hinv'|by split_and!|done|by rewrite Hb].
Qed.

Lemma child_inv_step late s s' : Inv s → child_step messages location late s = Some s' → Inv s'.
Proof.
  intros HI. unfold child_step.
  destruct (mp_child s) as [|d|d count prev|d count prev v|d count prev v|status|f] eqn:Hc; try done.
  { intros [= <-]. by apply join_inv. }
  all: destruct (child_runs s HI) as (n&ph&sent&readers&j&Hinv&Hpar&Hch&Hsync&Hp); [by rewrite Hc|].
  all: pose proof (parent_small _ _ _ _ Hpar) as Hn; rewrite Hc in Hch, Hsync.
  - intros [= <-]. cbn in Hch. subst readers. eapply Inv_intro; [done|exact Hinv|done|by exists []|].
    destruct (mp_parent s); try done. by destruct (Hp status) as [[] _].
  - destruct Hch as (got&->&Hprog). pose proof Hprog as [-> ->]. destruct (Z.ltb_spec (count_trades got) messages).
    + destruct late; intros [= <-].
      { eapply Inv_intro; [done|exact Hinv|done|exists d, got; by split; [|right]|by eapply sync_runs]. }
      pose proof (look_now _ _ _ _ _ _ _ _ Hinv) as Hlook. unfold child_call.
      destruct (aj_frames j !! length got) as [f|].
      * destruct Hlook as (v&->&Hseen).
        eapply Inv_intro; [done|exact Hinv|done|by exists got, f|by eapply sync_runs].
      * destruct Hlook as [-> _]. eapply Inv_intro; [done|exact Hinv|done|by exists got|done].
    + intros [= <-]. eapply Inv_intro; [done|exact Hinv|done| |by eapply sync_runs].
      exists d, got. split; [done|]. by left.
  - destruct Hch as (got&f&->&[-> ->]&Hseen). intros [= <-].
    destruct (seen_sequence _ _ _ _ _ _ _ _ _ _ Hinv Hseen Hn) as [Hrun Hs]. unfold child_call. rewrite Hrun, Hs.
    replace (negb _) with false by (symmetry; apply negb_false_iff, Z.eqb_eq; lia).
    eapply Inv_intro; [done|exact Hinv|done| |by eapply sync_runs].
    exists got, f. split_and!; [done| |done]. destruct Hseen as (jn&_&_&->). cbn [fv_msg_type].
    split; [by rewrite count_trades_snoc|]. rewrite length_app. simpl. lia.
  - destruct Hch as (got&f&->&Hprog&Hseen). intros [= <-].
    destruct (seen_advance _ _ _ _ _ _ _ _ _ _ Hinv Hseen) as (w'&d'&Hadv&Hinv').
    unfold child_call. rewrite Hadv.
    eapply Inv_intro; [done|exact Hinv'|done|by exists (got ++ [f])|by eapply sync_runs].
Qed.

(** ** Schedules *)

Lemma steps_nil s : steps padding messages location [] s = Some s.
Proof. done. Qed.

Lemma steps_None acts : foldl (λ s a, s ← s; step padding messages location a s) None acts = None.
Proof. by induction acts. Qed.

Lemma steps_cons a acts s s1 s' :
  step padding messages location a s = Some s1 → steps padding messages location acts s1 = Some s' →
  steps padding messages location (a :: acts) s = Some s'.
Proof. intros Ha Hs. unfold steps. cbn [foldl mbind option_bind]. by rewrite Ha. Qed.

Lemma steps_app acts1 acts2 s s1 s' :
  steps padding messages location acts1 s = Some s1 → steps padding messages location acts2 s1 = Some s' →
  steps padding messages location (acts1 ++ acts2) s = Some s'.
Proof. intros H1' H2'. unfold steps in *. by rewrite foldl_app, H1'. Qed.

Lemma mp_step_inv a s s' : Inv s → step padding messages location a s = Some s' → Inv s'.
Proof. destruct a; [apply parent_inv_step|apply child_inv_step]. Qed.

Lemma mp_steps_inv acts s s' : Inv s → steps padding messages location acts s = Some s' → Inv s'.
Proof.
  revert s; induction acts as [|a acts IH]; intros s HI; [by intros [= <-]|].
  unfold steps. cbn [foldl mbind option_bind]. destruct (step padding messages location a s) as [s1|] eqn:Ha.
  - apply IH. by eapply mp_step_inv.
  - by rewrite steps_None.
Qed.

Lemma parent_call_child {A} (m : W A) next s : mp_child (parent_call m next s) = mp_child s.
Proof. unfold parent_call. by destruct (m _) as [? [? ?]]. Qed.

Lemma parent_return_child status s : mp_child (parent_return status s) = mp_child s.
Proof. unfold parent_return. by destruct (JournalWriter_release _) as [? [? ?]]. Qed.

Lemma parent_step_child s s' : parent_step padding messages s = Some s' → mp_child s' = mp_child s.
Proof.
  unfold parent_step. destruct (mp_parent s); repeat case_match; intros; simplify_eq;
    rewrite ?parent_call_child, ?parent_return_child; done.
Qed.

(** Only a child that finds itself late ends with 11. *)
Lemma step_on_time a s s' :
  step padding messages location a s = Some s' → a ≠ Child true → mp_child s ≠ CExit 11 → mp_child s' ≠ CExit 11.
Proof.
  intros Ha Hlate Hc. destruct a as [|late]; cbn [step] in Ha.
  - by rewrite (parent_step_child _ _ Ha).
  - destruct late; [done|]. unfold child_step, child_call, set_child in Ha.
    destruct (mp_child s); repeat case_match; simplify_eq; done.
Qed.

Lemma steps_on_time acts s s' :
  steps padding messages location acts s = Some s' → Child true ∉ acts → mp_child s ≠ CExit 11 →
  mp_child s' ≠ CExit 11.
Proof.
  revert s; induction acts as [|a acts IH]; intros s; [by intros [= <-]|].
  unfold steps. cbn [foldl mbind option_bind]. intros Hs [Ha Hacts]%not_elem_of_cons Hc.
  destruct (step padding messages location a s) as [s1|] eqn:Hstep; [|by rewrite steps_None in Hs].
  eapply (IH s1 Hs Hacts). eapply step_on_time; [exact Hstep|done|done].
Qed.

(** ** From the start *)

Lemma start_inv w :
  empty_destination w location 0 →
  ∃ s w', start location w = (Ret s, w') ∧ Inv s ∧ mp_parent s = PReady ∧ mp_child s = CJoin.
Proof.
  intros Hempty. pose proof Hempty as [Hd Honly Hnone].
  destruct (ctor_fresh_run w false location 0 example_writer_options) as (w1&r1&Hctor&_);
    [done|vm_compute; discriminate|done..|].
  exists (State w1 r1 PReady false CJoin), w1. split; [|split; [|done]].
  { unfold start. by erewrite bind_Ret by exact Hctor. }
  eapply (Inv_intro _ _ _ _ _ 0%nat); [done| |split_and!; [done..|lia]|done|done].
  eapply (started_inv w false location 0 example_writer_options w1 r1); [done|vm_compute; discriminate|exact Hctor].
Qed.

(** ** A way to the end *)

(** [s'] is reached on some schedule on which the child is never late. *)
Definition leads (s s' : state) : Prop :=
  ∃ acts, (Child true ∉ acts) ∧ steps padding messages location acts s = Some s'.

Lemma leads_refl s : leads s s.
Proof. exists []. split; [by apply not_elem_of_nil|done]. Qed.
Lemma leads_step a s s1 s' :
  a ≠ Child true → step padding messages location a s = Some s1 → leads s1 s' → leads s s'.
Proof.
  intros Ha Hstep (acts&Hlate&Hs). exists (a :: acts). split.
  - by apply not_elem_of_cons.
  - by eapply steps_cons.
Qed.
Lemma leads_trans s1 s2 s3 : leads s1 s2 → leads s2 s3 → leads s1 s3.
Proof.
  intros (acts1&Hl1&Hs1) (acts2&Hl2&Hs2). exists (acts1 ++ acts2). split.
  - by rewrite elem_of_app; intros [?|?].
  - by eapply steps_app.
Qed.

Lemma leads_inv s s' : leads s s' → Inv s → mp_child s ≠ CExit 11 → Inv s' ∧ mp_child s' ≠ CExit 11.
Proof. intros (acts&Hl&Hs) HI Hc. split; [by eapply mp_steps_inv|by eapply steps_on_time]. Qed.

(** Every frame that is not a [PageEnd] is one of the trades. *)
Lemma count_all n w r ph i readers j :
  0 ≤ i → inv c n (Sys w r ph (first_messages i) readers) j → count_trades (aj_frames j) = i.
Proof.
  intros Hi Hinv. pose proof (iv_sent _ _ _ _ Hinv) as Hsent. cbn [sy_sent] in Hsent.
  assert (Z.of_nat (length (content <$> aj_data j)) = i) as Hlen.
  { rewrite Hsent. unfold first_messages. rewrite length_fmap, length_seqZ. lia. }
  rewrite <-Hlen, length_fmap. unfold count_trades, aj_data. do 2 f_equal.
  assert (Forall (λ f, is_PageEnd f = false → fr_type f = MsgType.Trade) (aj_frames j)) as Hty.
  { apply Forall_forall. intros f Hf Hend. assert (content f ∈ first_messages i) as Hin.
    { rewrite <-Hsent. apply list_elem_of_fmap_2. by apply list_elem_of_filter. }
    apply list_elem_of_fmap in Hin as (k&Hk&_). by injection Hk. }
  induction Hty as [|f fs Hf _ IH]; [done|]. rewrite !filter_cons.
  unfold is_PageEnd in *. destruct (Z.eqb_spec (fr_type f) MsgType.PageEnd) as [He|He].
  - rewrite !decide_False by (rewrite ?He; done). exact IH.
  - rewrite !decide_True by auto. by rewrite IH.
Qed.

(** What the invariant says. *)
Lemma Inv_safe (acts : list action) s :
  Inv s → (Child true ∉ acts → mp_child s ≠ CExit 11) →
  (∀ f, mp_child s ≠ CCrash f ∧ mp_parent s ≠ PCrash f) ∧
  (∀ status, mp_child s = CExit status → status = 0 ∨ status = 11 ∧ Child true ∈ acts) ∧
  (∀ d count prev, mp_child s = CPoll d count prev → 0 ≤ count ≤ published (mp_parent s)) ∧
  (∀ status, mp_parent s = PExit status →
     status = 0 ∧ mp_child s = CExit 0 ∨ status = 1 ∧ mp_child s = CExit 11).
Proof.
  intros HI Htime. assert (mp_child s = CExit 11 → Child true ∈ acts) as Hlate.
  { intros Hc. destruct (decide (Child true ∈ acts)) as [|Hn]; [done|]. by destruct (Htime Hn). }
  assert ((∃ status, mp_parent s = PExit status) ∨ ¬ ∃ status, mp_parent s = PExit status) as [[status Hp]|Hp].
  { destruct (mp_parent s); try (right; by intros [? ?]). left. by eexists. }
  - unfold Inv in HI. rewrite Hp in *. split_and!.
    + intros f. split; [|done]. by destruct HI as [[_ ->]|[_ ->]].
    + intros status' Hc. destruct HI as [[_ HI]|[_ HI]]; rewrite HI in Hc; injection Hc as <-; auto.
    + intros d count prev Hc. by destruct HI as [[_ HI]|[_ HI]]; rewrite HI in Hc.
    + by intros status' [= <-].
  - assert (∃ n ph sent readers j, inv c n (Sys (mp_world s) (mp_writer s) ph sent readers) j ∧
      parent_inv (mp_parent s) ph sent n ∧ child_inv (mp_child s) readers j)
      as (n&ph&sent&readers&j&Hinv&Hpar&Hch).
    { unfold Inv in HI. destruct (mp_parent s) as [| | | | | |status|];
        try (destruct HI as (n&ph&sent&readers&j&Hinv&Hpar&Hch&_); by exists n, ph, sent, readers, j).
      destruct Hp. by exists status. }
    split_and!.
    + intros f. split; [by intros Hc; rewrite Hc in Hch|by intros Hq; rewrite Hq in Hpar].
    + intros status Hc. rewrite Hc in Hch. destruct Hch as (d&got&_&[[-> _]| ->]); auto.
    + intros d count prev Hc. rewrite Hc in Hch. destruct Hch as (got&->&->&->).
      destruct (iv_readers _ _ _ _ Hinv 0 d got eq_refl) as (p&k&jn&_&Hgot).
      assert (sent = first_messages (published (mp_parent s))) as ->
        by (destruct (mp_parent s); cbn in Hpar |- *; intuition).
      assert (0 ≤ published (mp_parent s)) as Hpub
        by (destruct (mp_parent s); cbn in Hpar |- *; intuition lia).
      rewrite <-(count_all _ _ _ _ _ _ _ Hpub Hinv), <-Hgot.
      unfold count_trades. rewrite filter_app, length_app. lia.
    + intros status Hq. destruct Hp. by exists status.
Qed.

(** The child alone, once everything is published. *)
Lemma poll_to_end m n w r p pipe ph d got j :
  inv c n (Sys w r ph (first_messages (Z.max 0 messages)) [(d, got)]) j → Z.of_nat n < 2 ^ 29 →
  (length (aj_frames j) = length got + m)%nat →
  ∃ w', leads (State w r p pipe (CPoll d (count_trades got) (Z.of_nat (length got) - 1)))
          (State w' r p pipe (CExit 0)).
Proof.
  revert w d got; induction m as [|m IH]; intros w d got Hinv Hn Hm;
    (destruct (Z.ltb_spec (count_trades got) messages) as [Hlt|Hge];
      [|exists w; eapply (leads_step (Child false)); [done| |apply leads_refl];
        cbn; rewrite (proj2 (Z.ltb_ge _ _)) by lia; done]);
    pose proof (look_now _ _ _ _ _ _ _ _ Hinv) as Hlook; destruct (aj_frames j !! length got) as [f|] eqn:Hf.
  - apply lookup_lt_Some in Hf. lia.
  - destruct Hlook as [_ ->]. rewrite (count_all n w r ph (Z.max 0 messages) _ j ltac:(lia) Hinv) in Hlt. lia.
  - destruct Hlook as (v&Hlook&Hseen). destruct (seen_sequence _ _ _ _ _ _ _ _ _ _ Hinv Hseen Hn) as [Hsq Hs].
    destruct (seen_advance _ _ _ _ _ _ _ _ _ _ Hinv Hseen) as (w1&d1&Hadv&Hinv1).
    destruct (IH w1 d1 (got ++ [f]) Hinv1 Hn) as (w'&Hrec); [rewrite length_app; simpl; lia|].
    exists w'. eapply (leads_step (Child false)); [done| |].
    { cbn. rewrite (proj2 (Z.ltb_lt _ _)) by done. unfold child_call. cbn [mp_world]. by rewrite Hlook. }
    eapply (leads_step (Child false)); [done| |].
    { cbn. unfold child_call. cbn [mp_world]. by rewrite Hsq, Hs. }
    replace (negb _) with false by (symmetry; apply negb_false_iff, Z.eqb_eq; lia).
    eapply (leads_step (Child false)); [done| |].
    { cbn. unfold child_call. cbn [mp_world]. by rewrite Hadv. }
    destruct Hseen as (jn&_&_&->). cbn [fv_msg_type mp_world mp_writer mp_parent mp_pipe].
    rewrite count_trades_snoc, length_app in Hrec. cbn [length] in Hrec.
    replace (Z.of_nat (length got + 1) - 1) with (Z.of_nat (length got)) in Hrec by lia. exact Hrec.
  - apply lookup_ge_None in Hf. lia.
Qed.

(** The child alone, wherever it is. *)
Lemma child_finishes s :
  Inv s → mp_parent s = PWait → mp_child s ≠ CExit 11 →
  ∃ s', leads s s' ∧ mp_parent s' = PWait ∧ mp_child s' = CExit 0.
Proof.
  intros HI Hp Hc. destruct s as [w r p pipe ch]. cbn [mp_parent mp_child] in *. subst p.
  destruct HI as (n&ph&sent&readers&j&Hinv&(->&->&Hn)&Hch&Hsync).
  cbn [mp_world mp_writer mp_child mp_pipe] in *. assert (Z.of_nat n < 2 ^ 29) as Hn' by lia.
  assert (∀ w d got, inv c n (Sys w r Idle (first_messages (Z.max 0 messages)) [(d, got)]) j →
    ∃ s', leads (State w r PWait pipe (CPoll d (count_trades got) (Z.of_nat (length got) - 1))) s' ∧
      mp_parent s' = PWait ∧ mp_child s' = CExit 0) as Hpoll.
  { intros w1 d got Hinv1. destruct (iv_readers _ _ _ _ Hinv1 0 d got eq_refl) as (q&k&jn&_&Hgot).
    destruct (poll_to_end (length (aj_frames j) - length got) _ _ _ PWait pipe _ _ _ _ Hinv1 Hn') as (w'&Hl);
      [rewrite <-Hgot, length_app; lia|]. by eexists. }
  assert (∀ w d got f v, inv c n (Sys w r Idle (first_messages (Z.max 0 messages)) [(d, got)]) j →
    seen d got j f v →
    ∃ s', leads (State w r PWait pipe (CAdvance d (count_trades (got ++ [f])) (Z.of_nat (length got)) v)) s' ∧
      mp_parent s' = PWait ∧ mp_child s' = CExit 0) as Hadvance.
  { intros w1 d got f v Hinv1 Hseen.
    destruct (seen_advance _ _ _ _ _ _ _ _ _ _ Hinv1 Hseen) as (w2&d2&Hadv&Hinv2).
    destruct (Hpoll _ _ _ Hinv2) as (s'&Hl&Hend). exists s'. split; [|done].
    rewrite length_app in Hl. cbn [length] in Hl.
    replace (Z.of_nat (length got + 1) - 1) with (Z.of_nat (length got)) in Hl by lia.
    eapply (leads_step (Child false)); [done| |exact Hl]. cbn. unfold child_call. cbn [mp_world]. by rewrite Hadv. }
  destruct ch as [|d|d count prev|d count prev v|d count prev v|status|f]; try done.
  - destruct Hch as (got&->&[-> ->]). by apply Hpoll.
  - destruct Hch as (got&f&->&[-> ->]&Hseen).
    destruct (seen_sequence _ _ _ _ _ _ _ _ _ _ Hinv Hseen Hn') as [Hsq Hs].
    destruct (Hadvance _ _ _ _ _ Hinv Hseen) as (s'&Hl&Hend). exists s'. split; [|done].
    eapply (leads_step (Child false)); [done| |exact Hl].
    cbn. unfold child_call. cbn [mp_world]. rewrite Hsq, Hs.
    replace (negb _) with false by (symmetry; apply negb_false_iff, Z.eqb_eq; lia).
    destruct Hseen as (jn&_&_&->). cbn [fv_msg_type]. by rewrite count_trades_snoc.
  - destruct Hch as (got&f&->&[-> ->]&Hseen). rewrite length_app. cbn [length].
    replace (Z.of_nat (length got + 1) - 1) with (Z.of_nat (length got)) by lia. by eapply Hadvance.
  - eexists. split; [apply leads_refl|]. destruct Hch as (d&got&_&[[-> _]| ->]); done.
Qed.

(** A call of the parent's returns, if the child has not given up. *)
Lemma parent_call_returns {A} (m : W A) next s :
  Inv (parent_call m next s) → mp_child s ≠ CExit 11 → ∃ a, mp_parent (parent_call m next s) = next a.
Proof.
  intros HI Hc. pose proof (parent_call_child m next s) as Hch. unfold parent_call in *.
  destruct (m (mp_world s, mp_writer s)) as [[a|e|f] [w r]]; [by exists a| |].
  - destruct HI as (n&ph&sent&readers&j&_&_&_&[[? _]|[_ Hx]]); [done|]. by rewrite Hch in Hx.
  - by destruct HI as (n&ph&sent&readers&j&_&[]&_).
Qed.

Lemma parent_return_returns status s :
  Inv (parent_return status s) → mp_parent (parent_return status s) = PExit status.
Proof.
  unfold parent_return. destruct (JournalWriter_release _) as [[a|e|f] [w r]]; [done|..];
    intros (n&ph&sent&readers&j&_&[]&_).
Qed.

Definition parent_rank (p : parent_at) : Z :=
  let N := Z.max 0 messages in
  match p with
  | PReady => 3 * N + 6
  | POpen i => 3 * (N - i) + 5
  | PFill i _ => 3 * (N - i) + 4
  | PClose i => 3 * (N - i) + 3
  | _ => 0
  end.

(** The parent alone, once the child has signalled. *)
Lemma parent_finishes k s :
  Inv s → mp_child s ≠ CExit 11 → pipe_open (mp_child s) = false → parent_rank (mp_parent s) ≤ Z.of_nat k →
  ∃ s', leads s s' ∧ mp_child s' = mp_child s ∧
    (mp_parent s' = PWait ∨ ∃ status, mp_parent s' = PUnwind status ∨ mp_parent s' = PExit status).
Proof.
  revert s; induction k as [|k IH]; intros s HI Hc Hpipe Hk.
  { exists s. split; [apply leads_refl|]. split; [done|]. unfold Inv in HI.
    destruct (mp_parent s) eqn:Hp; cbn [parent_rank] in Hk;
      [lia| | | |by left|by right; eexists; left|by right; eexists; right|];
      destruct HI as (n&ph&sent&readers&j&_&Hpar&_); cbn in Hpar; lia || done. }
  assert (∀ s1, parent_step padding messages s = Some s1 → parent_rank (mp_parent s1) ≤ Z.of_nat k →
    ∃ s', leads s s' ∧ mp_child s' = mp_child s ∧
      (mp_parent s' = PWait ∨ ∃ status, mp_parent s' = PUnwind status ∨ mp_parent s' = PExit status)) as Hgo.
  { intros s1 Hstep Hk1. pose proof (parent_step_child _ _ Hstep) as Hc1.
    destruct (IH s1) as (s'&Hl&Hc'&Hend); [by eapply parent_inv_step|by rewrite Hc1|by rewrite Hc1|done|].
    exists s'. split; [by eapply (leads_step Parent)|]. by rewrite Hc'. }
  pose proof (λ s1, parent_inv_step s s1 HI) as Hnext. unfold parent_step in Hgo, Hnext.
  destruct (mp_parent s) as [|i|i slot|i| |status|status|f] eqn:Hp; cbn [parent_rank] in Hk.
  - unfold Inv in HI. rewrite Hp in HI. destruct HI as (n&ph&sent&readers&j&_&_&_&Hb&_).
    rewrite Hpipe in Hb. rewrite Hb in Hgo. eapply Hgo; [done|]. cbn [mp_parent parent_rank]. lia.
  - destruct (i <? messages); [|eapply Hgo; [done|]; cbn; lia].
    destruct (parent_call_returns _ _ _ (Hnext _ eq_refl) Hc) as [slot Hs].
    eapply Hgo; [done|]. rewrite Hs. cbn [parent_rank]. lia.
  - destruct (parent_call_returns _ _ _ (Hnext _ eq_refl) Hc) as [[] Hs].
    eapply Hgo; [done|]. rewrite Hs. cbn [parent_rank]. lia.
  - destruct (parent_call_returns _ _ _ (Hnext _ eq_refl) Hc) as [[] Hs].
    eapply Hgo; [done|]. rewrite Hs. cbn [parent_rank]. lia.
  - exists s. split; [apply leads_refl|]. split; [done|]. by left.
  - exists s. split; [apply leads_refl|]. split; [done|]. right. eauto.
  - exists s. split; [apply leads_refl|]. split; [done|]. right. eauto.
  - unfold Inv in HI. rewrite Hp in HI. by destruct HI as (n&ph&sent&readers&j&_&[]&_).
Qed.

(** The child up to its signal. *)
Lemma child_signals s :
  Inv s → mp_child s ≠ CExit 11 → ∃ s', leads s s' ∧ pipe_open (mp_child s') = false.
Proof.
  intros HI Hc. destruct (pipe_open (mp_child s)) eqn:Hpipe; [|exists s; split; [apply leads_refl|done]].
  assert (∀ s d, mp_child s = CSignal d → ∃ s', leads s s' ∧ pipe_open (mp_child s') = false) as Hsignal.
  { intros s1 d Hd. eexists. split; [eapply (leads_step (Child false)); [done| |apply leads_refl]|].
    - cbn. unfold child_step. rewrite Hd. done.
    - done. }
  destruct (mp_child s) as [|d| | | | |] eqn:Hch; try done; [|by apply (Hsignal s d)].
  pose proof (join_inv s HI Hch) as HI1. set (s1 := child_call _ _ _ s) in *.
  assert (step padding messages location (Child false) s = Some s1) as Hstep
    by (cbn; unfold child_step; by rewrite Hch).
  assert (∃ d, mp_child s1 = CSignal d) as [d Hd].
  { pose proof (step_on_time _ _ _ Hstep ltac:(done) ltac:(by rewrite Hch)) as Hc1.
    assert (child_step messages location false s = Some s1) as Hcs by exact Hstep.
    destruct (child_runs s HI) as (n&ph&sent&readers&j&_&_&_&_&Hp); [by rewrite Hch|].
    assert (mp_parent s1 = mp_parent s) as Hp1 by (unfold s1, child_call; by destruct (join _ _ _ _ _) as [? [? ?]]).
    unfold Inv in HI1. rewrite Hp1 in HI1. unfold s1, child_call in HI1 |- *.
    destruct (join _ _ _ _ _) as [[u|e|f] [w' d]]; [by exists d|exfalso..]; cbn [mp_child] in HI1;
      destruct (mp_parent s) as [| | | | |status|status|]; try (by destruct (Hp status));
      destruct HI1 as (?&?&?&?&?&_&_&HI1&_); cbn in HI1; try done; by destruct HI1 as (?&?&_&[[? _]|?]). }
  destruct (Hsignal s1 d Hd) as (s'&Hl&Hs'). exists s'. split; [|done]. by eapply (leads_step (Child false)).
Qed.

(** The parent's last steps. *)
Lemma parent_ends s :
  Inv s → mp_child s = CExit 0 →
  (mp_parent s = PWait ∨ ∃ status, mp_parent s = PUnwind status ∨ mp_parent s = PExit status) →
  ∃ s', leads s s' ∧ mp_parent s' = PExit 0 ∧ mp_child s' = CExit 0.
Proof.
  intros HI Hc Hp.
  assert (∀ s, Inv s → mp_child s = CExit 0 → mp_parent s = PUnwind 0 →
    ∃ s', leads s s' ∧ mp_parent s' = PExit 0 ∧ mp_child s' = CExit 0) as Hunwind.
  { intros s1 HI1 Hc1 Hp1.
    assert (parent_step padding messages s1 = Some (parent_return 0 s1)) as Hstep
      by (unfold parent_step; by rewrite Hp1).
    eexists. split; [eapply (leads_step Parent); [done|exact Hstep|apply leads_refl]|].
    rewrite parent_return_child. split; [|done].
    exact (parent_return_returns _ _ (parent_inv_step _ _ HI1 Hstep)). }
  destruct Hp as [Hp|(status&[Hp|Hp])].
  - assert (parent_step padding messages s = Some (set_parent (PUnwind 0) s)) as Hstep
      by (unfold parent_step; by rewrite Hp, Hc).
    destruct (Hunwind (set_parent (PUnwind 0) s)) as (s'&Hl&Hend); [by eapply parent_inv_step|done|done|].
    exists s'. split; [by eapply (leads_step Parent)|done].
  - pose proof HI as HI'. unfold Inv in HI'. rewrite Hp, Hc in HI'.
    destruct HI' as (?&?&?&?&?&_&_&_&[[-> _]|[_ ?]]); [|done]. by apply Hunwind.
  - pose proof HI as HI'. unfold Inv in HI'. rewrite Hp, Hc in HI'.
    destruct HI' as [[-> _]|[_ ?]]; [|done]. exists s. split; [apply leads_refl|done].
Qed.

Lemma completes s :
  Inv s → mp_child s ≠ CExit 11 → ∃ s', leads s s' ∧ mp_parent s' = PExit 0 ∧ mp_child s' = CExit 0.
Proof.
  intros HI Hc. destruct (child_signals s HI Hc) as (s1&Hl1&Hpipe1).
  destruct (leads_inv _ _ Hl1 HI Hc) as [HI1 Hc1].
  destruct (parent_finishes (Z.to_nat (parent_rank (mp_parent s1))) s1 HI1 Hc1 Hpipe1) as (s2&Hl2&Hch2&Hp2); [lia|].
  destruct (leads_inv _ _ Hl2 HI1 Hc1) as [HI2 Hc2].
  assert (∃ s3, leads s2 s3 ∧ mp_child s3 = CExit 0 ∧
    (mp_parent s3 = PWait ∨ ∃ status, mp_parent s3 = PUnwind status ∨ mp_parent s3 = PExit status))
    as (s3&Hl3&Hch3&Hp3).
  { destruct Hp2 as [Hp2|Hp2].
    - destruct (child_finishes s2 HI2 Hp2 Hc2) as (s3&Hl3&Hp3&Hch3). exists s3. split_and!; [done..|by left].
    - exists s2. split; [apply leads_refl|]. split; [|by right]. unfold Inv in HI2.
      destruct Hp2 as (status&[Hp2|Hp2]); rewrite Hp2 in HI2;
        [destruct HI2 as (?&?&?&?&?&_&_&_&[[_ ?]|[_ ?]])|destruct HI2 as [[_ ?]|[_ ?]]]; done. }
  destruct (leads_inv _ _ Hl3 HI2 Hc2) as [HI3 _].
  destruct (parent_ends s3 HI3 Hch3 Hp3) as (s4&Hl4&Hend). exists s4. split; [|done].
  eapply leads_trans; [exact Hl1|]. eapply leads_trans; [exact Hl2|]. by eapply leads_trans.
Qed.
End correct.

(** What [launch] gives is where the invariant starts. *)
Lemma launch_inv `{Env} `{!NoErrors} `{!EnvLaws} `{ILocator} `{!LocatorLaws} `{PriorityQueue}
    (padding : Z → list Z) args w messages s0 w0 :
  four_bytes padding → empty_destination w location 0 → messages < 2 ^ 27 →
  launch args w = (Ret (inr (messages, s0)), w0) → Inv padding messages location s0 ∧ mp_child s0 = CJoin.
Proof.
  intros Hpad Hempty Hm Hlaunch.
  destruct (start_inv padding messages location w Hempty) as (s&w'&Hstart&HI&_&Hc).
  unfold launch, try_catch in Hlaunch. unfold bind at 1 in Hlaunch.
  destruct (parse_arguments args 1000) as [[n|status]|e|f]; try done.
  erewrite bind_Ret in Hlaunch by done. fold location in Hlaunch.
  erewrite bind_Ret in Hlaunch by exact Hstart. by injection Hlaunch as <- <- <-.
Qed.
End multiprocess.

(** C5: A writer and a reader in two processes, in every interleaving.  Start
    [multiprocess] on a fresh directory, with any number of messages below
    [2 ^ 27], and let parent and child run in any order, one call at a time --
    the child may look while a frame is half written, and check or step past a
    frame while the next one is being written.  The child never sees a gap in
    the sequence numbers (it never exits with 12), never counts a message that
    is not committed, never throws or crashes; it gives up with 11 only if it
    found itself late.  The parent returns 0 if the child did, and 1 only if
    the child gave up. *)
Theorem multiprocess_safe `{Env} `{!NoErrors} `{!EnvLaws} `{ILocator} `{!LocatorLaws} `{PriorityQueue}
    padding args w messages s0 w0 acts s :
  (∀ n, 0 ≤ env_clock n) → four_bytes padding → empty_destination w multiprocess.location 0 →
  messages < 2 ^ 27 → multiprocess.launch args w = (Ret (inr (messages, s0)), w0) →
  multiprocess.steps padding messages multiprocess.location acts s0 = Some s →
  (∀ f, multiprocess.mp_child s ≠ multiprocess.CCrash f ∧ multiprocess.mp_parent s ≠ multiprocess.PCrash f) ∧
  (∀ status, multiprocess.mp_child s = multiprocess.CExit status →
     status = 0 ∨ status = 11 ∧ multiprocess.Child true ∈ acts) ∧
  (∀ d count prev, multiprocess.mp_child s = multiprocess.CPoll d count prev →
     0 ≤ count ≤ multiprocess.published messages (multiprocess.mp_parent s)) ∧
  (∀ status, multiprocess.mp_parent s = multiprocess.PExit status →
     status = 0 ∧ multiprocess.mp_child s = multiprocess.CExit 0 ∨
     status = 1 ∧ multiprocess.mp_child s = multiprocess.CExit 11).
Proof.
  intros Hclock Hpad Hempty Hm Hlaunch Hsteps.
  destruct (multiprocess.launch_inv padding args w messages s0 w0 Hpad Hempty Hm Hlaunch) as [HI0 Hc0].
  pose proof (multiprocess.mp_steps_inv Hclock padding Hpad messages Hm _ _ _ _ HI0 Hsteps) as HI.
  pose proof (multiprocess.steps_on_time padding messages _ _ _ _ Hsteps) as Htime.
  exact (multiprocess.Inv_safe padding messages _ acts s HI (λ Hl, Htime Hl ltac:(by rewrite Hc0))).
Qed.

(** C6: No deadlock.  In every state the two processes can reach, unless the
    child has already given up, there is a way to the end on which the child is
    never late: parent and child both exit with 0.  So neither the pipe, nor
    the polling, nor [waitpid] can block them for good. *)
Theorem multiprocess_completes `{Env} `{!NoErrors} `{!EnvLaws} `{ILocator} `{!LocatorLaws} `{PriorityQueue}
    padding args w messages s0 w0 acts s :
  (∀ n, 0 ≤ env_clock n) → four_bytes padding → empty_destination w multiprocess.location 0 →
  messages < 2 ^ 27 → multiprocess.launch args w = (Ret (inr (messages, s0)), w0) →
  multiprocess.steps padding messages multiprocess.location acts s0 = Some s →
  multiprocess.mp_child s ≠ multiprocess.CExit 11 →
  ∃ more s', (multiprocess.Child true ∉ more) ∧
    multiprocess.steps padding messages multiprocess.location more s = Some s' ∧
    multiprocess.mp_parent s' = multiprocess.PExit 0 ∧ multiprocess.mp_child s' = multiprocess.CExit 0.
Proof.
  intros Hclock Hpad Hempty Hm Hlaunch Hsteps Hc.
  destruct (multiprocess.launch_inv padding args w messages s0 w0 Hpad Hempty Hm Hlaunch) as [HI0 _].
  pose proof (multiprocess.mp_steps_inv Hclock padding Hpad messages Hm _ _ _ _ HI0 Hsteps) as HI.
  destruct (multiprocess.completes Hclock padding Hpad messages Hm _ s HI Hc) as (s'&(more&Hl&Hs)&Hend).
  by exists more, s'.
Qed.
