(* ===== verification/Python.v ===== *)
(** * Python: the bindings' own logic

    [src/python/revoq_py.cpp].  A Python [Frame] is a snapshot, the record
    [FrameSnap], taken before the reader moves on.  A Python exception is the
    model's exception; [StopIteration] ends a [for] loop.  A buffer is its
    bytes, taken to be contiguous.  The theorem: a [for] loop over a reader
    yields the snapshot of every frame still to come. *)

From S2P Require Import Prelude Memory Frame Base Mmap Page Warmer Writer WriterState.
From S2P Require Import Journal Reader JournalSpec ReaderSpec.

Record FrameSnap := MkSnap {
  sn_sequence : Z; sn_msg_type : Z; sn_gen_time : Z; sn_event_time : Z; sn_flags : Z;
  sn_payload : list Z
}.

(** [FrameSnap::from] *)
Definition FrameSnap_from (f : ptr) : M world FrameSnap :=
  let! n := getDataLength f in
  let! sequence := getSequence f in
  let! msg_type := getMsgType f in
  let! gen_time := getGenTime f in
  let! event_time := getEventTime f in
  let! flags := getFlags f in
  let! payload := if 0 <? n then load_bytes (dataAsBytes f) n else ret [] in
  ret (MkSnap sequence msg_type gen_time event_time flags payload).

(** [frame.data_length], and the bytes that [frame.data] shows. *)
Definition py_data_length (s : FrameSnap) : Z := Z.of_nat (length (sn_payload s)).
Definition py_data (s : FrameSnap) : list Z := sn_payload s.

Definition parse_mode {S} (s : str) : M S Mode :=
  match str2mode !! s with Some m => ret m | None => throw ValueError end.
Definition parse_category {S} (s : str) : M S Category :=
  match str2category !! s with Some c => ret c | None => throw ValueError end.

(** The lambda of [make_location]; the locator is the instance of
    [ILocator]. *)
Definition make_location {S} (mode category group name : str) : M S Location :=
  let! m := parse_mode mode in
  let! c := parse_category category in
  Location_make m c group name.

Section python.
Context `{Env} `{ILocator} `{PriorityQueue}.

Definition snap_and_advance : R FrameSnap :=
  let! current := tryCurrentFrame in
  match current with
  | None => throw StopIteration
  | Some v =>
      let! s := rio (FrameSnap_from (fv_frame v)) in
      do! advance v in
      ret s
  end.

Definition py_current_frame : R (option FrameSnap) :=
  let! f := tryCurrentFrame in
  match f with
  | None => ret None
  | Some v => let! s := rio (FrameSnap_from (fv_frame v)) in ret (Some s)
  end.

(** [__next__] *)
Definition py_next : R FrameSnap :=
  let! ready := isDataAvailable in
  if negb ready then throw StopIteration else snap_and_advance.

(** The wait of [read]: [polls] checks until the deadline has passed. *)
Fixpoint py_wait (polls : nat) : R unit :=
  match polls with
  | O => ret tt
  | S polls => let! ready := isDataAvailable in if ready then ret tt else py_wait polls
  end.
Definition py_read (timeout_ms : Z) (polls : nat) : R (option FrameSnap) :=
  let! ready := (if timeout_ms =? 0 then isDataAvailable else do! py_wait polls in isDataAvailable) in
  if negb ready then ret None else let! s := snap_and_advance in ret (Some s).

(** [write]: the type is any Python [int] that fits an [int]. *)
Definition py_write (msg_type gen_time : Z) (data : list Z) : W unit := writeBytes gen_time msg_type data.

(** The constructors as Python calls them; the options they do not mention
    keep the defaults of the structs. *)
Definition py_reader_init (prefault background_threads : bool) : reader :=
  JournalReader_ctor (MkReaderOptions prefault background_threads 0).
Definition py_writer_init (location : Location) (dest_id : Z) (prefault background_threads : bool)
    : M world writer :=
  JournalWriter_ctor false location dest_id
    (MkWriterOptions prefault (opt_warmup_pages default_options) background_threads
       (opt_retained_page_limit default_options)).

(** [join] from Python: [from_time] is 0 if it is left out. *)
Definition py_join (fuel : nat) (location : Location) (dest_id : Z) (from_time : option Z) : R unit :=
  join fuel location dest_id (default 0 from_time).

(** [__iter__] is the reader itself. *)
Definition py_iter : R reader := gets snd.
Definition py_current_sequence : W Z := getCurrentSequence.
Definition py_current_page_id : W Z := getCurrentPageId.

(** [for frame in reader: ...], the loop of the interpreter. *)
Fixpoint py_for (fuel : nat) : R (list FrameSnap) :=
  match fuel with
  | O => crash OutOfFuel
  | S fuel => λ s,
      match py_next s with
      | (Ret snap, s) => (let! snaps := py_for fuel in ret (snap :: snaps)) s
      | (Throw StopIteration, s) => (Ret [], s)
      | (Throw e, s) => (Throw e, s)
      | (Fault f, s) => (Fault f, s)
      end
  end.
End python.

(** ** Theorems *)

(** A name that is parsed is the name of what it is parsed to. *)
Lemma parse_mode_name {S} s m (x : S) : parse_mode s x = (Ret m, x) → modeToStr m = s.
Proof.
  unfold parse_mode, str2mode. destruct (decide (s = lit "live")) as [->|Hl].
  { rewrite lookup_insert_eq. by intros [= <-]. }
  rewrite lookup_insert_ne by done. destruct (decide (s = lit "replay")) as [->|Hr].
  { rewrite lookup_insert_eq. by intros [= <-]. }
  by rewrite lookup_insert_ne, lookup_empty.
Qed.

(** The snapshot of an abstract frame. *)
Definition snap_of (f : frame) : FrameSnap :=
  MkSnap (fr_seq f) (fr_type f) (fr_gen f) (fr_event f) (fr_flags f) (fr_payload f).

Section correct.
Context `{Env} `{!NoErrors} `{!EnvLaws} `{ILocator} `{!LocatorLaws} `{PriorityQueue}.

Lemma FrameSnap_from_run w jn c j p k fs f :
  readable w c j → cursor w jn c j p k → aj_pages j !! p = Some fs → fs !! k = Some f →
  FrameSnap_from (jn_frame jn) w = (Ret (snap_of f), w).
Proof.
  intros Hrb Hcu Hp Hk.
  destruct (cursor_in_page _ _ _ _ _ _ _ _ Hrb Hcu Hp Hk) as (b&wr&->&Hm&Hat&Hwf&Hlo&Hhi).
  pose proof (frame_wf_stride _ Hwf) as (Hl&Hs&_). destruct Hat as (Hlen&Hty&Hfl&Hsq&Hg&He&Hpl).
  unfold frame_length, sizeof_FrameHeader in Hl. unfold_offsets. rewrite ?Z.add_0_r in *.
  unfold FrameSnap_from, getDataLength, getFrameLength, getMsgType, getFlags, getSequence, getGenTime,
    getEventTime, dataAsBytes, dataAddress. unfold_offsets.
  mstep. mstep. rewrite Hlen.
  assert (getDataLength_of (frame_length f) = Z.of_nat (length (fr_payload f))) as ->.
  { unfold getDataLength_of, frame_length, sizeof_FrameHeader. rewrite (proj2 (Z.ltb_ge _ _)) by lia. lia. }
  repeat mstep. rewrite Hfl, Hsq, Hg, He, Hty. unfold sizeof_FrameHeader.
  destruct (Z.ltb_spec 0 (Z.of_nat (length (fr_payload f)))).
  - mstep. unfold sizeof_FrameHeader in Hpl. by rewrite Hpl.
  - destruct f as [ty fl sq gn ev [|b0 pl]]; [done|cbn in *; lia].
Qed.

Lemma isDataAvailable_single w r jn v :
  rd_journals r = [jn] → rd_single r = true → view_of (jn_frame jn) w = (Ret v, w) →
  isDataAvailable (w, r) = (Ret (match v with Some _ => true | None => false end), (w, r)).
Proof.
  intros Hj Hs Hv. unfold isDataAvailable.
  rewrite (bind_Ret _ _ _ _ _ (rthis_run _ _)), Hs, Hj. apply rio_run. exact (hasData_view _ _ _ Hv).
Qed.

Lemma py_next_some w r c j p k jn fs f :
  readable w c j → reads w r c j p k jn → aj_pages j !! p = Some fs → fs !! k = Some f →
  ∃ w' r' jn', py_next (w, r) = (Ret (snap_of f), (w', r')) ∧
    reads w' r' c j (next_pos p k f).1 (next_pos p k f).2 jn' ∧ quiet w w' (jheld jn).
Proof.
  intros Hrb Hrd Hp Hk. pose proof Hrd as [Hj Hs Hcu Hpos].
  pose proof (view_of_run _ _ _ _ _ _ _ _ Hrb Hcu Hp Hk) as Hview.
  destruct (advance_single _ _ _ _ _ _ _ _ _ Hrb Hrd Hp Hk) as (w'&r'&jn'&Hadv&Hrd'&Hq&_).
  exists w', r', jn'. split; [|done]. unfold py_next.
  rewrite (bind_Ret _ _ _ _ _ (isDataAvailable_single _ _ _ _ Hj Hs Hview)). cbn [negb].
  unfold snap_and_advance. rewrite (bind_Ret _ _ _ _ _ (tryCurrentFrame_single _ _ _ _ Hj Hs Hview)).
  cbn beta iota. erewrite bind_Ret by (apply rio_run; by eapply FrameSnap_from_run).
  by erewrite bind_Ret by exact Hadv.
Qed.

Lemma py_next_none w r c j p k jn fs :
  readable w c j → reads w r c j p k jn → aj_pages j !! p = Some fs → fs !! k = None →
  py_next (w, r) = (Throw StopIteration, (w, r)) ∧ rest j p k = [].
Proof.
  intros Hrb [Hj Hs Hcu Hpos] Hp Hk.
  destruct (at_end _ _ _ _ _ _ _ Hrb Hcu Hpos Hp Hk) as (->&Hroom&Hrest). split; [|done].
  pose proof (view_of_end _ _ _ _ _ _ Hrb Hcu Hp Hroom) as Hview. unfold py_next.
  by rewrite (bind_Ret _ _ _ _ _ (isDataAvailable_single _ _ _ _ Hj Hs Hview)).
Qed.

Lemma py_for_run fuel w r c j p k jn :
  readable w c j → 64 ≤ page_size_ c → reads w r c j p k jn → (length (rest j p k) < fuel)%nat →
  ∃ w' r' p' k' jn', py_for fuel (w, r) = (Ret (snap_of <$> rest j p k), (w', r')) ∧
    readable w' c j ∧ reads w' r' c j p' k' jn' ∧ rest j p' k' = [].
Proof.
  revert w r p k jn; induction fuel as [|fuel IH]; intros w r p k jn Hrb Hsz Hrd Hfuel; [lia|].
  cbn [py_for]. destruct (cu_page _ _ _ _ _ _ (rs_cursor _ _ _ _ _ _ _ Hrd)) as (?&?&fs&_&_&Hp&_).
  destruct (fs !! k) as [f|] eqn:Hk.
  - destruct (py_next_some _ _ _ _ _ _ _ _ _ Hrb Hrd Hp Hk) as (w1&r1&jn1&Hrun&Hrd1&Hq).
    destruct (rest_step j p k fs f (rb_wf _ _ _ Hrb) Hp Hk) as [Hrest _]. rewrite Hrest in *.
    pose proof (readable_quiet _ _ _ _ _ Hsz Hq Hrb) as Hrb1.
    destruct (IH w1 r1 _ _ jn1 Hrb1 Hsz Hrd1) as (w'&r'&p'&k'&jn'&Hrec&Hres); [simpl in *; lia|].
    exists w', r', p', k', jn'. split; [|done]. rewrite Hrun. by erewrite bind_Ret by exact Hrec.
  - destruct (py_next_none _ _ _ _ _ _ _ _ Hrb Hrd Hp Hk) as [Hrun Hrest].
    exists w, r, p, k, jn. rewrite Hrest, Hrun. done.
Qed.
End correct.

(** C29: a Python [for] loop over a reader of one journal yields a snapshot of
    every frame still to come, in order and complete with its payload, and
    then stops; the snapshots do not depend on the reader, which has moved on
    to the end. *)
Theorem python_for_yields `{Env} `{!NoErrors} `{!EnvLaws} `{ILocator} `{!LocatorLaws} `{PriorityQueue}
    fuel w r c j p k jn :
  readable w c j → 64 ≤ page_size_ c → reads w r c j p k jn → (length (rest j p k) < fuel)%nat →
  ∃ w' r' p' k' jn', py_for fuel (w, r) = (Ret (snap_of <$> rest j p k), (w', r')) ∧
    readable w' c j ∧ reads w' r' c j p' k' jn' ∧ rest j p' k' = [] ∧
    py_next (w', r') = (Throw StopIteration, (w', r')).
Proof.
  intros Hrb Hsz Hrd Hfuel.
  destruct (py_for_run fuel _ _ _ _ _ _ _ Hrb Hsz Hrd Hfuel) as (w'&r'&p'&k'&jn'&Hfor&Hrb'&Hrd'&Hrest).
  exists w', r', p', k', jn'. split_and!; [done..|].
  destruct (cu_page _ _ _ _ _ _ (rs_cursor _ _ _ _ _ _ _ Hrd')) as (?&?&fs&_&_&Hp&_).
  destruct (fs !! k') as [f|] eqn:Hk; [|by eapply py_next_none].
  destruct (rest_step j p' k' fs f (rb_wf _ _ _ Hrb') Hp Hk) as [Hstep _]. by rewrite Hrest in Hstep.
Qed.
