(* ===== verification/Scenarios.v ===== *)
(** * Scenarios: concrete runs

    The whole model evaluated on small inputs: a writer started in an empty
    directory, its first frames, a rotation, a restart and a reader.  The runs
    show that the hypotheses of the general theorems hold where the program
    starts, and record behaviours worth knowing that no general theorem states. *)

From S2P Require Import Prelude Memory Frame Strings Base Mmap Page Warmer Writer WriterState.
From S2P Require Import WriterSpec WriterApi Publish Journal Reader JournalSpec.
From S2P Require Import ReaderSpec Resume EndToEnd Isolation ReaderIsolation Live.
From S2P Require Import Threads Seek Merge Dispatcher Python Warming Typed.
From S2P Require Import Client Examples Processes.

#[local] Existing Instance std_fmt.
#[local] Existing Instance demo_locator.
#[local] Existing Instance env_ok.

(** ** A writer on an empty directory *)

Definition demo_options : JournalWriterOptions := MkWriterOptions false 2 true 10.
Definition demo_cfg : writer_config := ctor_cfg true demo_location 7 demo_options.
Definition demo_journal : ajournal := AJ 1 [] [] 0.
Definition demo_reader : reader := JournalReader_ctor (MkReaderOptions false false 4).

(** Run [m] from state [s] and keep the state if it returns. *)
Definition returned {S A} (m : M S A) (s : option S) : option S :=
  s ← s; match m s with (Ret _, s') => Some s' | _ => None end.

Definition demo_writer : option (world * writer) :=
  match JournalWriter_ctor true demo_location 7 demo_options world0 with
  | (Ret r, w) => Some (w, r)
  | _ => None
  end.

Lemma demo_start :
  ∃ w r, demo_writer = Some (w, r) ∧ rep w r demo_journal ∧ wr_cfg r = demo_cfg ∧
    writing_ r = false ∧ open_frame_header_ r = None.
Proof.
  destruct (ctor_fresh_run world0 true demo_location 7 demo_options)
    as (w&r&Hrun&Hrep&[Hc Hw Ho _]); [by unfold in_u|done|by intros n []|done|].
  exists w, r. unfold demo_writer. rewrite Hrun. split; [reflexivity|]. split; [exact Hrep|]. exact (conj Hc (conj Hw Ho)).
Qed.

(** A first frame of three bytes. *)
Definition demo_frame_journal : ajournal :=
  a_write (page_size_ demo_cfg) 0 5 9 FRAME_NORMAL [1; 2; 3] demo_journal.

Lemma demo_sizes : page_size_ demo_cfg = 2 ^ 21.
Proof. vm_compute. reflexivity. Qed.

Lemma writeBytes_refines_witness :
  ∃ w r w' r', rep w r demo_journal ∧ writeBytes 5 9 [1; 2; 3] (w, r) = (Ret tt, (w', r')) ∧
    rep w' r' demo_frame_journal.
Proof.
  destruct demo_start as (w&r&_&Hrep&Hc&Hw&_).
  destruct (writeBytes_refines w r demo_journal 5 9 [1; 2; 3]) as (w'&r'&Hrun&Hrep'&_);
    rewrite ?Hc, ?demo_sizes in *; try done.
  { repeat constructor; unfold in_u; lia. }
  exists w, r, w', r'. split; [done|]. split; [done|]. exact Hrep'.
Defined.

Lemma openData_closeData_refines_witness :
  ∃ w r w1 r1 pa b off w3 r3, rep w r demo_journal ∧
    openData 3 5 9 FRAME_NORMAL (w, r) = (Ret (Ptr b off), (w1, r1)) ∧
    closeData 3 no_hook (fwrite w1 pa off [1; 2; 3], r1) = (Ret tt, (w3, r3)) ∧
    rep w3 r3 demo_frame_journal.
Proof.
  destruct demo_start as (w&r&_&Hrep&Hc&Hw&_).
  destruct (openData_closeData_refines w r demo_journal 3 5 9 FRAME_NORMAL)
    as (w1&r1&pa&b&off&Hopen&Hmap&Hoff&Hfit&_&Hclose);
    rewrite ?Hc, ?demo_sizes in *; try done.
  destruct (Hclose (fwrite w1 pa off [1; 2; 3]) [1; 2; 3]) as (w3&r3&Hrun&Hrep3&_).
  - apply touches_fwrite.
  - apply agree_fwrite. right. simpl. lia.
  - apply agree_fwrite. right. simpl. lia.
  - apply fbytes_fwrite_eq; [|done]. eapply mapped_file; [|done]. lia.
  - repeat constructor; unfold in_u; lia.
  - exists w, r, w1, r1, pa, b, off, w3, r3. split; [done|]. split; [done|]. split; [done|]. exact Hrep3.
Defined.



Lemma closeData_without_frame_witness :
  ∃ w r, open_frame_header_ r = None ∧ serialize (wr_cfg r) = true ∧
    closeData 3 no_hook (w, set_writing true r) = (Throw RuntimeError, (w, set_writing false r)).
Proof.
  destruct demo_start as (w&r&_&_&Hc&_&Ho). exists w, r. split; [done|].
  assert (serialize (wr_cfg r) = true) as Hs by by rewrite Hc.
  split; [done|]. rewrite (closeData_without_frame w (set_writing true r) 3 no_hook Ho).
  simpl. by rewrite Hs.
Defined.





(** ** The page is nearly full and the next one cannot be created *)

Definition demo_full : option (world * writer) :=
  returned (closeData (2 ^ 21 - 400) no_hook)
    (returned (openData (2 ^ 21 - 400) 5 9 FRAME_NORMAL) demo_writer).

(** The fourth system call, the [open] of page 2, fails with [ENOMEM]. *)
Definition env_enomem : Env := env_with (λ n, if decide (n = 3)%nat then Some 12 else None).

Definition throws {A} (m : W A) (s : option (world * writer)) : bool :=
  match s with
  | Some (w, r) =>
      negb (writing_ r) && serialize (wr_cfg r) && match m (w, r) with (Throw _, _) => true | _ => false end
  | None => false
  end.

Lemma throws_spec {A} (m : W A) s :
  throws m s = true →
  ∃ w r e w' r', s = Some (w, r) ∧ writing_ r = false ∧ serialize (wr_cfg r) = true ∧
    m (w, r) = (Throw e, (w', r')).
Proof.
  destruct s as [[w r]|]; [|discriminate]. cbn [throws].
  destruct (writing_ r) eqn:Hw; [discriminate|].
  destruct (serialize (wr_cfg r)) eqn:Hs; [|discriminate].
  destruct (m (w, r)) as [[a|e|f] [w' r']] eqn:Hrun; [discriminate| |discriminate].
  intros _. exists w, r, e, w', r'. split; [reflexivity|]. split; [exact Hw|]. split; [exact Hs|exact Hrun].
Qed.

Lemma writeBytes_throw_unlocks_witness :
  ∃ w r e w' r', demo_full = Some (w, r) ∧
    @writeBytes env_enomem _ _ 6 9 (replicate 300 1) (w, r) = (Throw e, (w', r')) ∧ writing_ r' = false.
Proof.
  destruct (throws_spec (@writeBytes env_enomem _ _ 6 9 (replicate 300 1)) demo_full)
    as (w&r&e&w'&r'&Hs&Hw&_&Hrun); [vm_compute; reflexivity|].
  exists w, r, e, w', r'. split; [exact Hs|]. split; [exact Hrun|].
  exact (@writeBytes_throw_unlocks env_enomem _ _ w r 6 9 (replicate 300 1) e w' r' Hw Hrun).
Defined.

Lemma openData_throw_keeps_lock_witness :
  ∃ w r e w' r', demo_full = Some (w, r) ∧
    @openData env_enomem _ _ 300 6 9 FRAME_NORMAL (w, r) = (Throw e, (w', r')) ∧ writing_ r' = true ∧
    @writeBytes env_enomem _ _ 7 9 [1] (w', r') = (Fault Spin, (w', r')).
Proof.
  destruct (throws_spec (@openData env_enomem _ _ 300 6 9 FRAME_NORMAL) demo_full)
    as (w&r&e&w'&r'&Hs&Hw&Hser&Hrun); [vm_compute; reflexivity|].
  destruct (@openData_throw_keeps_lock env_enomem _ _ w r 300 6 9 FRAME_NORMAL e w' r' Hser Hw Hrun)
    as [Hl Hspin].
  exists w, r, e, w', r'. split; [exact Hs|]. split; [exact Hrun|]. split; [exact Hl|apply Hspin].
Defined.

(** ** Restarts and readers *)

Lemma ctor_fresh_witness :
  ∃ w r, JournalWriter_ctor true demo_location 7 demo_options world0 = (Ret r, w) ∧
    rep w r demo_journal.
Proof.
  destruct (ctor_fresh world0 true demo_location 7 demo_options)
    as (w&r&Hrun&Hrep&_); [by unfold in_u|done|by intros n []|done|].
  exists w, r. split; [exact Hrun|exact Hrep].
Defined.

Definition demo_messages : list message := [Message 5 9 [1; 2; 3]; Message 6 9 []; Message 6 10 [255]].

Lemma demo_messages_ok size : 2 ^ 21 ≤ size → Forall (message_ok size) demo_messages.
Proof.
  intros. repeat constructor; simpl; try lia; try discriminate; try (unfold in_u; lia).
Qed.

Lemma write_then_read_witness :
  ∃ w1 r1 w2 r2 w3 d3 w4 d4 fs,
    JournalWriter_ctor true demo_location 7 demo_options world0 = (Ret r1, w1) ∧
    write_all demo_messages (w1, r1) = (Ret tt, (w2, r2)) ∧
    join 100 demo_location 7 0 (w2, demo_reader) = (Ret tt, (w3, d3)) ∧
    drain 100 (w3, d3) = (Ret fs, (w4, d4)) ∧
    content <$> filter (λ f, is_PageEnd f = false) fs = demo_messages.
Proof.
  destruct (write_then_read world0 true demo_location 7 demo_options (MkReaderOptions false false 4)
    demo_messages 100) as (w1&r1&w2&r2&w3&d3&w4&d4&fs&H1&H2&H3&H4&H5&_).
  - by unfold in_u.
  - done.
  - by intros n [].
  - done.
  - intros n. cbn [env_clock env_ok env_with]. lia.
  - apply demo_messages_ok. vm_compute. discriminate.
  - simpl. lia.
  - simpl. lia.
  - exists w1, r1, w2, r2, w3, d3, w4, d4, fs. split_and!; assumption.
Defined.

Definition demo_two : option (world * writer) :=
  returned (writeBytes 6 9 [4]) (returned (writeBytes 5 9 [1; 2; 3]) demo_writer).
Definition demo_two_journal : ajournal :=
  a_write (page_size_ demo_cfg) 0 6 9 FRAME_NORMAL [4] demo_frame_journal.

Lemma demo_two_run :
  ∃ w r, demo_two = Some (w, r) ∧ rep w r demo_two_journal ∧ wr_cfg r = demo_cfg.
Proof.
  destruct demo_start as (w&r&Hd&Hrep&Hc&Hw&_). unfold demo_two. rewrite Hd. clear Hd.
  destruct (writeBytes_run w r demo_journal 5 9 [1; 2; 3]) as (w1&r1&Hrun1&Hrep1&Hc1&Hw1&_);
    rewrite ?Hc, ?demo_sizes in *; try done; [repeat constructor; unfold in_u; lia|].
  destruct (writeBytes_run w1 r1 demo_frame_journal 6 9 [4]) as (w2&r2&Hrun2&Hrep2&Hc2&_);
    rewrite ?Hc1, ?demo_sizes in *; try done; [repeat constructor; unfold in_u; lia|].
  exists w2, r2. unfold returned, mbind, option_bind. rewrite Hrun1, Hrun2.
  split; [reflexivity|]. split; [exact Hrep2|exact Hc2].
Qed.

(** The only page file after those writes. *)
Lemma demo_two_files w r id :
  demo_two = Some (w, r) → 0 ≤ id < 2 ^ 31 →
  is_Some (w_files w !! page_path demo_location 7 id) → id = 1.
Proof.
  intros Hd Hid [f Hf].
  assert ((λ s : world * writer, bool_decide
    (Forall (λ e, e.1 = page_path demo_location 7 1) (map_to_list (w_files s.1)))) <$> demo_two = Some true) as Hall
    by (vm_compute; reflexivity).
  rewrite Hd in Hall. clear Hd. simpl in Hall. injection Hall as Hall%bool_decide_eq_true_1.
  rewrite Forall_forall in Hall. specialize (Hall (_, f) (proj2 (elem_of_map_to_list _ _ _) Hf)).
  apply (f_equal snd) in Hall. simpl in Hall. apply page_name_eq in Hall as [_ ?];
    [done|unfold in_u; lia..|lia|lia].
Qed.

Lemma read_back_witness :
  ∃ w c w1 r1 w2 r2, readable w c demo_two_journal ∧
    join 10 demo_location 7 0 (w, demo_reader) = (Ret tt, (w1, r1)) ∧
    drain 10 (w1, r1) = (Ret (aj_frames demo_two_journal), (w2, r2)).
Proof.
  destruct demo_two_run as (w&r&_&Hrep&Hc).
  assert (readable w demo_cfg demo_two_journal) as Hr.
  { rewrite <-Hc. apply rep_readable; [done|]. by split; [|repeat constructor]. }
  destruct (read_back w demo_cfg demo_two_journal (MkReaderOptions false false 4) 10)
    as (w1&r1&w2&r2&Hjoin&Hdrain&_); [exact Hr|by unfold in_u| |simpl; lia|].
  { repeat constructor; simpl; lia. }
  exists w, demo_cfg, w1, r1, w2, r2. split; [exact Hr|]. split; [exact Hjoin|exact Hdrain].
Defined.


(** Frames of type 9 are three bytes long, says the application; the second
    one is not. *)
Definition demo_routes : routing (list (list Z)) :=
  Routing {[9 := Route (PayloadType 9 3 false) (λ bytes seen, (Ret tt, seen ++ [bytes]))]} None.
Definition demo_dispatcher : TypedJournalDispatcher (list (list Z)) :=
  on (PayloadType 9 3 false) (WithoutFrame (λ bytes, modify (λ s, (s.1, s.2 ++ [bytes]))))
    TypedJournalDispatcher_ctor.


Lemma ctor_resume_witness :
  ∃ w r w' r', demo_two = Some (w, r) ∧
    JournalWriter_ctor true demo_location 7 demo_options w = (Ret r', w') ∧
    rep w' r' (AJ 1 [aj_cur demo_two_journal] [] 2).
Proof.
  destruct demo_two_run as (w&r&Hd&Hrep&Hc).
  pose proof (rep_disk _ _ _ Hrep) as Hdk. rewrite Hc in Hdk.
  destruct (mb_page _ _ _ (rep_members _ _ _ Hrep)) as (page&_&(_&Hsz&_)&_). rewrite Hc in Hsz.
  destruct (ctor_resume w true demo_location 7 demo_options demo_two_journal 0 1)
    as (w'&r'&Hrun&Hrep'&_).
  - unfold in_u; lia.
  - vm_compute; discriminate.
  - exact Hdk.
  - exact Hsz.
  - split; [change (1 ≤ 1 < 2 ^ 31); lia| |intros id [H1 H2]; change (1 < id) in H1; lia].
    intros id Hid Hf. rewrite (demo_two_files w r id Hd Hid Hf). vm_compute. discriminate.
  - reflexivity.
  - reflexivity.
  - simpl. lia.
  - repeat constructor.
  - split; [|reflexivity]. intros [|[|k]] f Hk; [by injection Hk as <-|by injection Hk as <-|discriminate].
  - exists w, r, w', r'. split; [exact Hd|]. split; [exact Hrun|exact Hrep'].
Defined.

(** ** Readers and a writer interleaved *)

Definition demo_m1 : message := Message 5 9 [1; 2; 3].
Definition demo_m2 : message := Message 6 10 [255].

(** A reader joins while a frame is open and looks at it half built; a second
    one joins at the end. *)
Definition demo_schedule : list action :=
  [AOpen demo_m1; AJoin (MkReaderOptions false false 4); ARead 0; AFill; ARead 0; AClose; ARetire;
   ARead 0; AWarm 1 1; AWrite demo_m2; AReap 0; AWarm 1 2; AClean 1; AJoin (MkReaderOptions false true 4);
   AAhead 1].

Definition demo_live : option system :=
  '(w, r) ← demo_writer; exec_all (started w r) demo_schedule.

(** The messages each reader has been given. *)
Definition given (s : system) : list (list message) :=
  (λ x : reader * list frame, content <$> x.2) <$> sy_readers s.
Definition demo_live_got : option (list (list message)) := s ← demo_live; Some (given s).

Lemma demo_ctor :
  ∃ w r, demo_writer = Some (w, r) ∧ JournalWriter_ctor true demo_location 7 demo_options world0 = (Ret r, w).
Proof.
  destruct demo_start as (w&r&Hd&_). exists w, r. split; [exact Hd|]. unfold demo_writer in Hd.
  destruct (JournalWriter_ctor true demo_location 7 demo_options world0) as [[r0|e|f] w0]; [|discriminate Hd..].
  injection Hd as H1 H2. subst. reflexivity.
Qed.

Lemma demo_live_run :
  ∃ w r s, JournalWriter_ctor true demo_location 7 demo_options world0 = (Ret r, w) ∧
    run (started w r) demo_schedule s ∧ given s = [[demo_m1]; []] ∧
    sy_phase s = Idle.
Proof.
  assert (demo_live_got = Some [[demo_m1]; []]) as Hgot by (vm_compute; reflexivity).
  assert ((s ← demo_live; Some (sy_phase s)) = Some Idle) as Hph by (vm_compute; reflexivity).
  destruct demo_ctor as (w&r&Hd&Hctor).
  exists w, r. unfold demo_live_got, demo_live in Hgot, Hph. rewrite Hd in Hgot, Hph. clear Hd.
  cbn [mbind option_bind] in Hgot, Hph.
  destruct (exec_all (started w r) demo_schedule) as [s|] eqn:Hs; [|discriminate Hgot].
  exists s. cbn [mbind option_bind] in Hgot, Hph. injection Hgot as Hgot. injection Hph as Hph.
  split; [exact Hctor|]. split; [by apply exec_run|]. split; [exact Hgot|exact Hph].
Qed.

Lemma demo_empty : empty_destination world0 demo_location 7.
Proof. split; [by unfold in_u|by intros n []|done]. Qed.
Lemma demo_clock n : 0 ≤ env_clock n.
Proof. cbn [env_clock env_ok env_with]. lia. Qed.

Lemma live_delivery_witness :
  ∃ w r s d got fs w' d',
    run (started w r) demo_schedule s ∧ sy_readers s !! 0%nat = Some (d, got) ∧
    drain 100 (sy_world s, d) = (Ret fs, (w', d')) ∧
    content <$> filter (λ f, is_PageEnd f = false) (got ++ fs) = sy_sent s.
Proof.
  destruct demo_live_run as (w&r&s&Hctor&Hrun&Hgot&_).
  destruct (sy_readers s !! 0%nat) as [[d got]|] eqn:Hi.
  2:{ apply lookup_ge_None in Hi. apply (f_equal length) in Hgot. unfold given in Hgot. rewrite length_fmap in Hgot.
      simpl in Hgot. lia. }
  destruct (live_delivery world0 true demo_location 7 demo_options w r demo_schedule s 0 d got 100)
    as [_ (fs&w'&d'&Hdrain&Hsent&_)];
    [exact demo_empty|done|exact demo_clock|exact Hctor|exact Hrun|done|exact Hi|vm_compute; lia|].
  exists w, r, s, d, got, fs, w', d'. split; [exact Hrun|]. split; [exact Hi|]. split; [exact Hdrain|exact Hsent].
Defined.

Lemma live_progress_witness :
  ∃ w r s s', run (started w r) demo_schedule s ∧ step s (AOpen demo_m2) s'.
Proof.
  destruct demo_live_run as (w&r&s&Hctor&Hrun&_&Hph).
  destruct (live_progress world0 true demo_location 7 demo_options w r demo_schedule s (AOpen demo_m2))
    as [s' Hs']; [exact demo_empty|done|exact demo_clock|exact Hctor|exact Hrun|done| |].
  - split; [exact Hph|].
    assert (wr_cfg (sy_writer s) = demo_cfg) as ->.
    { destruct (run_inv world0 true demo_location 7 demo_options w r demo_schedule s) as [j Hinv];
        [exact demo_empty|done|exact demo_clock|exact Hctor|exact Hrun|done|]. apply Hinv. }
    rewrite demo_sizes. repeat constructor; simpl; try lia; try discriminate; try (unfold in_u; lia).
  - exists w, r, s, s'. split; [exact Hrun|exact Hs'].
Defined.

(** ** Two threads on one writer *)

(** The second thread finds the lock taken, writes when it is free, and has a
    frame open at the end, which makes the first one spin. *)
Definition demo_threads : list taction :=
  [TOther (AJoin (MkReaderOptions false false 4)); TOpen 0 demo_m1; TSpin 1 demo_m2; TFill 0;
   TOther (ARead 0); TClose 0; TWrite 1 demo_m2; TOpen 1 demo_m1; TSpin 0 demo_m2].

Definition demo_tstate : option tstate := '(w, r) ← demo_writer; texec_all (tstarted 2 w r) demo_threads.

Lemma demo_threads_run :
  ∃ w r t p, JournalWriter_ctor true demo_location 7 demo_options world0 = (Ret r, w) ∧
    trun (tstarted 2 w r) demo_threads t ∧ ts_threads t = [(Idle, [demo_m1]); (Opened demo_m1 p, [demo_m2])] ∧
    ts_sent t = [demo_m1; demo_m2] ∧ length (ts_readers t) = 1%nat.
Proof.
  assert (∃ p, (λ t, (ts_threads t, ts_sent t, length (ts_readers t))) <$> demo_tstate =
    Some ([(Idle, [demo_m1]); (Opened demo_m1 p, [demo_m2])], [demo_m1; demo_m2], 1%nat)) as [p Hgot].
  { eexists. vm_compute. reflexivity. }
  unfold demo_tstate in Hgot. destruct (demo_ctor) as (w&r&Hd&Hctor). exists w, r. rewrite Hd in Hgot. clear Hd.
  cbn [mbind option_bind] in Hgot.
  destruct (texec_all (tstarted 2 w r) demo_threads) as [t|] eqn:Ht; [|discriminate Hgot].
  cbn [fmap option_fmap option_map] in Hgot. injection Hgot as H1 H2 H3.
  exists t, p. split; [exact Hctor|]. split; [apply texec_run; exact Ht|]. split; [exact H1|]. split; [exact H2|exact H3].
Qed.

Lemma threads_delivery_witness :
  ∃ w r t d got fs w' d', trun (tstarted 2 w r) demo_threads t ∧ exclusive (ts_threads t) ∧
    interleaves [[demo_m1]; [demo_m2]] (ts_sent t) ∧ writing_ (ts_writer t) = true ∧
    ts_readers t !! 0%nat = Some (d, got) ∧ drain 100 (ts_world t, d) = (Ret fs, (w', d')) ∧
    content <$> filter (λ f, is_PageEnd f = false) (got ++ fs) = [demo_m1; demo_m2].
Proof.
  destruct demo_threads_run as (w&r&t&p&Hctor&Hrun&Hths&Hsent&Hrds).
  destruct (threads_delivery world0 demo_location 7 demo_options w r 2 demo_threads t)
    as (Hex&Hlock&Hint&Hread); [exact demo_empty|done|exact demo_clock|exact Hctor|exact Hrun|done|].
  destruct (lookup_lt_is_Some_2 (ts_readers t) 0) as [[d got] Hi]; [lia|].
  destruct (Hread 0%nat d got 100%nat Hi) as (fs&w'&d'&Hdrain&Hgot&_); [vm_compute; lia|].
  rewrite Hths in Hint. rewrite Hsent in Hgot. exists w, r, t, d, got, fs, w', d'.
  split; [exact Hrun|]. split; [exact Hex|]. split; [exact Hint|]. split.
  { apply Hlock. exists 1%nat, (Opened demo_m1 p), [demo_m2]. rewrite Hths. split; [reflexivity|discriminate]. }
  split; [exact Hi|]. split; [exact Hdrain|exact Hgot].
Defined.

Lemma threads_progress_witness :
  ∃ w r t, trun (tstarted 2 w r) demo_threads t ∧
    ((∃ t1 t2, tstep t (TWrite 0 demo_m2) t1 ∧ tstep t (TOpen 0 demo_m2) t2) ∨
     (tstep t (TSpin 0 demo_m2) t ∧ ∃ k t', k ≠ 0%nat ∧ (tstep t (TFill k) t' ∨ tstep t (TClose k) t'))).
Proof.
  destruct demo_threads_run as (w&r&t&p&Hctor&Hrun&Hths&_).
  exists w, r, t. split; [exact Hrun|].
  refine (threads_progress world0 demo_location 7 demo_options w r 2 demo_threads t 0 [demo_m1] demo_m2
    demo_empty _ demo_clock Hctor Hrun _ _ _).
  - done.
  - done.
  - rewrite Hths. reflexivity.
  - destruct (trun_inv world0 demo_location 7 demo_options w r 2 demo_threads t) as [j Ht];
      [exact demo_empty|done|exact demo_clock|exact Hctor|exact Hrun|done|].
    assert (wr_cfg (ts_writer t) = demo_cfg) as -> by exact (iv_cfg _ _ _ _ (ti_system _ _ _ _ Ht)).
    rewrite demo_sizes.
    repeat constructor; simpl; try lia; try discriminate; try (unfold in_u; lia).
Defined.


(** ** What a restart does to readers *)

(** The files after [m] and a restart of the writer that then writes [data]. *)
Definition after_restart (s : option (world * writer)) (data : list Z) : option (world * writer) :=
  '(w, r) ← returned JournalWriter_release s;
  match JournalWriter_ctor true demo_location 7 demo_options w with
  | (Ret r', w') => returned (writeBytes 7 9 data) (Some (w', r'))
  | _ => None
  end.

(** What a reader that joins at time 0 gets from these files. *)
Definition delivered (s : option (world * writer)) : option (list (Z * list Z)) :=
  '(w, _) ← s;
  match join 100 demo_location 7 0 (w, demo_reader) with
  | (Ret _, s') =>
      match drain 100 s' with
      | (Ret fs, _) => Some ((λ f, (fr_seq f, fr_payload f)) <$> fs)
      | _ => None
      end
  | _ => None
  end.



(** ** What a reader cannot survive *)


(** A reader that joins before a writer has made the first page creates
    that page's file, empty, maps it and dies of [SIGBUS] when it looks at the
    header; joined after the writer's construction the same reader waits for
    frames. *)
Lemma join_before_writer :
  (join 100 demo_location 7 0 (world0, demo_reader)).1 = Fault Sigbus ∧
  delivered demo_writer = Some [].
Proof. vm_compute. split; reflexivity. Qed.

Lemma python_for_yields_witness :
  ∃ w r w' r', (∃ jn, reads w r demo_cfg demo_two_journal 0 0 jn) ∧
    py_for 10 (w, r) = (Ret [MkSnap 0 9 5 0 0 [1; 2; 3]; MkSnap 1 9 6 0 0 [4]], (w', r')).
Proof.
  destruct demo_two_run as (w&r&_&Hrep&Hc).
  assert (readable w demo_cfg demo_two_journal) as Hr.
  { rewrite <-Hc. apply rep_readable; [done|]. by split; [|repeat constructor]. }
  destruct (join_start w demo_cfg demo_two_journal (MkReaderOptions false false 4) 10)
    as (w1&d&jn&_&Hr1&Hrd&_); [exact Hr|by unfold in_u|rewrite demo_sizes; lia| |lia|].
  { repeat constructor; simpl; lia. }
  destruct (python_for_yields 10 w1 d demo_cfg demo_two_journal 0 0 jn) as (w'&r'&_&_&_&Hrun&_).
  - exact Hr1.
  - rewrite demo_sizes. lia.
  - exact Hrd.
  - rewrite rest_start. vm_compute. lia.
  - exists w1, d, w', r'. split; [by exists jn|]. rewrite Hrun, rest_start. reflexivity.
Defined.

(** ** Two journals merged *)

(** Beside [demo_two] a second destination, with earlier and later frames. *)
Definition demo_both : option world :=
  '(w, _) ← demo_two;
  match JournalWriter_ctor true demo_location 8 demo_options w with
  | (Ret r, w) => fst <$> returned (writeBytes 7 11 [8; 8]) (returned (writeBytes 4 11 []) (Some (w, r)))
  | _ => None
  end.
Definition both_world : world := default world0 demo_both.

Definition cfg_at (dest_id : Z) : writer_config := ctor_cfg true demo_location dest_id demo_options.
Definition frames7 : list frame := [Frame 9 FRAME_NORMAL 0 5 0 [1; 2; 3]; Frame 9 FRAME_NORMAL 1 6 0 [4]].
Definition frames8 : list frame := [Frame 11 FRAME_NORMAL 0 4 0 []; Frame 11 FRAME_NORMAL 1 7 0 [8; 8]].
Definition demo_journals : list (writer_config * ajournal) :=
  [(cfg_at 7, AJ 1 [] frames7 2); (cfg_at 8, AJ 1 [] frames8 2)].

Lemma both_names : only_pages both_world (layoutDir demo_location JOURNAL).
Proof.
  intros n [f Hf].
  assert (bool_decide (Forall (λ e : path * file,
    e.1 = page_path demo_location 7 1 ∨ e.1 = page_path demo_location 8 1)
    (map_to_list (w_files both_world))) = true) as Hall%bool_decide_eq_true_1 by (vm_compute; reflexivity).
  rewrite Forall_forall in Hall. destruct (Hall (_, f) (proj2 (elem_of_map_to_list _ _ _) Hf)) as [Hn|Hn];
    apply (f_equal snd) in Hn; cbn [fst snd] in Hn.
  - exists 7, 1. unfold in_u. split; [lia|]. split; [lia|exact Hn].
  - exists 8, 1. unfold in_u. split; [lia|]. split; [lia|exact Hn].
Qed.

(** What there is to compute of a page, the bytes it shows. *)
Lemma page_readable w d fs :
  only_pages w (layoutDir demo_location JOURNAL) →
  page_shown w (page_file (cfg_at d) 1) (page_size_ (cfg_at d)) fs →
  page_size_ (cfg_at d) ≤ file_size w (page_file (cfg_at d) 1) →
  w_files w !! page_file (cfg_at d) 0 = None →
  page_end fs ≤ page_size_ (cfg_at d) - FRAME_ALIGNMENT → Forall (λ f, is_PageEnd f = false) fs →
  readable w (cfg_at d) (AJ 1 [] fs 2).
Proof.
  intros Hn Hps Hsz Hlow Hb Hwf.
  split; [unfold aj_page; simpl; lia| |exact Hb|exact Hn| |split; [discriminate|exact Hwf]|reflexivity].
  - intros p gs Hp. apply list_lookup_singleton_Some in Hp as [-> <-]. split; [exact Hps|exact Hsz].
  - intros id Hid. simpl in Hid. replace id with 0 by lia. exact Hlow.
Qed.

Ltac computed := vm_compute; first [reflexivity|discriminate|split; [discriminate|reflexivity]].

Ltac frame_is_wf :=
  unfold frame_wf, in_u, in_s, frame_length, FRAME_NORMAL, sizeof_FrameHeader; cbn; split_and!; first [lia|repeat (apply Forall_cons_2; [lia|]); apply Forall_nil_2].

Lemma frames7_wf : Forall frame_wf frames7.
Proof. repeat (apply Forall_cons_2; [frame_is_wf|]); apply Forall_nil_2. Qed.
Lemma frames8_wf : Forall frame_wf frames8.
Proof. repeat (apply Forall_cons_2; [frame_is_wf|]); apply Forall_nil_2. Qed.

Ltac frames_computed := repeat (split; [unfold frame_at; split_and!; computed|]).

(** A page of two frames. *)
Ltac page_computed wf :=
  apply page_readable;
    [exact both_names|split; [split; computed| |intros _; computed|computed]|computed..|repeat constructor];
  let Hf := fresh in let Hg := fresh in
  pose proof wf as [Hf [Hg _]%Forall_cons_1]%Forall_cons_1;
  (split; [unfold frame_at; split_and!; computed|split; [exact Hf|]]);
  (split; [unfold frame_at; split_and!; computed|split; [exact Hg|computed]]).

Lemma both_joinable : Forall (joinable both_world) demo_journals.
Proof.
  apply Forall_cons; split; [|apply Forall_singleton]; (split; [cbn [fst snd]| |]).
  - page_computed frames7_wf.
  - unfold in_u. cbn. lia.
  - repeat (apply Forall_cons_2; [cbn; lia|]). apply Forall_nil_2.
  - page_computed frames8_wf.
  - unfold in_u. cbn. lia.
  - repeat (apply Forall_cons_2; [cbn; lia|]). apply Forall_nil_2.
Qed.

Lemma merge_read_back_witness :
  ∃ w1 r1 w2 r2 fs,
    join_all 10 [(demo_location, 7); (demo_location, 8)] (both_world, demo_reader) = (Ret tt, (w1, r1)) ∧
    drain 10 (w1, r1) = (Ret fs, (w2, r2)) ∧ fs ≡ₚ frames7 ++ frames8 ∧ StronglySorted by_time fs.
Proof.
  destruct (merge_read_back both_world (MkReaderOptions false false 4) demo_journals 10)
    as (w1&r1&w2&r2&fs&Hjoin&Hdrain&_&Hperm&Hsorted).
  - exact both_joinable.
  - apply (bool_decide_eq_true_1 (NoDup _)). vm_compute. reflexivity.
  - cbn. lia.
  - cbn. lia.
  - exists w1, r1, w2, r2, fs. split; [exact Hjoin|]. split; [exact Hdrain|]. split; [exact Hperm|].
    apply Hsorted. repeat (apply Forall_cons_2; [|]); [..|apply Forall_nil_2];
      repeat (apply SSorted_cons; [|repeat (apply Forall_cons_2; [unfold by_time; cbn; lia|]); apply Forall_nil_2]);
      apply SSorted_nil.
Defined.

(** ** The heap and new frames *)

(** A writer of [messages] at destination [dest_id]. *)
Definition writer_at (dest_id : Z) (messages : list message) (w : option world) : option (world * writer) :=
  w ← w;
  match JournalWriter_ctor true demo_location dest_id demo_options w with
  | (Ret r, w) => returned (write_all messages) (Some (w, r))
  | _ => None
  end.

(** The times a reader of four destinations delivers: the first has frames of
    time 5 and 100, and right after the reader has taken the first frame, a
    frame of time 6 is written to the second. *)
Definition times_read (use_heap : bool) : option (list Z) :=
  let quiet_world := fst <$> writer_at 10 [] (fst <$> writer_at 9 [] (Some world0)) in
  let busy := fst <$> writer_at 7 [Message 5 9 []; Message 100 9 []] quiet_world in
  '(w, late) ← writer_at 8 [] busy;
  match (do! setUseHeap use_heap in
         do! join_all 10 [(demo_location, 7); (demo_location, 8); (demo_location, 9); (demo_location, 10)] in
         nextStatic read_frame) (w, demo_reader) with
  | (Ret (Some f), (w, r)) =>
      '(w, _) ← returned (writeBytes 6 9 []) (Some (w, late));
      match drain 10 (w, r) with
      | (Ret fs, _) => Some (fr_gen <$> f :: fs)
      | _ => None
      end
  | _ => None
  end.


(** ** The warmer in the middle of its work *)

Definition warm_options : JournalWriterOptions := MkWriterOptions false 1 true 10.
Definition demo_warm : option (world * writer) :=
  match JournalWriter_ctor true demo_location 7 warm_options world0 with
  | (Ret r, w) => Some (w, r)
  | _ => None
  end.

(** The writer fills page 1 and goes on to page 2. *)
Definition fill_and_go_on : W unit :=
  do! (let! _ := openData (2 ^ 21 - 400) 5 9 FRAME_NORMAL in closeData (2 ^ 21 - 400) no_hook) in
  writeBytes 6 9 (replicate 300 1).

(** The warmer thread, interrupted by the writer after it has looked for the
    file of page 2 and before it maps and initialises it. *)
Definition warm_interrupted : W unit :=
  let! g := on_warmer (warm_claim 1 1) in
  match g with
  | None => throw RuntimeError
  | Some g =>
      let! look := on_warmer (let! m := gets snd in lift_fst (warm_look m (wg_page g))) in
      do! fill_and_go_on in
      on_warmer (let! m := gets snd in
        let! a := lift_fst (warm_map m look) in
        warm_publish g (MkSlot (wg_page g) (Some a) (wm_page_size m) (wg_seq g) true))
  end.

(** The times of the frames a reader gets, without their payloads. *)
Fixpoint drain_times (fuel : nat) : R (list Z) :=
  match fuel with
  | O => crash OutOfFuel
  | S fuel =>
      let! t := nextStatic (λ v, getGenTime (fv_frame v)) in
      match t with
      | None => ret []
      | Some t => let! ts := drain_times fuel in ret (t :: ts)
      end
  end.
Definition times (s : option (world * writer)) : option (list Z) :=
  '(w, _) ← s;
  match join 100 demo_location 7 0 (w, demo_reader) with
  | (Ret _, s') => match drain_times 100 s' with (Ret ts, _) => Some ts | _ => None end
  | _ => None
  end.


(** The page file as a process leaves it that dies between mapping the page
    and writing its header: complete, and blank. *)
Definition blank_page (page_id : Z) : W unit :=
  let! m := on_warmer (gets snd) in
  let! pa := lift_fst (getPagePath (wm_location m) (wm_dest_id m) page_id) in
  let! _ := lift_fst (loadMmapBuffer pa (wm_page_size m) true true) in
  ret tt.

(** A writer that comes to a blank page by itself initialises it; if the
    warmer has mapped it, the page is taken as it is (the file existed) and
    the call that rotates throws. *)
Example blank_page_ahead :
  times (returned (do! blank_page 2 in fill_and_go_on) demo_warm) = Some [5; 1700000000000000000; 6] ∧
  (s ← demo_warm; Some (fst ((do! blank_page 2 in do! on_warmer warm_pass in fill_and_go_on) s)))
    = Some (Throw (JournalVersionMismatch 0)).
Proof. vm_compute. split; reflexivity. Qed.

(** ** Reading ahead *)

(** A reader with background threads on a journal of two pages: its warmer
    thread has mapped page 2 when it comes to it, and the page it reads there
    is that mapping. *)
Definition warmed_ahead (s : world * reader) : option (Z * option ptr) :=
  (λ jn, (jn_warmer_ready_id jn, jn_warmer_addr jn)) <$> head (rd_journals s.2).
Definition read_ahead : option (option (Z * option ptr) * list Z * option (Z * option ptr) * option ptr) :=
  '(w, _) ← returned fill_and_go_on demo_warm;
  s1 ← returned (do! join 100 demo_location 7 0 in on_journal 0 warmer_turn)
    (Some (w, JournalReader_ctor (MkReaderOptions false true 4)));
  match drain_times 100 s1 with
  | (Ret ts, s2) =>
      Some (warmed_ahead s1, ts, warmed_ahead s2,
            (λ p, pg_header p) <$> (jn ← head (rd_journals s2.2); jn_page jn))
  | _ => None
  end.

Example read_ahead_run :
  ∃ a, read_ahead = Some (Some (2, Some a), [5; 1700000000000000000; 6], Some (-1, None), Some a).
Proof. eexists. vm_compute. reflexivity. Qed.

(** ** The example programs *)

Definition demo_padding (ts : Z) : list Z := [0; 255; 7; 1].

Lemma demo_padding_ok : four_bytes demo_padding.
Proof. intros ts. split; [reflexivity|]. repeat constructor; unfold in_u; lia. Qed.

Lemma world0_empty location : empty_destination world0 location 0.
Proof. split; [by unfold in_u|by intros n []|done]. Qed.

Lemma examples_succeed_witness :
  ∃ w1 w2 w3,
    basic_write_read.main demo_padding 2001 world0 = (Ret (0, [3]), w1) ∧
    static_dispatch.main demo_padding 2001 world0 = (Ret (0, [1000; 1438]), w2) ∧
    typed_dispatch.main demo_padding 2001 world0 = (Ret (0, [2; 1; 1]), w3).
Proof.
  destruct (examples_succeed demo_padding 2001 world0 world0 world0) as ((w1&H1)&(w2&H2)&(w3&H3));
    [exact demo_clock|exact demo_padding_ok|lia|apply world0_empty..|].
  exists w1, w2, w3. split; [exact H1|]. split; [exact H2|exact H3].
Defined.

(** Two messages; the child joins, signals, looks too early, and then looks
    between the stages of the parent's second [publish]. *)
Definition demo_arguments : list str := [lit "--messages"; lit "2"].
Definition demo_acts : list multiprocess.action :=
  let poll := multiprocess.Child false in
  [poll; poll; multiprocess.Parent; poll; multiprocess.Parent; poll; multiprocess.Parent; multiprocess.Parent;
   poll; multiprocess.Parent; poll; multiprocess.Parent; poll; poll; multiprocess.Parent].

Definition demo_processes : option (Z * multiprocess.state * option multiprocess.state) :=
  match multiprocess.launch demo_arguments world0 with
  | (Ret (inr (messages, s)), _) =>
      Some (messages, s, multiprocess.steps demo_padding messages multiprocess.location demo_acts s)
  | _ => None
  end.

(** What is visible of the two processes. *)
Definition demo_view (s : multiprocess.state) : Z * option Z :=
  (multiprocess.published 2 (multiprocess.mp_parent s),
   match multiprocess.mp_child s with multiprocess.CPoll _ count _ => Some count | _ => None end).

Lemma demo_processes_run :
  ∃ s0 w0 s, multiprocess.launch demo_arguments world0 = (Ret (inr (2, s0)), w0) ∧
    multiprocess.steps demo_padding 2 multiprocess.location demo_acts s0 = Some s ∧
    demo_view s = (2, Some 1).
Proof.
  assert (match demo_processes with Some (n, _, Some s) => Some (n, demo_view s) | _ => None end
    = Some (2, (2, Some 1))) as Hv by (vm_compute; reflexivity).
  unfold demo_processes in Hv.
  destruct (multiprocess.launch demo_arguments world0) as [[[|[n s0]]|e|f] w0]; try discriminate Hv.
  destruct (multiprocess.steps demo_padding n multiprocess.location demo_acts s0) as [s|] eqn:Hs;
    [|discriminate Hv].
  injection Hv as Hn H1 H2. subst n. exists s0, w0, s.
  split; [reflexivity|]. split; [exact Hs|]. unfold demo_view. rewrite H1, H2. reflexivity.
Qed.

Lemma multiprocess_safe_witness :
  ∃ s0 w0 s d prev, multiprocess.launch demo_arguments world0 = (Ret (inr (2, s0)), w0) ∧
    multiprocess.steps demo_padding 2 multiprocess.location demo_acts s0 = Some s ∧
    multiprocess.mp_child s = multiprocess.CPoll d 1 prev ∧
    0 <= 1 <= multiprocess.published 2 (multiprocess.mp_parent s).
Proof.
  destruct demo_processes_run as (s0&w0&s&Hl&Hs&Hv).
  destruct (multiprocess_safe demo_padding demo_arguments world0 2 s0 w0 demo_acts s demo_clock demo_padding_ok
    (world0_empty multiprocess.location) ltac:(lia) Hl Hs) as (_&_&Hcount&_).
  unfold demo_view in Hv.
  destruct (multiprocess.mp_child s) as [ |?|d count prev|? ? ? ?|? ? ? ?|?|?] eqn:Hc; try discriminate Hv.
  injection Hv as H1 H2. subst count. exists s0, w0, s, d, prev.
  split; [exact Hl|]. split; [exact Hs|]. split; [exact Hc|]. exact (Hcount d 1 prev eq_refl).
Defined.

Lemma multiprocess_completes_witness :
  ∃ s0 w0 s, multiprocess.launch demo_arguments world0 = (Ret (inr (2, s0)), w0) ∧
    multiprocess.steps demo_padding 2 multiprocess.location demo_acts s0 = Some s ∧
    ∃ more s', (multiprocess.Child true ∉ more) ∧
      multiprocess.steps demo_padding 2 multiprocess.location more s = Some s' ∧
      multiprocess.mp_parent s' = multiprocess.PExit 0 ∧ multiprocess.mp_child s' = multiprocess.CExit 0.
Proof.
  destruct demo_processes_run as (s0&w0&s&Hl&Hs&Hv). exists s0, w0, s.
  split; [exact Hl|]. split; [exact Hs|].
  apply (multiprocess_completes demo_padding demo_arguments world0 2 s0 w0 demo_acts s demo_clock demo_padding_ok
    (world0_empty multiprocess.location) ltac:(lia) Hl Hs).
  intros Hc. unfold demo_view in Hv. rewrite Hc in Hv. discriminate Hv.
Defined.
